(* ===== verification/_CoqProject ===== *)
-Q . S2P
Prelude.v
Outcomes.v
CLib.v
StringUtils.v
Algorithm.v
UrlUtils.v
Floats.v
Dict.v
StdMap.v
Resources.v
Paths.v
Tribool.v
HttpTypes.v
Message.v
ContentBuffers.v
ParserBase.v
ParserHeaders.v
ParserForms.v
ParserBody.v
Parser.v
ParserSafety.v
ParserStream.v
ParserRoundTrip.v
Connection.v
Sockets.v
Reader.v
Writer.v
MessageIO.v
Users.v
Replies.v
Auth.v
Scheduler.v
EventLoops.v
SchedulerShutdown.v
TcpServer.v
HttpServer.v
Serving.v
Spdy.v
Plugins.v
PluginManager.v
PluginServer.v
Dates.v
FileService.v
FileServing.v
FileClient.v
TcpStream.v
Services.v
AdminRights.v
Process.v
Daemon.v
Piond.v
