(* ===== verification/Prelude.v ===== *)
(** * A verification development for the pion HTTP library

    pion is a C++ library for servers that speak HTTP: a parser that is fed pieces of a
    stream, message classes, readers and writers for TCP connections, a server that routes
    requests to handlers, authentication, a thread scheduler, plug-ins that are loaded as
    services, the services themselves, the program that runs them, and a parser for SPDY.  This
    library models these parts as executable definitions, with the names of the source, and
    proves what they promise each other and where they break the promise.

    ** The parts and how they interact

    Bytes arrive on a connection, the reader gives them to the parser until a message is
    complete, and hands the message to the server.  The server follows redirections, asks the
    authentication object, and calls the handler of the longest matching resource; the
    handler answers through a response writer; when the answer is on its way the connection
    goes back to the TCP server, which reads the next request or drops it.  The handlers may be
    services: the program reads a command line or a configuration file, the plugin server
    loads the libraries it names, sets the options of their objects and starts them.

    - [Prelude]: integers at their width ([u64], [u32], ...), the results of fallible code
      ([res], with the faults: undefined behaviour, failed assertions, exceptions), the
      notations, hints and tactics ([inv_res], [case_if_in], [reflect_bools]), and lemmas on
      lists.  [CLib]: what the code uses of the C library.  [StdMap]: [std::map].
    - [StringUtils] and [UrlUtils] (src/string_utils.cpp), [Algorithm] (src/algorithm.cpp, algorithm.hpp),
      [Floats] (its conversions of floating point numbers), [Dict] (hash_map.hpp and the
      dictionaries of message.hpp), [Tribool] (tribool.hpp), [HttpTypes]
      and [Dates] (src/http_types.cpp; [Dates] also has the calendar of the C library).
    - [Message] (http/message.hpp, request.hpp, response.hpp, src/http_message.cpp): a
      message is a record, a byte of its content buffer that was never written is [None].
      [ContentBuffers] has the buffers as the objects that own blocks which they are, and the
      theorem that they behave as these lists.
      [MessageIO]: [message::send] and [message::receive].
    - [ParserBase], [ParserHeaders], [ParserForms], [ParserBody], [Parser]
      (src/http_parser.cpp, http/parser.hpp): one definition per case of the source's
      switches, the loops over the read buffer, and the functions that combine them.
      [ParserSafety], [ParserStream] and [ParserRoundTrip] hold the theorems on [parse].
    - [Connection] (tcp/connection.hpp, src/tcp_timer.cpp), [Sockets] (the choice between TLS
      and the plain socket in tcp/connection.hpp), [Reader] (src/http_reader.cpp),
      [Writer] (src/http_writer.cpp and its subclasses).
    - [Resources] and [HttpServer] (src/http_server.cpp), [Users] (user.hpp), [Replies] (how
      a request is answered), [Auth] (src/http_auth.cpp, http_basic_auth.cpp,
      http_cookie_auth.cpp), [Serving] (the life of a connection).
    - [Scheduler], [EventLoops] and [SchedulerShutdown] (src/scheduler.cpp, scheduler.hpp) and
      [TcpServer] (src/tcp_server.cpp): what happens under a mutex is one step, and the steps
      of threads interleave.  [Scheduler] has its operations one at a time; [EventLoops] the
      threads that run handlers, with [keep_running], and those that call the scheduler;
      [SchedulerShutdown] the end.
    - [Spdy] (src/spdy_parser.cpp, src/spdy_decompressor.cpp), with zlib as a parameter.
    - [Outcomes]: computations with state that throw, wait for ever or crash, and judgments
      about them; the files below are written in this monad.  [Paths]: what the code uses of
      the paths of the file system library.
    - [Plugins] (src/plugin.cpp, plugin.hpp) and [PluginManager] (plugin_manager.hpp): the
      shared data of libraries on an explicit heap, and the table of objects.  [PluginServer]
      (src/http_plugin_server.cpp): the services of a server and the configuration file.
    - [FileService] and [FileServing] (services/FileService.cpp): the cache and the answers;
      the sender, the scan of the directory and the life of the service; [FileClient] composes
      them with the response parser of a client.  [Services]: the
      echo, cookie, log, hello and allow-nothing services.
    - [TcpStream] (tcp/stream.hpp): the stream buffer over a connection.
    - [AdminRights] (src/admin_rights.cpp), [Process] and [Daemon] (src/process.cpp: shutting
      down; the dispositions of signals and the steps of [daemonize]) and
      [Piond] (utils/piond.cpp: the command line and [main]).

    State is passed explicitly.  Members keep the names of the source ([m_...]); when two
    classes use the same name one of them has a prefix.  Interfaces are type classes:
    [HttpServer.Authenticator] with its laws, which both authentication classes implement,
    [Users.UserConfig] for OpenSSL's digests, [Plugins.OS] for the file system and the
    dynamic linker, and [PluginServer.Host] for the services and the files of a process.

    ** What the theorems show

    - The server as a whole: requests that clients send, however the network cuts the stream,
      are answered completely and in their order ([Serving.requests_answered_in_order]); they
      go to the longest matching resource, redirections end, and a handler below a restricted
      resource runs only for users ([HttpServer]).  The two authentication classes let nobody
      in without a password and a session that has not expired ([Auth]); the user manager is a
      table of passwords ([Users]).
    - The parser: it is memory safe on every input and in every state it can reach (with a
      limit of 4 GiB or more for the content there is one exception, which is stated), it
      returns, its outcome does not depend on how the stream is cut, and it gives back every
      message that was written ([ParserSafety], [Parser], [ParserStream], [ParserRoundTrip]);
      chunks, multipart forms, header fields, URIs, cookies, queries ([ParserBody],
      [ParserForms], [ParserHeaders]).
    - Connections: pipelined requests are read one after the other ([Reader]), the writer's
      content caches are one string and chunked sending is inverted by the parser ([Writer]),
      a message that is sent is received ([MessageIO]), cancelled timers do nothing
      ([Connection]), a connection that uses TLS sends nothing in clear ([Sockets]);
      the buffers of contents never share or lose a block ([ContentBuffers]).
    - Threads: every connection in use is in the pool of the server and [stop] finishes
      ([TcpServer]); the services of the scheduler are used in turn ([Scheduler]), no thread of
      a running scheduler stops working ([EventLoops]), and a shutdown ends with all threads
      ([SchedulerShutdown]).
    - Codecs and dictionaries are inverted or respect their equality ([Algorithm], [UrlUtils],
      [Dict]); a date identifies its time ([Dates]);
      a normal number in the formats of IEEE 754 is written and read back, in the range in
      which the powers of two of a [double] are exact ([Floats]).
    - SPDY frames are parsed in any order, errors are reported, and inflating stays in its
      buffer ([Spdy]).
    - Plug-ins: the data of a library lives as long as an object uses it and no freed data is
      used ([Plugins]), every object is ended once ([PluginManager]), requests find the
      services of the manager and a configuration file means what it says ([PluginServer]).
    - Services: a client of the file service reads a content that the file had with its
      present size and time ([FileClient]), and only the methods that say so change files
      ([FileServing]); the log service keeps the latest messages ([Services]).
    - Streams: what is written to one stream is read from the other, however the data is cut,
      when the standard library ends no wait before its operation ([TcpStream]).
    - The process: rights are exclusive and end, names are looked up as the system files say
      ([AdminRights]); nobody sleeps through a shutdown, and a process is stuck exactly when a
      signal finds the mutex taken by its own thread ([Process]); a daemon
      has left its terminal ([Daemon]); a command line is read as
      what it says and the service it names is served ([Piond]).

    Where the code does not do what it means to do, a lemma at the end of the file shows the
    input: for instance a chunk that is longer than the limit swallows the rest of the
    stream, credentials of a removed user are still accepted, a login redirection splits the
    response, the scheduler joins its own thread, a scheduler that is started again spins, a
    handler that posts during a shutdown waits for ever, a stream whose flush failed or whose
    wait ended early sends data twice, a form field of 4 GiB is read beyond its encoding, a
    large [long double] is read as infinite, a user with the number 65536 stays administrator.

    ** Bounds and fuel

    Loops over a string or a buffer recurse on it.  [Parser.parse] has fuel for four passes
    ([parse_fuel]), and [Parser.parse_terminates] proves that three are enough.  The
    multipart parser has fuel for twice the steps its termination measure allows
    ([ParserForms]), [StringUtils.replace_all] takes its fuel as an argument, with a theorem
    that says when an amount is enough and when none is.  The redirection loop recurses on
    the ten redirections of the source.  The scan of a directory recurses on the depth of the
    tree it is given; [TcpStream.xsgetn] has fuel for two turns more than there are
    read operations left, and every turn but the last ends one.  A loop of [Floats] gets fuel
    that the theorem on round trips computes from the exponent.  [AdminRights], [Process] and
    [Piond] recurse on their inputs.  The threads of [EventLoops] and [SchedulerShutdown] are
    step relations without fuel; a cost that every step of a shutdown lowers bounds their
    number.  [Dates] computes without loops.  [char] is signed (x86, gcc), [size_t] has 64 bits.
    Allocation succeeds.

    ** Not modelled

    Code that is not in the repository is a parameter or an input: the sockets, timers and
    event queues of asio, zlib, OpenSSL's digests and its TLS, the file system, the dynamic
    linker, the identity of the process, the clock and the random numbers.  Handlers are the
    application's code and arguments of the model; they do not change the server that calls
    them.  Of the repository's own code the following is left out.  Logging (logger.hpp) is
    macros over other libraries, the exceptions (error.hpp) are classes without logic, and
    [tcp::stream] only passes calls on to its buffer.  Everything for Windows is left out
    with the platform.  Console output has no effect on the state.  helloserver.cpp and the
    tests are programs without logic of their own. *)
From Stdlib Require Export ZArith Lia List Bool Permutation.
From Stdlib Require Export Strings.Byte Strings.String.
From stdpp Require Export base list option numbers sets.
From stdpp Require countable.

#[global] Open Scope Z_scope.

(** ** Bytes, characters and literals *)

(** A C++ [char] is a byte.  [char] is signed on the modelled target (x86), so the
    promotion of a [char] to [int] is [schar]; [uchar] is the value seen through an
    [unsigned char]. *)
Abbreviation char := Byte.byte.
(** [std::string], [std::vector<char>] and the contents of a [const char *] buffer. *)
Abbreviation bytes := (list Byte.byte).

Definition uchar (c : char) : Z := Z.of_N (Byte.to_N c).

Definition schar (c : char) : Z := if uchar c <? 128 then uchar c else uchar c - 256.

(** Conversion of an integer to [char]: the low eight bits. *)
Definition char_of_Z (z : Z) : char :=
  match Byte.of_N (Z.to_N (z mod 256)) with Some b => b | None => x00 end.

(** A string literal of the source. *)
Definition str (s : String.string) : bytes := String.list_byte_of_string s.

Declare Scope char_scope.
Delimit Scope char_scope with char.
Notation "x =c y" := (Byte.eqb x y) (at level 70, no associativity) : char_scope.
Notation "x <>c y" := (negb (Byte.eqb x y)) (at level 70, no associativity) : char_scope.
#[global] Open Scope char_scope.

Definition CR : char := x0d.
Definition LF : char := x0a.
Definition TAB : char := x09.
Definition SP : char := x20.
Definition NUL : char := x00.

#[export] Instance char_eq_dec : EqDecision char := Byte.byte_eq_dec.

Definition bytes_eqb (s t : bytes) : bool := bool_decide (s = t).

(** Every byte, to decide a property of characters by evaluation. *)
Definition all_chars : bytes :=
  (fun n => char_of_Z (Z.of_nat n)) <$> seq 0 256.

(** ** Machine integers *)

Definition u16 (z : Z) : Z := z mod 2 ^ 16.
Definition u32 (z : Z) : Z := z mod 2 ^ 32.
(** [std::size_t], [unsigned long] and [uint64_t]. *)
Definition u64 (z : Z) : Z := z mod 2 ^ 64.
Definition LONG_MAX : Z := 2 ^ 63 - 1.
Definition LONG_MIN : Z := - 2 ^ 63.
Definition ULONG_MAX : Z := 2 ^ 64 - 1.
Definition INT_MAX : Z := 2 ^ 31 - 1.
Definition INT_MIN : Z := - 2 ^ 31.

Arguments u16 : simpl never.
Arguments u32 : simpl never.
Arguments u64 : simpl never.

(** Sizes are [Z], so that comparing with a limit of a megabyte stays cheap. *)
Definition zlen {A} (l : list A) : Z := Z.of_nat (length l).

(** ** Computations that can fault *)

(** An exception that leaves a function, a failed [assert], or an access outside the
    bounds of an object. *)
Inductive fault :=
| std_out_of_range
| std_invalid_argument
| std_length_error
| std_bad_cast
| assertion_failed
| undefined_behaviour.

Inductive res (A : Type) :=
| Ok (a : A)
| Fault (f : fault).
Arguments Ok {A} a.
Arguments Fault {A} f.

#[export] Instance res_ret : MRet res := fun A a => Ok a.
#[export] Instance res_bind : MBind res :=
  fun A B k r => match r with Ok a => k a | Fault f => Fault f end.
#[export] Instance fault_eq_dec : EqDecision fault.
Proof. solve_decision. Defined.
#[export] Instance res_eq_dec `{EqDecision A} : EqDecision (res A).
Proof. solve_decision. Defined.

(** ** Searching in strings *)

(** [std::equal] of [p] with the beginning of [s]. *)
Fixpoint starts (p s : bytes) : bool :=
  match p, s with
  | [], _ => true
  | _ :: _, [] => false
  | a :: p', b :: s' => (a =c b) && starts p' s'
  end.

(** [std::string::find] and [std::search]: the position of the first occurrence of
    [needle]; [None] is [npos] (or the end iterator). *)
Fixpoint find_sub (needle hay : bytes) : option nat :=
  if starts needle hay then Some 0%nat
  else match hay with
       | [] => None
       | _ :: hay' => S <$> find_sub needle hay'
       end.

(** [std::string::find] of a character. *)
Definition find_char (c : char) (s : bytes) : option nat := find_sub [c] s.

(** [s.substr(pos, n)], with [std::out_of_range] when [pos > s.size()]. *)
Definition substr (s : bytes) (pos n : nat) : res bytes :=
  if (length s <? pos)%nat then Fault std_out_of_range else Ok (take n (drop pos s)).

(** ** Tactics *)

(** Case analysis on the condition of the first [if] or [match] of the goal. *)
Ltac case_if :=
  match goal with
  | |- context [if ?b then _ else _] => destruct b eqn:?
  end.

Ltac case_if_in H :=
  match type of H with
  | context [if ?b then _ else _] => destruct b eqn:?
  end.

(** Turn every boolean hypothesis into the proposition it decides. *)
Ltac reflect_bools :=
  repeat match goal with
  | H : _ && _ = true |- _ => apply andb_true_iff in H; destruct H
  | H : _ || _ = false |- _ => apply orb_false_iff in H; destruct H
  | H : negb _ = true |- _ => apply negb_true_iff in H
  | H : negb _ = false |- _ => apply negb_false_iff in H
  | H : Byte.eqb _ _ = true |- _ => apply Byte.byte_dec_bl in H
  | H : (_ <? _)%Z = true |- _ => apply Z.ltb_lt in H
  | H : (_ <? _)%Z = false |- _ => apply Z.ltb_ge in H
  | H : (_ <=? _)%Z = true |- _ => apply Z.leb_le in H
  | H : (_ <=? _)%Z = false |- _ => apply Z.leb_gt in H
  | H : (_ =? _)%Z = true |- _ => apply Z.eqb_eq in H
  | H : (_ =? _)%Z = false |- _ => apply Z.eqb_neq in H
  end.

(** Decide a universally quantified boolean property of a character by running
    through the 256 bytes. *)
Ltac by_all_chars c := destruct c; vm_compute; try reflexivity; try discriminate.

(** Linear arithmetic with division and remainder by constants. *)
Ltac dlia := Z.div_mod_to_equations; lia.

(** Peel the binds off a hypothesis [m = Ok _]. *)
Ltac inv_res H :=
  repeat match type of H with
  | mbind _ ?m = _ => destruct m eqn:?; cbn [mbind res_bind] in H
  | Fault _ = Ok _ => discriminate H
  end.

Create HintDb pion.
Create Rewrite HintDb pion.
Create Rewrite HintDb zlen.

(** ** Lemmas on characters *)

Lemma uchar_range c : 0 <= uchar c < 256.
Proof.
  unfold uchar. pose proof (Byte.to_N_bounded c). lia.
Qed.

Lemma uchar_inj c d : uchar c = uchar d -> c = d.
Proof.
  unfold uchar. intros H%N2Z.inj.
  pose proof (Byte.of_to_N c) as Hc. rewrite H, Byte.of_to_N in Hc. congruence.
Qed.

Lemma uchar_char_of_Z z : uchar (char_of_Z z) = z mod 256.
Proof.
  unfold char_of_Z. pose proof (Z.mod_pos_bound z 256 eq_refl).
  destruct (Byte.of_N _) eqn:E.
  - unfold uchar. apply Byte.to_of_N in E. rewrite E. lia.
  - apply Byte.of_N_None_iff in E. lia.
Qed.

Lemma char_of_Z_uchar c : char_of_Z (uchar c) = c.
Proof.
  apply uchar_inj. rewrite uchar_char_of_Z. apply Z.mod_small, uchar_range.
Qed.

#[export] Instance char_countable : countable.Countable char.
Proof.
  refine (countable.inj_countable' (fun c => Z.to_N (uchar c)) (fun n => char_of_Z (Z.of_N n)) _).
  intros c. rewrite Z2N.id by apply uchar_range. apply char_of_Z_uchar.
Defined.

Lemma char_of_Z_mod z : char_of_Z (z mod 256) = char_of_Z z.
Proof. apply uchar_inj. rewrite !uchar_char_of_Z. apply Z.mod_mod. lia. Qed.

Lemma char_of_Z_schar c : char_of_Z (schar c) = c.
Proof.
  apply uchar_inj. rewrite uchar_char_of_Z. unfold schar.
  pose proof (uchar_range c). case_if.
  - apply Z.mod_small. lia.
  - replace (uchar c - 256) with (uchar c + (-1) * 256) by lia.
    rewrite Z.mod_add by lia. apply Z.mod_small. lia.
Qed.

Lemma ceq_refl c : (c =c c) = true.
Proof. by apply Byte.byte_dec_lb. Qed.

Lemma ceq_spec c d : reflect (c = d) (c =c d).
Proof.
  destruct (c =c d) eqn:E; constructor.
  - by apply Byte.byte_dec_bl.
  - intros ->. by rewrite ceq_refl in E.
Qed.

Lemma ceq_true c d : (c =c d) = true <-> c = d.
Proof. destruct (ceq_spec c d); split; congruence. Qed.

Lemma ceq_false c d : (c =c d) = false <-> c <> d.
Proof. destruct (ceq_spec c d); split; congruence. Qed.

Lemma ceq_ne c d : c <> d -> (c =c d) = false.
Proof. apply ceq_false. Qed.

#[export] Hint Resolve uchar_range ceq_refl : pion.
#[export] Hint Rewrite ceq_refl : pion.

Lemma forall_char (P : char -> bool) :
  forallb P all_chars = true -> forall c, P c = true.
Proof.
  intros H c. rewrite forallb_forall in H. apply H.
  unfold all_chars. apply list_elem_of_In, list_elem_of_fmap.
  exists (Z.to_nat (uchar c)). pose proof (uchar_range c). split.
  - rewrite Z2Nat.id by lia. by rewrite char_of_Z_uchar.
  - apply elem_of_seq. lia.
Qed.

(** Decide an equality of integers that depends on one character, as a single boolean
    computation over the 256 bytes. *)
Ltac by_chars_Z c :=
  apply Z.eqb_eq; clear -c; revert c;
  match goal with |- forall c, @?P c = true => apply (forall_char P) end;
  vm_compute; reflexivity.

Lemma bytes_eqb_spec s t : reflect (s = t) (bytes_eqb s t).
Proof. unfold bytes_eqb. destruct (bool_decide_reflect (s = t)); by constructor. Qed.

Lemma bytes_eqb_refl s : bytes_eqb s s = true.
Proof. by destruct (bytes_eqb_spec s s). Qed.

(** ** Lemmas on sizes and machine integers *)

Lemma zlen_nil {A} : zlen (@nil A) = 0.
Proof. done. Qed.

Lemma zlen_cons {A} (x : A) l : zlen (x :: l) = zlen l + 1.
Proof. unfold zlen. simpl. lia. Qed.

Lemma zlen_app {A} (l k : list A) : zlen (l ++ k) = zlen l + zlen k.
Proof. unfold zlen. rewrite length_app. lia. Qed.

Lemma zlen_nonneg {A} (l : list A) : 0 <= zlen l.
Proof. unfold zlen. lia. Qed.

Lemma zlen_snoc {A} (l : list A) x : zlen (l ++ [x]) = zlen l + 1.
Proof. rewrite zlen_app. done. Qed.

Lemma zlen_zero_iff {A} (l : list A) : zlen l = 0 <-> l = [].
Proof. unfold zlen. destruct l; simpl; split; intros; try done; lia. Qed.

#[export] Hint Rewrite @zlen_nil @zlen_cons @zlen_app : zlen.
#[export] Hint Resolve zlen_nonneg : pion.

Lemma u32_range z : 0 <= u32 z < 2 ^ 32.
Proof. apply Z.mod_pos_bound. lia. Qed.

Lemma u64_range z : 0 <= u64 z < 2 ^ 64.
Proof. apply Z.mod_pos_bound. lia. Qed.

Lemma u32_small z : 0 <= z < 2 ^ 32 -> u32 z = z.
Proof. apply Z.mod_small. Qed.

Lemma u64_small z : 0 <= z < 2 ^ 64 -> u64 z = z.
Proof. apply Z.mod_small. Qed.

Lemma u64_add_l a b : u64 (u64 a + b) = u64 (a + b).
Proof. unfold u64. by rewrite Zplus_mod_idemp_l. Qed.

Lemma u64_add_r a b : u64 (a + u64 b) = u64 (a + b).
Proof. unfold u64. by rewrite Zplus_mod_idemp_r. Qed.

Lemma u16_range z : 0 <= u16 z < 2 ^ 16.
Proof. apply Z.mod_pos_bound. lia. Qed.

#[export] Hint Resolve u64_range u16_range : pion.

Lemma land_shiftl_low a b n : 0 <= n -> 0 <= b < 2 ^ n -> Z.land (Z.shiftl a n) b = 0.
Proof.
  intros Hn Hb. apply Z.bits_inj'. intros i Hi. rewrite Z.land_spec, Z.bits_0.
  destruct (Z.lt_ge_cases i n).
  - by rewrite Z.shiftl_spec_low.
  - rewrite <- (Z.mod_small b (2 ^ n)), Z.mod_pow2_bits_high by lia. apply andb_false_r.
Qed.

(** Joining two bit fields that do not overlap is addition. *)
Lemma lor_shiftl_add a b n :
  0 <= n -> 0 <= b < 2 ^ n -> Z.lor (Z.shiftl a n) b = a * 2 ^ n + b.
Proof.
  intros Hn Hb. pose proof (land_shiftl_low a b n Hn Hb) as H0.
  rewrite <- Z.lxor_lor, <- Z.add_nocarry_lxor by done. by rewrite Z.shiftl_mul_pow2.
Qed.

Lemma lor_shiftl_shiftl a b m n :
  0 <= n <= m -> 0 <= b < 2 ^ (m - n) ->
  Z.lor (Z.shiftl a m) (Z.shiftl b n) = Z.shiftl (a * 2 ^ (m - n) + b) n.
Proof.
  intros Hn Hb. replace m with ((m - n) + n) at 1 by lia.
  rewrite <- Z.shiftl_shiftl, <- Z.shiftl_lor by lia. by rewrite lor_shiftl_add by lia.
Qed.

(** Finitely many cases for an integer below a small bound. *)
Lemma Z_below (n : nat) (P : Z -> bool) :
  forallb P (Z.of_nat <$> seq 0 n) = true -> forall i, 0 <= i < Z.of_nat n -> P i = true.
Proof.
  rewrite forallb_forall. intros H i Hi.
  rewrite <- (Z2Nat.id i) by lia. apply H, list_elem_of_In, list_elem_of_fmap.
  exists (Z.to_nat i). split; [done|]. apply elem_of_seq. lia.
Qed.

Lemma Forall_forallb {A} (p : A -> bool) l :
  forallb p l = true -> Forall (fun x => p x = true) l.
Proof. rewrite forallb_forall, Forall_forall. intros H x Hx%list_elem_of_In. auto. Qed.

(** Induction by groups of three elements. *)
Lemma list_ind3 {A} (P : list A -> Prop) :
  P [] -> (forall a, P [a]) -> (forall a b, P [a; b]) ->
  (forall a b c l, P l -> P (a :: b :: c :: l)) -> forall l, P l.
Proof.
  intros H0 H1 H2 H3 l.
  enough (P l /\ (forall a, P (a :: l)) /\ (forall a b, P (a :: b :: l))) by tauto.
  induction l as [|x l (IH0 & IH1 & IH2)]; [auto|]. repeat split; auto.
Qed.

(** A sum over a list in which one element changes. *)
Lemma sum_list_with_insert {A} (f : A -> nat) (l : list A) : forall i x y, l !! i = Some x ->
  (sum_list_with f (<[i := y]> l) + f x = sum_list_with f l + f y)%nat.
Proof.
  induction l as [|z l IH]; intros [|i] x y; cbn; [done..| |].
  - intros [= ->]. lia.
  - intros H. generalize (IH i x y H). unfold insert. lia.
Qed.

Lemma sum_list_with_zero {A} (f : A -> nat) (l : list A) : Forall (fun x => f x = 0%nat) l -> sum_list_with f l = 0%nat.
Proof. induction 1 as [|x l Hx _ IH]; cbn; [done|lia]. Qed.

Lemma sum_list_with_lookup {A} (f : A -> nat) (l : list A) : forall i x, l !! i = Some x -> (f x <= sum_list_with f l)%nat.
Proof.
  induction l as [|y l IH]; intros [|i] x; cbn; [done..| |].
  - intros [= ->]. lia.
  - intros H. specialize (IH i x H). lia.
Qed.

(** ** Lemmas on searching *)

Lemma starts_spec p s : starts p s = true <-> exists t, s = p ++ t.
Proof.
  revert s. induction p as [|a p IH]; intros s; simpl.
  - split; eauto.
  - destruct s as [|b s]; [split; [done | intros [t H]; discriminate] |].
    rewrite andb_true_iff, ceq_true, IH. split.
    + intros [-> [t ->]]. by exists t.
    + intros [t [= -> ->]]. eauto.
Qed.

Lemma starts_app p t : starts p (p ++ t) = true.
Proof. apply starts_spec. by exists t. Qed.

Lemma find_sub_Some needle hay i :
  find_sub needle hay = Some i ->
  exists pre post, hay = pre ++ needle ++ post /\ length pre = i.
Proof.
  revert i. induction hay as [|h hay IH]; intros i; simpl.
  - destruct (starts needle []) eqn:E; [|done]. intros [= <-].
    apply starts_spec in E as [t E]. exists [], t. done.
  - destruct (starts needle (h :: hay)) eqn:E.
    + intros [= <-]. apply starts_spec in E as [t E]. exists [], t. done.
    + destruct (find_sub needle hay) as [j|] eqn:F; [|done]. intros [= <-].
      destruct (IH j eq_refl) as (pre & post & -> & <-).
      by exists (h :: pre), post.
Qed.

Lemma find_sub_None needle hay :
  find_sub needle hay = None -> forall pre post, hay <> pre ++ needle ++ post.
Proof.
  induction hay as [|h hay IH]; simpl; intros H pre post E.
  - destruct pre, needle; try discriminate.
  - destruct (starts needle (h :: hay)) eqn:S; [done|].
    destruct (find_sub needle hay) eqn:F; [done|].
    destruct pre as [|p pre].
    + simpl in E. rewrite E, starts_app in S. done.
    + injection E as -> E. by eapply IH.
Qed.

(** No occurrence starts before the one that is found. *)
Lemma find_sub_first needle hay i :
  find_sub needle hay = Some i ->
  forall pre post, hay = pre ++ needle ++ post -> (i <= length pre)%nat.
Proof.
  revert i. induction hay as [|h hay IH]; intros i; simpl.
  - destruct (starts needle []); [|done]. intros [= <-]. lia.
  - destruct (starts needle (h :: hay)) eqn:S; [intros [= <-]; lia|].
    destruct (find_sub needle hay) as [j|] eqn:F; [|done].
    intros [= <-] pre post E. destruct pre as [|p pre].
    + simpl in E. rewrite E, starts_app in S. done.
    + injection E as -> E. simpl. specialize (IH j eq_refl pre post E). lia.
Qed.
