(* ===== verification/Outcomes.v ===== *)
(** * Computations with state that throw, block or crash

    The functions of the plug-ins, their manager, the plugin server and the TCP stream are
    computations on a state: they return a value, throw an exception, wait for ever, or do
    something undefined.  This file has their monad and three judgments about them: [safe]
    (returns or throws), [may] (what holds if it returns or throws), and [keeps] (an invariant). *)
From S2P Require Import Prelude.

Inductive outcome (S A : Type) :=
| Done (a : A) (st : S)
| Thrown (st : S)
| Deadlock
| Crash.
Arguments Done {S A}.
Arguments Thrown {S A}.
Arguments Deadlock {S A}.
Arguments Crash {S A}.

(** Functions on a state of type [S]. *)
Definition comp (S A : Type) : Type := S -> outcome S A.

#[export] Instance comp_ret {S} : MRet (comp S) := fun A a st => Done a st.
#[export] Instance comp_bind {S} : MBind (comp S) := fun A B k m st =>
  match m st with
  | Done a st' => k a st'
  | Thrown st' => Thrown st'
  | Deadlock => Deadlock
  | Crash => Crash
  end.

Definition crash {S A} : comp S A := fun st => Crash.
Definition gets {S A} (f : S -> A) : comp S A := fun st => Done (f st) st.
Definition modify {S} (f : S -> S) : comp S unit := fun st => Done tt (f st).

(** What the computation leaves behind. *)
Definition after {S A} (m : comp S A) (st : S) : S :=
  match m st with Done _ st' | Thrown st' => st' | _ => st end.

(** ** Judgments *)

(** [m] returns or throws with a state that satisfies [Q]; it neither crashes nor deadlocks. *)
Definition safe {S A} (m : comp S A) (st : S) (Q : A -> S -> Prop) (E : S -> Prop) : Prop :=
  match m st with Done a st' => Q a st' | Thrown st' => E st' | Deadlock => False | Crash => False end.

Lemma safe_bind {S A B} (m : comp S A) (k : A -> comp S B) st Q E :
  safe m st (fun a st' => safe (k a) st' Q E) E -> safe (m ≫= k) st Q E.
Proof. unfold safe, mbind, comp_bind. by destruct (m st). Qed.

Lemma safe_ret {S A} (a : A) (st : S) (Q : A -> S -> Prop) E : Q a st -> safe (mret a) st Q E.
Proof. done. Qed.

Lemma safe_weaken {S A} (m : comp S A) st (Q Q' : A -> S -> Prop) (E E' : S -> Prop) :
  safe m st Q E -> (forall a st', Q a st' -> Q' a st') -> (forall st', E st' -> E' st') -> safe m st Q' E'.
Proof. unfold safe. destruct (m st); auto. Qed.

Lemma safe_done {S A} (m : comp S A) st a st' (Q : A -> S -> Prop) E :
  m st = Done a st' -> Q a st' -> safe m st Q E.
Proof. unfold safe. by intros ->. Qed.

(** [m] keeps [Q] or [E], if it returns or throws. *)
Definition may {S A} (m : comp S A) (st : S) (Q : A -> S -> Prop) (E : S -> Prop) : Prop :=
  match m st with Done a st' => Q a st' | Thrown st' => E st' | _ => True end.

Lemma may_bind {S A B} (m : comp S A) (k : A -> comp S B) st Q E :
  may m st (fun a st' => may (k a) st' Q E) E -> may (m ≫= k) st Q E.
Proof. unfold may, mbind, comp_bind. by destruct (m st). Qed.

Lemma may_weaken {S A} (m : comp S A) st (Q Q' : A -> S -> Prop) (E E' : S -> Prop) :
  may m st Q E -> (forall a st', Q a st' -> Q' a st') -> (forall st', E st' -> E' st') -> may m st Q' E'.
Proof. unfold may. destruct (m st); auto. Qed.

(** [m] keeps [P] when it returns or throws. *)
Definition keeps {S} (P : S -> Prop) {A} (m : comp S A) : Prop := forall st, P st ->
  match m st with Done _ st' => P st' | Thrown st' => P st' | _ => True end.

Lemma keeps_bind {S} (P : S -> Prop) {A B} (m : comp S A) (k : A -> comp S B) :
  keeps P m -> (forall a, keeps P (k a)) -> keeps P (m ≫= k).
Proof.
  intros Hm Hk st Hst. specialize (Hm st Hst). unfold mbind, comp_bind.
  destruct (m st); [by apply Hk|done..].
Qed.

Lemma keeps_ret {S} (P : S -> Prop) {A} (a : A) : keeps P (mret a).
Proof. by intros st Hst. Qed.

Lemma keeps_gets {S} (P : S -> Prop) {A} (f : S -> A) : keeps P (gets f).
Proof. by intros st Hst. Qed.

Lemma keeps_if {S} (P : S -> Prop) {A} (b : bool) (m m' : comp S A) : keeps P m -> keeps P m' -> keeps P (if b then m else m').
Proof. by destruct b. Qed.
