(* ===== verification/CLib.v ===== *)
(** * The parts of the C and C++ standard libraries the code uses

    Character classes and case mapping of the "C" locale, number scanning ([strtol],
    [std::stoul], [std::stoi]) and printing ([std::to_string], [sprintf "%.2X"]).
    Nothing here is code of the repository; it is what the modelled functions call. *)
From S2P Require Import Prelude.

(** ** Characters *)

Definition isspace (c : char) : bool :=
  ((9 <=? uchar c) && (uchar c <=? 13)) || (uchar c =? 32).

Definition isalpha (c : char) : bool :=
  ((65 <=? uchar c) && (uchar c <=? 90)) || ((97 <=? uchar c) && (uchar c <=? 122)).

Definition tolower (c : char) : char :=
  if (65 <=? uchar c) && (uchar c <=? 90) then char_of_Z (uchar c + 32) else c.

Definition toupper (c : char) : char :=
  if (97 <=? uchar c) && (uchar c <=? 122) then char_of_Z (uchar c - 32) else c.

(** [std::find_if_not] from the left. *)
Fixpoint drop_while (p : char -> bool) (s : bytes) : bytes :=
  match s with
  | [] => []
  | c :: s' => if p c then drop_while p s' else s
  end.

(** The value of a digit, in any base up to sixteen. *)
Definition digit_value (base : Z) (c : char) : option Z :=
  let n := uchar c in
  let v := if (48 <=? n) && (n <=? 57) then n - 48
           else if (97 <=? n) && (n <=? 102) then n - 87
           else if (65 <=? n) && (n <=? 70) then n - 55
           else 99 in
  if v <? base then Some v else None.

(** ** Scanning numbers *)

(** The digits at the beginning of [s], accumulated onto [acc]; [None] when there is
    no digit at all and [acc] holds none either. *)
Fixpoint scan_digits (base : Z) (acc : option Z) (s : bytes) : option Z :=
  match s with
  | [] => acc
  | c :: s' => match digit_value base c with
               | Some d => scan_digits base (Some (default 0 acc * base + d)) s'
               | None => acc
               end
  end.

(** Optional sign: [true] for a minus. *)
Definition scan_sign (s : bytes) : bool * bytes :=
  match s with
  | c :: s' => if c =c "-"%byte then (true, s')
               else if c =c "+"%byte then (false, s') else (false, s)
  | [] => (false, s)
  end.

(** The optional [0x] prefix of base sixteen: only skipped when a digit follows. *)
Definition skip_0x (s : bytes) : bytes :=
  match s with
  | z :: x :: d :: s' =>
      if (z =c "0"%byte) && ((x =c "x"%byte) || (x =c "X"%byte))
         && bool_decide (is_Some (digit_value 16 d))
      then d :: s' else s
  | _ => s
  end.

Definition clamp (lo hi v : Z) : Z := Z.max lo (Z.min hi v).

(** [strtol(s, 0, 16)]: 0 when nothing can be converted; saturates at the bounds of
    [long]. *)
Definition strtol16 (s : bytes) : Z :=
  let '(neg, s1) := scan_sign (drop_while isspace s) in
  let v := default 0 (scan_digits 16 None (skip_0x s1)) in
  clamp LONG_MIN LONG_MAX (if neg then - v else v).

(** [std::stoul(s)]: a leading minus negates the value in [unsigned long]; what
    follows the digits is ignored. *)
Definition stoul (s : bytes) : res Z :=
  let '(neg, s1) := scan_sign (drop_while isspace s) in
  match scan_digits 10 None s1 with
  | None => Fault std_invalid_argument
  | Some v => if ULONG_MAX <? v then Fault std_out_of_range
              else Ok (if neg then u64 (- v) else v)
  end.

(** [std::stoi(s)]. *)
Definition stoi (s : bytes) : res Z :=
  let '(neg, s1) := scan_sign (drop_while isspace s) in
  match scan_digits 10 None s1 with
  | None => Fault std_invalid_argument
  | Some v => let v := if neg then - v else v in
              if (v <? INT_MIN) || (INT_MAX <? v) then Fault std_out_of_range else Ok v
  end.

(** ** Printing numbers *)

(** A digit of a base up to sixteen, in lower case. *)
Definition digit_char (d : Z) : char :=
  if d <? 10 then char_of_Z (48 + d) else char_of_Z (87 + d).

(** The digits of [n], most significant first, by at most [fuel] divisions. *)
Fixpoint to_digits (base : Z) (fuel : nat) (n : Z) (acc : bytes) : bytes :=
  match fuel with
  | O => acc
  | S fuel' => let acc := digit_char (n mod base) :: acc in
               if n / base =? 0 then acc else to_digits base fuel' (n / base) acc
  end.

(** [std::to_string] of an unsigned number: twenty digits are enough for 64 bits. *)
Definition to_string (n : Z) : bytes := to_digits 10 20 n [].

(** [sprintf("%lx", n)]: the argument is read as an [unsigned long]. *)
Definition sprintf_lx (n : Z) : bytes := to_digits 16 16 (u64 n) [].

Definition hex_char (d : Z) : char :=
  if d <? 10 then char_of_Z (48 + d) else char_of_Z (55 + d).

(** [sprintf("%.2X", (unsigned char)c)]. *)
Definition hex2 (c : char) : bytes := [hex_char (uchar c / 16); hex_char (uchar c mod 16)].

(** ** Case mapping *)

(** The upper-case and the lower-case folding identify the same characters. *)
Lemma toupper_tolower c : toupper (tolower c) = toupper c.
Proof. by_all_chars c. Qed.

Lemma tolower_toupper c : tolower (toupper c) = tolower c.
Proof. by_all_chars c. Qed.

Lemma fold_case_agree c d : tolower c = tolower d <-> toupper c = toupper d.
Proof.
  split; intros H.
  - rewrite <- (toupper_tolower c), <- (toupper_tolower d). congruence.
  - rewrite <- (tolower_toupper c), <- (tolower_toupper d). congruence.
Qed.

(** ** Printing then scanning *)

Lemma uchar_digit_char d :
  0 <= d < 16 -> uchar (digit_char d) = if d <? 10 then 48 + d else 87 + d.
Proof.
  intros H. unfold digit_char. case_if; rewrite uchar_char_of_Z, Z.mod_small;
    reflect_bools; lia.
Qed.

Lemma digit_value_digit_char base d :
  0 <= d < base -> base <= 16 -> digit_value base (digit_char d) = Some d.
Proof.
  intros H Hb. unfold digit_value. rewrite uchar_digit_char by lia.
  destruct (d <? 10) eqn:E; reflect_bools.
  - replace (48 <=? 48 + d) with true by lia. replace (48 + d <=? 57) with true by lia.
    cbn [andb]. replace (48 + d - 48) with d by lia. by replace (d <? base) with true by lia.
  - replace (87 + d <=? 57) with false by lia. rewrite andb_false_r.
    replace (97 <=? 87 + d) with true by lia. replace (87 + d <=? 102) with true by lia.
    cbn [andb]. replace (87 + d - 87) with d by lia. by replace (d <? base) with true by lia.
Qed.

Section printing.
Context (base : Z) (Hbase : 2 <= base <= 16).

Lemma to_digits_acc fuel n acc :
  to_digits base fuel n acc = to_digits base fuel n [] ++ acc.
Proof.
  revert n acc. induction fuel as [|fuel IH]; intros n acc; simpl; [done|].
  case_if; [done|]. rewrite (IH _ (digit_char _ :: acc)), (IH _ [_]), <- app_assoc. done.
Qed.

(** Scanning the printed digits of [n] shifts the accumulator and adds [n]. *)
Lemma scan_to_digits fuel n a rest :
  0 <= n < base ^ Z.of_nat fuel -> (0 < fuel)%nat ->
  exists k, scan_digits base (Some a) (to_digits base fuel n [] ++ rest)
            = scan_digits base (Some (a * base ^ k + n)) rest /\ 0 <= k.
Proof.
  revert n a rest. induction fuel as [|fuel IH]; intros n a rest Hn Hf; [lia|].
  simpl. assert (0 <= n mod base < base) by (apply Z.mod_pos_bound; lia).
  pose proof (Z.div_mod n base ltac:(lia)) as Hdm. case_if.
  - simpl. rewrite digit_value_digit_char by lia. exists 1. simpl.
    assert (n mod base = n) as -> by (reflect_bools; nia).
    rewrite Z.pow_1_r. split; [done|lia].
  - rewrite to_digits_acc, <- app_assoc. cbn [app].
    rewrite Nat2Z.inj_succ, Z.pow_succ_r in Hn by lia.
    assert (0 <= n / base < base ^ Z.of_nat fuel) as Hd.
    { split; [apply Z.div_pos; lia | apply Z.div_lt_upper_bound; lia]. }
    assert (0 < fuel)%nat by (destruct fuel; [simpl in Hd; reflect_bools|]; lia).
    destruct (IH (n / base) a (digit_char (n mod base) :: rest)) as (k & -> & Hk); [lia..|].
    exists (k + 1). simpl. rewrite digit_value_digit_char by lia. simpl. split; [|lia].
    rewrite Z.pow_add_r, Z.pow_1_r by lia. do 2 f_equal. lia.
Qed.

(** Every printed character is a digit, and there is at least one. *)
Lemma to_digits_chars fuel n :
  0 <= n -> Forall (fun c => exists d, 0 <= d < base /\ c = digit_char d)
              (to_digits base fuel n []).
Proof.
  revert n. induction fuel as [|fuel IH]; intros n Hn; simpl; [constructor|].
  assert (exists d, 0 <= d < base /\ digit_char (n mod base) = digit_char d).
  { exists (n mod base). split; [apply Z.mod_pos_bound; lia | done]. }
  case_if; [by repeat constructor|]. rewrite to_digits_acc. apply Forall_app.
  split; [apply IH; apply Z.div_pos; lia | by repeat constructor].
Qed.

Lemma to_digits_nonempty fuel n : (0 < fuel)%nat -> to_digits base fuel n [] <> [].
Proof.
  destruct fuel; [lia|]. intros _. simpl. case_if; [done|]. rewrite to_digits_acc.
  by destruct (to_digits base fuel (n / base) []).
Qed.

Lemma digit_char_plain d :
  0 <= d < base -> isspace (digit_char d) = false
  /\ digit_char d <> "-"%byte /\ digit_char d <> "+"%byte.
Proof.
  intros Hd. pose proof (uchar_digit_char d ltac:(lia)) as Hu. split.
  - unfold isspace. rewrite Hu. case_if; reflect_bools;
      rewrite ?andb_false_iff, ?orb_false_iff; lia.
  - assert (uchar "-"%byte = 45) by reflexivity. assert (uchar "+"%byte = 43) by reflexivity.
    split; intros E; rewrite E in Hu; case_if_in Hu; reflect_bools; lia.
Qed.

(** The scanner accepts the printed number: no space, no sign, all the digits. *)
Lemma scan_printed fuel n :
  0 <= n < base ^ Z.of_nat fuel -> (0 < fuel)%nat ->
  scan_sign (drop_while isspace (to_digits base fuel n []))
  = (false, to_digits base fuel n [])
  /\ scan_digits base None (to_digits base fuel n []) = Some n.
Proof.
  intros Hn Hf. pose proof (to_digits_chars fuel n ltac:(lia)) as Hc.
  pose proof (to_digits_nonempty fuel n Hf) as Hne.
  destruct (scan_to_digits fuel n 0 [] Hn Hf) as (k & Hs & _). rewrite app_nil_r in Hs.
  destruct (to_digits base fuel n []) as [|c s]; [done|].
  inversion Hc as [|? ? [d [Hd ->]] _]; subst.
  destruct (digit_char_plain d Hd) as (E1 & E2 & E3). simpl. rewrite E1. simpl.
  rewrite (ceq_ne _ _ E2), (ceq_ne _ _ E3). split; [done|]. simpl in Hs.
  rewrite digit_value_digit_char in * by lia. simpl in *. rewrite Hs. by f_equal.
Qed.
End printing.

Lemma to_digits_length base fuel n : (length (to_digits base fuel n []) <= fuel)%nat.
Proof.
  revert n. induction fuel as [|fuel IH]; intros n; simpl; [lia|]. case_if; [simpl; lia|].
  rewrite to_digits_acc, length_app. simpl. specialize (IH (n / base)). lia.
Qed.

(** Printing a number of 64 bits and scanning it gives the number back. *)
Lemma stoul_to_string n : 0 <= n <= ULONG_MAX -> stoul (to_string n) = Ok n.
Proof.
  intros Hn. unfold stoul, to_string.
  assert (n < 10 ^ Z.of_nat 20) by (unfold ULONG_MAX in Hn; simpl; lia).
  destruct (scan_printed 10 ltac:(lia) 20 n) as [-> ->]; [lia..|].
  by replace (ULONG_MAX <? n) with false by lia.
Qed.

Lemma stoi_to_string n : 0 <= n <= INT_MAX -> stoi (to_string n) = Ok n.
Proof.
  intros Hn. unfold stoi, to_string. unfold INT_MAX in *.
  destruct (scan_printed 10 ltac:(lia) 20 n) as [-> ->]; [simpl; lia | lia |].
  unfold INT_MIN, INT_MAX. replace (n <? _) with false by lia.
  by replace (_ <? n) with false by lia.
Qed.

Lemma scan_digits_nonneg base s a v :
  0 <= base -> 0 <= default 0 a -> scan_digits base a s = Some v -> 0 <= v.
Proof.
  intros Hb. revert a. induction s as [|c s IH]; intros a Ha; simpl; [by intros ->|].
  destruct (digit_value base c) as [d|] eqn:E; [|by intros ->].
  apply IH. simpl. assert (0 <= d); [|nia].
  unfold digit_value in E. pose proof (uchar_range c).
  repeat case_if_in E; simplify_eq; reflect_bools; lia.
Qed.

Lemma stoul_range s n : stoul s = Ok n -> 0 <= n < 2 ^ 64.
Proof.
  unfold stoul. destruct (scan_sign _) as [neg t]. destruct (scan_digits 10 None t) eqn:E; [|done].
  apply scan_digits_nonneg in E; [|done|done]. unfold ULONG_MAX. case_if; [done|].
  intros [= <-]. reflect_bools. destruct neg; [apply u64_range | lia].
Qed.

(** A printed number has no [0x] prefix: its second character is a digit. *)
Lemma skip_0x_digits fuel n : 0 <= n -> skip_0x (to_digits 16 fuel n []) = to_digits 16 fuel n [].
Proof.
  intros Hn. pose proof (to_digits_chars 16 ltac:(lia) fuel n Hn) as Hc.
  destruct (to_digits 16 fuel n []) as [|z [|x [|d s]]]; try done.
  inversion Hc as [|? ? _ Hc1]; subst. inversion Hc1 as [|? ? [e [He ->]] _]; subst.
  simpl. pose proof (uchar_digit_char e ltac:(lia)) as Hu.
  assert (digit_char e <> "x"%byte /\ digit_char e <> "X"%byte) as [N1 N2].
  { assert (uchar "x"%byte = 120) by reflexivity. assert (uchar "X"%byte = 88) by reflexivity.
    split; intros E; rewrite E in Hu; case_if_in Hu; reflect_bools; lia. }
  by rewrite (ceq_ne _ _ N1), (ceq_ne _ _ N2), andb_false_r.
Qed.

Lemma strtol16_printed n : 0 <= n <= LONG_MAX -> strtol16 (sprintf_lx n) = n.
Proof.
  intros Hn. unfold strtol16, sprintf_lx. unfold LONG_MAX in *.
  rewrite u64_small by lia.
  assert (n < 16 ^ Z.of_nat 16) by (change (16 ^ Z.of_nat 16) with (2 ^ 64); lia).
  destruct (scan_printed 16 ltac:(lia) 16 n) as [-> E]; [lia..|].
  rewrite skip_0x_digits by lia. rewrite E. unfold clamp, LONG_MIN, LONG_MAX. simpl. lia.
Qed.
