(* ===== verification/StringUtils.v ===== *)
(** * String utilities

    Models [pion::utils] (src/string_utils.cpp): splitting, prefix and suffix tests,
    path stripping, trimming, case-insensitive comparison and [replace_all].  The C
    library's character functions are in [CLib]. *)
From S2P Require Import Prelude CLib.

(** ** Operations *)

(** The [getline] loop; [item] is the part of the current line read so far. *)
Fixpoint split_loop (delim : char) (item : bytes) (s : bytes) : list bytes :=
  match s with
  | [] => if bool_decide (item = []) then [] else [item]
  | c :: s' =>
      if c =c delim
      then (if bool_decide (item = []) then [] else [item]) ++ split_loop delim [] s'
      else split_loop delim (item ++ [c]) s'
  end.

Definition split (s : bytes) (delim : char) : list bytes := split_loop delim [] s.

(** [value.compare(0, start.length(), start) == 0]. *)
Definition starts_with (value start : bytes) : bool :=
  bytes_eqb (take (length start) value) start.

Definition ends_with (value ending : bytes) : bool :=
  if (length ending <=? length value)%nat
  then bytes_eqb (take (length ending) (drop (length value - length ending) value)) ending
  else false.

(** [find_last_of]: the position of the last character that satisfies [p]. *)
Fixpoint find_last (p : char -> bool) (s : bytes) : option nat :=
  match s with
  | [] => None
  | c :: s' => match find_last p s' with
               | Some i => Some (S i)
               | None => if p c then Some 0%nat else None
               end
  end.

Definition strip_filename (file_path : bytes) : bytes :=
  match find_last (fun c => (c =c "/"%byte) || (c =c "\"%byte)) file_path with
  | Some pos => if (pos <? length file_path - 1)%nat then take (pos + 1) file_path
                else file_path
  | None => file_path
  end.

Definition strip_trailing (p : char -> bool) (s : bytes) : bytes :=
  reverse (drop_while p (reverse s)).

Definition strip_parent_dir (file_path : bytes) : bytes :=
  let unslashed := (fun c => if c =c "\"%byte then "/"%byte else c) <$> file_path in
  let unslashed := strip_trailing (fun c => c =c "/"%byte) unslashed in
  match find_last (fun c => c =c "/"%byte) unslashed with
  | None => file_path
  | Some pos => drop (pos + 1) file_path
  end.

Definition trim (s : bytes) : bytes :=
  strip_trailing isspace (drop_while isspace s).

Fixpoint iequals_loop (s1 s2 : bytes) : bool :=
  match s1, s2 with
  | c1 :: s1', c2 :: s2' =>
      if tolower c1 <>c tolower c2 then false else iequals_loop s1' s2'
  | _, _ => true
  end.

Definition iequals (str1 str2 : bytes) : bool :=
  if negb (length str1 =? length str2)%nat then false else iequals_loop str1 str2.

Fixpoint equals_loop (s1 s2 : bytes) : bool :=
  match s1, s2 with
  | c1 :: s1', c2 :: s2' => if c1 <>c c2 then false else equals_loop s1' s2'
  | _, _ => true
  end.

Definition equals (str1 str2 : bytes) : bool :=
  if negb (length str1 =? length str2)%nat then false else equals_loop str1 str2.

(** The loop of [replace_all] for [fuel] iterations; [None] when the loop is still
    running after that many. *)
Fixpoint replace_all_loop (fuel : nat) (s snippet replacement : bytes) : option bytes :=
  match fuel with
  | O => None
  | S fuel' =>
      match find_sub snippet s with
      | None => Some s
      | Some pos =>
          replace_all_loop fuel'
            (take pos s ++ replacement ++ drop (pos + length snippet) s)
            snippet replacement
      end
  end.

Definition replace_all (fuel : nat) (s snippet replacement : bytes) : option bytes :=
  if bool_decide (snippet = []) then Some s
  else replace_all_loop fuel s snippet replacement.

Definition to_lower (s : bytes) : bytes := tolower <$> s.

(** ** Case-insensitive comparison *)

Lemma iequals_loop_spec s t :
  length s = length t -> iequals_loop s t = bytes_eqb (to_lower s) (to_lower t).
Proof.
  revert t. induction s as [|a s IH]; intros [|b t]; simpl; try done.
  intros [= H]. rewrite (IH t H).
  change (to_lower (a :: s)) with (tolower a :: to_lower s).
  change (to_lower (b :: t)) with (tolower b :: to_lower t).
  destruct (ceq_spec (tolower a) (tolower b)) as [E|N]; simpl;
    destruct (bytes_eqb_spec (to_lower s) (to_lower t));
    destruct (bytes_eqb_spec (tolower a :: to_lower s) (tolower b :: to_lower t));
    congruence.
Qed.

Lemma iequals_spec s t : iequals s t = true <-> to_lower s = to_lower t.
Proof.
  unfold iequals. destruct (Nat.eqb_spec (length s) (length t)) as [E|E]; simpl.
  - rewrite (iequals_loop_spec s t E).
    destruct (bytes_eqb_spec (to_lower s) (to_lower t)); split; congruence.
  - split; [done|]. intros H%(f_equal length). unfold to_lower in H.
    rewrite !length_fmap in H. done.
Qed.

Lemma equals_spec s t : equals s t = true <-> s = t.
Proof.
  unfold equals. destruct (Nat.eqb_spec (length s) (length t)) as [E|E]; simpl.
  - revert t E. induction s as [|a s IH]; intros [|b t]; simpl; try done.
    intros [= H]. destruct (ceq_spec a b) as [->|N]; simpl.
    + rewrite (IH t H). split; congruence.
    + split; congruence.
  - split; [done|]. by intros ->.
Qed.

Lemma iequals_refl s : iequals s s = true.
Proof. by apply iequals_spec. Qed.

Lemma iequals_sym s t : iequals s t = iequals t s.
Proof.
  apply eq_true_iff_eq. rewrite !iequals_spec. split; congruence.
Qed.

Lemma iequals_trans s t u : iequals s t = true -> iequals t u = true -> iequals s u = true.
Proof. rewrite !iequals_spec. congruence. Qed.

#[export] Hint Resolve iequals_refl : pion.

(** ** Prefixes and suffixes *)

Lemma starts_with_spec v s : starts_with v s = true <-> exists t, v = s ++ t.
Proof.
  unfold starts_with. destruct (bytes_eqb_spec (take (length s) v) s) as [E|E].
  - split; [|done]. intros _. exists (drop (length s) v). rewrite <- E at 1.
    by rewrite take_drop.
  - split; [done|]. intros [t ->]. by rewrite take_app_length in E.
Qed.

Lemma ends_with_spec v e : ends_with v e = true <-> exists t, v = t ++ e.
Proof.
  unfold ends_with. destruct (Nat.leb_spec (length e) (length v)) as [L|L].
  - destruct (bytes_eqb_spec (take (length e) (drop (length v - length e) v)) e) as [E|E].
    + split; [|done]. intros _. exists (take (length v - length e) v).
      rewrite <- E at 2. rewrite (take_ge (drop _ _)) by (rewrite length_drop; lia).
      by rewrite take_drop.
    + split; [done|]. intros [t ->]. exfalso. apply E.
      rewrite length_app. replace (length t + length e - length e)%nat with (length t) by lia.
      rewrite drop_app_length. apply take_ge. lia.
  - split; [done|]. intros [t ->]. rewrite length_app in L. lia.
Qed.

(** ** Splitting *)

Lemma split_loop_parts delim item s :
  delim ∉ item ->
  Forall (fun p => p <> [] /\ delim ∉ p) (split_loop delim item s).
Proof.
  revert item. induction s as [|c s IH]; intros item Hi; simpl.
  - case_bool_decide; by repeat constructor.
  - destruct (ceq_spec c delim) as [->|N].
    + apply Forall_app. split; [case_bool_decide; by repeat constructor|].
      apply IH. set_solver.
    + apply IH. set_solver.
Qed.

(** Joining the parts gives the input without its delimiters. *)
Lemma split_loop_concat delim item s :
  mjoin (split_loop delim item s) = item ++ filter (fun c => c <> delim) s.
Proof.
  revert item. induction s as [|c s IH]; intros item; simpl.
  - rewrite app_nil_r. case_bool_decide; subst; simpl; [done|]. by rewrite app_nil_r.
  - destruct (ceq_spec c delim) as [->|N].
    + rewrite filter_cons_False by congruence.
      case_bool_decide; subst; simpl; rewrite IH; done.
    + rewrite filter_cons_True by done. rewrite IH, <- app_assoc. done.
Qed.

(** ** Trimming *)

Lemma drop_while_head p s c t : drop_while p s = c :: t -> p c = false.
Proof.
  induction s as [|a s IH]; simpl; [done|].
  destruct (p a) eqn:E; [done|]. by intros [= -> ->].
Qed.

Lemma drop_while_split p s :
  exists pre, s = pre ++ drop_while p s /\ Forall (fun c => p c = true) pre.
Proof.
  induction s as [|a s (pre & E & F)]; simpl; [by exists []|].
  destruct (p a) eqn:Pa.
  - exists (a :: pre). split; [simpl; congruence | by constructor].
  - exists []. by split.
Qed.

Lemma strip_trailing_split p s :
  exists post, s = strip_trailing p s ++ post /\ Forall (fun c => p c = true) post.
Proof.
  destruct (drop_while_split p (reverse s)) as (pre & E & F).
  exists (reverse pre). unfold strip_trailing. split.
  - rewrite <- reverse_app, <- E. by rewrite reverse_involutive.
  - by apply Forall_reverse.
Qed.

Lemma strip_trailing_last p s t c : strip_trailing p s = t ++ [c] -> p c = false.
Proof.
  unfold strip_trailing. intros H%(f_equal reverse).
  rewrite reverse_involutive, reverse_snoc in H. by eapply drop_while_head.
Qed.

(** ** [replace_all] *)

Lemma replace_length (s snippet replacement : bytes) pos :
  find_sub snippet s = Some pos ->
  (length (take pos s ++ replacement ++ drop (pos + length snippet) s) + length snippet
   = length s + length replacement)%nat.
Proof.
  intros (pre & post & -> & <-)%find_sub_Some.
  rewrite !length_app, length_take, length_drop, !length_app. lia.
Qed.

Lemma replace_all_loop_shrinks fuel s snippet replacement :
  (length replacement < length snippet)%nat -> (length s < fuel)%nat ->
  exists r, replace_all_loop fuel s snippet replacement = Some r
            /\ find_sub snippet r = None.
Proof.
  intros Hl. revert s. induction fuel as [|fuel IH]; intros s Hs; [lia|]. simpl.
  destruct (find_sub snippet s) as [pos|] eqn:E; [|by exists s].
  apply IH. pose proof (replace_length s snippet replacement pos E). lia.
Qed.

Lemma replace_all_loop_grows fuel s pre post snippet :
  find_sub snippet s <> None ->
  replace_all_loop fuel s snippet (pre ++ snippet ++ post) = None.
Proof.
  revert s. induction fuel as [|fuel IH]; intros s Hs; [done|]. simpl.
  destruct (find_sub snippet s) as [pos|] eqn:E; [|done].
  apply IH. intros N.
  eapply find_sub_None with (pre := take pos s ++ pre)
    (post := post ++ drop (pos + length snippet) s) in N.
  apply N. by rewrite <- !app_assoc.
Qed.

(** ** Properties *)

(** The parts with the delimiter between them. *)
Fixpoint join (delim : char) (parts : list bytes) : bytes :=
  match parts with
  | [] => []
  | [p] => p
  | p :: parts' => p ++ delim :: join delim parts'
  end.

Lemma split_loop_part delim item p s :
  delim ∉ p -> split_loop delim item (p ++ s) = split_loop delim (item ++ p) s.
Proof.
  revert item. induction p as [|c p IH]; intros item Hp; simpl; [by rewrite app_nil_r|].
  destruct (ceq_spec c delim) as [->|N]; [set_solver|].
  rewrite IH by set_solver. by rewrite <- app_assoc.
Qed.

Lemma split_loop_join delim parts :
  Forall (fun p => p <> [] /\ delim ∉ p) parts ->
  split_loop delim [] (join delim parts) = parts.
Proof.
  induction 1 as [|p parts [Hne Hp] Hparts IH]; [done|].
  destruct parts as [|q parts].
  - simpl. rewrite <- (app_nil_r p) at 1. rewrite split_loop_part by done. simpl.
    by rewrite bool_decide_false.
  - change (join delim (p :: q :: parts)) with (p ++ delim :: join delim (q :: parts)).
    rewrite split_loop_part by done.
    cbn [split_loop]. rewrite ceq_refl. rewrite IH. simpl. by rewrite bool_decide_false.
Qed.

(** [split] loses nothing but the delimiter: every part is non-empty and free of the
    delimiter, the parts in order are the input without its delimiters, and a list of such
    parts joined with the delimiter is split into exactly these parts. *)
Theorem split_correct s delim parts :
  Forall (fun p => p <> [] /\ delim ∉ p) (split s delim)
  /\ mjoin (split s delim) = filter (fun c => c <> delim) s
  /\ (Forall (fun p => p <> [] /\ delim ∉ p) parts -> split (join delim parts) delim = parts).
Proof.
  split; [apply split_loop_parts; set_solver|].
  split; [apply split_loop_concat | apply split_loop_join].
Qed.

Lemma split_correct_witness :
  split (str "ab,c") ","%byte = [str "ab"; str "c"].
Proof.
  apply (proj2 (proj2 (split_correct [] ","%byte [str "ab"; str "c"]))).
  repeat constructor; try discriminate; by apply (bool_decide_unpack _).
Defined.

Lemma strip_trailing_head p s c t :
  strip_trailing p s = c :: t -> exists t', s = c :: t'.
Proof.
  intros H. destruct (strip_trailing_split p s) as (post & E & _).
  exists (t ++ post). by rewrite E, H.
Qed.

(** [trim] removes white space at both ends and nothing else: what it removes is white
    space, and what it leaves neither starts nor ends with white space. *)
Theorem trim_correct s :
  (exists pre post, s = pre ++ trim s ++ post
                    /\ Forall (fun c => isspace c = true) (pre ++ post))
  /\ forall c t, (trim s = c :: t \/ trim s = t ++ [c]) -> isspace c = false.
Proof.
  unfold trim. destruct (drop_while_split isspace s) as (pre & E1 & F1).
  destruct (strip_trailing_split isspace (drop_while isspace s)) as (post & E2 & F2). split.
  - exists pre, post. rewrite Forall_app. split; [|done]. congruence.
  - intros c t [H|H]; [|by eapply strip_trailing_last].
    apply strip_trailing_head in H as [t' H]. by eapply drop_while_head.
Qed.

Lemma trim_correct_witness :
  trim (str " ab ") = str "ab" /\ isspace "a"%byte = false.
Proof.
  split; [reflexivity|].
  apply (proj2 (trim_correct (str " ab ")) "a"%byte (str "b")). left. reflexivity.
Defined.

(** [replace_all] with a replacement shorter than the snippet ends after at most as many
    steps as the text has characters, and no occurrence of the snippet is left; with a
    replacement that contains the (non-empty) snippet it never ends on a text in which the
    snippet occurs. *)
Theorem replace_all_termination s snippet replacement :
  ((length replacement < length snippet)%nat ->
   exists r, replace_all (S (length s)) s snippet replacement = Some r
             /\ find_sub snippet r = None)
  /\ (snippet <> [] -> find_sub snippet s <> None -> find_sub snippet replacement <> None ->
      forall fuel, replace_all fuel s snippet replacement = None).
Proof.
  unfold replace_all. split.
  - intros Hl. rewrite bool_decide_false by (intros ->; simpl in Hl; lia).
    apply replace_all_loop_shrinks; lia.
  - intros Hne Hs Hr fuel. rewrite bool_decide_false by done.
    destruct (find_sub snippet replacement) as [pos|] eqn:E; [|done].
    apply find_sub_Some in E as (pre & post & -> & _). by apply replace_all_loop_grows.
Qed.

Lemma replace_all_termination_witness :
  (exists r, replace_all 4 (str "aab") (str "ab") (str "b") = Some r /\ find_sub (str "ab") r = None)
  /\ forall fuel, replace_all fuel (str "a") (str "a") (str "aa") = None.
Proof.
  split.
  - apply (proj1 (replace_all_termination (str "aab") (str "ab") (str "b"))). apply Nat.lt_succ_diag_r.
  - apply (proj2 (replace_all_termination (str "a") (str "a") (str "aa"))); discriminate.
Defined.
