(* ===== verification/Algorithm.v ===== *)
(** * Codecs and byte conversions

    Models [pion::algorithm] (src/algorithm.cpp, include/pion/algorithm.hpp): Base64,
    URL and XML encoding, and the conversions between integers and big-endian byte
    sequences.  [float_from_bytes] and [float_to_bytes] are not modelled. *)
From S2P Require Import Prelude CLib.

(** ** Base64 *)

Definition nop : Z := -1.

(** Rows of sixteen entries, as in the source. *)
Definition decoding_data : list Z :=
  replicate 43 nop ++ [62; nop; nop; nop; 63] ++
  [52; 53; 54; 55; 56; 57; 58; 59; 60; 61] ++ replicate 7 nop ++
  [0; 1; 2; 3; 4; 5; 6; 7; 8; 9; 10; 11; 12; 13; 14; 15; 16; 17; 18; 19; 20; 21; 22;
   23; 24; 25] ++ replicate 6 nop ++
  [26; 27; 28; 29; 30; 31; 32; 33; 34; 35; 36; 37; 38; 39; 40; 41; 42; 43; 44; 45; 46;
   47; 48; 49; 50; 51] ++ replicate 133 nop.

(** [decoding_data[static_cast<int>(c)]]: the index is the signed value of the
    character, so a byte above 127 reads in front of the table. *)
Definition decode_char (c : char) : res Z :=
  if schar c <? 0 then Fault undefined_behaviour
  else match decoding_data !! Z.to_nat (schar c) with
       | Some v => Ok v
       | None => Fault undefined_behaviour
       end.

(** One pass of the loop per group of four characters; the result is the returned
    boolean with the contents of [output]. *)
Fixpoint base64_decode_loop (output : bytes) (input : bytes) : res (bool * bytes) :=
  match input with
  | [] => Ok (true, output)
  | c0 :: s1 =>
      code0 ← decode_char c0;
      if code0 =? nop then Ok (false, output) else
      match s1 with
      | [] => Ok (false, output)
      | c1 :: s2 =>
          code1 ← decode_char c1;
          if code1 =? nop then Ok (false, output) else
          let output := output ++
            [char_of_Z (Z.lor (Z.shiftl code0 2) (Z.land (Z.shiftr code1 4) 3))] in
          match s2 with
          | [] => Ok (true, output)
          | c2 :: s3 =>
              if c2 =c "="%byte then
                if Z.land code1 15 =? 0 then Ok (true, output) else Fault assertion_failed
              else
              code2 ← decode_char c2;
              if code2 =? nop then Ok (false, output) else
              let output := output ++
                [char_of_Z (Z.lor (Z.land (Z.shiftl code1 4) 240)
                                  (Z.land (Z.shiftr code2 2) 15))] in
              match s3 with
              | [] => Ok (true, output)
              | c3 :: s4 =>
                  if c3 =c "="%byte then
                    if Z.land code2 3 =? 0 then Ok (true, output)
                    else Fault assertion_failed
                  else
                  code3 ← decode_char c3;
                  if code3 =? nop then Ok (false, output) else
                  base64_decode_loop
                    (output ++ [char_of_Z (Z.lor (Z.land (Z.shiftl code2 6) 192) code3)])
                    s4
              end
          end
      end
  end.

(** The size of the input is kept in an [unsigned int]. *)
Definition base64_decode (input : bytes) : res (bool * bytes) :=
  base64_decode_loop [] (take (Z.to_nat (u32 (zlen input))) input).

Definition encoding_data : bytes :=
  str "ABCDEFGHIJKLMNOPQRSTUVWXYZabcdefghijklmnopqrstuvwxyz0123456789+/".

Definition encode6 (i : Z) : char := nth (Z.to_nat i) encoding_data NUL.

(** One pass of the loop per group of three characters. *)
Fixpoint base64_encode_loop (output : bytes) (input : bytes) : bytes :=
  match input with
  | [] => output
  | a :: s1 =>
      let code0 := Z.land (Z.shiftr (schar a) 2) 63 in
      let code1 := Z.land (Z.shiftl (schar a) 4) 63 in
      match s1 with
      | [] => output ++ [encode6 code0; encode6 code1; "="%byte; "="%byte]
      | b :: s2 =>
          let code1 := Z.lor code1 (Z.land (Z.shiftr (schar b) 4) 15) in
          let code2 := Z.land (Z.shiftl (schar b) 2) 63 in
          match s2 with
          | [] => output ++ [encode6 code0; encode6 code1; encode6 code2; "="%byte]
          | c :: s3 =>
              let code2 := Z.lor code2 (Z.land (Z.shiftr (schar c) 6) 3) in
              let code3 := Z.land (schar c) 63 in
              base64_encode_loop
                (output ++ [encode6 code0; encode6 code1; encode6 code2; encode6 code3]) s3
          end
      end
  end.

Definition base64_encode (input : bytes) : bool * bytes :=
  (true, base64_encode_loop [] (take (Z.to_nat (u32 (zlen input))) input)).

(** ** URL encoding *)

Fixpoint url_decode (s : bytes) : bytes :=
  match s with
  | [] => []
  | c :: s' =>
      if c =c "+"%byte then SP :: url_decode s'
      else if c =c "%"%byte then
        match s' with
        | a :: b :: s'' =>
            let decoded_char := char_of_Z (strtol16 [a; b]) in
            if decoded_char =c NUL then "%"%byte :: url_decode s'
            else decoded_char :: url_decode s''
        | _ => "%"%byte :: url_decode s'
        end
      else c :: url_decode s'
  end.

(** The characters the [switch] of [url_encode] lists. *)
Definition url_special (c : char) : bool :=
  existsb (Byte.eqb c) (str " $&+,/:;=?@<>#%{}|\^~[]`" ++ [x22]).

Definition url_encode_char (c : char) : bytes :=
  if negb (url_special c) && (32 <? schar c) && (schar c <? 127) then [c]
  else "%"%byte :: hex2 c.

Definition url_encode (s : bytes) : bytes := s ≫= url_encode_char.

(** ** XML encoding *)

Definition UTF8_REPLACEMENT_CHAR : bytes := [xef; xbf; xbd].

Definition xml_escape (c : char) : bytes :=
  if c =c "&"%byte then str "&amp;"
  else if c =c "<"%byte then str "&lt;"
  else if c =c ">"%byte then str "&gt;"
  else if c =c x22 then str "&quot;"
  else if c =c "'"%byte then str "&apos;"
  else [c].

Definition in_range (lo hi : Z) (c : char) : bool := (lo <=? uchar c) && (uchar c <=? hi).

(** A continuation byte of UTF-8.  The string is terminated by a NUL, which is not
    one, so no read goes past the end. *)
Definition utf8_cont (c : char) : bool := in_range 128 191 c.

Definition xml_plain (c : char) : bool :=
  in_range 32 127 c || (c =c x09) || (c =c x0a) || (c =c x0d).

Fixpoint xml_encode (s : bytes) : bytes :=
  match s with
  | [] => []
  | c :: s1 =>
      if xml_plain c then xml_escape c ++ xml_encode s1
      else if in_range 194 223 c then
        match s1 with
        | d :: s2 => if utf8_cont d then c :: d :: xml_encode s2
                     else UTF8_REPLACEMENT_CHAR ++ xml_encode s1
        | _ => UTF8_REPLACEMENT_CHAR ++ xml_encode s1
        end
      else if in_range 224 239 c then
        match s1 with
        | d :: e :: s3 =>
            if utf8_cont d && utf8_cont e then c :: d :: e :: xml_encode s3
            else UTF8_REPLACEMENT_CHAR ++ xml_encode s1
        | _ => UTF8_REPLACEMENT_CHAR ++ xml_encode s1
        end
      else if in_range 240 244 c then
        match s1 with
        | d :: e :: f :: s4 =>
            if utf8_cont d && utf8_cont e && utf8_cont f
            then c :: d :: e :: f :: xml_encode s4
            else UTF8_REPLACEMENT_CHAR ++ xml_encode s1
        | _ => UTF8_REPLACEMENT_CHAR ++ xml_encode s1
        end
      else UTF8_REPLACEMENT_CHAR ++ xml_encode s1
  end.

(** ** Integers and big-endian byte sequences *)

(** Conversion to a signed type of [w] bits. *)
Definition swrap (w z : Z) : Z := (z + 2 ^ (w - 1)) mod 2 ^ w - 2 ^ (w - 1).

Definition to_uint8 (b : char) : Z := uchar b.
Definition to_int8 (b : char) : Z := swrap 8 (uchar b).
Definition to_uint16 (high low : char) : Z := Z.lor (Z.shiftl (uchar high) 8) (uchar low).
Definition to_int16 (high low : char) : Z :=
  swrap 16 (Z.lor (Z.shiftl (uchar high) 8) (uchar low)).
Definition to_uint24 (high mid low : char) : Z :=
  Z.lor (Z.lor (Z.shiftl (uchar high) 16) (Z.shiftl (uchar mid) 8)) (uchar low).
(** As in the source: the 24 bits land in an [int32_t] without sign extension. *)
Definition to_int24 (high mid low : char) : Z :=
  swrap 32 (Z.lor (Z.lor (Z.shiftl (uchar high) 16) (Z.shiftl (uchar mid) 8)) (uchar low)).
Definition to_uint32 (high mid1 mid2 low : char) : Z :=
  Z.lor (Z.lor (Z.lor (Z.shiftl (uchar high) 24) (Z.shiftl (uchar mid1) 16))
    (Z.shiftl (uchar mid2) 8)) (uchar low).
Definition to_int32 (high mid1 mid2 low : char) : Z := swrap 32 (to_uint32 high mid1 mid2 low).
Definition to_uint64 (b0 b1 b2 b3 b4 b5 b6 b7 : char) : Z :=
  Z.lor (Z.lor (Z.lor (Z.lor (Z.lor (Z.lor (Z.lor
    (Z.shiftl (uchar b0) 56) (Z.shiftl (uchar b1) 48)) (Z.shiftl (uchar b2) 40))
    (Z.shiftl (uchar b3) 32)) (Z.shiftl (uchar b4) 24)) (Z.shiftl (uchar b5) 16))
    (Z.shiftl (uchar b6) 8)) (uchar b7).
Definition to_int64 (b0 b1 b2 b3 b4 b5 b6 b7 : char) : Z :=
  swrap 64 (to_uint64 b0 b1 b2 b3 b4 b5 b6 b7).

(** [(n >> k) & 0xFF] stored into a byte. *)
Definition byte_at (n k : Z) : char := char_of_Z (Z.land (Z.shiftr n k) 255).

Definition from_uint8 (n : Z) : bytes := [byte_at n 0].
Definition from_int8 (n : Z) : bytes := [byte_at n 0].
Definition from_uint16 (n : Z) : bytes := [byte_at n 8; byte_at n 0].
Definition from_int16 (n : Z) : bytes := [byte_at n 8; byte_at n 0].
Definition from_uint24 (n : Z) : bytes := [byte_at n 16; byte_at n 8; byte_at n 0].
Definition from_int24 (n : Z) : bytes := [byte_at n 16; byte_at n 8; byte_at n 0].
Definition from_uint32 (n : Z) : bytes :=
  [byte_at n 24; byte_at n 16; byte_at n 8; byte_at n 0].
Definition from_int32 (n : Z) : bytes :=
  [byte_at n 24; byte_at n 16; byte_at n 8; byte_at n 0].
Definition from_uint64 (n : Z) : bytes :=
  [byte_at n 56; byte_at n 48; byte_at n 40; byte_at n 32;
   byte_at n 24; byte_at n 16; byte_at n 8; byte_at n 0].
Definition from_int64 (n : Z) : bytes :=
  [byte_at n 56; byte_at n 48; byte_at n 40; byte_at n 32;
   byte_at n 24; byte_at n 16; byte_at n 8; byte_at n 0].

(** The overloads that take a pointer to the first byte. *)
Definition to_uint16_ptr (buf : bytes) : res Z :=
  match buf with a :: b :: _ => Ok (to_uint16 a b) | _ => Fault undefined_behaviour end.
Definition to_int16_ptr (buf : bytes) : res Z :=
  match buf with a :: b :: _ => Ok (to_int16 a b) | _ => Fault undefined_behaviour end.
Definition to_uint24_ptr (buf : bytes) : res Z :=
  match buf with a :: b :: c :: _ => Ok (to_uint24 a b c) | _ => Fault undefined_behaviour end.
Definition to_int24_ptr (buf : bytes) : res Z :=
  match buf with a :: b :: c :: _ => Ok (to_int24 a b c) | _ => Fault undefined_behaviour end.
Definition to_uint32_ptr (buf : bytes) : res Z :=
  match buf with
  | a :: b :: c :: d :: _ => Ok (to_uint32 a b c d)
  | _ => Fault undefined_behaviour
  end.
Definition to_int32_ptr (buf : bytes) : res Z :=
  match buf with
  | a :: b :: c :: d :: _ => Ok (to_int32 a b c d)
  | _ => Fault undefined_behaviour
  end.
Definition to_uint64_ptr (buf : bytes) : res Z :=
  match buf with
  | a :: b :: c :: d :: e :: f :: g :: h :: _ => Ok (to_uint64 a b c d e f g h)
  | _ => Fault undefined_behaviour
  end.
Definition to_int64_ptr (buf : bytes) : res Z :=
  match buf with
  | a :: b :: c :: d :: e :: f :: g :: h :: _ => Ok (to_int64 a b c d e f g h)
  | _ => Fault undefined_behaviour
  end.

(** ** Base64: the bit fields as arithmetic *)

Lemma enc_hi6 a : Z.land (Z.shiftr (schar a) 2) 63 = uchar a / 4.
Proof. by_chars_Z a. Qed.
Lemma enc_lo2 a : Z.land (Z.shiftl (schar a) 4) 63 = (uchar a mod 4) * 16.
Proof. by_chars_Z a. Qed.
Lemma enc_hi4 a : Z.land (Z.shiftr (schar a) 4) 15 = uchar a / 16.
Proof. by_chars_Z a. Qed.
Lemma enc_lo4 a : Z.land (Z.shiftl (schar a) 2) 63 = (uchar a mod 16) * 4.
Proof. by_chars_Z a. Qed.
Lemma enc_hi2 a : Z.land (Z.shiftr (schar a) 6) 3 = uchar a / 64.
Proof. by_chars_Z a. Qed.
Lemma enc_lo6 a : Z.land (schar a) 63 = uchar a mod 64.
Proof. by_chars_Z a. Qed.

Lemma lor_add4 a b : 0 <= b < 16 -> Z.lor (a * 16) b = a * 16 + b.
Proof.
  intros H. change 16 with (2 ^ 4). rewrite <- Z.shiftl_mul_pow2 at 1 by lia.
  apply lor_shiftl_add; lia.
Qed.

Lemma lor_add2 a b : 0 <= b < 4 -> Z.lor (a * 4) b = a * 4 + b.
Proof.
  intros H. change 4 with (2 ^ 2). rewrite <- Z.shiftl_mul_pow2 at 1 by lia.
  apply lor_shiftl_add; lia.
Qed.

(** The characters of the alphabet decode to their index and are not padding. *)
Lemma decode_encode6 i : 0 <= i < 64 -> decode_char (encode6 i) = Ok i.
Proof.
  intros H. apply (bool_decide_eq_true (decode_char (encode6 i) = Ok i)). revert i H.
  apply (Z_below 64 (fun i => bool_decide (decode_char (encode6 i) = Ok i))).
  vm_compute. reflexivity.
Qed.

Lemma encode6_not_pad i : 0 <= i < 64 -> (encode6 i =c "="%byte) = false.
Proof.
  intros H. apply negb_true_iff. revert i H.
  apply (Z_below 64 (fun i => encode6 i <>c "="%byte)). vm_compute. reflexivity.
Qed.

Lemma not_nop i : 0 <= i < 64 -> (i =? nop) = false.
Proof. unfold nop. lia. Qed.

Lemma dec_byte0 c d : 0 <= c < 64 -> 0 <= d < 64 ->
  Z.lor (Z.shiftl c 2) (Z.land (Z.shiftr d 4) 3) = c * 4 + d / 16.
Proof.
  intros Hc Hd. change 3 with (Z.ones 2). rewrite Z.land_ones, Z.shiftr_div_pow2 by lia.
  change (2 ^ 2) with 4; change (2 ^ 4) with 16.
  rewrite (Z.mod_small (d / 16)) by dlia. apply lor_shiftl_add; [lia|]. dlia.
Qed.

Lemma dec_byte1 c d : 0 <= c < 64 -> 0 <= d < 64 ->
  Z.lor (Z.land (Z.shiftl c 4) 240) (Z.land (Z.shiftr d 2) 15) = (c mod 16) * 16 + d / 4.
Proof.
  intros Hc Hd. assert (Z.land (Z.shiftl c 4) 240 = Z.shiftl (c mod 16) 4) as ->.
  { change 240 with (Z.shiftl (Z.ones 4) 4). rewrite <- Z.shiftl_land.
    rewrite Z.land_ones by lia. done. }
  change 15 with (Z.ones 4). rewrite Z.land_ones, Z.shiftr_div_pow2 by lia.
  change (2 ^ 2) with 4; change (2 ^ 4) with 16.
  rewrite (Z.mod_small (d / 4)) by dlia. apply lor_shiftl_add; [lia|]. dlia.
Qed.

Lemma dec_byte2 c d : 0 <= c < 64 -> 0 <= d < 64 ->
  Z.lor (Z.land (Z.shiftl c 6) 192) d = (c mod 4) * 64 + d.
Proof.
  intros Hc Hd. assert (Z.land (Z.shiftl c 6) 192 = Z.shiftl (c mod 4) 6) as ->.
  { change 192 with (Z.shiftl (Z.ones 2) 6). rewrite <- Z.shiftl_land.
    rewrite Z.land_ones by lia. done. }
  apply lor_shiftl_add; lia.
Qed.

(** ** Base64: one group *)

Lemma base64_encode_loop_acc out s :
  base64_encode_loop out s = out ++ base64_encode_loop [] s.
Proof.
  revert out. induction s as [|a|a b|a b c s IH] using list_ind3; intros out; simpl;
    rewrite ?app_nil_r; try done.
  rewrite IH, (IH [_; _; _; _]), <- app_assoc. done.
Qed.

Ltac dec_step :=
  rewrite ?decode_encode6, ?encode6_not_pad by dlia;
  cbn [mbind res_bind]; rewrite ?not_nop by dlia.

Lemma decode_group3 out a b c rest :
  base64_decode_loop out (base64_encode_loop [] [a; b; c] ++ rest)
  = base64_decode_loop (out ++ [a; b; c]) rest.
Proof.
  pose proof (uchar_range a); pose proof (uchar_range b); pose proof (uchar_range c).
  simpl. rewrite !enc_hi6, !enc_lo2, !enc_hi4, !enc_lo4, !enc_hi2, !enc_lo6.
  rewrite lor_add4, lor_add2 by dlia. do 4 dec_step.
  rewrite dec_byte0, dec_byte1, dec_byte2 by dlia. rewrite <- !app_assoc. simpl.
  f_equal. f_equal. f_equal; [|f_equal; [|f_equal]];
    rewrite <- char_of_Z_uchar; f_equal; dlia.
Qed.

Lemma decode_group2 out a b :
  base64_decode_loop out (base64_encode_loop [] [a; b]) = Ok (true, out ++ [a; b]).
Proof.
  pose proof (uchar_range a); pose proof (uchar_range b).
  simpl. rewrite !enc_hi6, !enc_lo2, !enc_hi4, !enc_lo4.
  rewrite lor_add4 by dlia. do 3 dec_step.
  rewrite dec_byte0, dec_byte1 by dlia. rewrite <- !app_assoc. simpl.
  assert (Z.land (uchar b mod 16 * 4) 3 = 0) as -> by by_chars_Z b. simpl.
  do 3 f_equal. f_equal; [|f_equal]; rewrite <- char_of_Z_uchar; f_equal; dlia.
Qed.

Lemma decode_group1 out a :
  base64_decode_loop out (base64_encode_loop [] [a]) = Ok (true, out ++ [a]).
Proof.
  pose proof (uchar_range a). simpl. rewrite !enc_hi6, !enc_lo2. do 2 dec_step.
  rewrite dec_byte0 by dlia. assert (Z.land (uchar a mod 4 * 16) 15 = 0) as -> by by_chars_Z a.
  simpl. do 4 f_equal. rewrite <- char_of_Z_uchar. f_equal. dlia.
Qed.

Lemma decode_encode_loop s out :
  base64_decode_loop out (base64_encode_loop [] s) = Ok (true, out ++ s).
Proof.
  revert out. induction s as [|a|a b|a b c s IH] using list_ind3; intros out.
  - simpl. by rewrite app_nil_r.
  - apply decode_group1.
  - apply decode_group2.
  - assert (base64_encode_loop [] (a :: b :: c :: s)
            = base64_encode_loop [] [a; b; c] ++ base64_encode_loop [] s) as ->.
    { simpl. by rewrite base64_encode_loop_acc. }
    rewrite decode_group3, IH, <- app_assoc. done.
Qed.

Lemma base64_encode_loop_length s :
  length (base64_encode_loop [] s) = (4 * ((length s + 2) / 3))%nat.
Proof.
  induction s as [|a|a b|a b c s IH] using list_ind3; try done.
  change (base64_encode_loop [] (a :: b :: c :: s)) with
    (base64_encode_loop (base64_encode_loop [] [a; b; c]) s).
  rewrite base64_encode_loop_acc, length_app, IH. simpl length.
  replace (S (S (S (length s))) + 2)%nat with ((length s + 2) + 1 * 3)%nat by lia.
  rewrite Nat.div_add by lia. lia.
Qed.

Lemma take_u32 (s : bytes) : zlen s < 2 ^ 32 -> take (Z.to_nat (u32 (zlen s))) s = s.
Proof.
  intros H. unfold u32. rewrite Z.mod_small by (pose proof (zlen_nonneg s); lia).
  apply take_ge. unfold zlen. lia.
Qed.

(** Decoding the Base64 encoding of any string shorter than 3 GiB succeeds and
    gives the string back. *)
Theorem base64_roundtrip s :
  zlen s < 3 * 2 ^ 30 - 3 -> base64_decode (snd (base64_encode s)) = Ok (true, s).
Proof.
  intros H. unfold base64_encode, base64_decode. simpl snd. rewrite (take_u32 s) by lia.
  rewrite take_u32, decode_encode_loop; [done|].
  unfold zlen in *. rewrite base64_encode_loop_length.
  pose proof (Nat.div_mod_eq (length s + 2) 3).
  pose proof (Nat.mod_upper_bound (length s + 2) 3). lia.
Qed.

Lemma base64_roundtrip_witness :
  base64_encode (str "hello") = (true, str "aGVsbG8=")
  /\ base64_decode (str "aGVsbG8=") = Ok (true, str "hello").
Proof. split; [reflexivity|]. exact (base64_roundtrip (str "hello") eq_refl). Defined.

(** ** URL encoding *)

(** A NUL is the one character whose escape is not decoded. *)
Lemma url_decode_encode_char c s :
  c <> NUL -> url_decode (url_encode_char c ++ s) = c :: url_decode s.
Proof. intros H. destruct c; (reflexivity || (exfalso; by apply H)). Qed.

Lemma url_encode_cons c s : url_encode (c :: s) = url_encode_char c ++ url_encode s.
Proof. done. Qed.

(** What an encoded string may contain besides the percent sign. *)
Definition url_safe (c : char) : bool :=
  (c =c "%"%byte) || (negb (url_special c) && (32 <? schar c) && (schar c <? 127)).

Lemma url_encode_char_safe c : Forall (fun d => url_safe d = true) (url_encode_char c).
Proof.
  apply Forall_forallb. revert c.
  apply (forall_char (fun c => forallb url_safe (url_encode_char c))).
  vm_compute. reflexivity.
Qed.

Lemma url_encode_char_length c : (length (url_encode_char c) <= 3)%nat.
Proof. unfold url_encode_char. case_if; simpl; lia. Qed.

Lemma url_decode_encode s : NUL ∉ s -> url_decode (url_encode s) = s.
Proof.
  induction s as [|c s IH]; [done|]. intros H.
  rewrite url_encode_cons, url_decode_encode_char by set_solver.
  rewrite IH by set_solver. done.
Qed.

Lemma url_encode_safe s : Forall (fun d => url_safe d = true) (url_encode s).
Proof.
  induction s as [|c s IH]; [constructor|].
  rewrite url_encode_cons. apply Forall_app. split; [apply url_encode_char_safe | done].
Qed.

(** URL decoding is the inverse of URL encoding on every string without a NUL
    character, and an encoded string contains only the percent sign and unreserved
    printable ASCII characters: no separator of a URL, no blank, no control character and
    no byte above 126 survives. *)
Theorem url_roundtrip s :
  NUL ∉ s ->
  url_decode (url_encode s) = s /\ Forall (fun d => url_safe d = true) (url_encode s).
Proof. split; [by apply url_decode_encode | apply url_encode_safe]. Qed.

Lemma url_roundtrip_witness :
  url_encode (str "a b&c=d") = str "a%20b%26c%3Dd"
  /\ url_decode (str "a%20b%26c%3Dd") = str "a b&c=d".
Proof.
  split; [reflexivity|].
  exact (proj1 (url_roundtrip (str "a b&c=d") ltac:(by apply (bool_decide_unpack _)))).
Defined.

(** ** XML encoding *)

(** The bytes that end an element or an attribute value. *)
Definition xml_markup (c : char) : bool :=
  (c =c "<"%byte) || (c =c ">"%byte) || (c =c x22) || (c =c "'"%byte).

Lemma xml_escape_no_markup c : Forall (fun d => xml_markup d = false) (xml_escape c).
Proof.
  apply (Forall_impl (fun d => negb (xml_markup d) = true)).
  - apply (Forall_forallb (fun d => negb (xml_markup d))). revert c.
    apply (forall_char (fun c => forallb (fun d => negb (xml_markup d)) (xml_escape c))).
    vm_compute. reflexivity.
  - intros x. apply negb_true_iff.
Qed.

Lemma xml_high_no_markup lo hi c :
  128 <= lo -> in_range lo hi c = true -> xml_markup c = false.
Proof.
  unfold in_range. intros Hl H. reflect_bools.
  destruct (xml_markup c) eqn:E; [|done].
  unfold xml_markup in E. rewrite !orb_true_iff, !ceq_true in E.
  assert (uchar c < 128) by (destruct E as [[[-> | ->] | ->] | ->]; done). lia.
Qed.

Lemma replacement_no_markup : Forall (fun d => xml_markup d = false) UTF8_REPLACEMENT_CHAR.
Proof. repeat constructor. Qed.

#[local] Hint Resolve xml_high_no_markup replacement_no_markup xml_escape_no_markup : pion.

(** The bytes [xml_encode] consumes in one iteration, and what it writes for them. *)
Definition xml_step (s : bytes) : option (bytes * bytes) :=
  match s with
  | [] => None
  | c :: s1 =>
      if xml_plain c then Some (xml_escape c, s1)
      else if in_range 194 223 c then
        match s1 with
        | d :: s2 => if utf8_cont d then Some ([c; d], s2) else Some (UTF8_REPLACEMENT_CHAR, s1)
        | _ => Some (UTF8_REPLACEMENT_CHAR, s1)
        end
      else if in_range 224 239 c then
        match s1 with
        | d :: e :: s3 => if utf8_cont d && utf8_cont e then Some ([c; d; e], s3)
                          else Some (UTF8_REPLACEMENT_CHAR, s1)
        | _ => Some (UTF8_REPLACEMENT_CHAR, s1)
        end
      else if in_range 240 244 c then
        match s1 with
        | d :: e :: f :: s4 =>
            if utf8_cont d && utf8_cont e && utf8_cont f then Some ([c; d; e; f], s4)
            else Some (UTF8_REPLACEMENT_CHAR, s1)
        | _ => Some (UTF8_REPLACEMENT_CHAR, s1)
        end
      else Some (UTF8_REPLACEMENT_CHAR, s1)
  end.

Lemma xml_encode_step s :
  xml_encode s = match xml_step s with
                 | None => []
                 | Some (out, rest) => out ++ xml_encode rest
                 end.
Proof.
  destruct s as [|c s]; [done|]. simpl xml_encode. simpl xml_step.
  repeat (case_match; simplify_eq; try done).
Qed.

Lemma xml_step_shorter s out rest :
  xml_step s = Some (out, rest) -> (length rest < length s)%nat.
Proof.
  destruct s as [|c s]; [done|]. simpl.
  repeat (case_match; simplify_eq/=; try done); intros; simplify_eq/=; lia.
Qed.

Lemma xml_step_no_markup s out rest :
  xml_step s = Some (out, rest) -> Forall (fun d => xml_markup d = false) out.
Proof.
  destruct s as [|c s]; [done|]. simpl. unfold utf8_cont.
  repeat (case_match; simplify_eq/=; try done); intros; simplify_eq/=; reflect_bools;
    repeat constructor; eauto 3 using xml_high_no_markup with pion;
    try (eapply xml_high_no_markup; [|eassumption]; lia).
Qed.

(** Induction along the iterations of [xml_encode]. *)
Lemma xml_encode_ind (P : bytes -> bytes -> Prop) :
  P [] [] ->
  (forall s out rest, xml_step s = Some (out, rest) -> P rest (xml_encode rest) ->
     P s (out ++ xml_encode rest)) ->
  forall s, P s (xml_encode s).
Proof.
  intros H0 Hs s. remember (length s) as n eqn:E. revert s E.
  induction (lt_wf n) as [n _ IH]. intros s ->.
  rewrite xml_encode_step. destruct (xml_step s) as [[out rest]|] eqn:Es.
  - apply Hs; [done|]. eapply IH; [|reflexivity]. by eapply xml_step_shorter.
  - destruct s as [|c s]; [done|]. simpl in Es.
    repeat (case_match; simplify_eq; try done).
Qed.

(** The output of [xml_encode] contains none of the characters that could open or
    close a tag or an attribute value, whatever the input bytes are. *)
Theorem xml_encode_no_markup s : Forall (fun d => xml_markup d = false) (xml_encode s).
Proof.
  apply (xml_encode_ind (fun _ o => Forall (fun d => xml_markup d = false) o)); [done|].
  intros s' out rest Hs IH. apply Forall_app. split; [|done]. by eapply xml_step_no_markup.
Qed.

Lemma xml_step_length s out rest :
  xml_step s = Some (out, rest) -> (length out + 6 * length rest <= 6 * length s)%nat.
Proof.
  assert (forall c, (length (xml_escape c) <= 6)%nat) as He by (intros c; destruct c; vm_compute; lia).
  destruct s as [|c s]; [done|]. cbn [xml_step].
  repeat case_match; intros [= <- <-]; pose proof (He c); simpl length; lia.
Qed.

Lemma xml_encode_length s : (length (xml_encode s) <= 6 * length s)%nat.
Proof.
  apply (xml_encode_ind (fun s o => (length o <= 6 * length s)%nat)); [done|].
  intros s' out rest Hs IH. apply xml_step_length in Hs. rewrite length_app. lia.
Qed.

(** The inverse of the escapes, as a reader of the document applies it. *)
Fixpoint xml_unescape (s : bytes) : bytes :=
  match s with
  | "&"%byte :: "a"%byte :: "m"%byte :: "p"%byte :: ";"%byte :: t => "&"%byte :: xml_unescape t
  | "&"%byte :: "l"%byte :: "t"%byte :: ";"%byte :: t => "<"%byte :: xml_unescape t
  | "&"%byte :: "g"%byte :: "t"%byte :: ";"%byte :: t => ">"%byte :: xml_unescape t
  | "&"%byte :: "q"%byte :: "u"%byte :: "o"%byte :: "t"%byte :: ";"%byte :: t =>
      x22 :: xml_unescape t
  | "&"%byte :: "a"%byte :: "p"%byte :: "o"%byte :: "s"%byte :: ";"%byte :: t =>
      "'"%byte :: xml_unescape t
  | c :: t => c :: xml_unescape t
  | [] => []
  end.

Lemma xml_unescape_escape c t : xml_unescape (xml_escape c ++ t) = c :: xml_unescape t.
Proof. by destruct c. Qed.

(** A reader that resolves the five predefined entities gets back exactly the text
    that was encoded, for every text of XML's ASCII characters. *)
Theorem xml_text_roundtrip s :
  Forall (fun c => xml_plain c = true) s -> xml_unescape (xml_encode s) = s.
Proof.
  induction 1 as [|c s Hc _ IH]; [done|].
  cbn [xml_encode]. by rewrite Hc, xml_unescape_escape, IH.
Qed.

Lemma xml_text_roundtrip_witness :
  xml_encode (str "a<b") = str "a&lt;b" /\ xml_unescape (xml_encode (str "a<b")) = str "a<b".
Proof. split; [reflexivity|]. apply (xml_text_roundtrip (str "a<b")). repeat constructor. Defined.

(** A lead byte of the surrogate range passes unchanged, although such a sequence is
    neither well-formed UTF-8 nor an XML character. *)
Lemma xml_encode_keeps_surrogate : xml_encode [xed; xa0; x80] = [xed; xa0; x80].
Proof. done. Qed.

(** ** Integers and bytes *)

Lemma uchar_byte_at n k : 0 <= k -> uchar (byte_at n k) = n / 2 ^ k mod 256.
Proof.
  intros Hk. unfold byte_at. rewrite uchar_char_of_Z. change 255 with (Z.ones 8).
  rewrite Z.land_ones, Z.shiftr_div_pow2 by lia. by rewrite Z.mod_mod.
Qed.

Lemma byte_at_of_uchar n k c : 0 <= k -> n / 2 ^ k mod 256 = uchar c -> byte_at n k = c.
Proof. intros Hk H. apply uchar_inj. by rewrite uchar_byte_at. Qed.

Lemma to_uint16_add a b : to_uint16 a b = uchar a * 2 ^ 8 + uchar b.
Proof. apply lor_shiftl_add; [lia|]. apply uchar_range. Qed.

Lemma to_uint24_add a b c : to_uint24 a b c = uchar a * 2 ^ 16 + uchar b * 2 ^ 8 + uchar c.
Proof.
  pose proof (uchar_range a); pose proof (uchar_range b); pose proof (uchar_range c).
  unfold to_uint24. rewrite lor_shiftl_shiftl, lor_shiftl_add by lia. lia.
Qed.

Lemma to_uint32_add a b c d :
  to_uint32 a b c d = uchar a * 2 ^ 24 + uchar b * 2 ^ 16 + uchar c * 2 ^ 8 + uchar d.
Proof.
  pose proof (uchar_range a); pose proof (uchar_range b); pose proof (uchar_range c);
    pose proof (uchar_range d).
  unfold to_uint32. rewrite !lor_shiftl_shiftl, lor_shiftl_add by lia. lia.
Qed.

Lemma to_uint64_add a b c d e f g h :
  to_uint64 a b c d e f g h
  = uchar a * 2 ^ 56 + uchar b * 2 ^ 48 + uchar c * 2 ^ 40 + uchar d * 2 ^ 32
    + uchar e * 2 ^ 24 + uchar f * 2 ^ 16 + uchar g * 2 ^ 8 + uchar h.
Proof.
  pose proof (uchar_range a); pose proof (uchar_range b); pose proof (uchar_range c);
    pose proof (uchar_range d); pose proof (uchar_range e); pose proof (uchar_range f);
    pose proof (uchar_range g); pose proof (uchar_range h).
  unfold to_uint64. rewrite !lor_shiftl_shiftl, lor_shiftl_add by lia. lia.
Qed.

(** Reading the bytes written for [n] gives [n] modulo the width. *)
Lemma uint16_bytes n : to_uint16_ptr (from_uint16 n) = Ok (n mod 2 ^ 16).
Proof.
  simpl. f_equal. rewrite to_uint16_add, !uchar_byte_at by lia. rewrite Z.div_1_r. dlia.
Qed.

Lemma uint24_bytes n : to_uint24_ptr (from_uint24 n) = Ok (n mod 2 ^ 24).
Proof.
  simpl. f_equal. rewrite to_uint24_add, !uchar_byte_at by lia. rewrite Z.div_1_r. dlia.
Qed.

Lemma uint32_bytes n : to_uint32_ptr (from_uint32 n) = Ok (n mod 2 ^ 32).
Proof.
  simpl. f_equal. rewrite to_uint32_add, !uchar_byte_at by lia. rewrite Z.div_1_r. dlia.
Qed.

Lemma uint64_bytes n : to_uint64_ptr (from_uint64 n) = Ok (n mod 2 ^ 64).
Proof.
  simpl. f_equal. rewrite to_uint64_add, !uchar_byte_at by lia. rewrite Z.div_1_r. dlia.
Qed.

Lemma swrap_mod w z : 0 < w -> swrap w (z mod 2 ^ w) = swrap w z.
Proof. intros Hw. unfold swrap. by rewrite Zplus_mod_idemp_l. Qed.

Lemma swrap_small w z : 0 < w -> - 2 ^ (w - 1) <= z < 2 ^ (w - 1) -> swrap w z = z.
Proof.
  intros Hw H. unfold swrap. rewrite Z.mod_small; [lia|].
  replace (2 ^ w) with (2 * 2 ^ (w - 1)); [lia|].
  rewrite <- Z.pow_succ_r by lia. f_equal. lia.
Qed.

(** Writing an integer of 16, 24, 32 or 64 bits as big-endian bytes and reading
    them back gives the integer, unsigned and (for 16, 32 and 64 bits) signed. *)
Theorem integer_bytes_roundtrip n :
  (0 <= n < 2 ^ 16 -> to_uint16_ptr (from_uint16 n) = Ok n) /\
  (0 <= n < 2 ^ 24 -> to_uint24_ptr (from_uint24 n) = Ok n) /\
  (0 <= n < 2 ^ 32 -> to_uint32_ptr (from_uint32 n) = Ok n) /\
  (0 <= n < 2 ^ 64 -> to_uint64_ptr (from_uint64 n) = Ok n) /\
  (- 2 ^ 15 <= n < 2 ^ 15 -> to_int16_ptr (from_int16 n) = Ok n) /\
  (- 2 ^ 31 <= n < 2 ^ 31 -> to_int32_ptr (from_int32 n) = Ok n) /\
  (- 2 ^ 63 <= n < 2 ^ 63 -> to_int64_ptr (from_int64 n) = Ok n).
Proof.
  rewrite uint16_bytes, uint24_bytes, uint32_bytes, uint64_bytes.
  repeat split; intros H; rewrite ?Z.mod_small by lia; try done.
  - pose proof (uint16_bytes n) as E. injection E as E. simpl. f_equal.
    change (to_int16 _ _) with (swrap 16 (to_uint16 (byte_at n 8) (byte_at n 0))).
    rewrite E, swrap_mod by lia. by apply swrap_small.
  - pose proof (uint32_bytes n) as E. injection E as E. simpl. f_equal.
    unfold to_int32. rewrite E, swrap_mod by lia. by apply swrap_small.
  - pose proof (uint64_bytes n) as E. injection E as E. simpl. f_equal.
    unfold to_int64. rewrite E, swrap_mod by lia. by apply swrap_small.
Qed.

Lemma integer_bytes_roundtrip_witness :
  from_uint24 70000 = [x01; x11; x70] /\ to_uint24_ptr [x01; x11; x70] = Ok 70000.
Proof.
  split; [reflexivity|]. apply (proj1 (proj2 (integer_bytes_roundtrip 70000))). lia.
Defined.

(** The signed 24-bit pair does not invert on negative numbers: the reader does not
    extend the sign. *)
Lemma int24_negative : to_int24_ptr (from_int24 (-1)) = Ok (2 ^ 24 - 1).
Proof. done. Qed.

Lemma url_nul_not_roundtrip : url_decode (url_encode [NUL]) = str "%00".
Proof. done. Qed.

Lemma base64_decode_high_byte : base64_decode [x80] = Fault undefined_behaviour.
Proof. done. Qed.

Lemma base64_decode_bad_padding : base64_decode (str "QR==") = Fault assertion_failed.
Proof. done. Qed.
