(* ===== verification/UrlUtils.v ===== *)
(** * The second URL coder

    Models [pion::utils::url_decode], [url_encode] and [alloc_copy] (src/string_utils.cpp): loops
    over a position in the string, which goes back when an escape cannot be decoded.  They are
    proved to be the functions of [Algorithm], which recurse on the string. *)
From S2P Require Import Prelude CLib Algorithm.

(** [malloc], [memcpy] and the terminator. *)
Definition alloc_copy (s : bytes) : bytes := s ++ [NUL].

(** What is read from a pointer to the first character. *)
Fixpoint c_string (buffer : bytes) : bytes :=
  match buffer with [] => [] | c :: l => if c =c NUL then [] else c :: c_string l end.

(** The loop of [url_decode] with [fuel] passes left; [None] when it has not ended by then. *)
Fixpoint utils_decode_loop (fuel : nat) (s : bytes) (pos : nat) (result : bytes) : option bytes :=
  match fuel with
  | O => None
  | S fuel' =>
      match s !! pos with
      | None => Some result
      | Some c =>
          if c =c "+"%byte then utils_decode_loop fuel' s (pos + 1) (result ++ [SP])
          else if c =c "%"%byte then
            match (if (pos + 2 <? length s)%nat then Some (drop pos s) else None) with
            | Some (_ :: a :: b :: _) =>
                let decoded_char := char_of_Z (strtol16 [a; b]) in
                if decoded_char =c NUL then utils_decode_loop fuel' s (pos + 2 - 2 + 1) (result ++ ["%"%byte])
                else utils_decode_loop fuel' s (pos + 2 + 1) (result ++ [decoded_char])
            | _ => utils_decode_loop fuel' s (pos + 1) (result ++ ["%"%byte])
            end
          else utils_decode_loop fuel' s (pos + 1) (result ++ [c])
      end
  end.

Definition utils_url_decode (s : bytes) : option bytes := utils_decode_loop (S (length s)) s 0 [].

(** [sprintf] writes two digits and a terminator behind the percent sign, and the buffer is
    appended up to the terminator. *)
Fixpoint utils_encode_loop (s : bytes) (result : bytes) : bytes :=
  match s with
  | [] => result
  | c :: s' =>
      if negb (url_special c) && ((32 <? schar c) && (schar c <? 127)) then utils_encode_loop s' (result ++ [c])
      else utils_encode_loop s' (result ++ c_string ("%"%byte :: hex2 c ++ [NUL]))
  end.

Definition utils_url_encode (s : bytes) : bytes := utils_encode_loop s [].

(** ** The two coders are the same *)

Lemma utils_decode_loop_spec fuel : forall s pos result,
  (length s < pos + fuel)%nat -> (pos <= length s)%nat ->
  utils_decode_loop fuel s pos result = Some (result ++ url_decode (drop pos s)).
Proof.
  induction fuel as [|fuel IH]; intros s pos result Hf Hp; [lia|]. cbn [utils_decode_loop].
  destruct (s !! pos) as [c|] eqn:Ec.
  2: { rewrite drop_ge by (by apply lookup_ge_None). by rewrite app_nil_r. }
  pose proof (lookup_lt_Some _ _ _ Ec) as Hlt. pose proof (drop_S s c pos Ec) as Ed.
  assert (forall x, result ++ x :: url_decode (drop (S pos) s) = (result ++ [x]) ++ url_decode (drop (pos + 1) s)) as Hone.
  { intros x. rewrite <- app_assoc. by replace (pos + 1)%nat with (S pos) by lia. }
  rewrite Ed. cbn [url_decode]. destruct (ceq_spec c "+"%byte) as [->|Hplus]; [rewrite IH by lia; by rewrite Hone|].
  destruct (ceq_spec c "%"%byte) as [->|Hpct]; [|rewrite IH by lia; by rewrite Hone].
  destruct (Nat.ltb_spec (pos + 2) (length s)) as [H2|H2].
  - destruct (drop (S pos) s) as [|a [|b rest]] eqn:Er.
    1,2: pose proof (f_equal length Er) as El; rewrite length_drop in El; cbn in El; lia.
    assert (drop (pos + 2 + 1) s = rest) as E3.
    { replace (pos + 2 + 1)%nat with (S pos + 2)%nat by lia. by rewrite <- drop_drop, Er. }
    destruct (ceq_spec (char_of_Z (strtol16 [a; b])) NUL); rewrite IH by lia.
    + replace (pos + 2 - 2 + 1)%nat with (S pos) by lia. by rewrite Er, <- app_assoc.
    + by rewrite E3, <- app_assoc.
  - rewrite IH by lia. rewrite <- Hone. destruct (drop (S pos) s) as [|a [|b rest]] eqn:Er; [done..|].
    pose proof (f_equal length Er) as El. rewrite length_drop in El. cbn in El. lia.
Qed.

Lemma utils_encode_loop_spec s : forall result, utils_encode_loop s result = result ++ url_encode s.
Proof.
  induction s as [|c s IH]; intros result; cbn [utils_encode_loop]; [by rewrite app_nil_r|].
  rewrite url_encode_cons. unfold url_encode_char. rewrite <- andb_assoc.
  destruct (_ && _); rewrite IH, <- app_assoc; [done|]. do 2 f_equal. by_all_chars c.
Qed.

(** The loops that move a position end, and are the functions of [algorithm]. *)
Theorem utils_url_coders s :
  utils_url_decode s = Some (url_decode s) /\ utils_url_encode s = url_encode s.
Proof.
  split; [|apply utils_encode_loop_spec].
  unfold utils_url_decode. by rewrite utils_decode_loop_spec by lia.
Qed.

(** A message without NUL is read back from its copy. *)
Lemma alloc_copy_read s : NUL ∉ s -> c_string (alloc_copy s) = s.
Proof.
  unfold alloc_copy. induction s as [|c s IH]; cbn; [done|]. intros [Hc Hs]%not_elem_of_cons.
  rewrite ceq_ne by congruence. by rewrite IH.
Qed.
