(* ===== verification/Floats.v ===== *)
(** * Floating point numbers as bytes

    Models [float_from_bytes] and [float_to_bytes] (src/algorithm.cpp), which read and write
    numbers in the formats of IEEE 754.  A finite [long double] is a quotient by a power of
    two.  The powers of two are those of [pow] on [double]s, which is the one that [::pow] names
    with the headers the file includes, so they are infinite or zero outside of the range of
    a [double].  Doubling, halving, comparing and subtracting one from a number below two are exact;
    the sums of a significand are rounded to the 64 bits of its mantissa, which is a parameter. *)
From S2P Require Import Prelude CLib Algorithm.

(** ** Numbers *)

(** [ld_finite m k] is [m] divided by [2 ^ k], [0 <= k]. *)
Inductive ldouble := ld_finite (m k : Z) | ld_infinite (negative : bool) | ld_nan.

(** The same number. *)
Definition ld_eq (v w : ldouble) : Prop :=
  match v, w with
  | ld_finite m1 k1, ld_finite m2 k2 => m1 * 2 ^ k2 = m2 * 2 ^ k1
  | ld_infinite b1, ld_infinite b2 => b1 = b2
  | _, _ => False
  end.

Definition ld_nonzero (v : ldouble) : bool := match v with ld_finite m _ => negb (m =? 0) | _ => true end.
Definition ld_negative (v : ldouble) : bool :=
  match v with ld_finite m _ => m <? 0 | ld_infinite b => b | ld_nan => false end.
Definition ld_ge_one (v : ldouble) : bool :=
  match v with ld_finite m k => 2 ^ k <=? m | ld_infinite b => negb b | ld_nan => false end.

Definition ld_opp (v : ldouble) : ldouble :=
  match v with ld_finite m k => ld_finite (- m) k | ld_infinite b => ld_infinite (negb b) | ld_nan => ld_nan end.
Definition ld_half (v : ldouble) : ldouble :=
  match v with ld_finite m k => ld_finite m (k + 1) | v => v end.
Definition ld_double (v : ldouble) : ldouble :=
  match v with ld_finite m k => if 0 <? k then ld_finite m (k - 1) else ld_finite (2 * m) k | v => v end.
Definition ld_minus_one (v : ldouble) : ldouble :=
  match v with ld_finite m k => ld_finite (m - 2 ^ k) k | v => v end.

(** The sum before it is rounded, of finite numbers, and the product with a power of two. *)
Definition ld_plus (v w : ldouble) : ldouble :=
  match v, w with
  | ld_finite m1 k1, ld_finite m2 k2 =>
      let k := Z.max k1 k2 in ld_finite (m1 * 2 ^ (k - k1) + m2 * 2 ^ (k - k2)) k
  | _, _ => ld_nan
  end.
Definition ld_times (v w : ldouble) : ldouble :=
  match v, w with
  | ld_finite m1 k1, ld_finite m2 k2 => ld_finite (m1 * m2) (k1 + k2)
  | ld_nan, _ | _, ld_nan => ld_nan
  | _, _ => if ld_nonzero v && ld_nonzero w then ld_infinite (xorb (ld_negative v) (ld_negative w)) else ld_nan
  end.

(** [::pow((long double)2, e)], a [double]. *)
Definition pow2 (e : Z) : ldouble :=
  if 1024 <=? e then ld_infinite false
  else if e <? -1074 then ld_finite 0 0
  else if 0 <=? e then ld_finite (2 ^ e) 0 else ld_finite 1 (- e).

(** ** Bits of a buffer *)

(** A pointer into the buffer, and [mask]. *)
Definition cursor : Type := nat * Z.

(** [SHIFT_BITMASK]. *)
Definition shift_bitmask (c : cursor) : cursor :=
  let '(ptr, mask) := c in
  if negb (Z.land mask 1 =? 0) then (S ptr, 128) else (ptr, Z.shiftr mask 1).

(** [*ptr & mask] and [*ptr |= mask]. *)
Definition test_mask (buf : bytes) (c : cursor) : res bool :=
  match buf !! fst c with
  | None => Fault undefined_behaviour
  | Some b => Ok (negb (Z.land (uchar b) (snd c) =? 0))
  end.
Definition set_mask (c : cursor) (buf : bytes) : res bytes :=
  match buf !! fst c with
  | None => Fault undefined_behaviour
  | Some b => Ok (<[fst c := char_of_Z (Z.lor (uchar b) (snd c))]> buf)
  end.

(** ** Writing *)

(** The number of bytes that [memset] clears. *)
Definition float_bytes (num_exp_bits num_fraction_bits : nat) : nat :=
  Nat.div (num_exp_bits + num_fraction_bits + 1 + 7) 8.

(** The first loop; the exponent is an [int16_t].  Every loop that tests a [long double] has fuel. *)
Fixpoint halve_loop (fuel : nat) (value : ldouble) (exponent : Z) : option (ldouble * Z) :=
  if ld_ge_one value then
    match fuel with
    | O => None
    | S fuel' => halve_loop fuel' (ld_half value) (swrap 16 (exponent + 1))
    end
  else Some (value, exponent).

(** The loop that skips the bits of the exponent. *)
Fixpoint skip_exponent (fuel n : nat) (c : cursor) : cursor :=
  match fuel with
  | O => c
  | S fuel' =>
      if (n =? 0)%nat then c
      else if (8 <=? n)%nat then skip_exponent fuel' (n - 8) (S (fst c), snd c)
      else skip_exponent fuel' (n - 1) (shift_bitmask c)
  end.

(** The loop over the fraction: whether there was a first bit, the exponent, and the buffer. *)
Fixpoint fraction_loop (fuel : nat) (num_fraction_bits : Z) (value : ldouble) (got_exponent : bool)
  (exponent num_bits : Z) (c : cursor) (buf : bytes) : option (res (bool * Z * bytes)) :=
  if ld_nonzero value && (num_bits <? num_fraction_bits) then
    match fuel with
    | O => None
    | S fuel' =>
        let value := ld_double value in
        if got_exponent then
          if ld_ge_one value then
            match set_mask c buf with
            | Ok buf => fraction_loop fuel' num_fraction_bits (ld_minus_one value) true exponent
                          (u16 (num_bits + 1)) (shift_bitmask c) buf
            | Fault f => Some (Fault f)
            end
          else fraction_loop fuel' num_fraction_bits value true exponent (u16 (num_bits + 1)) (shift_bitmask c) buf
        else
          let exponent := swrap 16 (exponent - 1) in
          if ld_ge_one value then
            fraction_loop fuel' num_fraction_bits (ld_minus_one value) true exponent num_bits c buf
          else fraction_loop fuel' num_fraction_bits value false exponent num_bits c buf
    end
  else Some (Ok (got_exponent, exponent, buf)).

(** The loop over the bits of the exponent. *)
Fixpoint write_exponent (n : nat) (c : cursor) (high_bit exponent : Z) (buf : bytes) : res bytes :=
  match n with
  | O => Ok buf
  | S n' =>
      let c := shift_bitmask c in
      if high_bit <=? exponent then
        buf ← set_mask c buf;
        write_exponent n' c (Z.quot high_bit 2) (swrap 16 (exponent - high_bit)) buf
      else write_exponent n' c (Z.quot high_bit 2) exponent buf
  end.

(** [float_to_bytes]; [None] when a loop goes on for longer than the fuel. *)
Definition float_to_bytes (fuel : nat) (value : ldouble) (buf : bytes) (num_exp_bits num_fraction_bits : nat)
  : option (res bytes) :=
  let n := float_bytes num_exp_bits num_fraction_bits in
  if (length buf <? n)%nat then Some (Fault undefined_behaviour)
  else
    let buf := replicate n NUL ++ drop n buf in
    let '(value, buf) :=
      if ld_negative value then (ld_opp value, <[0%nat := x80]> buf) else (value, buf) in
    r ← halve_loop fuel value 0;
    let '(value, exponent) := r in
    let c := skip_exponent num_exp_bits num_exp_bits (0%nat, 64) in
    r ← fraction_loop fuel (Z.of_nat num_fraction_bits) value false exponent 0 c buf;
    Some (
      r' ← r;
      let '(got_exponent, exponent, buf) := r' in
      let high_bit := 2 ^ (Z.of_nat num_exp_bits - 1) in
      let exponent := if got_exponent : bool then swrap 16 (exponent + (high_bit - 1)) else 0 in
      write_exponent num_exp_bits (0%nat, 128) high_bit exponent buf).

(** ** Reading *)

(** The loop over the bits of the exponent. *)
Fixpoint read_exponent (n : nat) (buf : bytes) (c : cursor) (exponent : Z) : res (cursor * Z) :=
  match n with
  | O => Ok (c, exponent)
  | S n' =>
      let c := shift_bitmask c in
      let exponent := swrap 16 (exponent * 2) in
      b ← test_mask buf c;
      read_exponent n' buf c (if b : bool then swrap 16 (exponent + 1) else exponent)
  end.

Section Reading.
(** The rounding of a sum. *)
Context (round : ldouble -> ldouble).

(** The loop over the fraction. *)
Fixpoint read_fraction (n : nat) (buf : bytes) (c : cursor) (significand significand_value : ldouble)
  : res ldouble :=
  match n with
  | O => Ok significand
  | S n' =>
      let c := shift_bitmask c in
      let significand_value := ld_half significand_value in
      b ← test_mask buf c;
      read_fraction n' buf c
        (if b : bool then round (ld_plus significand significand_value) else significand) significand_value
  end.

Definition float_from_bytes (buf : bytes) (num_exp_bits num_fraction_bits : nat) : res ldouble :=
  negative ← test_mask buf (0%nat, 128);
  r ← read_exponent num_exp_bits buf (0%nat, 128) 0;
  let '(c, exponent) := r in
  significand ← read_fraction num_fraction_bits buf c (if exponent =? 0 then ld_finite 0 0 else ld_finite 1 0)
                  (ld_finite 1 0);
  let exponent := swrap 16 (exponent - (2 ^ (Z.of_nat num_exp_bits - 1) - 1)) in
  Ok (ld_times (if negative : bool then ld_opp significand else significand) (pow2 exponent)).

End Reading.

(** The formats; [narrow] is the conversion of a [long double] to the type that is returned. *)
Definition from_float (n : ldouble) (fuel : nat) (buf : bytes) := float_to_bytes fuel n buf 8 23.
Definition to_float (round narrow : ldouble -> ldouble) (buf : bytes) : res ldouble :=
  value ← float_from_bytes round buf 8 23; Ok (narrow value).
Definition from_double (n : ldouble) (fuel : nat) (buf : bytes) := float_to_bytes fuel n buf 11 52.
Definition to_double (round narrow : ldouble -> ldouble) (buf : bytes) : res ldouble :=
  value ← float_from_bytes round buf 11 52; Ok (narrow value).
Definition from_long_double (n : ldouble) (fuel : nat) (buf : bytes) := float_to_bytes fuel n buf 15 112.
Definition to_long_double (round : ldouble -> ldouble) (buf : bytes) := float_from_bytes round buf 15 112.

(** ** The bits of a buffer by their position *)

Definition cursor_at (p : nat) : cursor := ((p / 8)%nat, 2 ^ (7 - Z.of_nat (p mod 8))).

Definition bit (buf : bytes) (p : nat) : bool :=
  match buf !! (p / 8)%nat with Some b => Z.testbit (uchar b) (7 - Z.of_nat (p mod 8)) | None => false end.

Lemma position_split p : exists q r, p = (8 * q + r)%nat /\ (r < 8)%nat /\ (p / 8 = q)%nat /\ (p mod 8 = r)%nat.
Proof.
  exists (p / 8)%nat, (p mod 8)%nat. pose proof (Nat.div_mod_eq p 8). pose proof (Nat.mod_upper_bound p 8). lia.
Qed.

Lemma shift_cursor p : shift_bitmask (cursor_at p) = cursor_at (S p).
Proof.
  destruct (position_split p) as (q & r & -> & Hr & Eq & Er). unfold cursor_at. rewrite Eq, Er.
  assert (r = 7 \/ r < 7)%nat as [->|H7] by lia.
  - replace (S (8 * q + 7)) with (0 + S q * 8)%nat by lia. rewrite Nat.div_add, Nat.Div0.mod_add by lia. reflexivity.
  - replace (S (8 * q + r)) with (S r + q * 8)%nat by lia. rewrite Nat.div_add, Nat.Div0.mod_add by lia.
    rewrite Nat.div_small, Nat.mod_small by lia. cbn [plus].
    do 7 (destruct r as [|r]; [reflexivity|]). lia.
Qed.

Lemma land_pow2 x n : 0 <= n -> Z.land x (2 ^ n) = if Z.testbit x n then 2 ^ n else 0.
Proof.
  intros Hn. apply Z.bits_inj'. intros i Hi. rewrite Z.land_spec, Z.pow2_bits_eqb by lia.
  destruct (Z.eqb_spec n i) as [<-|Hne].
  - destruct (Z.testbit x n); [by rewrite Z.pow2_bits_true by lia|by rewrite Z.bits_0].
  - rewrite andb_false_r. destruct (Z.testbit x n); [by rewrite Z.pow2_bits_false|by rewrite Z.bits_0].
Qed.

Lemma cursor_inside p (buf : bytes) : (p < 8 * length buf)%nat -> exists b, buf !! (p / 8)%nat = Some b.
Proof. intros H. apply lookup_lt_is_Some_2. apply Nat.Div0.div_lt_upper_bound. lia. Qed.

Lemma test_mask_bit buf p : (p < 8 * length buf)%nat -> test_mask buf (cursor_at p) = Ok (bit buf p).
Proof.
  intros H. destruct (cursor_inside p buf H) as [b Hb]. unfold test_mask, bit, cursor_at. cbn [fst snd]. rewrite Hb.
  pose proof (Nat.mod_upper_bound p 8). rewrite land_pow2 by lia. destruct (Z.testbit _ _); [|done].
  by rewrite (proj2 (Z.eqb_neq _ 0)) by (apply Z.pow_nonzero; lia).
Qed.

(** A buffer that has the bits of another and those that [on] tells. *)
Definition with_bits (on : nat -> bool) (buf buf' : bytes) : Prop :=
  length buf' = length buf /\ forall q, (q < 8 * length buf)%nat -> bit buf' q = bit buf q || on q.

Lemma with_bits_none on buf : (forall q, on q = false) -> with_bits on buf buf.
Proof. intros H. split; [done|]. intros q _. by rewrite H, orb_false_r. Qed.

Lemma with_bits_trans on1 on2 on buf1 buf2 buf3 :
  with_bits on1 buf1 buf2 -> with_bits on2 buf2 buf3 -> (forall q, on q = on1 q || on2 q) -> with_bits on buf1 buf3.
Proof.
  intros [L1 H1] [L2 H2] Hon. split; [congruence|]. intros q Hq. rewrite H2 by congruence. rewrite H1 by done.
  by rewrite Hon, orb_assoc.
Qed.

Lemma set_mask_bits buf p : (p < 8 * length buf)%nat ->
  exists buf', set_mask (cursor_at p) buf = Ok buf' /\ with_bits (Nat.eqb p) buf buf'.
Proof.
  intros H. destruct (cursor_inside p buf H) as [b Hb]. unfold set_mask, cursor_at. cbn [fst snd]. rewrite Hb.
  eexists. split; [reflexivity|]. split; [apply length_insert|]. intros q Hq. unfold bit.
  destruct (position_split p) as (i & r & Ep & Hr & Ei & Er). destruct (position_split q) as (j & s & Eq & Hs & Ej & Es).
  rewrite Ei, Er, Ej, Es in *. destruct (decide (i = j)) as [->|Hne].
  - rewrite list_lookup_insert_eq by (by eapply lookup_lt_Some). rewrite Hb, uchar_char_of_Z.
    rewrite Z.mod_pow2_bits_low with (n := 8) by lia. rewrite Z.lor_spec, Z.pow2_bits_eqb by lia. f_equal.
    destruct (Nat.eqb_spec p q), (Z.eqb_spec (7 - Z.of_nat r) (7 - Z.of_nat s)); lia.
  - rewrite list_lookup_insert_ne by done. rewrite (proj2 (Nat.eqb_neq p q)) by lia. by rewrite orb_false_r.
Qed.

Lemma skip_cursor fuel n p : (n <= fuel)%nat -> skip_exponent fuel n (cursor_at p) = cursor_at (p + n).
Proof.
  revert n p. induction fuel as [|fuel IH]; intros n p Hn; cbn [skip_exponent].
  - by replace (p + n)%nat with p by lia.
  - destruct (Nat.eqb_spec n 0) as [->|Hn0]; [by rewrite Nat.add_0_r|].
    destruct (Nat.leb_spec 8 n) as [H8|H8].
    + replace (S (fst (cursor_at p)), snd (cursor_at p)) with (cursor_at (p + 8)).
      * rewrite IH by lia. f_equal. lia.
      * unfold cursor_at. cbn [fst snd]. replace (p + 8)%nat with (p + 1 * 8)%nat by lia.
        rewrite Nat.div_add, Nat.Div0.mod_add by lia. f_equal. lia.
    + rewrite shift_cursor, IH by lia. f_equal. lia.
Qed.

(** ** The exponent *)

(** The bits of [x], the highest of [n] first, behind the position [p]. *)
Definition number_bits (p : nat) (n : nat) (x : Z) (q : nat) : bool :=
  ((p <? q) && (q <=? p + n))%nat && Z.testbit x (Z.of_nat n - Z.of_nat (q - p)).

Lemma half_pow2 (n : nat) : 2 ^ Z.of_nat (S n) / 2 = 2 ^ Z.of_nat n /\ Z.quot (2 ^ Z.of_nat n) 2 = 2 ^ Z.of_nat n / 2.
Proof.
  split; [|apply Z.quot_div_nonneg; [apply Z.pow_nonneg|]; lia].
  replace (Z.of_nat (S n)) with (Z.of_nat n + 1) by lia. rewrite Z.pow_add_r by lia. by rewrite Z.div_mul.
Qed.

(** The highest bit of a number below [2 ^ (n + 1)], and the bits below it. *)
Lemma top_bit x n : 0 <= n -> 0 <= x < 2 ^ (n + 1) ->
  (2 ^ n <=? x) = Z.testbit x n
  /\ forall i, i < n -> Z.testbit (if 2 ^ n <=? x then x - 2 ^ n else x) i = Z.testbit x i.
Proof.
  intros Hn Hx. rewrite Z.pow_add_r in Hx by lia. change (2 ^ 1) with 2 in Hx.
  assert (x / 2 ^ n = if 2 ^ n <=? x then 1 else 0) as Hd.
  { destruct (Z.leb_spec (2 ^ n) x); [|apply Z.div_small; lia].
    symmetry. apply Z.div_unique with (x - 2 ^ n); lia. }
  split.
  - rewrite Z.testbit_odd, Z.shiftr_div_pow2, Hd by lia. by destruct (2 ^ n <=? x).
  - intros i Hi. destruct (Z.leb_spec (2 ^ n) x); [|done].
    destruct (Z.ltb_spec i 0); [by rewrite !Z.testbit_neg_r by lia|].
    rewrite <- (Z.mod_pow2_bits_low x n) by lia.
    replace (x mod 2 ^ n) with (x - 2 ^ n); [done|]. apply Z.mod_unique with 1; lia.
Qed.

Lemma number_bits_step p n x y q : 0 <= x < 2 ^ (Z.of_nat n + 1) ->
  y = (if 2 ^ Z.of_nat n <=? x then x - 2 ^ Z.of_nat n else x) ->
  number_bits p (S n) x q = (Nat.eqb (S p) q && (2 ^ Z.of_nat n <=? x)) || number_bits (S p) n y q.
Proof.
  intros Hx ->. destruct (top_bit x (Z.of_nat n) ltac:(lia) Hx) as [Ht Hb]. unfold number_bits. rewrite Ht in *.
  destruct (Nat.eqb_spec (S p) q) as [<-|Hne].
  - replace (Z.of_nat (S n) - Z.of_nat (S p - p)) with (Z.of_nat n) by lia.
    rewrite (proj2 (Nat.ltb_lt p (S p))), (proj2 (Nat.leb_le _ _)), Nat.ltb_irrefl by lia. cbn. by rewrite orb_false_r.
  - cbn [andb orb]. destruct (Nat.ltb_spec p q); [|by rewrite (proj2 (Nat.ltb_ge (S p) q)) by lia].
    rewrite (proj2 (Nat.ltb_lt (S p) q)) by lia. replace (S p + n)%nat with (p + S n)%nat by lia.
    destruct (Nat.leb_spec q (p + S n)); [|done]. cbn [andb].
    replace (Z.of_nat (S n) - Z.of_nat (q - p)) with (Z.of_nat n - Z.of_nat (q - S p)) by lia.
    symmetry. apply Hb. lia.
Qed.

Lemma swrap16_small z : - 2 ^ 15 <= z < 2 ^ 15 -> swrap 16 z = z.
Proof. intros H. apply swrap_small; [lia|exact H]. Qed.

Lemma write_exponent_bits n : forall p x buf,
  (n <= 15)%nat -> 0 <= x < 2 ^ Z.of_nat n -> (p + n < 8 * length buf)%nat ->
  exists buf', write_exponent n (cursor_at p) (2 ^ Z.of_nat n / 2) x buf = Ok buf'
               /\ with_bits (number_bits p n x) buf buf'.
Proof.
  induction n as [|n IH]; intros p x buf Hn Hx Hp; cbn [write_exponent].
  - eexists. split; [done|]. apply with_bits_none. intros q. unfold number_bits.
    destruct (Nat.ltb_spec p q), (Nat.leb_spec q (p + 0)); lia || done.
  - destruct (half_pow2 n) as [E1 E2]. rewrite shift_cursor, E1, E2.
    assert (2 ^ Z.of_nat n <= 2 ^ 14) by (apply Z.pow_le_mono_r; lia).
    assert (0 <= x < 2 ^ (Z.of_nat n + 1)) as Hx' by (by replace (Z.of_nat n + 1) with (Z.of_nat (S n)) by lia).
    pose proof Hx' as Hx2. rewrite Z.pow_add_r in Hx2 by lia. change (2 ^ 1) with 2 in Hx2.
    destruct (Z.leb_spec (2 ^ Z.of_nat n) x) as [Hle|Hlt].
    + destruct (set_mask_bits buf (S p)) as (buf1 & -> & H1); [lia|]. cbn [mbind res_bind].
      rewrite swrap16_small by (change (2 ^ 15) with (2 * 2 ^ 14); lia).
      destruct (IH (S p) (x - 2 ^ Z.of_nat n) buf1) as (buf2 & -> & H2); [lia|lia|rewrite (proj1 H1); lia|].
      exists buf2. split; [done|]. eapply with_bits_trans; [exact H1|exact H2|].
      intros q. rewrite (number_bits_step p n x _ q Hx' eq_refl). rewrite (proj2 (Z.leb_le _ _)) by lia. by rewrite andb_true_r.
    + destruct (IH (S p) x buf) as (buf2 & -> & H2); [lia|lia|lia|].
      exists buf2. split; [done|]. split; [apply H2|]. intros q Hq. rewrite (proj2 H2) by done. f_equal.
      rewrite (number_bits_step p n x _ q Hx' eq_refl). rewrite (proj2 (Z.leb_gt _ _)) by lia. by rewrite andb_false_r.
Qed.

Lemma shiftr_step x n : Z.shiftr x n = 2 * Z.shiftr x (n + 1) + (if Z.testbit x n then 1 else 0).
Proof.
  destruct (Z.leb_spec 0 n).
  - rewrite <- (Z.shiftr_shiftr x n 1) by lia.
    replace (Z.testbit x n) with (Z.testbit (Z.shiftr x n) 0) by (rewrite Z.shiftr_spec by lia; f_equal; lia).
    set (y := Z.shiftr x n). rewrite <- Z.div2_spec. pose proof (Z.div2_odd y). rewrite Z.bit0_odd. by destruct (Z.odd y).
  - rewrite Z.testbit_neg_r by lia. change (Z.shiftr x n) with (Z.shiftl x (- n)).
    change (Z.shiftr x (n + 1)) with (Z.shiftl x (- (n + 1))). rewrite !Z.shiftl_mul_pow2 by lia.
    replace (- n) with (- (n + 1) + 1) by lia. rewrite Z.pow_add_r by lia. lia.
Qed.

Lemma read_exponent_number n : forall p x buf e,
  (n <= 15)%nat -> 0 <= x < 2 ^ 15 -> (p + n < 8 * length buf)%nat ->
  (forall i, (i < n)%nat -> bit buf (p + 1 + i) = Z.testbit x (Z.of_nat n - 1 - Z.of_nat i)) ->
  e = Z.shiftr x (Z.of_nat n) ->
  read_exponent n buf (cursor_at p) e = Ok (cursor_at (p + n), x).
Proof.
  induction n as [|n IH]; intros p x buf e Hn Hx Hp Hb ->; cbn [read_exponent].
  - rewrite Z.shiftr_0_r. by replace (p + 0)%nat with p by lia.
  - assert (forall k, 0 <= k -> 0 <= Z.shiftr x k <= x) as Hs.
    { intros k Hk. rewrite Z.shiftr_div_pow2 by lia. pose proof (Z.pow_pos_nonneg 2 k ltac:(lia) Hk).
      split; [apply Z.div_pos; lia|apply Z.div_le_upper_bound; nia]. }
    pose proof (shiftr_step x (Z.of_nat n)) as Hstep. replace (Z.of_nat n + 1) with (Z.of_nat (S n)) in Hstep by lia.
    pose proof (Hs (Z.of_nat n) ltac:(lia)). pose proof (Hs (Z.of_nat (S n)) ltac:(lia)).
    rewrite shift_cursor, test_mask_bit by lia. cbn [mbind res_bind].
    replace (bit buf (S p)) with (Z.testbit x (Z.of_nat n)).
    2: { replace (S p) with (p + 1 + 0)%nat by lia. rewrite Hb by lia. f_equal. lia. }
    replace (p + S n)%nat with (S p + n)%nat by lia.
    apply IH; [lia|done|lia| |].
    + intros i Hi. replace (S p + 1 + i)%nat with (p + 1 + S i)%nat by lia. rewrite Hb by lia. f_equal. lia.
    + rewrite (swrap16_small (_ * 2)) by (destruct (Z.testbit x (Z.of_nat n)); lia).
      destruct (Z.testbit x (Z.of_nat n)); [rewrite swrap16_small by lia|]; lia.
Qed.

(** ** The fraction *)

(** The first [n] bits behind the binary point of [r / 2 ^ l], from the position [p] on. *)
Definition fraction_bits (p n : nat) (r l : Z) (q : nat) : bool :=
  ((p <=? q) && (q <? p + n))%nat && Z.testbit r (l - 1 - Z.of_nat (q - p)).

Lemma fraction_bits_zero p n l q : fraction_bits p n 0 l q = false.
Proof. unfold fraction_bits. by rewrite Z.testbit_0_l, andb_false_r. Qed.

Lemma fraction_bits_step p n r l q : 0 < l -> 0 <= r < 2 ^ l ->
  fraction_bits p (S n) r l q
  = (Nat.eqb p q && (2 ^ (l - 1) <=? r))
    || fraction_bits (S p) n (if 2 ^ (l - 1) <=? r then r - 2 ^ (l - 1) else r) (l - 1) q.
Proof.
  intros Hl Hr. destruct (top_bit r (l - 1) ltac:(lia)) as [Ht Hb]; [by replace (l - 1 + 1) with l by lia|].
  unfold fraction_bits. rewrite Ht in *. destruct (Nat.eqb_spec p q) as [<-|Hne].
  - rewrite Nat.leb_refl, (proj2 (Nat.ltb_lt _ _)), (proj2 (Nat.leb_gt (S p) p)) by lia. cbn.
    rewrite orb_false_r. f_equal. lia.
  - cbn [andb orb]. destruct (Nat.leb_spec p q); [|by rewrite (proj2 (Nat.leb_gt (S p) q)) by lia].
    rewrite (proj2 (Nat.leb_le (S p) q)) by lia. replace (S p + n)%nat with (p + S n)%nat by lia.
    destruct (Nat.ltb_spec q (p + S n)); [|done]. cbn [andb].
    replace (l - 1 - Z.of_nat (q - p)) with (l - 1 - 1 - Z.of_nat (q - S p)) by lia. symmetry. apply Hb. lia.
Qed.

(** Once the exponent is known. *)
Lemma fraction_loop_bits fuel : forall (n p : nat) nf nb r l e buf,
  0 <= l -> 0 <= r < 2 ^ l -> 0 <= nb -> Z.of_nat n = nf - nb -> nf < 2 ^ 16 -> l <= Z.of_nat fuel ->
  (p + n <= 8 * length buf)%nat ->
  exists buf', fraction_loop fuel nf (ld_finite r l) true e nb (cursor_at p) buf = Some (Ok (true, e, buf'))
               /\ with_bits (fraction_bits p n r l) buf buf'.
Proof.
  induction fuel as [|fuel IH]; intros n p nf nb r l e buf Hl Hr Hnb Hn Hnf Hfuel Hp; cbn [fraction_loop ld_nonzero].
  - assert (l = 0) as -> by lia. assert (r = 0) as -> by lia. cbn. eexists. split; [done|].
    apply with_bits_none, fraction_bits_zero.
  - destruct (Z.eqb_spec r 0) as [->|Hr0]; cbn [negb andb].
    { eexists. split; [done|]. apply with_bits_none, fraction_bits_zero. }
    destruct (Z.ltb_spec nb nf) as [Hlt|Hge].
    2: { eexists. split; [done|]. apply with_bits_none. intros q. unfold fraction_bits.
         destruct (Nat.leb_spec p q), (Nat.ltb_spec q (p + n)); lia || done. }
    assert (0 < l) by (destruct (decide (l = 0)) as [->|]; lia).
    destruct n as [|n]; [lia|]. cbn [ld_double]. rewrite (proj2 (Z.ltb_lt 0 l)) by lia. cbn [ld_ge_one].
    assert (u16 (nb + 1) = nb + 1) as -> by (unfold u16; apply Z.mod_small; lia).
    assert (2 ^ l = 2 * 2 ^ (l - 1)) as Hpow by (rewrite <- Z.pow_succ_r by lia; f_equal; lia).
    rewrite shift_cursor. destruct (Z.leb_spec (2 ^ (l - 1)) r) as [Hle|Hgt].
    + destruct (set_mask_bits buf p) as (buf1 & -> & H1); [lia|]. cbn [ld_minus_one].
      destruct (IH n (S p) nf (nb + 1) (r - 2 ^ (l - 1)) (l - 1) e buf1) as (buf2 & -> & H2); try lia.
      { rewrite (proj1 H1). lia. }
      exists buf2. split; [done|]. eapply with_bits_trans; [exact H1|exact H2|]. intros q.
      rewrite (fraction_bits_step p n r l q) by lia. rewrite (proj2 (Z.leb_le _ _)) by lia. by rewrite andb_true_r.
    + destruct (IH n (S p) nf (nb + 1) r (l - 1) e buf) as (buf2 & -> & H2); try lia.
      exists buf2. split; [done|]. split; [apply H2|]. intros q Hq. rewrite (proj2 H2) by done. f_equal.
      rewrite (fraction_bits_step p n r l q) by lia. rewrite (proj2 (Z.leb_gt _ _)) by lia. by rewrite andb_false_r.
Qed.

(** The search for the first bit: from [l] down to the logarithm of the number. *)
Lemma first_bit_loop fuel : forall (n p : nat) nf m l e buf,
  0 < m < 2 ^ l -> 0 <= l -> Z.of_nat n = nf -> 0 < nf < 2 ^ 16 -> l <= Z.of_nat fuel ->
  - 2 ^ 15 <= e - (l - Z.log2 m) -> e < 2 ^ 15 -> (p + n <= 8 * length buf)%nat ->
  exists buf', fraction_loop fuel nf (ld_finite m l) false e 0 (cursor_at p) buf
               = Some (Ok (true, e - (l - Z.log2 m), buf'))
               /\ with_bits (fraction_bits p n (m - 2 ^ Z.log2 m) (Z.log2 m)) buf buf'.
Proof.
  induction fuel as [|fuel IH]; intros n p nf m l e buf Hm Hl Hn Hnf Hfuel He1 He2 Hp.
  - assert (l = 0) as -> by lia. cbn in Hm. lia.
  - assert (0 < l) by (destruct (decide (l = 0)) as [->|]; cbn in *; lia).
    assert (Z.log2 m < l) by (apply Z.log2_lt_pow2; lia).
    pose proof (Z.log2_spec m ltac:(lia)) as [HL1 HL2]. pose proof (Z.log2_nonneg m).
    assert (2 ^ Z.succ (Z.log2 m) = 2 * 2 ^ Z.log2 m) as Hs by (apply Z.pow_succ_r; lia).
    cbn [fraction_loop ld_nonzero]. rewrite (proj2 (Z.eqb_neq m 0)), (proj2 (Z.ltb_lt 0 nf)) by lia. cbn [negb andb ld_double].
    rewrite (proj2 (Z.ltb_lt 0 l)) by lia. cbn [ld_ge_one]. rewrite swrap16_small by lia.
    destruct (Z.leb_spec (2 ^ (l - 1)) m) as [Hle|Hgt].
    + assert (Z.log2 m = l - 1) as EL.
      { assert (l - 1 <= Z.log2 m); [|lia]. apply Z.log2_le_pow2; lia. }
      rewrite EL in *. cbn [ld_minus_one].
      destruct (fraction_loop_bits fuel n p nf 0 (m - 2 ^ (l - 1)) (l - 1) (e - 1) buf) as (buf' & -> & H'); try lia.
      exists buf'. split; [|done]. by replace (e - (l - (l - 1))) with (e - 1) by lia.
    + destruct (IH n p nf m (l - 1) (e - 1) buf) as (buf' & -> & H'); try lia.
      exists buf'. split; [|done]. by replace (e - 1 - (l - 1 - Z.log2 m)) with (e - (l - Z.log2 m)) by lia.
Qed.

Lemma halve_loop_finite fuel : forall m k e,
  0 < m -> 0 <= k -> Z.log2 m + 1 - k <= Z.of_nat fuel -> 0 <= e -> e + Z.max 0 (Z.log2 m + 1 - k) < 2 ^ 15 ->
  halve_loop fuel (ld_finite m k) e
  = Some (ld_finite m (Z.max k (Z.log2 m + 1)), e + (Z.max k (Z.log2 m + 1) - k)).
Proof.
  induction fuel as [|fuel IH]; intros m k e Hm Hk Hfuel He1 He2;
    pose proof (Z.log2_spec m Hm) as [HL1 HL2]; pose proof (Z.log2_nonneg m); cbn [halve_loop ld_ge_one].
  - assert (2 ^ (Z.log2 m + 1) <= 2 ^ k) by (apply Z.pow_le_mono_r; lia).
    change (Z.succ (Z.log2 m)) with (Z.log2 m + 1) in HL2. rewrite (proj2 (Z.leb_gt _ _)) by lia.
    f_equal; f_equal; [f_equal; lia|lia].
  - destruct (Z.leb_spec (2 ^ k) m) as [Hle|Hgt].
    + assert (k <= Z.log2 m) by (apply Z.log2_le_pow2; lia). cbn [ld_half]. rewrite swrap16_small by lia.
      rewrite IH by lia. f_equal; f_equal; [f_equal; lia|lia].
    + assert (Z.log2 m < k) by (apply Z.log2_lt_pow2; lia). f_equal; f_equal; [f_equal; lia|lia].
Qed.

(** ** Reading it back *)

(** A number whose mantissa has at most 64 bits. *)
Definition mantissa_fits (v : ldouble) : Prop :=
  exists m t k, Z.abs m < 2 ^ 64 /\ 0 <= t /\ 0 <= k /\ ld_eq v (ld_finite (m * 2 ^ t) k).

(** [v] is [s / 2 ^ j]. *)
Definition is_quotient (v : ldouble) (s j : Z) : Prop :=
  exists a ka, v = ld_finite a ka /\ 0 <= ka /\ a * 2 ^ j = s * 2 ^ ka.

Lemma plus_half_step v s j : 0 <= j -> is_quotient v s j ->
  is_quotient (ld_plus v (ld_finite 1 (j + 1))) (2 * s + 1) (j + 1).
Proof.
  intros Hj (a & ka & -> & Hka & E). cbn. do 2 eexists. split; [reflexivity|]. split; [lia|].
  set (K := Z.max ka (j + 1)). rewrite Z.mul_1_l.
  assert (2 ^ (K - ka) * 2 ^ ka = 2 ^ K) as E1 by (rewrite <- Z.pow_add_r by lia; f_equal; lia).
  assert (2 ^ (K - (j + 1)) * 2 ^ (j + 1) = 2 ^ K) as E2 by (rewrite <- Z.pow_add_r by lia; f_equal; lia).
  rewrite Z.pow_add_r in * by lia. change (2 ^ 1) with 2 in *.
  rewrite Z.mul_add_distr_r, E2. rewrite <- E1. set (x := 2 ^ (K - ka)) in *. nia.
Qed.

Lemma double_quotient v s j : 0 <= j -> is_quotient v s j -> is_quotient v (2 * s) (j + 1).
Proof.
  intros Hj (a & ka & -> & Hka & E). exists a, ka. split_and!; [done..|].
  rewrite Z.pow_add_r by lia. change (2 ^ 1) with 2. nia.
Qed.

(** The leading bits of a number whose mantissa fits. *)
Lemma leading_bits_fit m0 t i : 0 <= m0 < 2 ^ 64 -> 0 <= t ->
  exists m' t', 0 <= m' < 2 ^ 64 /\ 0 <= t' /\ Z.shiftr (m0 * 2 ^ t) i = m' * 2 ^ t'.
Proof.
  intros Hm Ht. destruct (Z.leb_spec i t).
  - exists m0, (t - i). split_and!; [lia..|]. destruct (Z.leb_spec 0 i).
    + rewrite Z.shiftr_div_pow2 by lia. replace t with (t - i + i) at 1 by lia. rewrite Z.pow_add_r by lia.
      rewrite Z.mul_assoc. apply Z.div_mul, Z.pow_nonzero; lia.
    + change (Z.shiftr (m0 * 2 ^ t) i) with (Z.shiftl (m0 * 2 ^ t) (- i)). rewrite Z.shiftl_mul_pow2 by lia.
      rewrite <- Z.mul_assoc, <- Z.pow_add_r by lia. f_equal; f_equal; lia.
  - exists (Z.shiftr m0 (i - t)), 0. split_and!.
    + apply Z.shiftr_nonneg. lia.
    + rewrite Z.shiftr_div_pow2 by lia. apply Z.le_lt_trans with m0; [|lia].
      apply Z.div_le_upper_bound; [apply Z.pow_pos_nonneg; lia|].
      pose proof (Z.pow_pos_nonneg 2 (i - t) ltac:(lia) ltac:(lia)). nia.
    + lia.
    + rewrite Z.mul_1_r. rewrite !Z.shiftr_div_pow2 by lia. replace i with (t + (i - t)) at 1 by lia.
      rewrite Z.pow_add_r by lia. rewrite <- Z.div_div by (try apply Z.pow_nonzero; try apply Z.pow_pos_nonneg; lia).
      f_equal. apply Z.div_mul. apply Z.pow_nonzero; lia.
Qed.

Section Round.
Context (round : ldouble -> ldouble).
(** Rounding changes nothing that the mantissa can hold. *)
Hypothesis round_exact : forall v, mantissa_fits v -> round v = v.

Lemma quotient_fits v s j m' t' : 0 <= j -> 0 <= m' < 2 ^ 64 -> 0 <= t' -> s = m' * 2 ^ t' ->
  is_quotient v s j -> mantissa_fits v.
Proof.
  intros Hj Hm Ht -> (a & ka & -> & Hka & E). exists m', t', j. by split_and!; [lia..|].
Qed.

Lemma read_fraction_quotient n : forall p m L j buf v m0 t,
  0 <= m0 < 2 ^ 64 -> 0 <= t -> m = m0 * 2 ^ t -> 0 <= j -> (p + n < 8 * length buf)%nat ->
  (forall i, (i < n)%nat -> bit buf (p + 1 + i) = Z.testbit m (L - j - 1 - Z.of_nat i)) ->
  is_quotient v (Z.shiftr m (L - j)) j ->
  exists v', read_fraction round n buf (cursor_at p) v (ld_finite 1 j) = Ok v'
             /\ is_quotient v' (Z.shiftr m (L - j - Z.of_nat n)) (j + Z.of_nat n).
Proof.
  induction n as [|n IH]; intros p m L j buf v m0 t Hm0 Ht Em Hj Hp Hb Hv; cbn [read_fraction].
  - exists v. split; [done|]. by rewrite Z.sub_0_r, Z.add_0_r.
  - rewrite shift_cursor, test_mask_bit by lia. cbn [mbind res_bind ld_half].
    pose proof (shiftr_step m (L - j - 1)) as Hstep. replace (L - j - 1 + 1) with (L - j) in Hstep by lia.
    assert (bit buf (S p) = Z.testbit m (L - j - 1)) as ->.
    { replace (S p) with (p + 1 + 0)%nat by lia. rewrite Hb by lia. f_equal. lia. }
    edestruct (IH (S p) m L (j + 1) buf) as (v' & Hr & Hv'); [exact Hm0|exact Ht|exact Em|lia|lia| | |].
    + intros i Hi. replace (S p + 1 + i)%nat with (p + 1 + S i)%nat by lia. rewrite Hb by lia. f_equal. lia.
    + replace (L - (j + 1)) with (L - j - 1) by lia. rewrite Hstep.
      instantiate (1 := if Z.testbit m (L - j - 1) then round (ld_plus v (ld_finite 1 (j + 1))) else v).
      destruct (Z.testbit m (L - j - 1)).
      * pose proof (plus_half_step v _ j Hj Hv) as Hq. rewrite round_exact; [done|].
        rewrite <- Hstep in Hq. destruct (leading_bits_fit m0 t (L - j - 1) Hm0 Ht) as (m' & t' & Hm' & Ht' & Es).
        rewrite <- Em in Es. eapply quotient_fits; [|exact Hm'|exact Ht'|exact Es|exact Hq]. lia.
      * rewrite Z.add_0_r. by apply double_quotient.
    + exists v'. split; [exact Hr|]. replace (L - j - Z.of_nat (S n)) with (L - (j + 1) - Z.of_nat n) by lia.
      by replace (j + Z.of_nat (S n)) with (j + 1 + Z.of_nat n) by lia.
Qed.
End Round.

(** ** The formats are inverted *)

(** A number that a format has: its exponent is that of a normalised number, and its mantissa
    fits the fraction, and the 64 bits of a [long double]. *)
Definition representable (num_exp_bits num_fraction_bits : nat) (m k : Z) : Prop :=
  m <> 0 /\ 0 <= k
  /\ 0 < Z.log2 (Z.abs m) - k + (2 ^ (Z.of_nat num_exp_bits - 1) - 1) < 2 ^ Z.of_nat num_exp_bits
  /\ (Z.of_nat num_fraction_bits < Z.log2 (Z.abs m) ->
      Z.abs m mod 2 ^ (Z.log2 (Z.abs m) - Z.of_nat num_fraction_bits) = 0)
  /\ exists m0 t, 0 <= m0 < 2 ^ 64 /\ 0 <= t /\ Z.abs m = m0 * 2 ^ t.

Lemma float_bytes_bound e f : (e + f < 8 * float_bytes e f)%nat.
Proof.
  unfold float_bytes. pose proof (Nat.div_mod_eq (e + f + 1 + 7) 8). pose proof (Nat.mod_upper_bound (e + f + 1 + 7) 8). lia.
Qed.

(** The buffer when the sign has been written. *)
Lemma cleared_bits (n : nat) (negative : bool) buf : (0 < n <= length buf)%nat ->
  let buf1 := replicate n NUL ++ drop n buf in
  let buf1 := if negative then <[0%nat := x80]> buf1 else buf1 in
  length buf1 = length buf /\ forall q, (q < 8 * n)%nat -> bit buf1 q = (q =? 0)%nat && negative.
Proof.
  intros Hn. cbv zeta.
  assert (length (replicate n NUL ++ drop n buf) = length buf) as Hl
    by (rewrite length_app, length_replicate, length_drop; lia).
  split; [by destruct negative; rewrite ?length_insert|]. intros q Hq.
  assert ((q / 8 < n)%nat) as Hq8 by (apply Nat.Div0.div_lt_upper_bound; lia).
  assert ((replicate n NUL ++ drop n buf) !! (q / 8)%nat = Some NUL) as Hz.
  { rewrite lookup_app_l by (rewrite length_replicate; lia). by apply lookup_replicate_2. }
  destruct (position_split q) as (i & r & Eq & Hr & Ei & Er). unfold bit. rewrite Ei, Er in *. destruct negative.
  - destruct (decide (i = 0%nat)) as [->|Hne].
    + rewrite list_lookup_insert_eq by lia. rewrite andb_true_r. rewrite Eq.
      do 8 (destruct r as [|r]; [reflexivity|]). lia.
    + rewrite list_lookup_insert_ne, Hz by done. rewrite (proj2 (Nat.eqb_neq q 0)) by lia. apply Z.testbit_0_l.
  - rewrite Hz, andb_false_r. apply Z.testbit_0_l.
Qed.

(** What is written: the sign, the exponent with its bias, and the bits behind the first. *)
Lemma float_written e f m k buf fuel :
  (2 <= e <= 15)%nat -> (0 < f)%nat -> Z.of_nat f < 2 ^ 16 -> (float_bytes e f <= length buf)%nat ->
  representable e f m k -> Z.log2 (Z.abs m) + k + 2 <= Z.of_nat fuel ->
  let L := Z.log2 (Z.abs m) in
  exists buf', float_to_bytes fuel (ld_finite m k) buf e f = Some (Ok buf') /\ length buf' = length buf
    /\ forall q, (q < 8 * float_bytes e f)%nat ->
       bit buf' q = (q =? 0)%nat && (m <? 0)
                    || fraction_bits (1 + e) f (Z.abs m - 2 ^ L) L q
                    || number_bits 0 e (L - k + (2 ^ (Z.of_nat e - 1) - 1)) q.
Proof.
  intros He Hf Hf2 Hlen (Hm & Hk & HX & _ & _) Hfuel L. pose proof (float_bytes_bound e f) as Hb.
  unfold float_to_bytes. rewrite (proj2 (Nat.ltb_ge _ _)) by lia.
  destruct (cleared_bits (float_bytes e f) (m <? 0) buf) as [Hl1 H1]; [lia|].
  set (buf1 := if m <? 0 then _ else _) in *.
  assert ((if ld_negative (ld_finite m k)
           then (ld_opp (ld_finite m k), <[0%nat := x80]> (replicate (float_bytes e f) NUL ++ drop (float_bytes e f) buf))
           else (ld_finite m k, replicate (float_bytes e f) NUL ++ drop (float_bytes e f) buf))
          = (ld_finite (Z.abs m) k, buf1)) as ->.
  { unfold buf1. cbn [ld_negative ld_opp]. destruct (Z.ltb_spec m 0); do 2 f_equal; lia. }
  fold L in HX, Hfuel. pose proof (Z.log2_nonneg (Z.abs m)) as HL. fold L in HL.
  assert (2 ^ Z.of_nat e <= 2 ^ 15) as He15 by (apply Z.pow_le_mono_r; lia).
  assert (2 ^ Z.of_nat e = 2 * 2 ^ (Z.of_nat e - 1)) as Hee by (rewrite <- Z.pow_succ_r by lia; f_equal; lia).
  rewrite halve_loop_finite by (fold L; lia). fold L. cbn [mbind option_bind].
  change (0%nat, 64) with (cursor_at 1). rewrite skip_cursor by lia.
  pose proof (Z.log2_spec (Z.abs m) ltac:(lia)) as [_ HL2]. fold L in HL2.
  destruct (first_bit_loop fuel f (1 + e) (Z.of_nat f) (Z.abs m) (Z.max k (L + 1)) (0 + (Z.max k (L + 1) - k)) buf1)
    as (buf2 & E2 & H2); fold L; try lia.
  { split; [lia|]. eapply Z.lt_le_trans; [exact HL2|]. apply Z.pow_le_mono_r; lia. }
  rewrite E2. cbn [mbind option_bind res_bind]. fold L in H2 |- *.
  replace (0 + (Z.max k (L + 1) - k) - (Z.max k (L + 1) - L)) with (L - k) by lia.
  rewrite swrap16_small by lia. change (0%nat, 128) with (cursor_at 0).
  destruct (write_exponent_bits e 0 (L - k + (2 ^ (Z.of_nat e - 1) - 1)) buf2) as (buf3 & E3 & H3); [lia|lia| |].
  { rewrite (proj1 H2). lia. }
  replace (2 ^ Z.of_nat e / 2) with (2 ^ (Z.of_nat e - 1)) in E3 by (rewrite Hee, Z.mul_comm, Z.div_mul; lia).
  rewrite E3. exists buf3. split; [done|]. destruct H2 as [Hl2 H2], H3 as [Hl3 H3]. split; [congruence|].
  intros q Hq. rewrite H3 by lia. rewrite H2 by lia. by rewrite H1.
Qed.

(** The bits of a written number where [float_from_bytes] looks for them. *)
Lemma written_exponent e f r L x b i : (i < e)%nat ->
  ((0 + 1 + i =? 0)%nat && b || fraction_bits (1 + e) f r L (0 + 1 + i) || number_bits 0 e x (0 + 1 + i))
  = Z.testbit x (Z.of_nat e - 1 - Z.of_nat i).
Proof.
  intros Hi. rewrite (proj2 (Nat.eqb_neq _ 0)) by lia. unfold fraction_bits, number_bits.
  rewrite (proj2 (Nat.leb_gt (1 + e) _)), (proj2 (Nat.ltb_lt 0 _)), (proj2 (Nat.leb_le _ _)) by lia. cbn [andb orb].
  f_equal. lia.
Qed.

Lemma written_fraction e f m x b i : 0 < m -> (i < f)%nat ->
  ((e + 1 + i =? 0)%nat && b || fraction_bits (1 + e) f (m - 2 ^ Z.log2 m) (Z.log2 m) (e + 1 + i)
   || number_bits 0 e x (e + 1 + i))
  = Z.testbit m (Z.log2 m - 0 - 1 - Z.of_nat i).
Proof.
  intros Hm Hi. rewrite (proj2 (Nat.eqb_neq _ 0)) by lia. unfold fraction_bits, number_bits.
  rewrite (proj2 (Nat.leb_le (1 + e) _)), (proj2 (Nat.ltb_lt _ (1 + e + f))), (proj2 (Nat.leb_gt (e + 1 + i) _)) by lia.
  rewrite andb_false_r, orb_false_r. cbn [andb orb].
  pose proof (Z.log2_spec m Hm) as [H1 H2]. pose proof (Z.log2_nonneg m) as HL.
  destruct (top_bit m (Z.log2 m) HL) as [_ Hb]; [split; [lia|exact H2]|].
  rewrite (proj2 (Z.leb_le _ _)) in Hb by lia. rewrite Hb by lia. f_equal. lia.
Qed.

(** The value of the bits: nothing was cut off. *)
Lemma quotient_value v m L (f : nat) E k : -1074 <= E <= 1023 -> 0 <= L -> 0 <= k -> L - k = E ->
  (Z.of_nat f < L -> m mod 2 ^ (L - Z.of_nat f) = 0) ->
  is_quotient v (Z.shiftr m (L - 0 - Z.of_nat f)) (0 + Z.of_nat f) ->
  forall b : bool, ld_eq (ld_times (if b then ld_opp v else v) (pow2 E)) (ld_finite (if b then - m else m) k).
Proof.
  intros HE1 HL Hk HE Hcut (a & ka & -> & Hka & Eq) b. rewrite Z.sub_0_r, Z.add_0_l in Eq.
  assert (a * 2 ^ L = m * 2 ^ ka) as EL.
  { destruct (Z.leb_spec L (Z.of_nat f)) as [Hle|Hgt].
    - change (Z.shiftr m (L - Z.of_nat f)) with (Z.shiftl m (- (L - Z.of_nat f))) in Eq.
      rewrite Z.shiftl_mul_pow2 in Eq by lia. replace (- (L - Z.of_nat f)) with (Z.of_nat f - L) in Eq by lia.
      assert (2 ^ Z.of_nat f = 2 ^ (Z.of_nat f - L) * 2 ^ L) as Ep by (rewrite <- Z.pow_add_r by lia; f_equal; lia).
      rewrite Ep in Eq. pose proof (Z.pow_pos_nonneg 2 (Z.of_nat f - L) ltac:(lia) ltac:(lia)). nia.
    - specialize (Hcut Hgt). rewrite Z.shiftr_div_pow2 in Eq by lia.
      pose proof (Z.div_mod m (2 ^ (L - Z.of_nat f)) ltac:(apply Z.pow_nonzero; lia)) as Hd. rewrite Hcut, Z.add_0_r in Hd.
      assert (2 ^ L = 2 ^ (L - Z.of_nat f) * 2 ^ Z.of_nat f) as Ep by (rewrite <- Z.pow_add_r by lia; f_equal; lia).
      rewrite Ep. set (q := m / 2 ^ (L - Z.of_nat f)) in *. nia. }
  unfold pow2. rewrite (proj2 (Z.leb_gt _ _)), (proj2 (Z.ltb_ge _ _)) by lia.
  destruct b, (Z.leb_spec 0 E) as [HE0|HE0]; cbn [ld_opp ld_times ld_eq]; rewrite ?Z.add_0_r, ?Z.mul_1_r.
  1,3: assert (2 ^ L = 2 ^ E * 2 ^ k) as Ep by (rewrite <- Z.pow_add_r by lia; f_equal; lia); rewrite Ep in EL; nia.
  all: assert (2 ^ (ka + - E) = 2 ^ ka * 2 ^ (- E)) as E1 by (rewrite <- Z.pow_add_r by lia; f_equal; lia);
    assert (2 ^ k = 2 ^ L * 2 ^ (- E)) as E2 by (rewrite <- Z.pow_add_r by lia; f_equal; lia);
    rewrite E1, E2; nia.
Qed.

(** C29: numbers are written as bytes and read back.  For every format with up to 15 bits of
    exponent, every number the format can hold, with the mantissa of a [long double] and an
    exponent for which [pow] gives a number ([-1074] to [1023], so all normal numbers of the
    formats of [float] and [double]), and every buffer that is long enough: [float_to_bytes] ends, stays in the buffer, and
    [float_from_bytes] reads the same number from what it wrote. *)
Theorem float_bytes_roundtrip round e f m k buf fuel
  (Hround : forall v, mantissa_fits v -> round v = v)
  (He : (2 <= e <= 15)%nat) (Hf : (0 < f)%nat) (Hf2 : Z.of_nat f < 2 ^ 16)
  (Hlen : (float_bytes e f <= length buf)%nat) (Hm : representable e f m k)
  (Hpow : -1074 <= Z.log2 (Z.abs m) - k <= 1023)
  (Hfuel : Z.log2 (Z.abs m) + k + 2 <= Z.of_nat fuel) :
  exists buf' v, float_to_bytes fuel (ld_finite m k) buf e f = Some (Ok buf')
    /\ length buf' = length buf
    /\ float_from_bytes round buf' e f = Ok v /\ ld_eq v (ld_finite m k).
Proof.
  destruct (float_written e f m k buf fuel He Hf Hf2 Hlen Hm Hfuel) as (buf' & E & Hl & Hbits).
  destruct Hm as (Hm & Hk & HX & Hcut & m0 & t & Hm0 & Ht & Em). pose proof (float_bytes_bound e f) as Hb.
  set (L := Z.log2 (Z.abs m)) in *. set (X := L - k + (2 ^ (Z.of_nat e - 1) - 1)) in *.
  assert (2 ^ Z.of_nat e <= 2 ^ 15) as He15 by (apply Z.pow_le_mono_r; lia).
  assert (2 ^ Z.of_nat e = 2 * 2 ^ (Z.of_nat e - 1)) as Hee by (rewrite <- Z.pow_succ_r by lia; f_equal; lia).
  exists buf'. unfold float_from_bytes. change (0%nat, 128) with (cursor_at 0).
  rewrite test_mask_bit by lia. cbn [mbind res_bind].
  rewrite (read_exponent_number e 0 X) by
    first [lia|intros i Hi; rewrite Hbits by lia; by apply written_exponent
          |rewrite Z.shiftr_div_pow2 by lia; symmetry; apply Z.div_small; lia].
  cbn [mbind res_bind]. rewrite (proj2 (Z.eqb_neq X 0)) by lia.
  destruct (read_fraction_quotient round Hround f (0 + e) (Z.abs m) L 0 buf' (ld_finite 1 0) m0 t) as (v & Ev & Hv); try done; try lia.
  { intros i Hi. cbn [plus]. rewrite Hbits by lia. apply written_fraction; lia. }
  { replace (Z.shiftr (Z.abs m) (L - 0)) with 1; [by exists 1, 0|]. rewrite Z.sub_0_r.
    pose proof (Z.log2_nonneg (Z.abs m)). pose proof (Z.log2_spec (Z.abs m) ltac:(lia)) as [H1 H2]. fold L in H1, H2.
    rewrite Z.pow_succ_r in H2 by (unfold L; lia). rewrite Z.shiftr_div_pow2 by (unfold L; lia).
    apply Z.div_unique with (Z.abs m - 2 ^ L); lia. }
  rewrite Ev. cbn [mbind res_bind]. rewrite swrap16_small by lia. eexists. split; [exact E|]. split; [exact Hl|]. split; [reflexivity|].
  rewrite Hbits by lia. unfold fraction_bits, number_bits. cbn [Nat.eqb Nat.leb Nat.ltb andb orb plus]. rewrite !orb_false_r.
  replace m with (if m <? 0 then - Z.abs m else Z.abs m) at 2 by (destruct (Z.ltb_spec m 0); lia).
  apply (quotient_value v (Z.abs m) L f (X - (2 ^ (Z.of_nat e - 1) - 1)) k); try done; [unfold X; lia|apply Z.log2_nonneg|unfold X; lia].
Qed.

Lemma float_bytes_roundtrip_witness :
  exists buf' v, from_long_double (ld_finite (-13021) 0) 20 (replicate 16 NUL) = Some (Ok buf')
    /\ to_long_double id buf' = Ok v /\ ld_eq v (ld_finite (-13021) 0).
Proof.
  destruct (float_bytes_roundtrip id 15 112 (-13021) 0 (replicate 16 NUL) 20) as (buf' & v & H1 & _ & H2 & H3).
  - done.
  - lia.
  - lia.
  - lia.
  - vm_compute. lia.
  - split_and!; [done|done|by vm_compute|by vm_compute|by vm_compute|]. exists 13021, 0. by split_and!.
  - vm_compute. split; discriminate.
  - vm_compute. discriminate.
  - exists buf', v. split; [exact H1|]. by split.
Defined.

Lemma zero_roundtrip :
  from_long_double (ld_finite 0 0) 1 (replicate 16 x2a) = Some (Ok (replicate 16 NUL))
  /\ to_long_double id (replicate 16 NUL) = Ok (ld_finite 0 0).
Proof. split; vm_compute; reflexivity. Qed.

(** ** Deviations *)

(** The loops do not end for infinite numbers and for those that are no number. *)
Lemma infinite_never_written fuel b buf e f : (float_bytes e f <= length buf)%nat ->
  float_to_bytes fuel (ld_infinite b) buf e f = None.
Proof.
  intros Hl. unfold float_to_bytes. rewrite (proj2 (Nat.ltb_ge _ _)) by done.
  assert (forall fuel x, halve_loop fuel (ld_infinite false) x = None) as Hloop
    by (intros n; induction n as [|n IH]; intros x; [done|apply IH]).
  destruct b; cbn [ld_negative ld_opp negb]; by rewrite Hloop.
Qed.

Lemma nan_never_written fuel buf e f : (float_bytes e f <= length buf)%nat -> (0 < f)%nat ->
  float_to_bytes fuel ld_nan buf e f = None.
Proof.
  intros Hl Hf. unfold float_to_bytes. rewrite (proj2 (Nat.ltb_ge _ _)) by done. cbn [ld_negative].
  assert (forall n nf x c b, 0 < nf -> fraction_loop n nf ld_nan false x 0 c b = None) as Hloop.
  { intros n. induction n as [|n IH]; intros nf x c b Hnf; cbn [fraction_loop ld_nonzero]; rewrite (proj2 (Z.ltb_lt 0 nf)) by done;
      [done|]. cbn [andb ld_double ld_ge_one]. by apply IH. }
  destruct fuel; cbn [halve_loop ld_ge_one mbind option_bind]; by rewrite Hloop by lia.
Qed.

(** In the format of a [long double] a number beyond those of a [double] comes back as infinite,
    and one that is too small as zero. *)
Lemma large_long_double_infinite :
  (match from_long_double (ld_finite (2 ^ 1024) 0) 2000 (replicate 16 NUL) with
   | Some (Ok buf) => to_long_double id buf | _ => Fault undefined_behaviour end) = Ok (ld_infinite false).
Proof. vm_compute. reflexivity. Qed.

Lemma small_long_double_zero :
  exists k, (match from_long_double (ld_finite 1 1075) 2000 (replicate 16 NUL) with
   | Some (Ok buf) => to_long_double id buf | _ => Fault undefined_behaviour end) = Ok (ld_finite 0 k).
Proof. eexists. vm_compute. reflexivity. Qed.

(** A denormalised number comes back as another: half of the smallest normalised [double] as
    zero, since its exponent is written as that of zero. *)
Lemma denormal_lost :
  (match from_double (ld_finite 1 1023) 2000 (replicate 8 NUL) with
   | Some (Ok buf) => to_double id id buf | _ => Fault undefined_behaviour end)
  = Ok (ld_finite 0 1023).
Proof. vm_compute. reflexivity. Qed.
