(* ===== verification/Dict.v ===== *)
(** * Case-insensitive dictionaries

    Models [pion::ihash_multimap] (include/pion/hash_map.hpp) and the dictionary
    helpers of [http::message] (include/pion/http/message.hpp): [get_value],
    [change_value] and [delete_value].

    The multimap is the list of its entries in iteration order, a new entry last; two
    keys are the same key when [utils::iequals] says so.  The standard leaves the
    iteration order open, so the equivalence [≡ₚ] (the same entries in another order)
    is respected by every operation whose result does not name an order. *)
From S2P Require Import Prelude CLib StringUtils.

(** [std::unordered_multimap<std::string, std::string, ihash, iequal_to>]. *)
Abbreviation ihash_multimap := (list (bytes * bytes)).

(** ** Hashing *)

(** [hash_combine] for an element whose [std::hash] is [h]. *)
Definition hash_combine (seed h : Z) : Z :=
  Z.lxor seed (u64 (h + 0x9e3779b9 + u64 (Z.shiftl seed 6) + Z.shiftr seed 2)).

(** [ihash]; [hasher] is [std::hash<char>]. *)
Definition ihash (hasher : char -> Z) (x : bytes) : Z :=
  foldl (fun seed c => hash_combine seed (hasher (toupper c))) 0 x.

(** ** Operations of the multimap *)

Definition insert (d : ihash_multimap) (key value : bytes) : ihash_multimap :=
  d ++ [(key, value)].

(** [equal_range(key)]: the entries with that key. *)
Definition equal_range (d : ihash_multimap) (key : bytes) : ihash_multimap :=
  filter (fun kv => iequals (fst kv) key = true) d.

(** [find(key)]: the first entry of the range, or [end()]. *)
Definition find (d : ihash_multimap) (key : bytes) : option (bytes * bytes) :=
  head (equal_range d key).

Definition has_key (d : ihash_multimap) (key : bytes) : bool :=
  match find d key with Some _ => true | None => false end.

(** ** Helpers of [http::message] *)

Definition get_value (d : ihash_multimap) (key : bytes) : bytes :=
  match find d key with None => [] | Some kv => snd kv end.

Definition delete_value (d : ihash_multimap) (key : bytes) : ihash_multimap :=
  filter (fun kv => iequals (fst kv) key = false) d.

(** Give the first entry of the range the new value and erase the rest of the range. *)
Fixpoint change_first (d : ihash_multimap) (key value : bytes) : ihash_multimap :=
  match d with
  | [] => []
  | (k, v) :: d' => if iequals k key then (k, value) :: delete_value d' key
                    else (k, v) :: change_first d' key value
  end.

Definition change_value (d : ihash_multimap) (key value : bytes) : ihash_multimap :=
  if bool_decide (equal_range d key = []) then insert d key value
  else change_first d key value.

(** ** Entries of a key *)

Lemma equal_range_cons k v d key :
  equal_range ((k, v) :: d) key
  = if iequals k key then (k, v) :: equal_range d key else equal_range d key.
Proof.
  unfold equal_range. destruct (iequals k key) eqn:E.
  - by rewrite filter_cons_True.
  - by rewrite filter_cons_False by (simpl; congruence).
Qed.

Lemma delete_value_cons k v d key :
  delete_value ((k, v) :: d) key
  = if iequals k key then delete_value d key else (k, v) :: delete_value d key.
Proof.
  unfold delete_value. destruct (iequals k key) eqn:E.
  - by rewrite filter_cons_False by (simpl; congruence).
  - by rewrite filter_cons_True.
Qed.

Lemma equal_range_app d e key :
  equal_range (d ++ e) key = equal_range d key ++ equal_range e key.
Proof. apply filter_app. Qed.

Lemma equal_range_insert d k v key :
  equal_range (insert d k v) key
  = equal_range d key ++ (if iequals k key then [(k, v)] else []).
Proof. unfold insert. by rewrite equal_range_app, equal_range_cons. Qed.

(** Keys that are the same key have the same entries. *)
Lemma iequals_cong k k' key : iequals k k' = true -> iequals k key = iequals k' key.
Proof.
  intros H. apply eq_true_iff_eq. rewrite !iequals_spec in *. by rewrite H.
Qed.

Lemma equal_range_delete d k key :
  equal_range (delete_value d k) key = if iequals k key then [] else equal_range d key.
Proof.
  induction d as [|[k' v'] d IH]; [by destruct (iequals k key)|].
  rewrite delete_value_cons, equal_range_cons.
  destruct (iequals k' k) eqn:E1.
  - rewrite IH, (iequals_cong k' k key E1). by destruct (iequals k key).
  - rewrite equal_range_cons, IH. destruct (iequals k' key) eqn:E2; [|done].
    destruct (iequals k key) eqn:E3; [|done]. rewrite iequals_sym in E3.
    by rewrite (iequals_trans _ _ _ E2 E3) in E1.
Qed.

Lemma equal_range_change_first d k v key :
  equal_range (change_first d k v) key
  = if iequals k key then (fun kv => (fst kv, v)) <$> take 1 (equal_range d k)
    else equal_range d key.
Proof.
  induction d as [|[k' v'] d IH]; [by destruct (iequals k key)|].
  simpl change_first. rewrite !equal_range_cons. destruct (iequals k' k) eqn:E1.
  - rewrite equal_range_cons, equal_range_delete, (iequals_cong k' k key E1).
    destruct (iequals k key); done.
  - rewrite equal_range_cons, IH. destruct (iequals k' key) eqn:E2; [|done].
    destruct (iequals k key) eqn:E3; [|done]. rewrite iequals_sym in E3.
    by rewrite (iequals_trans _ _ _ E2 E3) in E1.
Qed.

Lemma equal_range_change_value d k v key :
  equal_range (change_value d k v) key
  = if iequals k key
    then [(from_option fst k (head (equal_range d k)), v)]
    else equal_range d key.
Proof.
  unfold change_value. case_bool_decide as H.
  - rewrite equal_range_insert, H. simpl. destruct (iequals k key) eqn:E.
    + assert (equal_range d key = []) as ->; [|done].
      rewrite <- H. unfold equal_range. apply list_filter_iff. intros [k' v']. simpl.
      rewrite (iequals_sym k' key), (iequals_sym k' k), (iequals_cong k key k' E). done.
    + by rewrite app_nil_r.
  - rewrite equal_range_change_first. destruct (iequals k key); [|done].
    by destruct (equal_range d k) as [|[k0 v0] l].
Qed.

Lemma get_value_range d key : get_value d key = from_option snd [] (head (equal_range d key)).
Proof. unfold get_value, find. by destruct (head _). Qed.

Lemma has_key_range d key : has_key d key = negb (bool_decide (equal_range d key = [])).
Proof. unfold has_key, find. by destruct (equal_range d key). Qed.

(** ** Order of iteration *)

#[export] Instance insert_Permutation :
  Proper ((≡ₚ) ==> eq ==> eq ==> (≡ₚ)) insert.
Proof. intros d e H k _ <- v _ <-. unfold insert. by rewrite H. Qed.

#[export] Instance equal_range_Permutation :
  Proper ((≡ₚ) ==> eq ==> (≡ₚ)) equal_range.
Proof. intros d e H k _ <-. unfold equal_range. by rewrite H. Qed.

#[export] Instance delete_value_Permutation :
  Proper ((≡ₚ) ==> eq ==> (≡ₚ)) delete_value.
Proof. intros d e H k _ <-. unfold delete_value. by rewrite H. Qed.

#[export] Instance has_key_Permutation : Proper ((≡ₚ) ==> eq ==> eq) has_key.
Proof.
  intros d e H k _ <-. rewrite !has_key_range. f_equal. apply bool_decide_ext.
  split; intros E.
  - symmetry. apply Permutation_nil_l. by rewrite <- E, H.
  - symmetry. apply Permutation_nil_l. by rewrite <- E, H.
Qed.

(** ** Properties *)

(** Keys that compare equal hash equally, as the container requires, for every
    hash function of characters. *)
Theorem ihash_respects_iequals hasher x y :
  iequals x y = true -> ihash hasher x = ihash hasher y.
Proof.
  rewrite iequals_spec. unfold ihash. generalize 0 as seed. revert y.
  induction x as [|a x IH]; intros [|b y]; simpl; try done.
  intros seed [= Hab Hxy]. apply fold_case_agree in Hab. rewrite Hab. by apply IH.
Qed.

Lemma ihash_respects_iequals_witness :
  ihash uchar (str "Host") = ihash uchar (str "HOST") /\ ihash uchar (str "Host") <> 0.
Proof. split; [by apply ihash_respects_iequals | by vm_compute]. Defined.

(** After [change_value] the key has exactly one value, the new one, and every
    other key has the entries it had. *)
Theorem change_value_correct d k v key :
  get_value (change_value d k v) k = v /\
  length (equal_range (change_value d k v) k) = 1%nat /\
  (iequals k key = false -> equal_range (change_value d k v) key = equal_range d key).
Proof.
  rewrite get_value_range, !equal_range_change_value, iequals_refl. simpl.
  repeat split. by intros ->.
Qed.

Lemma change_value_correct_witness :
  equal_range (change_value [(str "a", str "1"); (str "b", str "2")] (str "A") (str "3")) (str "b")
  = [(str "b", str "2")].
Proof.
  rewrite (proj2 (proj2 (change_value_correct [(str "a", str "1"); (str "b", str "2")]
    (str "A") (str "3") (str "b")))); reflexivity.
Defined.

(** After [delete_value] no spelling of the key is found any more, and every other
    key has the entries it had. *)
Theorem delete_value_correct d k key :
  has_key (delete_value d k) key = (if iequals k key then false else has_key d key) /\
  (iequals k key = false -> equal_range (delete_value d k) key = equal_range d key).
Proof.
  rewrite !has_key_range, equal_range_delete. destruct (iequals k key); by split.
Qed.

Lemma delete_value_correct_witness :
  equal_range (delete_value [(str "a", str "1"); (str "b", str "2")] (str "A")) (str "b")
  = [(str "b", str "2")].
Proof.
  rewrite (proj2 (delete_value_correct [(str "a", str "1"); (str "b", str "2")]
    (str "A") (str "b"))); reflexivity.
Defined.
