(* ===== verification/StdMap.v ===== *)
(** * Ordered maps

    [std::map<std::string, T>] and [std::set<std::string>] of the C++ standard library: the
    entries in the order of their keys, with the operations the sources use. *)
From Stdlib Require Import Sorting.Sorted.
From S2P Require Import Prelude.

(** ** The order of [std::string] *)

(** [char_traits<char>::compare]: by the values as [unsigned char]. *)
Fixpoint bytes_compare (s t : bytes) : comparison :=
  match s, t with
  | [], [] => Eq
  | [], _ :: _ => Lt
  | _ :: _, [] => Gt
  | a :: s', b :: t' =>
      match Z.compare (uchar a) (uchar b) with
      | Eq => bytes_compare s' t'
      | c => c
      end
  end.

Definition bytes_lt (s t : bytes) : Prop := bytes_compare s t = Lt.

Lemma bytes_compare_eq s t : bytes_compare s t = Eq <-> s = t.
Proof.
  revert t. induction s as [|a s IH]; intros [|b t]; simpl; try done.
  destruct (Z.compare_spec (uchar a) (uchar b)) as [E|E|E].
  - apply uchar_inj in E as ->. rewrite IH. by split; [intros ->|intros [= ->]].
  - split; [done|]. intros [= -> ->]. lia.
  - split; [done|]. intros [= -> ->]. lia.
Qed.

Lemma bytes_compare_antisym s t : bytes_compare t s = CompOpp (bytes_compare s t).
Proof.
  revert t. induction s as [|a s IH]; intros [|b t]; simpl; try done.
  rewrite (Z.compare_antisym (uchar a) (uchar b)). by destruct (Z.compare (uchar a) (uchar b)); simpl.
Qed.

Lemma bytes_compare_refl s : bytes_compare s s = Eq.
Proof. by apply bytes_compare_eq. Qed.

Lemma bytes_lt_irrefl s : ~ bytes_lt s s.
Proof. unfold bytes_lt. by rewrite bytes_compare_refl. Qed.

Lemma bytes_lt_trans s t u : bytes_lt s t -> bytes_lt t u -> bytes_lt s u.
Proof.
  unfold bytes_lt. revert t u. induction s as [|a s IH]; intros [|b t] [|c u]; simpl; try done.
  destruct (Z.compare_spec (uchar a) (uchar b)), (Z.compare_spec (uchar b) (uchar c));
    try done; destruct (Z.compare_spec (uchar a) (uchar c)); try lia; try done.
  apply IH.
Qed.

Lemma bytes_lt_gt s t : bytes_compare s t = Gt <-> bytes_lt t s.
Proof. unfold bytes_lt. rewrite (bytes_compare_antisym s t). by destruct (bytes_compare s t). Qed.

(** A string is not before one of its prefixes, and the shorter of two prefixes is the
    smaller one. *)
Lemma prefix_not_after p s : p `prefix_of` s -> ~ bytes_lt s p.
Proof.
  intros [k ->] H. unfold bytes_lt in H. induction p as [|a p IH]; simpl in *.
  - by destruct k.
  - rewrite Z.compare_refl in H. by apply IH.
Qed.

Lemma prefix_before p q s :
  p `prefix_of` s -> q `prefix_of` s -> (length p < length q)%nat -> bytes_lt p q.
Proof.
  revert q s. induction p as [|a p IH]; intros [|b q] s [k Hp] [l Hq] Hl; simpl in *; try lia.
  - done.
  - subst s. injection Hq as -> Hq. unfold bytes_lt. simpl. rewrite Z.compare_refl.
    eapply (IH q (p ++ k)); [by exists k|by exists l|lia].
Qed.

(** ** Maps *)

Abbreviation smap V := (list (bytes * V)).

Section Maps.
Context {V : Type}.
Implicit Types (l m : smap V) (k : bytes) (v : V).

(** [find], as the value of the entry. *)
Fixpoint map_find k m : option V :=
  match m with
  | [] => None
  | (k', v) :: m' => if decide (k' = k) then Some v else map_find k m'
  end.

(** [operator[]= ] and the assignment of an entry. *)
Fixpoint map_set k v m : smap V :=
  match m with
  | [] => [(k, v)]
  | (k', v') :: m' =>
      match bytes_compare k k' with
      | Lt => (k, v) :: m
      | Eq => (k, v) :: m'
      | Gt => (k', v') :: map_set k v m'
      end
  end.

(** [insert], which keeps the entry of a key that is there. *)
Definition map_insert k v m : smap V :=
  match map_find k m with Some _ => m | None => map_set k v m end.

(** [erase] of a key. *)
Definition map_erase k m : smap V := filter (fun kv => fst kv <> k) m.

(** The entries before [upper_bound], in the order of the map. *)
Fixpoint before_upper_bound k m : smap V :=
  match m with
  | [] => []
  | (k', v) :: m' =>
      match bytes_compare k k' with
      | Lt => []
      | _ => (k', v) :: before_upper_bound k m'
      end
  end.

(** The entries are in the strict order of the keys. *)
Definition map_ok m : Prop := StronglySorted (fun a b => bytes_lt (fst a) (fst b)) m.

Lemma map_ok_nil : map_ok [].
Proof. constructor. Qed.

Lemma map_ok_app_l l m : map_ok (l ++ m) -> map_ok l.
Proof.
  unfold map_ok. induction l as [|kv l IH]; [constructor|]. intros H.
  inversion H as [|? ? H1 H2]; subst. constructor; [by apply IH|]. by apply Forall_app in H2 as [? _].
Qed.

Lemma map_ok_app_r l m : map_ok (l ++ m) -> map_ok m.
Proof.
  unfold map_ok. induction l as [|kv l IH]; [done|]. intros H. inversion H; subst. by apply IH.
Qed.

Lemma map_ok_nodup m : map_ok m -> NoDup (fst <$> m).
Proof.
  induction 1 as [|[k v] m Hm IH Hf]; [constructor|]. cbn. constructor; [|done].
  intros ([k' v'] & -> & Hin)%list_elem_of_fmap. rewrite Forall_forall in Hf. by apply Hf, bytes_lt_irrefl in Hin.
Qed.

Lemma map_find_elem k v m : map_find k m = Some v -> (k, v) ∈ m.
Proof.
  induction m as [|[k' v'] m IH]; [done|]. cbn [map_find]. case_decide as E.
  - intros [= ->]. subst. by constructor.
  - intros H. constructor. by apply IH.
Qed.

Lemma map_elem_find k v m : map_ok m -> (k, v) ∈ m -> map_find k m = Some v.
Proof.
  induction 1 as [|[k' v'] m Hm IH Hf]; [by intros H%elem_of_nil|]. cbn [map_find].
  intros [[= -> ->]|H]%elem_of_cons; [by rewrite decide_True|].
  rewrite decide_False; [by apply IH|]. intros ->.
  rewrite Forall_forall in Hf. specialize (Hf _ H). by apply bytes_lt_irrefl in Hf.
Qed.

Lemma map_find_set k v m k' :
  map_ok m -> map_find k' (map_set k v m) = if decide (k = k') then Some v else map_find k' m.
Proof.
  induction 1 as [|[k1 v1] m Hm IH Hf]; cbn [map_set map_find]; [done|].
  destruct (bytes_compare k k1) eqn:E; cbn [map_find].
  - apply bytes_compare_eq in E as ->. by repeat case_decide.
  - done.
  - rewrite IH. repeat case_decide; try done. subst.
    rewrite bytes_compare_refl in E. done.
Qed.

Lemma map_set_keys k v m kv : kv ∈ map_set k v m -> kv = (k, v) \/ kv ∈ m.
Proof.
  induction m as [|[k1 v1] m IH]; cbn [map_set]; [by intros ->%list_elem_of_singleton; left|].
  destruct (bytes_compare k k1).
  - intros [->|H]%elem_of_cons; [by left|]. right. by constructor.
  - intros [->|H]%elem_of_cons; [by left|]. by right.
  - intros [->|H]%elem_of_cons; [right; by constructor|]. destruct (IH H); [by left|]. right. by constructor.
Qed.

Lemma map_set_ok k v m : map_ok m -> map_ok (map_set k v m).
Proof.
  induction 1 as [|[k1 v1] m Hm IH Hf]; cbn [map_set]; [by repeat constructor|].
  destruct (bytes_compare k k1) eqn:E.
  - apply bytes_compare_eq in E as ->. by constructor.
  - constructor; [by constructor|]. constructor; [done|].
    eapply List.Forall_impl; [|exact Hf]. intros [k2 v2]. simpl. by apply bytes_lt_trans.
  - constructor; [done|]. apply Forall_forall. intros [k2 v2] H.
    apply map_set_keys in H as [[= -> ->]|H]; [by apply bytes_lt_gt|].
    rewrite Forall_forall in Hf. by apply Hf.
Qed.

Lemma map_find_insert k v m k' :
  map_ok m ->
  map_find k' (map_insert k v m)
  = if decide (k = k') then Some (default v (map_find k m)) else map_find k' m.
Proof.
  intros Hm. unfold map_insert. destruct (map_find k m) as [w|] eqn:E.
  - case_decide as Ek; [by subst|done].
  - by rewrite map_find_set.
Qed.

Lemma map_insert_ok k v m : map_ok m -> map_ok (map_insert k v m).
Proof. intros Hm. unfold map_insert. destruct (map_find k m); [done|by apply map_set_ok]. Qed.

Lemma map_find_erase k m k' :
  map_find k' (map_erase k m) = if decide (k = k') then None else map_find k' m.
Proof.
  unfold map_erase. induction m as [|[k1 v1] m IH]; [cbn; by case_decide|].
  rewrite filter_cons. cbn [fst map_find]. destruct (decide (k1 <> k)) as [Hne|He].
  - cbn [map_find]. rewrite IH. repeat case_decide; congruence.
  - apply dec_stable in He. subst. rewrite IH. repeat case_decide; congruence.
Qed.

Lemma map_filter_ok (P : bytes * V -> Prop) `{forall kv, Decision (P kv)} m :
  map_ok m -> map_ok (filter P m).
Proof.
  induction 1 as [|kv m Hm IH Hf]; [constructor|]. rewrite filter_cons. case_decide; [|done].
  constructor; [done|]. apply Forall_forall. intros kv2 H2.
  apply list_elem_of_filter in H2 as [_ H2]. rewrite Forall_forall in Hf. by apply Hf.
Qed.

Lemma map_find_filter (P : bytes * V -> Prop) `{forall kv, Decision (P kv)} m k v :
  map_ok m -> map_find k (filter P m) = Some v -> map_find k m = Some v /\ P (k, v).
Proof.
  intros Hm Hf. apply map_find_elem, list_elem_of_filter in Hf as [HP Hin].
  split; [by apply map_elem_find|done].
Qed.

Lemma map_erase_ok k m : map_ok m -> map_ok (map_erase k m).
Proof. apply map_filter_ok. Qed.

Lemma before_upper_bound_prefix k m : before_upper_bound k m `prefix_of` m.
Proof.
  induction m as [|[k1 v1] m IH]; cbn; [done|].
  destruct (bytes_compare k k1); [by apply prefix_cons|apply prefix_nil|by apply prefix_cons].
Qed.

(** The entries that are not after the key are before the bound. *)
Lemma before_upper_bound_elem k m kv :
  map_ok m -> kv ∈ before_upper_bound k m <-> kv ∈ m /\ ~ bytes_lt k (fst kv).
Proof.
  induction 1 as [|[k1 v1] m Hm IH Hf]; cbn [before_upper_bound]; [set_solver|].
  destruct (bytes_compare k k1) eqn:E.
  2: { split; [by intros ?%elem_of_nil|]. intros [[->|H]%elem_of_cons Hlt]; [done|].
       exfalso. apply Hlt. rewrite Forall_forall in Hf.
       eapply bytes_lt_trans; [exact E|]. by apply Hf. }
  all: rewrite !elem_of_cons, IH; split; [intros [->|[? ?]]; [split; [by left|]|by auto]|intros [[->|?] ?]; auto];
    unfold bytes_lt; simpl; by rewrite E.
Qed.

End Maps.
