(* ===== verification/Resources.v ===== *)
(** * Resources of a server

    The search for the resource that a request belongs to, as [server::find_request_handler]
    (src/http_server.cpp) and [auth::find_resource] (src/http_auth.cpp) share it, and
    [server::strip_trailing_slash]. *)
From S2P Require Import Prelude CLib StdMap.

Definition SLASH : char := "/"%byte.

Definition strip_trailing_slash (s : bytes) : bytes :=
  match last s with
  | Some c => if c =c SLASH then take (length s - 1) s else s
  | None => s
  end.

(** The condition of the search loop: [key] is a prefix of [resource], and ends it or is
    followed by a slash. *)
Definition resource_matches (resource key : bytes) : bool :=
  (bool_decide (key = []) || starts key resource)
  && ((length resource =? length key)%nat
      || match resource !! length key with Some c => c =c SLASH | None => false end).

Section Search.
Context {V : Type}.
Implicit Types (m : smap V).

(** The loop from [upper_bound] back to [begin]. *)
Fixpoint first_match (resource : bytes) (l : smap V) : option (bytes * V) :=
  match l with
  | [] => None
  | kv :: l' => if resource_matches resource (fst kv) then Some kv else first_match resource l'
  end.

Definition find_resource (resource : bytes) m : option (bytes * V) :=
  first_match resource (reverse (before_upper_bound resource m)).

End Search.

(** ** The resource a request belongs to *)

(** [resource] is [key] or below it. *)
Definition under (key resource : bytes) : Prop :=
  resource = key \/ exists rest, resource = key ++ SLASH :: rest.

Lemma starts_prefix p s : starts p s = true <-> p `prefix_of` s.
Proof.
  revert s. induction p as [|a p IH]; intros s; cbn [starts].
  { split; [|done]. intros _. apply prefix_nil. }
  destruct s as [|b s].
  { split; [done|]. intros H%prefix_nil_inv. done. }
  rewrite andb_true_iff, IH. split.
  - intros [E%Byte.byte_dec_bl H]. subst. by apply prefix_cons.
  - intros H. split; [apply Byte.byte_dec_lb; by eapply prefix_cons_inv_1|by eapply prefix_cons_inv_2].
Qed.

Lemma resource_matches_under resource key :
  resource_matches resource key = true <-> under key resource.
Proof.
  unfold resource_matches, under. rewrite andb_true_iff, !orb_true_iff, starts_prefix, bool_decide_eq_true.
  rewrite Nat.eqb_eq. split.
  - intros [Hp Hn]. assert (key `prefix_of` resource) as [rest ->].
    { destruct Hp as [->|Hp]; [apply prefix_nil|done]. }
    destruct Hn as [Hn|Hn].
    + left. rewrite length_app in Hn. destruct rest; simpl in Hn; [by rewrite app_nil_r|lia].
    + right. rewrite lookup_app_r, Nat.sub_diag in Hn by lia.
      destruct rest as [|c rest]; [done|]. simpl in Hn. apply Byte.byte_dec_bl in Hn as ->. by exists rest.
  - intros [->|[rest ->]].
    + split; [by right|by left].
    + split; [right; by eexists|]. right. rewrite lookup_app_r, Nat.sub_diag by lia. done.
Qed.

Lemma under_prefix key resource : under key resource -> key `prefix_of` resource.
Proof. intros [->|[rest ->]]; [done|by eexists]. Qed.

Lemma under_refl s : under s s.
Proof. by left. Qed.

Lemma strip_trailing_slash_under s : under (strip_trailing_slash s) s.
Proof.
  unfold strip_trailing_slash. destruct (last s) as [c|] eqn:E; [|apply under_refl].
  destruct (c =c SLASH) eqn:Ec; [|apply under_refl]. apply Byte.byte_dec_bl in Ec as ->.
  apply last_Some in E as [l ->]. right. exists []. rewrite length_app. simpl.
  replace (length l + 1 - 1)%nat with (length l) by lia. by rewrite take_app_length.
Qed.

Section Correct.
Context {V : Type}.
Implicit Types (m l : smap V).

Lemma first_match_some resource l kv :
  first_match resource l = Some kv ->
  exists l1 l2, l = l1 ++ kv :: l2 /\ resource_matches resource (fst kv) = true
                /\ Forall (fun kv => resource_matches resource (fst kv) = false) l1.
Proof.
  induction l as [|kv' l IH]; [done|]. cbn [first_match].
  destruct (resource_matches resource (fst kv')) eqn:E.
  - intros [= ->]. by exists [], l.
  - intros (l1 & l2 & -> & H1 & H2)%IH. exists (kv' :: l1), l2. by repeat constructor.
Qed.

Lemma first_match_none resource l :
  first_match resource l = None -> Forall (fun kv => resource_matches resource (fst kv) = false) l.
Proof.
  induction l as [|kv l IH]; [constructor|]. cbn [first_match].
  destruct (resource_matches resource (fst kv)) eqn:E; [done|]. intros H. constructor; auto.
Qed.

(** What belongs to a resource is before its bound. *)
Lemma matching_entry_before resource m k v :
  map_ok m -> map_find k m = Some v -> under k resource ->
  (k, v) ∈ before_upper_bound resource m.
Proof.
  intros Hm Hf Hu. apply before_upper_bound_elem; [done|]. split; [by apply map_find_elem|].
  apply prefix_not_after. by apply under_prefix.
Qed.

Lemma find_resource_longest resource m :
  map_ok m ->
  match find_resource resource m with
  | Some (k, v) =>
      map_find k m = Some v /\ under k resource
      /\ forall k' v', map_find k' m = Some v' -> under k' resource -> (length k' <= length k)%nat
  | None => forall k v, map_find k m = Some v -> ~ under k resource
  end.
Proof.
  intros Hm. unfold find_resource. set (before := before_upper_bound resource m).
  destruct (first_match resource (reverse before)) as [[k v]|] eqn:E.
  - apply first_match_some in E as (l1 & l2 & El & Hk & Hl1).
    apply (f_equal reverse) in El. rewrite reverse_involutive, reverse_app, reverse_cons, <- app_assoc in El.
    apply resource_matches_under in Hk. cbn [fst] in Hk.
    assert ((k, v) ∈ before) as Hin by (rewrite El; set_solver).
    split; [|split; [done|]].
    { apply map_elem_find; [done|]. by apply before_upper_bound_elem in Hin as [? _]. }
    intros k' v' Hf' Hu'. destruct (decide (length k' <= length k)%nat) as [|Hgt]; [done|]. exfalso.
    pose proof (matching_entry_before resource m k' v' Hm Hf' Hu') as Hin'. fold before in Hin'.
    assert (bytes_lt k k') as Hlt by (eapply prefix_before; [by apply under_prefix..|lia]).
    assert (map_ok before) as Hok.
    { destruct (before_upper_bound_prefix resource m) as [rest Em]. fold before in Em.
      eapply map_ok_app_l. by rewrite <- Em. }
    rewrite El in Hin', Hok. apply elem_of_app in Hin' as [Hin'|Hin'].
    + clear -Hok Hin' Hlt. induction (reverse l2) as [|kv l IH]; [by apply elem_of_nil in Hin'|].
      inversion Hok as [|? ? H1 H2]; subst. apply elem_of_cons in Hin' as [<-|Hin']; [|by apply IH].
      rewrite Forall_forall in H2. apply (bytes_lt_irrefl k). eapply bytes_lt_trans; [exact Hlt|].
      apply (H2 (k, v)). set_solver.
    + cbn [app] in Hin'. apply elem_of_cons in Hin' as [[= -> ->]|Hin']; [lia|].
      rewrite elem_of_reverse in Hin'. rewrite Forall_forall in Hl1.
      specialize (Hl1 _ Hin'). cbn [fst] in Hl1.
      rewrite (proj2 (resource_matches_under resource k') Hu') in Hl1. done.
  - apply first_match_none in E. intros k v Hf Hu.
    pose proof (matching_entry_before resource m k v Hm Hf Hu) as Hin. fold before in Hin.
    rewrite Forall_forall in E. rewrite <- elem_of_reverse in Hin. specialize (E _ Hin). cbn [fst] in E.
    by rewrite (proj2 (resource_matches_under resource k) Hu) in E.
Qed.

End Correct.
