(* ===== verification/Paths.v ===== *)
(** * File names

    [std::filesystem::path] on POSIX, as far as the sources use it: a path is its text. *)
From S2P Require Import Prelude CLib StringUtils StdMap Resources.

Definition is_slash (c : char) : bool := c =c SLASH.

(** [p / q]: an absolute [q] replaces [p]. *)
Definition path_append (p q : bytes) : bytes :=
  match q with
  | c :: _ => if is_slash c then q
              else if bool_decide (p = []) || default false (is_slash <$> last p) then p ++ q
              else p ++ SLASH :: q
  | [] => if bool_decide (p = []) || default false (is_slash <$> last p) then p else p ++ [SLASH]
  end.

(** [filename]: what follows the last slash. *)
Definition path_filename (p : bytes) : bytes :=
  match find_last is_slash p with Some i => drop (S i) p | None => p end.

(** The position of the period that separates the stem and the extension of a file name. *)
Definition extension_pos (f : bytes) : option nat :=
  if bool_decide (f = str ".") || bool_decide (f = str "..") then None
  else match find_last (fun c => c =c "."%byte) f with
       | Some O => None
       | r => r
       end.

Definition path_stem (p : bytes) : bytes :=
  let f := path_filename p in
  match extension_pos f with Some i => take i f | None => f end.

Definition path_extension (p : bytes) : bytes :=
  let f := path_filename p in
  match extension_pos f with Some i => drop i f | None => [] end.

(** [parent_path]. *)
Definition parent_path (p : bytes) : bytes :=
  match find_last is_slash p with
  | None => []
  | Some i =>
      let d := strip_trailing is_slash (take i p) in
      if bool_decide (d = []) then [SLASH] else d
  end.

Lemma find_last_bound (p : char -> bool) s i : find_last p s = Some i -> (i < length s)%nat.
Proof.
  revert i. induction s as [|c s IH]; intros i H; [done|]. cbn [find_last] in H.
  destruct (find_last p s) as [j|]; [injection H as <-; simpl; specialize (IH j eq_refl); lia|].
  destruct (p c); [injection H as <-; simpl; lia|done].
Qed.

(** A file name is its stem and its extension. *)
Lemma stem_extension p : path_stem p ++ path_extension p = path_filename p.
Proof.
  unfold path_stem, path_extension. destruct (extension_pos _); [apply take_drop|apply app_nil_r].
Qed.
