(* ===== verification/Tribool.v ===== *)
(** * Three-state booleans

    Models [pion::tribool] (include/pion/tribool.hpp), the result type of the parsers:
    [true] (finished), [false] (error) or [indeterminate] (more data needed). *)
From S2P Require Import Prelude.

(** [tribool::value_t]. *)
Inductive tribool := false_value | true_value | indeterminate_value.

#[export] Instance tribool_eq_dec : EqDecision tribool.
Proof. solve_decision. Defined.

Definition tribool_of_bool (b : bool) : tribool := if b then true_value else false_value.

Definition indeterminate (x : tribool) : bool :=
  match x with indeterminate_value => true | _ => false end.

(** [operator safe_bool]: true only when definitely true. *)
Definition safe_bool (x : tribool) : bool :=
  match x with true_value => true | _ => false end.

Definition tri_not (x : tribool) : tribool :=
  match x with
  | false_value => true_value
  | true_value => false_value
  | indeterminate_value => indeterminate_value
  end.

Definition tri_and (x y : tribool) : tribool :=
  if safe_bool (tri_not x) || safe_bool (tri_not y) then false_value
  else if safe_bool x && safe_bool y then true_value
  else indeterminate_value.

Definition tri_or (x y : tribool) : tribool :=
  if safe_bool (tri_not x) && safe_bool (tri_not y) then false_value
  else if safe_bool x || safe_bool y then true_value
  else indeterminate_value.

Definition tri_eq (x y : tribool) : tribool :=
  if indeterminate x || indeterminate y then indeterminate_value
  else tri_or (tri_and x y) (tri_and (tri_not x) (tri_not y)).

Definition tri_ne (x y : tribool) : tribool :=
  if indeterminate x || indeterminate y then indeterminate_value
  else tri_not (tri_or (tri_and x y) (tri_and (tri_not x) (tri_not y))).

(** [rc == b] in a condition. *)
Definition tri_is (x : tribool) (b : bool) : bool := safe_bool (tri_eq x (tribool_of_bool b)).

Lemma tri_is_true x : tri_is x true = true <-> x = true_value.
Proof. by destruct x. Qed.

Lemma tri_is_false x : tri_is x false = true <-> x = false_value.
Proof. by destruct x. Qed.

(** The operators are Kleene's three-valued logic: negation, conjunction and
    disjunction are dual, and a comparison with [true] or [false] holds exactly for
    that value, so that a chain of the tests [rc == true], [rc == false] and
    [indeterminate(rc)] takes exactly one branch. *)
Theorem tribool_kleene x y :
  tri_not (tri_and x y) = tri_or (tri_not x) (tri_not y) /\
  tri_not (tri_or x y) = tri_and (tri_not x) (tri_not y) /\
  tri_ne x y = tri_not (tri_eq x y) /\
  (if tri_is x true then 1 else 0) + (if tri_is x false then 1 else 0)
  + (if indeterminate x then 1 else 0) = 1.
Proof. by destruct x, y. Qed.
