(* ===== verification/HttpTypes.v ===== *)
(** * HTTP names and header strings

    Models [pion::http::types] (src/http_types.cpp, include/pion/http/types.hpp): the
    constants the modelled code uses and the functions that build a query string and a
    [Set-Cookie] header.  [get_date_string] is in [Dates]. *)
From S2P Require Import Prelude CLib StringUtils Algorithm Dict.

Definition STRING_EMPTY : bytes := [].
Definition STRING_CRLF : bytes := [x0d; x0a].
Definition STRING_HTTP_VERSION : bytes := str "HTTP/".
Definition HEADER_NAME_VALUE_DELIMITER : bytes := str ": ".
Definition COOKIE_NAME_VALUE_DELIMITER : bytes := str "=".

Definition HEADER_COOKIE : bytes := str "Cookie".
Definition HEADER_SET_COOKIE : bytes := str "Set-Cookie".
Definition HEADER_CONNECTION : bytes := str "Connection".
Definition HEADER_CONTENT_TYPE : bytes := str "Content-Type".
Definition HEADER_CONTENT_LENGTH : bytes := str "Content-Length".
Definition HEADER_CONTENT_DISPOSITION : bytes := str "Content-Disposition".
Definition HEADER_TRANSFER_ENCODING : bytes := str "Transfer-Encoding".

Definition CONTENT_TYPE_URLENCODED : bytes := str "application/x-www-form-urlencoded".
Definition CONTENT_TYPE_MULTIPART_FORM_DATA : bytes := str "multipart/form-data".

Definition REQUEST_METHOD_HEAD : bytes := str "HEAD".
Definition REQUEST_METHOD_GET : bytes := str "GET".
Definition REQUEST_METHOD_POST : bytes := str "POST".

Definition RESPONSE_MESSAGE_OK : bytes := str "OK".
Definition RESPONSE_CODE_OK : Z := 200.

(** The other constants of the class. *)
Definition HEADER_HOST : bytes := str "Host".
Definition HEADER_CONTENT_LOCATION : bytes := str "Content-Location".
Definition HEADER_CONTENT_ENCODING : bytes := str "Content-Encoding".
Definition HEADER_LAST_MODIFIED : bytes := str "Last-Modified".
Definition HEADER_IF_MODIFIED_SINCE : bytes := str "If-Modified-Since".
Definition HEADER_LOCATION : bytes := str "Location".
Definition HEADER_AUTHORIZATION : bytes := str "Authorization".
Definition HEADER_REFERER : bytes := str "Referer".
Definition HEADER_USER_AGENT : bytes := str "User-Agent".
Definition HEADER_X_FORWARDED_FOR : bytes := str "X-Forwarded-For".
Definition HEADER_X_POWERED_BY : bytes := str "X-Powered-By".
Definition HEADER_X_REQUESTED_WITH : bytes := str "X-Requested-With".
Definition HEADER_X_UA_COMPATIBLE : bytes := str "X-UA-Compatible".
Definition HEADER_CLIENT_IP : bytes := str "Client-IP".
Definition HEADER_CACHE_CONTROL : bytes := str "Cache-Control".
Definition HEADER_ORIGIN : bytes := str "Origin".
Definition HEADER_ACCEPT : bytes := str "Accept".
Definition HEADER_ALLOW : bytes := str "Allow".
Definition HEADER_CORS_ALLOW_ORIGIN : bytes := str "Access-Control-Allow-Origin".
Definition HEADER_CORS_ALLOW_CREDENTIALS : bytes := str "Access-Control-Allow-Credentials".
Definition HEADER_CORS_ALLOW_METHODS : bytes := str "Access-Control-Allow-Methods".
Definition HEADER_CORS_ALLOW_HEADERS : bytes := str "Access-Control-Allow-Headers".
Definition HEADER_CORS_REQUEST_METHOD : bytes := str "Access-Control-Request-Method".
Definition CONTENT_TYPE_HTML : bytes := str "text/html".
Definition CONTENT_TYPE_TEXT : bytes := str "text/plain".
Definition CONTENT_TYPE_XML : bytes := str "text/xml".
Definition CONTENT_TYPE_APP_JSON : bytes := str "application/json".
Definition CONTENT_TYPE_APP_XHTML_XML : bytes := str "application/xhtml+xml".
Definition CONTENT_TYPE_HTML_UTF8 : bytes := str "text/html; charset=utf-8".
Definition CONTENT_TYPE_TEXT_UTF8 : bytes := str "text/plain; charset=utf-8".
Definition CONTENT_TYPE_XML_UTF8 : bytes := str "text/xml; charset=utf-8".
Definition CONTENT_TYPE_APP_JSON_UTF8 : bytes := str "application/json; charset=utf-8".
Definition CONTENT_TYPE_APP_XHTML_XML_UTF8 : bytes := str "application/xhtml+xml; charset=utf-8".
Definition REQUEST_METHOD_PUT : bytes := str "PUT".
Definition REQUEST_METHOD_DELETE : bytes := str "DELETE".
Definition RESPONSE_MESSAGE_CREATED : bytes := str "Created".
Definition RESPONSE_MESSAGE_ACCEPTED : bytes := str "Accepted".
Definition RESPONSE_MESSAGE_NO_CONTENT : bytes := str "No Content".
Definition RESPONSE_MESSAGE_FOUND : bytes := str "Found".
Definition RESPONSE_MESSAGE_UNAUTHORIZED : bytes := str "Unauthorized".
Definition RESPONSE_MESSAGE_FORBIDDEN : bytes := str "Forbidden".
Definition RESPONSE_MESSAGE_NOT_FOUND : bytes := str "Not Found".
Definition RESPONSE_MESSAGE_METHOD_NOT_ALLOWED : bytes := str "Method Not Allowed".
Definition RESPONSE_MESSAGE_NOT_MODIFIED : bytes := str "Not Modified".
Definition RESPONSE_MESSAGE_BAD_REQUEST : bytes := str "Bad Request".
Definition RESPONSE_MESSAGE_CONFLICT : bytes := str "Conflict".
Definition RESPONSE_MESSAGE_PRECONDITION_FAILED : bytes := str "Precondition Failed".
Definition RESPONSE_MESSAGE_UNSUPPORTED_MEDIA_TYPE : bytes := str "Unsupported Media Type".
Definition RESPONSE_MESSAGE_UNPROCESSABLE_ENTITY : bytes := str "Unprocessable Entity".
Definition RESPONSE_MESSAGE_UPGRADE_REQUIRED : bytes := str "Upgrade Required".
Definition RESPONSE_MESSAGE_SERVER_ERROR : bytes := str "Server Error".
Definition RESPONSE_MESSAGE_NOT_IMPLEMENTED : bytes := str "Not Implemented".
Definition RESPONSE_MESSAGE_CONTINUE : bytes := str "Continue".
Definition RESPONSE_CODE_CREATED : Z := 201.
Definition RESPONSE_CODE_ACCEPTED : Z := 202.
Definition RESPONSE_CODE_NO_CONTENT : Z := 204.
Definition RESPONSE_CODE_FOUND : Z := 302.
Definition RESPONSE_CODE_UNAUTHORIZED : Z := 401.
Definition RESPONSE_CODE_FORBIDDEN : Z := 403.
Definition RESPONSE_CODE_NOT_FOUND : Z := 404.
Definition RESPONSE_CODE_METHOD_NOT_ALLOWED : Z := 405.
Definition RESPONSE_CODE_NOT_MODIFIED : Z := 304.
Definition RESPONSE_CODE_BAD_REQUEST : Z := 400.
Definition RESPONSE_CODE_CONFLICT : Z := 409.
Definition RESPONSE_CODE_PRECONDITION_FAILED : Z := 412.
Definition RESPONSE_CODE_UNSUPPORTED_MEDIA_TYPE : Z := 415.
Definition RESPONSE_CODE_UNPROCESSABLE_ENTITY : Z := 422.
Definition RESPONSE_CODE_UPGRADE_REQUIRED : Z := 426.
Definition RESPONSE_CODE_SERVER_ERROR : Z := 500.
Definition RESPONSE_CODE_NOT_IMPLEMENTED : Z := 501.
Definition RESPONSE_CODE_CONTINUE : Z := 100.

(** The loop of [make_query_string]; [first] while the iterator is at [begin()]. *)
Fixpoint make_query_string_loop (first : bool) (params : ihash_multimap) : bytes :=
  match params with
  | [] => []
  | (k, v) :: params' =>
      (if first then [] else ["&"%byte]) ++ url_encode k ++ ["="%byte] ++ url_encode v
      ++ make_query_string_loop false params'
  end.

Definition make_query_string (query_params : ihash_multimap) : bytes :=
  make_query_string_loop true query_params.

Definition make_set_cookie_header (name value path : bytes) (has_max_age : bool)
    (max_age : Z) : bytes :=
  name ++ ["="%byte; x22] ++ value ++ [x22] ++ str "; Version=1"
  ++ (if bool_decide (path = []) then [] else str "; Path=" ++ path)
  ++ (if has_max_age then str "; Max-Age=" ++ to_string max_age else []).
