(* ===== verification/Message.v ===== *)
(** * HTTP messages

    Models [http::message] (include/pion/http/message.hpp, src/http_message.cpp) with
    its two subclasses [http::request] and [http::response]
    (include/pion/http/request.hpp, response.hpp): the state, the accessors that change
    it, the payload buffer, and the serialisation of a message into write buffers.
    The remote address ([m_remote_ip], an asio type that is only stored) is not modelled;
    the operations on a TCP connection ([send], [receive]) are in MessageIO.v. *)
From S2P Require Import Prelude CLib StringUtils Algorithm Dict HttpTypes.

(** ** State *)

(** Message data integrity status codes. *)
Inductive data_status_t := STATUS_NONE | STATUS_TRUNCATED | STATUS_PARTIAL | STATUS_OK.

#[export] Instance data_status_eq_dec : EqDecision data_status_t.
Proof. solve_decision. Defined.

(** [content_buffer_t]: the [m_len] bytes of the buffer; [None] is a byte that has been
    allocated ([new char[len+1]]) and not written yet. *)
Abbreviation content_buffer_t := (list (option char)).

(** What [http::request] adds to a message. *)
Record request_data := mk_request {
  rq_method : bytes;  (* m_method *)
  rq_resource : bytes;  (* m_resource *)
  rq_original_resource : bytes;  (* m_original_resource *)
  rq_query_string : bytes;  (* m_query_string *)
  rq_query_params : ihash_multimap;  (* m_query_params *)
  rq_user_record : option bytes  (* m_user_record: the name of the user it points to *)
}.

(** What [http::response] adds to a message. *)
Record response_data := mk_response {
  rs_status_code : Z;  (* m_status_code *)
  rs_status_message : bytes;  (* m_status_message *)
  rs_request_method : bytes  (* m_request_method *)
}.

(** The dynamic type of a message. *)
Inductive message_kind :=
| KRequest (r : request_data)
| KResponse (r : response_data).

(** [http::message]. *)
Record message := mk_message {
  m_first_line : bytes;
  m_is_valid : bool;
  m_is_chunked : bool;
  m_chunks_supported : bool;
  m_do_not_send_content_length : bool;
  m_version_major : Z;  (* uint16_t *)
  m_version_minor : Z;  (* uint16_t *)
  m_content_length : Z;  (* size_t *)
  m_content_buf : content_buffer_t;
  m_chunk_cache : bytes;
  m_headers : ihash_multimap;
  m_cookie_params : ihash_multimap;
  m_status : data_status_t;
  m_has_missing_packets : bool;
  m_has_data_after_missing : bool;
  m_kind : message_kind
}.

(** Functional update of one field. *)
Definition with_m_first_line (v : bytes) (m : message) : message :=
  mk_message v (m_is_valid m) (m_is_chunked m) (m_chunks_supported m)
    (m_do_not_send_content_length m) (m_version_major m) (m_version_minor m)
    (m_content_length m) (m_content_buf m) (m_chunk_cache m) (m_headers m)
    (m_cookie_params m) (m_status m) (m_has_missing_packets m)
    (m_has_data_after_missing m) (m_kind m).
Definition with_m_is_valid (v : bool) (m : message) : message :=
  mk_message (m_first_line m) v (m_is_chunked m) (m_chunks_supported m)
    (m_do_not_send_content_length m) (m_version_major m) (m_version_minor m)
    (m_content_length m) (m_content_buf m) (m_chunk_cache m) (m_headers m)
    (m_cookie_params m) (m_status m) (m_has_missing_packets m)
    (m_has_data_after_missing m) (m_kind m).
Definition with_m_is_chunked (v : bool) (m : message) : message :=
  mk_message (m_first_line m) (m_is_valid m) v (m_chunks_supported m)
    (m_do_not_send_content_length m) (m_version_major m) (m_version_minor m)
    (m_content_length m) (m_content_buf m) (m_chunk_cache m) (m_headers m)
    (m_cookie_params m) (m_status m) (m_has_missing_packets m)
    (m_has_data_after_missing m) (m_kind m).
Definition with_m_chunks_supported (v : bool) (m : message) : message :=
  mk_message (m_first_line m) (m_is_valid m) (m_is_chunked m) v
    (m_do_not_send_content_length m) (m_version_major m) (m_version_minor m)
    (m_content_length m) (m_content_buf m) (m_chunk_cache m) (m_headers m)
    (m_cookie_params m) (m_status m) (m_has_missing_packets m)
    (m_has_data_after_missing m) (m_kind m).
Definition with_m_do_not_send_content_length (v : bool) (m : message) : message :=
  mk_message (m_first_line m) (m_is_valid m) (m_is_chunked m) (m_chunks_supported m) v
    (m_version_major m) (m_version_minor m) (m_content_length m) (m_content_buf m)
    (m_chunk_cache m) (m_headers m) (m_cookie_params m) (m_status m)
    (m_has_missing_packets m) (m_has_data_after_missing m) (m_kind m).
Definition with_m_version_major (v : Z) (m : message) : message :=
  mk_message (m_first_line m) (m_is_valid m) (m_is_chunked m) (m_chunks_supported m)
    (m_do_not_send_content_length m) v (m_version_minor m) (m_content_length m)
    (m_content_buf m) (m_chunk_cache m) (m_headers m) (m_cookie_params m) (m_status m)
    (m_has_missing_packets m) (m_has_data_after_missing m) (m_kind m).
Definition with_m_version_minor (v : Z) (m : message) : message :=
  mk_message (m_first_line m) (m_is_valid m) (m_is_chunked m) (m_chunks_supported m)
    (m_do_not_send_content_length m) (m_version_major m) v (m_content_length m)
    (m_content_buf m) (m_chunk_cache m) (m_headers m) (m_cookie_params m) (m_status m)
    (m_has_missing_packets m) (m_has_data_after_missing m) (m_kind m).
Definition with_m_content_length (v : Z) (m : message) : message :=
  mk_message (m_first_line m) (m_is_valid m) (m_is_chunked m) (m_chunks_supported m)
    (m_do_not_send_content_length m) (m_version_major m) (m_version_minor m) v
    (m_content_buf m) (m_chunk_cache m) (m_headers m) (m_cookie_params m) (m_status m)
    (m_has_missing_packets m) (m_has_data_after_missing m) (m_kind m).
Definition with_m_content_buf (v : content_buffer_t) (m : message) : message :=
  mk_message (m_first_line m) (m_is_valid m) (m_is_chunked m) (m_chunks_supported m)
    (m_do_not_send_content_length m) (m_version_major m) (m_version_minor m)
    (m_content_length m) v (m_chunk_cache m) (m_headers m) (m_cookie_params m)
    (m_status m) (m_has_missing_packets m) (m_has_data_after_missing m) (m_kind m).
Definition with_m_chunk_cache (v : bytes) (m : message) : message :=
  mk_message (m_first_line m) (m_is_valid m) (m_is_chunked m) (m_chunks_supported m)
    (m_do_not_send_content_length m) (m_version_major m) (m_version_minor m)
    (m_content_length m) (m_content_buf m) v (m_headers m) (m_cookie_params m)
    (m_status m) (m_has_missing_packets m) (m_has_data_after_missing m) (m_kind m).
Definition with_m_headers (v : ihash_multimap) (m : message) : message :=
  mk_message (m_first_line m) (m_is_valid m) (m_is_chunked m) (m_chunks_supported m)
    (m_do_not_send_content_length m) (m_version_major m) (m_version_minor m)
    (m_content_length m) (m_content_buf m) (m_chunk_cache m) v (m_cookie_params m)
    (m_status m) (m_has_missing_packets m) (m_has_data_after_missing m) (m_kind m).
Definition with_m_cookie_params (v : ihash_multimap) (m : message) : message :=
  mk_message (m_first_line m) (m_is_valid m) (m_is_chunked m) (m_chunks_supported m)
    (m_do_not_send_content_length m) (m_version_major m) (m_version_minor m)
    (m_content_length m) (m_content_buf m) (m_chunk_cache m) (m_headers m) v
    (m_status m) (m_has_missing_packets m) (m_has_data_after_missing m) (m_kind m).
Definition with_m_status (v : data_status_t) (m : message) : message :=
  mk_message (m_first_line m) (m_is_valid m) (m_is_chunked m) (m_chunks_supported m)
    (m_do_not_send_content_length m) (m_version_major m) (m_version_minor m)
    (m_content_length m) (m_content_buf m) (m_chunk_cache m) (m_headers m)
    (m_cookie_params m) v (m_has_missing_packets m) (m_has_data_after_missing m)
    (m_kind m).
Definition with_m_has_missing_packets (v : bool) (m : message) : message :=
  mk_message (m_first_line m) (m_is_valid m) (m_is_chunked m) (m_chunks_supported m)
    (m_do_not_send_content_length m) (m_version_major m) (m_version_minor m)
    (m_content_length m) (m_content_buf m) (m_chunk_cache m) (m_headers m)
    (m_cookie_params m) (m_status m) v (m_has_data_after_missing m) (m_kind m).
Definition with_m_has_data_after_missing (v : bool) (m : message) : message :=
  mk_message (m_first_line m) (m_is_valid m) (m_is_chunked m) (m_chunks_supported m)
    (m_do_not_send_content_length m) (m_version_major m) (m_version_minor m)
    (m_content_length m) (m_content_buf m) (m_chunk_cache m) (m_headers m)
    (m_cookie_params m) (m_status m) (m_has_missing_packets m) v (m_kind m).
Definition with_m_kind (v : message_kind) (m : message) : message :=
  mk_message (m_first_line m) (m_is_valid m) (m_is_chunked m) (m_chunks_supported m)
    (m_do_not_send_content_length m) (m_version_major m) (m_version_minor m)
    (m_content_length m) (m_content_buf m) (m_chunk_cache m) (m_headers m)
    (m_cookie_params m) (m_status m) (m_has_missing_packets m)
    (m_has_data_after_missing m) v.

Definition with_rq_method (v : bytes) (r : request_data) : request_data :=
  mk_request v (rq_resource r) (rq_original_resource r) (rq_query_string r)
    (rq_query_params r) (rq_user_record r).
Definition with_rq_resource (v : bytes) (r : request_data) : request_data :=
  mk_request (rq_method r) v (rq_original_resource r) (rq_query_string r)
    (rq_query_params r) (rq_user_record r).
Definition with_rq_original_resource (v : bytes) (r : request_data) : request_data :=
  mk_request (rq_method r) (rq_resource r) v (rq_query_string r) (rq_query_params r)
    (rq_user_record r).
Definition with_rq_query_string (v : bytes) (r : request_data) : request_data :=
  mk_request (rq_method r) (rq_resource r) (rq_original_resource r) v
    (rq_query_params r) (rq_user_record r).
Definition with_rq_query_params (v : ihash_multimap) (r : request_data) : request_data :=
  mk_request (rq_method r) (rq_resource r) (rq_original_resource r) (rq_query_string r)
    v (rq_user_record r).
Definition with_rq_user_record (v : option bytes) (r : request_data) : request_data :=
  mk_request (rq_method r) (rq_resource r) (rq_original_resource r) (rq_query_string r)
    (rq_query_params r) v.

Definition with_rs_status_code (v : Z) (r : response_data) : response_data :=
  mk_response v (rs_status_message r) (rs_request_method r).
Definition with_rs_status_message (v : bytes) (r : response_data) : response_data :=
  mk_response (rs_status_code r) v (rs_request_method r).
Definition with_rs_request_method (v : bytes) (r : response_data) : response_data :=
  mk_response (rs_status_code r) (rs_status_message r) v.

(** ** Construction and clearing *)

Definition new_message (k : message_kind) : message :=
  mk_message [] false false false false 1 1 0 [] [] [] [] STATUS_NONE false false k.

Definition new_request : message :=
  new_message (KRequest (mk_request REQUEST_METHOD_GET [] [] [] [] None)).

Definition new_response (request_method : bytes) : message :=
  new_message (KResponse (mk_response RESPONSE_CODE_OK RESPONSE_MESSAGE_OK request_method)).

(** [clear_first_line]. *)
Definition clear_first_line (m : message) : message := with_m_first_line [] m.

(** [message::clear], without the subclass part. *)
Definition clear_base (m : message) : message :=
  new_message (m_kind m).

(** [request::clear] and [response::clear]. *)
Definition clear (m : message) : message :=
  let m := clear_base m in
  match m_kind m with
  | KRequest _ => with_m_kind (KRequest (mk_request [] [] [] [] [] None)) m
  | KResponse _ =>
      with_m_kind (KResponse (mk_response RESPONSE_CODE_OK RESPONSE_MESSAGE_OK [])) m
  end.

(** ** Accessors *)

Definition is_request (m : message) : bool :=
  match m_kind m with KRequest _ => true | KResponse _ => false end.

(** [is_content_length_implied], a virtual function of the subclasses. *)
Definition is_content_length_implied (m : message) : bool :=
  match m_kind m with
  | KRequest _ => false
  | KResponse r =>
      bytes_eqb (rs_request_method r) REQUEST_METHOD_HEAD
      || ((100 <=? rs_status_code r) && (rs_status_code r <=? 199))
      || (rs_status_code r =? 204) || (rs_status_code r =? 205)
      || (rs_status_code r =? 304)
  end.

Definition get_header (m : message) (key : bytes) : bytes := get_value (m_headers m) key.
Definition has_header (m : message) (key : bytes) : bool := has_key (m_headers m) key.
Definition get_cookie (m : message) (key : bytes) : bytes :=
  get_value (m_cookie_params m) key.
Definition has_cookie (m : message) (key : bytes) : bool := has_key (m_cookie_params m) key.
Definition add_cookie (key value : bytes) (m : message) : message :=
  with_m_cookie_params (insert (m_cookie_params m) key value) m.
Definition change_cookie (key value : bytes) (m : message) : message :=
  with_m_cookie_params (change_value (m_cookie_params m) key value) m.
Definition delete_cookie (key : bytes) (m : message) : message :=
  with_m_cookie_params (delete_value (m_cookie_params m) key) m.
Definition add_header (key value : bytes) (m : message) : message :=
  with_m_headers (insert (m_headers m) key value) m.
Definition change_header (key value : bytes) (m : message) : message :=
  with_m_headers (change_value (m_headers m) key value) m.
Definition delete_header (key : bytes) (m : message) : message :=
  with_m_headers (delete_value (m_headers m) key) m.

(** The parameter of the setters is a [uint16_t]. *)
Definition set_version_major (n : Z) (m : message) : message :=
  clear_first_line (with_m_version_major (u16 n) m).
Definition set_version_minor (n : Z) (m : message) : message :=
  clear_first_line (with_m_version_minor (u16 n) m).
Definition set_content_length (n : Z) (m : message) : message := with_m_content_length n m.
Definition set_is_valid (b : bool) (m : message) : message := with_m_is_valid b m.
Definition set_chunks_supported (b : bool) (m : message) : message :=
  with_m_chunks_supported b m.
Definition set_do_not_send_content_length (m : message) : message :=
  with_m_do_not_send_content_length true m.
Definition set_status (st : data_status_t) (m : message) : message := with_m_status st m.
Definition set_missing_packets (b : bool) (m : message) : message :=
  with_m_has_missing_packets b m.
Definition set_data_after_missing_packet (b : bool) (m : message) : message :=
  with_m_has_data_after_missing b m.
Definition set_content_type (type : bytes) (m : message) : message :=
  change_header HEADER_CONTENT_TYPE type m.

Definition check_keep_alive (m : message) : bool :=
  negb (bytes_eqb (get_header m HEADER_CONNECTION) (str "close"))
  && ((1 <? m_version_major m)
      || ((1 <=? m_version_major m) && (1 <=? m_version_minor m))).

(** Members of [http::request]; the caller holds a reference to a request. *)
Definition on_request (f : request_data -> request_data) (m : message) : message :=
  match m_kind m with
  | KRequest r => with_m_kind (KRequest (f r)) m
  | KResponse _ => m
  end.

Definition set_method (s : bytes) (m : message) : message :=
  clear_first_line (on_request (with_rq_method s) m).
Definition set_resource (s : bytes) (m : message) : message :=
  clear_first_line
    (on_request (fun r => with_rq_resource s (with_rq_original_resource s r)) m).
Definition change_resource (s : bytes) (m : message) : message :=
  on_request (with_rq_resource s) m.
Definition set_query_string (s : bytes) (m : message) : message :=
  clear_first_line (on_request (with_rq_query_string s) m).
Definition on_queries (f : ihash_multimap -> ihash_multimap) (m : message) : message :=
  on_request (fun r => with_rq_query_params (f (rq_query_params r)) r) m.
Definition add_query (key value : bytes) (m : message) : message :=
  on_queries (fun d => insert d key value) m.
Definition change_query (key value : bytes) (m : message) : message :=
  on_queries (fun d => change_value d key value) m.
Definition delete_query (key : bytes) (m : message) : message :=
  on_queries (fun d => delete_value d key) m.

(** Members of [http::response]. *)
Definition on_response (f : response_data -> response_data) (m : message) : message :=
  match m_kind m with
  | KResponse r => with_m_kind (KResponse (f r)) m
  | KRequest _ => m
  end.

Definition set_status_code (n : Z) (m : message) : message :=
  clear_first_line (on_response (with_rs_status_code n) m).
Definition set_status_message (s : bytes) (m : message) : message :=
  clear_first_line (on_response (with_rs_status_message s) m).

(** [response::update_request_info]: take the method and the version of the request. *)
Definition update_request_info (method : bytes) (major minor : Z) (m : message) : message :=
  let m := on_response (with_rs_request_method method) m in
  if (major =? 1) && (1 <=? minor) then set_chunks_supported true m
  else if major =? 0 then
    set_version_minor 0 (set_version_major 0 (set_status_message [] (set_status_code 0 m)))
  else m.

(** The overloads of [response::set_cookie] and [response::delete_cookie]. *)
Definition set_cookie (name value path : bytes) (max_age : option Z) (m : message) : message :=
  add_header HEADER_SET_COOKIE
    (make_set_cookie_header name value path (bool_decide (is_Some max_age)) (default 0 max_age))
    m.
Definition delete_set_cookie (name path : bytes) (m : message) : message :=
  set_cookie name [] path (Some 0) m.

(** ** Payload content *)

(** [content_buffer_t::resize] on the buffer of the message: a new block of
    [len + 1] bytes, not initialised, whose last byte is set to NUL.  The size of the
    block is computed in [size_t]: for the largest length it wraps to zero and the
    terminator is written outside of the block.  Allocation itself is assumed to
    succeed. *)
Definition create_content_buffer (m : message) : res message :=
  let len := m_content_length m in
  if (0 <? len) && (u64 (len + 1) <=? len) then Fault undefined_behaviour
  else Ok (with_m_content_buf (replicate (Z.to_nat len) None) m).

(** Writing [data] at offset [off] of the buffer; outside of its bounds it is
    undefined. *)
Definition write_content (off : Z) (data : bytes) (m : message) : res message :=
  if (0 <=? off) && (off + zlen data <=? zlen (m_content_buf m))
  then Ok (with_m_content_buf
             (take (Z.to_nat off) (m_content_buf m) ++ (Some <$> data)
              ++ drop (Z.to_nat off + length data) (m_content_buf m)) m)
  else Fault undefined_behaviour.

(** Reading the first [m_content_length] bytes of the buffer. *)
Definition read_content (m : message) : res bytes :=
  if m_content_length m <=? zlen (m_content_buf m)
  then match mapM id (take (Z.to_nat (m_content_length m)) (m_content_buf m)) with
       | Some s => Ok s
       | None => Fault undefined_behaviour
       end
  else Fault undefined_behaviour.

(** [message::set_content] and [request::set_content]. *)
Definition set_content (content : bytes) (m : message) : res message :=
  m ← create_content_buffer (set_content_length (zlen content) m);
  write_content 0 content m.

Definition clear_content (m : message) : res message :=
  m ← create_content_buffer (set_content_length 0 m);
  Ok (delete_header HEADER_CONTENT_TYPE m).

Definition concatenate_chunks (m : message) : res message :=
  m ← create_content_buffer (set_content_length (zlen (m_chunk_cache m)) m);
  if 0 <? zlen (m_chunk_cache m) then write_content 0 (m_chunk_cache m) m else Ok m.

(** [use_query_params_for_query_string] and [use_query_params_for_post_content]. *)
Definition use_query_params_for_query_string (m : message) : message :=
  match m_kind m with
  | KRequest r => set_query_string (make_query_string (rq_query_params r)) m
  | KResponse _ => m
  end.
Definition use_query_params_for_post_content (m : message) : res message :=
  match m_kind m with
  | KRequest r =>
      m ← set_content (make_query_string (rq_query_params r)) m;
      Ok (set_content_type CONTENT_TYPE_URLENCODED (set_method REQUEST_METHOD_POST m))
  | KResponse _ => Ok m
  end.

(** ** Headers that describe the payload *)

(** [std::stoul] throws when the value is not a number.  The trimmed copy that
    [utils::trim] returns is not used by the source. *)
Definition update_content_length_using_header (m : message) : res message :=
  match find (m_headers m) HEADER_CONTENT_LENGTH with
  | None => Ok (with_m_content_length 0 m)
  | Some kv =>
      let trimmed_length := snd kv in
      n ← stoul trimmed_length;
      Ok (with_m_content_length n m)
  end.

(** [std::regex_match(s, REGEX_ICASE_CHUNKED)] for ".*chunked.*" with [icase]: the dot
    matches everything but the line terminators. *)
Definition matches_chunked (s : bytes) : bool :=
  match find_sub (str "chunked") (to_lower s) with
  | Some _ => forallb (fun c => (c <>c LF) && (c <>c CR)) s
  | None => false
  end.

Definition update_transfer_encoding_using_header (m : message) : message :=
  let m := with_m_is_chunked false m in
  match find (m_headers m) HEADER_TRANSFER_ENCODING with
  | Some kv => with_m_is_chunked (matches_chunked (snd kv)) m
  | None => m
  end.

(** ** Serialisation *)

Definition get_version_string (m : message) : bytes :=
  STRING_HTTP_VERSION ++ to_string (m_version_major m) ++ ["."%byte]
  ++ to_string (m_version_minor m).

(** [request::update_first_line] and [response::update_first_line]. *)
Definition update_first_line (m : message) : message :=
  with_m_first_line
    match m_kind m with
    | KRequest r =>
        rq_method r ++ [SP] ++ rq_resource r
        ++ (if bool_decide (rq_query_string r = []) then []
            else ["?"%byte] ++ rq_query_string r)
        ++ [SP] ++ get_version_string m
    | KResponse r =>
        get_version_string m ++ [SP] ++ to_string (rs_status_code r) ++ [SP]
        ++ rs_status_message r
    end m.

(** [get_first_line] fills the cached line when it is empty. *)
Definition get_first_line (m : message) : message * bytes :=
  let m := if bool_decide (m_first_line m = []) then update_first_line m else m in
  (m, m_first_line m).

Definition prepare_headers_for_send (keep_alive using_chunks : bool) (m : message) : message :=
  let m := change_header HEADER_CONNECTION
             (if keep_alive then str "Keep-Alive" else str "close") m in
  if using_chunks then
    if m_chunks_supported m then change_header HEADER_TRANSFER_ENCODING (str "chunked") m
    else m
  else if negb (m_do_not_send_content_length m) then
    change_header HEADER_CONTENT_LENGTH (to_string (m_content_length m)) m
  else m.

(** [append_cookie_headers] of the two subclasses. *)
Definition append_cookie_headers (m : message) : message :=
  foldl (fun m kv =>
           match m_kind m with
           | KRequest _ =>
               add_header HEADER_COOKIE
                 (fst kv ++ COOKIE_NAME_VALUE_DELIMITER ++ snd kv) m
           | KResponse _ => set_cookie (fst kv) (snd kv) (str "/") None m
           end) m (m_cookie_params m).

(** [append_headers]: the buffers added for the headers and the blank line. *)
Definition append_headers (m : message) : list bytes :=
  (m_headers m ≫= fun kv =>
     [fst kv; HEADER_NAME_VALUE_DELIMITER; snd kv; STRING_CRLF]) ++ [STRING_CRLF].

Definition prepare_buffers_for_send (keep_alive using_chunks : bool) (m : message)
  : message * list bytes :=
  let m := prepare_headers_for_send keep_alive using_chunks m in
  let '(m, first_line) := get_first_line m in
  let m := append_cookie_headers m in
  (m, [first_line; STRING_CRLF] ++ append_headers m).

(** The bytes of [message::write] on a stream that accepts everything (and the
    buffers [message::send] hands to the connection). *)
Definition write (headers_only : bool) (m : message) : res (message * bytes) :=
  let '(m, buffers) := prepare_buffers_for_send true false m in
  if negb headers_only && (0 <? m_content_length m) then
    content ← read_content m;
    Ok (m, mjoin (buffers ++ [content]))
  else Ok (m, mjoin buffers).

(** ** The payload buffer *)

Lemma create_content_buffer_ok m :
  0 <= m_content_length m < 2 ^ 64 - 1 ->
  create_content_buffer m
  = Ok (with_m_content_buf (replicate (Z.to_nat (m_content_length m)) None) m).
Proof.
  intros H. unfold create_content_buffer. rewrite u64_small by lia.
  replace (m_content_length m + 1 <=? m_content_length m) with false by lia.
  by rewrite andb_false_r.
Qed.

Lemma mapM_Some (s : bytes) : mapM id (Some <$> s) = Some s.
Proof. by apply mapM_fmap_Some. Qed.

(** Writing a block of exactly the size of the buffer fills it. *)
Lemma write_content_full m s :
  zlen (m_content_buf m) = zlen s ->
  write_content 0 s m = Ok (with_m_content_buf (Some <$> s) m).
Proof.
  intros H. unfold write_content. replace (0 + zlen s <=? _) with true by lia.
  cbn [andb]. rewrite take_0, drop_ge; [|unfold zlen in H; simpl; lia].
  by rewrite app_nil_r.
Qed.

Lemma read_content_full m s :
  m_content_buf m = Some <$> s -> m_content_length m = zlen s -> read_content m = Ok s.
Proof.
  intros Hb Hl. unfold read_content. rewrite Hb, Hl.
  assert (zlen (Some <$> s) = zlen s) as Hz by (unfold zlen; by rewrite length_fmap).
  rewrite Hz, Z.leb_refl, take_ge; [by rewrite mapM_Some|].
  rewrite length_fmap. unfold zlen. lia.
Qed.

Lemma zlen_replicate {A} n (x : A) : 0 <= n -> zlen (replicate (Z.to_nat n) x) = n.
Proof. intros H. unfold zlen. rewrite length_replicate. lia. Qed.

(** [concatenate_chunks] makes the chunk cache the content of the message. *)
Lemma concatenate_chunks_ok m :
  zlen (m_chunk_cache m) < 2 ^ 64 - 1 ->
  concatenate_chunks m
  = Ok (with_m_content_buf (Some <$> m_chunk_cache m)
          (with_m_content_length (zlen (m_chunk_cache m)) m)).
Proof.
  intros H. pose proof (zlen_nonneg (m_chunk_cache m)) as Hp. unfold concatenate_chunks.
  rewrite create_content_buffer_ok by (simpl; lia). cbn [mbind res_bind].
  destruct (0 <? zlen (m_chunk_cache m)) eqn:E; simpl; rewrite E.
  - rewrite write_content_full; [done|]. simpl. by apply zlen_replicate.
  - assert (m_chunk_cache m = []) as -> by (apply zlen_zero_iff; lia). done.
Qed.

(** The content set on a message is the content that is read from it. *)
Theorem set_content_read s m :
  zlen s < 2 ^ 64 - 1 ->
  exists m', set_content s m = Ok m' /\ read_content m' = Ok s
             /\ m_content_length m' = zlen s.
Proof.
  intros H. pose proof (zlen_nonneg s). unfold set_content.
  rewrite create_content_buffer_ok by (simpl; lia). cbn [mbind res_bind].
  rewrite write_content_full by (simpl; by apply zlen_replicate).
  eexists. split; [done|]. split; [|done]. by apply read_content_full.
Qed.

Lemma set_content_read_witness :
  exists m', set_content (str "hello") new_request = Ok m' /\ read_content m' = Ok (str "hello")
             /\ m_content_length m' = 5.
Proof. exact (set_content_read (str "hello") new_request eq_refl). Defined.
