(* ===== verification/ContentBuffers.v ===== *)
(** * The content buffers of messages as objects

    In [Message] a content buffer is a list of bytes.  This file models the class
    [content_buffer_t] (http/message.hpp) as it is: objects with a pointer into blocks that are
    allocated and freed, and the copies that messages make of each other.  It proves that the
    list is a faithful picture: every object owns its block, a copy shares nothing, no block is lost. *)
From S2P Require Import Prelude CLib Dict Message.
From stdpp Require Import gmap.
#[local] Open Scope Z_scope.

Definition block := nat.

(** [m_ptr] points to [m_empty] of the object, or to the beginning of a block. *)
Record buffer_object := mk_buffer_object {
  b_buf : option block;  (* m_buf *)
  b_len : Z;  (* m_len, size_t *)
  b_ptr : option block  (* m_ptr *)
}.

(** The blocks that are allocated, with what was written to them, and the objects. *)
Record store := mk_store {
  blocks : gmap block (list (option char));
  next_block : block;
  objects : gmap nat buffer_object
}.

Definition empty_store : store := mk_store ∅ 0%nat ∅.

Definition new_buffer : buffer_object := mk_buffer_object None 0 None.

(** [unique_ptr::reset]: the old block is freed. *)
Definition free_block (b : option block) (h : gmap block (list (option char))) : gmap block (list (option char)) :=
  match b with Some b => delete b h | None => h end.

(** [resize] of the object [o]. *)
Definition resize (o : nat) (len : Z) (st : store) : res store :=
  match objects st !! o with
  | None => Fault undefined_behaviour
  | Some x =>
      if len =? 0
      then Ok (mk_store (free_block (b_buf x) (blocks st)) (next_block st) (<[o := mk_buffer_object None 0 None]> (objects st)))
      else if u64 (len + 1) <=? len then Fault undefined_behaviour
      else
        let b := next_block st in
        let h := <[b := replicate (Z.to_nat len) None ++ [Some NUL]]> (blocks st) in
        Ok (mk_store (free_block (b_buf x) h) (S b) (<[o := mk_buffer_object (Some b) len (Some b)]> (objects st)))
  end.

(** [memcpy(get(), buf.get(), buf.size())] from the object [p] to the object [o]. *)
Definition copy_bytes (o p : nat) (st : store) : res store :=
  match objects st !! o, objects st !! p with
  | Some x, Some y =>
      match b_ptr x, b_ptr y with
      | Some b, Some c =>
          match blocks st !! b, blocks st !! c with
          | Some to, Some from =>
              if (b_len y <=? zlen to) && (b_len y <=? zlen from)
              then Ok (mk_store (<[b := take (Z.to_nat (b_len y)) from ++ drop (Z.to_nat (b_len y)) to]> (blocks st))
                         (next_block st) (objects st))
              else Fault undefined_behaviour
          | _, _ => Fault undefined_behaviour
          end
      | _, _ => Fault undefined_behaviour
      end
  | _, _ => Fault undefined_behaviour
  end.

(** The default constructor and the destructor. *)
Definition construct (o : nat) (st : store) : store :=
  mk_store (blocks st) (next_block st) (<[o := new_buffer]> (objects st)).
Definition destruct_buffer (o : nat) (st : store) : store :=
  match objects st !! o with
  | Some x => mk_store (free_block (b_buf x) (blocks st)) (next_block st) (delete o (objects st))
  | None => st
  end.

(** [operator=]: [o = p] when an object is assigned to itself. *)
Definition assign (o p : nat) (st : store) : res store :=
  match objects st !! p with
  | None => Fault undefined_behaviour
  | Some y => if negb (b_len y =? 0) then st ← resize o (b_len y) st; copy_bytes o p st else resize o 0 st
  end.

Definition copy_construct (o p : nat) (st : store) : res store :=
  match objects st !! p with
  | None => Fault undefined_behaviour
  | Some y =>
      let st := construct o st in
      if negb (b_len y =? 0) then st ← resize o (b_len y) st; copy_bytes o p st else Ok st
  end.

(** Bytes are written through [get()]. *)
Definition write_bytes (o : nat) (off : nat) (data : bytes) (st : store) : res store :=
  match objects st !! o with
  | None => Fault undefined_behaviour
  | Some x =>
      if negb (Z.of_nat off + zlen data <=? b_len x) then Fault undefined_behaviour
      else match b_ptr x with
           | None => Ok st
           | Some b =>
               match blocks st !! b with
               | None => Fault undefined_behaviour
               | Some l =>
                   Ok (mk_store (<[b := take off l ++ (Some <$> data) ++ drop (off + length data) l]> (blocks st))
                         (next_block st) (objects st))
               end
           end
  end.

(** What a buffer holds, the list of [Message]. *)
Definition contents (st : store) (o : nat) : option content_buffer_t :=
  x ← objects st !! o;
  match b_ptr x with
  | None => Some []
  | Some b => take (Z.to_nat (b_len x)) <$> blocks st !! b
  end.

(** What a program does with buffers. *)
Inductive buffer_op :=
| op_construct (o : nat) | op_destruct (o : nat) | op_copy (o p : nat) | op_assign (o p : nat)
| op_resize (o : nat) (len : Z) | op_write (o off : nat) (data : bytes).

(** Objects are constructed once and used between construction and destruction. *)
Definition buffer_step (op : buffer_op) (st : store) : res store :=
  match op with
  | op_construct o => match objects st !! o with None => Ok (construct o st) | Some _ => Fault assertion_failed end
  | op_destruct o => Ok (destruct_buffer o st)
  | op_copy o p => match objects st !! o with None => copy_construct o p st | Some _ => Fault assertion_failed end
  | op_assign o p => assign o p st
  | op_resize o len => resize o len st
  | op_write o off data => write_bytes o off data st
  end.

Fixpoint buffer_run (ops : list buffer_op) (st : store) : res store :=
  match ops with [] => Ok st | op :: ops' => st ← buffer_step op st; buffer_run ops' st end.

(** ** Every object owns its block *)

(** The object with its block: the block has the length and a terminator behind it. *)
Definition object_ok (st : store) (x : buffer_object) : Prop :=
  b_ptr x = b_buf x /\ 0 <= b_len x /\
  match b_buf x with
  | None => b_len x = 0
  | Some b => 0 < b_len x < 2 ^ 64 - 1
              /\ exists l, blocks st !! b = Some l /\ length l = S (Z.to_nat (b_len x)) /\ last l = Some (Some NUL)
  end.

Record store_ok (st : store) : Prop := mk_store_ok {
  st_objects : forall o x, objects st !! o = Some x -> object_ok st x;
  st_owner : forall o o' x x' b, objects st !! o = Some x -> objects st !! o' = Some x' ->
             b_buf x = Some b -> b_buf x' = Some b -> o = o';
  st_blocks : forall b, is_Some (blocks st !! b) <-> exists o x, objects st !! o = Some x /\ b_buf x = Some b;
  st_next : forall b, is_Some (blocks st !! b) -> (b < next_block st)%nat
}.

Lemma empty_store_ok : store_ok empty_store.
Proof.
  split; cbn; try done.
  - intros b. rewrite lookup_empty. split; [by intros []|]. by intros (o & x & Hx & _).
  - intros b [? H]. done.
Qed.

(** An object gives up its block and gets a new one, or none: [l] is what it holds then. *)
Definition replace_block (o : nat) (x : buffer_object) (l : option (list (option char))) (st : store) : store :=
  match l with
  | None => mk_store (free_block (b_buf x) (blocks st)) (next_block st) (<[o := mk_buffer_object None 0 None]> (objects st))
  | Some l =>
      let b := next_block st in
      mk_store (free_block (b_buf x) (<[b := l]> (blocks st))) (S b)
        (<[o := mk_buffer_object (Some b) (zlen l - 1) (Some b)]> (objects st))
  end.

Lemma free_lookup b h c : free_block b h !! c = if decide (b = Some c) then None else h !! c.
Proof.
  destruct b as [b|]; cbn; [|by case_decide]. rewrite lookup_delete. repeat case_decide; congruence.
Qed.

Lemma next_free st : store_ok st -> blocks st !! next_block st = None.
Proof.
  intros Hok. destruct (blocks st !! next_block st) eqn:E; [|done]. pose proof (st_next st Hok (next_block st) ltac:(by eexists)). lia.
Qed.

Section Replace.
Context (st : store) (o : nat) (x : buffer_object) (l : option (list (option char))).
Context (Hok : store_ok st) (Hx : objects st !! o = Some x).
Context (Hl : match l with None => True | Some l => (1 < length l)%nat /\ zlen l < 2 ^ 64 /\ last l = Some (Some NUL) end).
Let st' := replace_block o x l st.

(** The blocks of the other objects stay. *)
Lemma replace_other o' y b : o' <> o -> objects st !! o' = Some y -> b_buf y = Some b -> blocks st' !! b = blocks st !! b.
Proof using Hok Hx.
  clear Hl. intros Hne Hy Hb. assert (b_buf x <> Some b) as Hnb by (intros E; by apply Hne, (st_owner st Hok o' o y x b)).
  assert (is_Some (blocks st !! b)) as Hs by (apply (st_blocks st Hok); by exists o', y).
  pose proof (st_next st Hok b Hs) as Hn. unfold st', replace_block. destruct l; cbn; rewrite free_lookup, decide_False by done; [|done].
  rewrite lookup_insert_ne; [done|lia].
Qed.

Lemma replace_ok : store_ok st'.
Proof using Hok Hx Hl.
  pose proof (next_free st Hok) as Hf.
  assert (b_buf x <> Some (next_block st)) as Hnx.
  { intros E. assert (is_Some (blocks st !! next_block st)) as [? H] by (apply (st_blocks st Hok); by exists o, x). congruence. }
  assert (forall o' y, objects st' !! o' = Some y ->
            if decide (o' = o) then y = match l with None => mk_buffer_object None 0 None
                                        | Some l => mk_buffer_object (Some (next_block st)) (zlen l - 1) (Some (next_block st)) end
            else objects st !! o' = Some y) as Hlook.
  { intros o' y. unfold st', replace_block. destruct l; cbn; rewrite lookup_insert; repeat case_decide; congruence. }
  assert (forall o' y b, o' <> o -> objects st !! o' = Some y -> b_buf y = Some b -> b <> next_block st) as Hold.
  { intros o' y b _ Hy Hb ->. assert (is_Some (blocks st !! next_block st)) as [? H] by (apply (st_blocks st Hok); by exists o', y). congruence. }
  split.
  - intros o' y Hy. apply Hlook in Hy. case_decide as E.
    + subst o' y. unfold object_ok. destruct l as [l'|]; cbn; [|done]. destruct Hl as (H1 & H2 & H3). unfold zlen in *.
      split; [done|]. split; [lia|]. split; [lia|]. exists l'. unfold st', replace_block. cbn.
      rewrite free_lookup, decide_False, lookup_insert_eq by done. split; [done|]. split; [lia|done].
    + destruct (st_objects st Hok o' y Hy) as (H1 & H2 & H3). split; [done|]. split; [done|].
      destruct (b_buf y) as [b|] eqn:Eb; [|done]. by rewrite (replace_other o' y b E Hy Eb).
  - intros o1 o2 y1 y2 b Hy1 Hy2 Hb1 Hb2. apply Hlook in Hy1, Hy2. destruct (decide (o1 = o)) as [E1|E1], (decide (o2 = o)) as [E2|E2]; [congruence| | |].
    + subst y1. destruct l; [|done]. injection Hb1 as <-. by destruct (Hold o2 y2 (next_block st) E2 Hy2 Hb2).
    + subst y2. destruct l; [|done]. injection Hb2 as <-. by destruct (Hold o1 y1 (next_block st) E1 Hy1 Hb1).
    + by apply (st_owner st Hok o1 o2 y1 y2 b).
  - intros b. split.
    + intros [v Hv]. unfold st', replace_block in *. destruct l as [l'|]; cbn in *; rewrite free_lookup in Hv; case_decide as Eb; try done.
      * destruct (decide (b = next_block st)) as [->|Hne].
        -- exists o. eexists. by rewrite lookup_insert_eq.
        -- rewrite lookup_insert_ne in Hv by done. destruct (proj1 (st_blocks st Hok b)) as (o' & y & Hy & Hb); [by eexists|].
           exists o', y. destruct (decide (o' = o)) as [->|Ho]; [congruence|]. by rewrite lookup_insert_ne.
      * destruct (proj1 (st_blocks st Hok b)) as (o' & y & Hy & Hb); [by eexists|].
        exists o', y. destruct (decide (o' = o)) as [->|Ho]; [congruence|]. by rewrite lookup_insert_ne.
    + intros (o' & y & Hy & Hb). apply Hlook in Hy. case_decide as E.
      * subst y. destruct l as [l'|]; [|done]. injection Hb as <-. unfold st', replace_block. cbn.
        rewrite free_lookup, decide_False, lookup_insert_eq by done. by eexists.
      * rewrite (replace_other o' y b E Hy Hb). apply (st_blocks st Hok). by exists o', y.
  - intros b [v Hv]. unfold st', replace_block in *. destruct l as [l'|]; cbn in *; rewrite free_lookup in Hv; case_decide; try done.
    + destruct (decide (b = next_block st)) as [->|Hne]; [lia|]. rewrite lookup_insert_ne in Hv by done.
      pose proof (st_next st Hok b ltac:(by eexists)). lia.
    + apply (st_next st Hok b). by eexists.
Qed.
End Replace.

(** [resize] gives the object another block. *)
Definition fresh_block (len : Z) : option (list (option char)) :=
  if len =? 0 then None else Some (replicate (Z.to_nat len) None ++ [Some NUL]).

Lemma resize_spec st o x len :
  objects st !! o = Some x -> 0 <= len < 2 ^ 64 - 1 -> resize o len st = Ok (replace_block o x (fresh_block len) st).
Proof.
  intros Hx Hl. unfold resize, fresh_block. rewrite Hx. destruct (Z.eqb_spec len 0); [done|].
  rewrite u64_small by lia. rewrite (proj2 (Z.leb_gt _ _)) by lia. unfold replace_block.
  do 3 f_equal. f_equal. unfold zlen. rewrite length_app, length_replicate. cbn. f_equal. lia.
Qed.

Lemma fresh_block_ok len : 0 <= len < 2 ^ 64 - 1 ->
  match fresh_block len with
  | None => True | Some l => (1 < length l)%nat /\ zlen l < 2 ^ 64 /\ last l = Some (Some NUL)
  end.
Proof.
  intros Hl. unfold fresh_block. destruct (Z.eqb_spec len 0); [done|]. unfold zlen.
  rewrite length_app, length_replicate. cbn. split_and!; [lia|lia|apply last_snoc].
Qed.

Lemma contents_replace st o x l q :
  store_ok st -> objects st !! o = Some x ->
  contents (replace_block o x l st) q
  = if decide (q = o) then Some (match l with None => [] | Some l => take (length l - 1) l end) else contents st q.
Proof.
  intros Hok Hx. pose proof (next_free st Hok) as Hf. case_decide as E.
  - subst q. unfold contents, replace_block. destruct l as [l|]; cbn; rewrite lookup_insert_eq; cbn; [|done].
    rewrite free_lookup, decide_False.
    2: { intros E. assert (is_Some (blocks st !! next_block st)) as [? H] by (apply (st_blocks st Hok); by exists o, x). congruence. }
    rewrite lookup_insert_eq. cbn. do 2 f_equal. unfold zlen. lia.
  - assert (objects (replace_block o x l st) !! q = objects st !! q) as Eq.
    { unfold replace_block. destruct l; cbn; by rewrite lookup_insert_ne. }
    unfold contents. rewrite Eq. destruct (objects st !! q) as [y|] eqn:Ey; [|done]. cbn [mbind option_bind].
    destruct (st_objects st Hok q y Ey) as (-> & _ & _). destruct (b_buf y) as [b|] eqn:Eb; [|done].
    by rewrite (replace_other st o x l Hok Hx q y b E Ey Eb).
Qed.

(** The bytes of a block change, but not its length or its terminator. *)
Lemma overwrite_ok st b l l' :
  blocks st !! b = Some l -> length l' = length l -> last l' = last l -> store_ok st ->
  store_ok (mk_store (<[b := l']> (blocks st)) (next_block st) (objects st)).
Proof.
  intros Hb Hl Hla [H1 H2 H3 H4]. assert (forall c, is_Some (<[b := l']> (blocks st) !! c) <-> is_Some (blocks st !! c)) as Hs.
  { intros c. rewrite lookup_insert. case_decide; [subst c|done]. rewrite Hb. split; by eexists. }
  split; cbn; [|done| |].
  - intros o x Hx. destruct (H1 o x Hx) as (Hp & Hn & Hc). split; [done|]. split; [done|].
    destruct (b_buf x) as [c|]; [|done]. destruct Hc as (Hlen & k & Hk & Hkl & Hka). split; [done|]. cbn.
    rewrite lookup_insert. case_decide as E; [subst c|by exists k]. exists l'.
    assert (k = l) as -> by congruence. split; [done|]. split; congruence.
  - intros c. rewrite Hs. apply H3.
  - intros c. rewrite Hs. apply H4.
Qed.

Lemma contents_overwrite st o x b l l' q :
  store_ok st -> objects st !! o = Some x -> b_buf x = Some b ->
  blocks st !! b = Some l ->
  contents (mk_store (<[b := l']> (blocks st)) (next_block st) (objects st)) q
  = if decide (q = o) then Some (take (Z.to_nat (b_len x)) l') else contents st q.
Proof.
  intros Hok Hx Hb Hl. unfold contents. cbn. case_decide as E.
  - subst q. rewrite Hx. cbn. destruct (st_objects st Hok o x Hx) as (-> & _ & _). rewrite Hb.
    by rewrite lookup_insert_eq.
  - destruct (objects st !! q) as [y|] eqn:Ey; [|done]. cbn. destruct (st_objects st Hok q y Ey) as (-> & _ & _).
    destruct (b_buf y) as [c|] eqn:Ec; [|done]. rewrite lookup_insert_ne; [done|].
    intros ->. by apply E, (st_owner st Hok q o y x c).
Qed.

(** A buffer gets the bytes of another, or of itself. *)
Definition assigned (st : store) (o p : nat) : option content_buffer_t :=
  if decide (o = p) then (fun l => replicate (length l) None) <$> contents st p else contents st p.

Lemma contents_length st o x : store_ok st -> objects st !! o = Some x ->
  exists l, contents st o = Some l /\ length l = Z.to_nat (b_len x).
Proof.
  intros Hok Hx. destruct (st_objects st Hok o x Hx) as (Hp & Hn & Hc). unfold contents. rewrite Hx. cbn. rewrite Hp.
  destruct (b_buf x) as [b|]; [|exists []; rewrite Hc; done]. destruct Hc as (_ & k & -> & Hk & _).
  eexists. split; [reflexivity|]. rewrite length_take. lia.
Qed.

(** The object [o] gets a block for what the object [p] holds. *)
Section ResizeCopy.
Context (st : store) (o p : nat) (x y : buffer_object).
Context (Hok : store_ok st) (Hx : objects st !! o = Some x) (Hy : objects st !! p = Some y) (Hn : b_len y <> 0).
Let n := Z.to_nat (b_len y).
Let to := replicate n (@None char) ++ [Some NUL].
Let b := next_block st.
Let st1 := replace_block o x (Some to) st.

Lemma source_length : 0 < b_len y < 2 ^ 64 - 1.
Proof using Hok Hy Hn. destruct (st_objects st Hok p y Hy) as (_ & _ & Hc). by destruct (b_buf y); [destruct Hc|]. Qed.

Lemma to_length : length to = S n.
Proof using Type. unfold to. rewrite length_app, length_replicate. apply Nat.add_comm. Qed.

Lemma resized_resize : resize o (b_len y) st = Ok st1.
Proof using Hok Hx Hy Hn.
  pose proof source_length. rewrite (resize_spec st o x) by (done || lia).
  unfold fresh_block. by rewrite (proj2 (Z.eqb_neq _ _) Hn).
Qed.

Lemma resized_ok : store_ok st1.
Proof using Hok Hx Hy Hn.
  pose proof source_length as Hl. pose proof (fresh_block_ok (b_len y) ltac:(lia)) as Hf.
  unfold fresh_block in Hf. rewrite (proj2 (Z.eqb_neq _ _) Hn) in Hf. by apply replace_ok.
Qed.

Lemma resized_object : objects st1 !! o = Some (mk_buffer_object (Some b) (b_len y) (Some b)).
Proof using Hok Hy Hn.
  unfold st1, replace_block. cbn. rewrite lookup_insert_eq. do 2 f_equal. unfold zlen. rewrite to_length.
  pose proof source_length. lia.
Qed.

Lemma resized_block : blocks st1 !! b = Some to.
Proof using Hok Hx.
  unfold st1, replace_block. cbn. rewrite free_lookup, lookup_insert_eq, decide_False; [done|].
  intros E. assert (is_Some (blocks st !! next_block st)) as [? H] by (apply (st_blocks st Hok); by exists o, x).
  by rewrite (next_free st Hok) in H.
Qed.

(** The bytes that are copied are those of the block that [p] has then. *)
Lemma resized_source : exists y1 c l,
  objects st1 !! p = Some y1 /\ b_len y1 = b_len y /\ b_ptr y1 = Some c /\ blocks st1 !! c = Some l /\ length l = S n
  /\ Some (take n l) = assigned st o p.
Proof using Hok Hx Hy Hn.
  unfold assigned. destruct (decide (o = p)) as [E|Hne].
  - rewrite <- E. do 3 eexists. split; [apply resized_object|]. split; [done|]. split; [done|]. split; [apply resized_block|].
    split; [apply to_length|]. destruct (contents_length st p y Hok Hy) as (k & Ek & Hk). rewrite E, Ek. cbn.
    rewrite Hk. unfold to. by rewrite take_app_length' by (by rewrite length_replicate).
  - destruct (st_objects st Hok p y Hy) as (Hp & Hlen & Hc).
    destruct (b_buf y) as [c|] eqn:Ec; [|done]. destruct Hc as (_ & from & Hfrom & Hfl & _).
    exists y, c, from. split; [rewrite <- Hy; by apply lookup_insert_ne|]. split; [done|]. split; [done|].
    split; [by rewrite <- Hfrom; apply (replace_other st o x (Some to) Hok Hx p y c)|]. split; [done|].
    unfold contents. rewrite Hy. cbn. by rewrite Hp, Hfrom.
Qed.

Lemma resize_copy_spec :
  exists st', (st1 ← resize o (b_len y) st; copy_bytes o p st1) = Ok st' /\ store_ok st'
    /\ contents st' o = assigned st o p /\ (forall q, q <> o -> contents st' q = contents st q)
    /\ forall q, is_Some (objects st' !! q) <-> is_Some (objects st !! q).
Proof using Hok Hx Hy Hn.
  rewrite resized_resize. cbn [mbind res_bind].
  pose proof resized_ok as Hok1. pose proof resized_object as Ho1. pose proof resized_block as Hb1. pose proof to_length as Htl.
  destruct resized_source as (y1 & c & l & Hy1 & Hlen1 & Hp1 & Hc1 & Hl & Ha).
  unfold copy_bytes. rewrite Ho1, Hy1. cbn [b_ptr]. rewrite Hp1, Hb1, Hc1, Hlen1.
  assert ((b_len y <=? zlen to) && (b_len y <=? zlen l) = true) as -> by (unfold zlen; lia). fold n.
  set (l' := take n l ++ drop n to).
  assert (length l' = length to) as Hl' by (unfold l'; rewrite length_app, length_take, length_drop; lia).
  eexists. split; [reflexivity|].
  assert (forall q, contents (mk_store (<[b := l']> (blocks st1)) (next_block st1) (objects st1)) q
            = if decide (q = o) then Some (take n l) else contents st1 q) as Hcq.
  { intros q. rewrite (contents_overwrite st1 o _ b to l' q Hok1 Ho1 eq_refl Hb1). case_decide; [|done]. cbn [b_len].
    f_equal. unfold l'. apply take_app_length'. rewrite length_take. fold n. lia. }
  split_and!.
  - apply (overwrite_ok st1 b to); [done|done| |done]. unfold l', to.
    rewrite drop_app_length' by (by rewrite length_replicate). by rewrite !last_snoc.
  - rewrite Hcq, decide_True by done. exact Ha.
  - intros q Hq. rewrite Hcq, decide_False by done. unfold st1. by rewrite contents_replace, decide_False.
  - intros q. change (is_Some (objects st1 !! q) <-> is_Some (objects st !! q)). destruct (decide (o = q)) as [<-|Hne].
    + rewrite Ho1, Hx. split; by eexists.
    + unfold st1, replace_block. cbn. by rewrite lookup_insert_ne.
Qed.
End ResizeCopy.

(** ** What the operations do *)

Lemma construct_spec st o : store_ok st -> objects st !! o = None ->
  store_ok (construct o st) /\ contents (construct o st) o = Some [] /\ objects (construct o st) !! o = Some new_buffer
  /\ forall q, q <> o -> contents (construct o st) q = contents st q.
Proof.
  intros [H1 H2 H3 H4] Ho. unfold construct. split_and!.
  - assert (forall q x, <[o:=new_buffer]> (objects st) !! q = Some x -> q <> o /\ objects st !! q = Some x \/ q = o /\ x = new_buffer) as Hl.
    { intros q x. rewrite lookup_insert. case_decide as E; [right; split; congruence|left; by split]. }
    split; cbn.
    + intros q x [[_ Hq]|[-> ->]]%Hl; [by apply (H1 q)|done].
    + intros q q' x x' b [[_ Hq]|[-> ->]]%Hl; [|done]. intros [[_ Hq']|[-> ->]]%Hl; [|done]. by apply (H2 q q' x x').
    + intros b. rewrite (H3 b). split; intros (q & x & Hq & Hb).
      * exists q, x. rewrite lookup_insert_ne; [done|congruence].
      * apply Hl in Hq as [[_ Hq]|[-> ->]]; [by exists q, x|done].
    + exact H4.
  - unfold contents. cbn. by rewrite lookup_insert_eq.
  - apply lookup_insert_eq.
  - intros q Hq. unfold contents. cbn. by rewrite lookup_insert_ne.
Qed.

Lemma destroy_ok st o : store_ok st -> store_ok (destruct_buffer o st)
  /\ contents (destruct_buffer o st) o = None /\ forall q, q <> o -> contents (destruct_buffer o st) q = contents st q.
Proof.
  intros Hok. unfold destruct_buffer. destruct (objects st !! o) as [x|] eqn:Hx.
  2: { split; [done|]. split; [|done]. unfold contents. by rewrite Hx. }
  assert (forall q y b, q <> o -> objects st !! q = Some y -> b_buf y = Some b -> free_block (b_buf x) (blocks st) !! b = blocks st !! b) as Hother.
  { intros q y b Hne Hy Hb. rewrite free_lookup, decide_False; [done|]. intros E. by apply Hne, (st_owner st Hok q o y x b). }
  split_and!.
  - split; cbn.
    + intros q y [Hne Hy]%lookup_delete_Some. destruct (st_objects st Hok q y Hy) as (H1 & H2 & H3). split; [done|]. split; [done|].
      destruct (b_buf y) as [b|] eqn:Eb; [|done]. cbn. by rewrite (Hother q y b).
    + intros q q' y y' b [_ Hq]%lookup_delete_Some [_ Hq']%lookup_delete_Some. by apply (st_owner st Hok).
    + intros b. split.
      * intros [l Hl]. rewrite free_lookup in Hl. case_decide as Eb; [done|].
        destruct (proj1 (st_blocks st Hok b)) as (q & y & Hq & Hb); [by eexists|]. exists q, y. rewrite lookup_delete_ne; [done|congruence].
      * intros (q & y & [Hne Hq]%lookup_delete_Some & Hb). rewrite (Hother q y b) by done. apply (st_blocks st Hok). by exists q, y.
    + intros b [l Hl]. rewrite free_lookup in Hl. case_decide; [done|]. apply (st_next st Hok). by eexists.
  - unfold contents. cbn. by rewrite lookup_delete_eq.
  - intros q Hne. unfold contents. cbn. rewrite lookup_delete_ne by done. destruct (objects st !! q) as [y|] eqn:Hy; [|done]. cbn.
    destruct (st_objects st Hok q y Hy) as (-> & _). destruct (b_buf y) as [b|] eqn:Eb; [|done]. by rewrite (Hother q y b).
Qed.

Lemma contents_defined st o : store_ok st -> is_Some (contents st o) <-> is_Some (objects st !! o).
Proof.
  intros Hok. split.
  - unfold contents. destruct (objects st !! o); [by eexists|by intros []].
  - intros [x Hx]. destruct (contents_length st o x Hok Hx) as (l & -> & _). by eexists.
Qed.

(** The abstract picture: every object has a list of bytes of its own. *)
Definition buffer_spec (op : buffer_op) (m : gmap nat content_buffer_t) : option (gmap nat content_buffer_t) :=
  match op with
  | op_construct o => match m !! o with None => Some (<[o := []]> m) | Some _ => None end
  | op_destruct o => Some (delete o m)
  | op_copy o p => match m !! o, m !! p with None, Some l => Some (<[o := l]> m) | _, _ => None end
  | op_assign o p =>
      match m !! o, m !! p with
      | Some _, Some l => Some (<[o := if decide (o = p) then replicate (length l) None else l]> m)
      | _, _ => None
      end
  | op_resize o len =>
      if (0 <=? len) && (len <? 2 ^ 64 - 1)
      then match m !! o with Some _ => Some (<[o := replicate (Z.to_nat len) None]> m) | None => None end else None
  | op_write o off data =>
      match m !! o with
      | Some l => if (off + length data <=? length l)%nat
                  then Some (<[o := take off l ++ (Some <$> data) ++ drop (off + length data) l]> m) else None
      | None => None
      end
  end.

(** The store shows the picture. *)
Definition shows (st : store) (m : gmap nat content_buffer_t) : Prop := store_ok st /\ forall o, contents st o = m !! o.

Lemma shows_insert st st' m o l :
  shows st m -> store_ok st' -> contents st' o = Some l -> (forall q, q <> o -> contents st' q = contents st q) ->
  shows st' (<[o := l]> m).
Proof.
  intros [_ H] Hok Ho Hq. split; [done|]. intros q. rewrite lookup_insert. case_decide as E; [by subst q|].
  rewrite Hq by congruence. apply H.
Qed.

Lemma shows_object st m o l : shows st m -> m !! o = Some l ->
  exists x, objects st !! o = Some x /\ contents st o = Some l /\ length l = Z.to_nat (b_len x) /\ 0 <= b_len x < 2 ^ 64 - 1.
Proof.
  intros [Hok H] Hl. destruct (proj1 (contents_defined st o Hok)) as [x Hx]; [rewrite H, Hl; by eexists|].
  exists x. split; [done|]. rewrite H, Hl. split; [done|]. destruct (contents_length st o x Hok Hx) as (k & Hk & Hlen).
  rewrite H, Hl in Hk. injection Hk as <-. split; [done|].
  destruct (st_objects st Hok o x Hx) as (_ & H0 & H1). destruct (b_buf x); [|lia]. destruct H1; lia.
Qed.

Lemma shows_none st m o : shows st m -> m !! o = None -> objects st !! o = None.
Proof.
  intros [Hok H] Hl. destruct (objects st !! o) eqn:E; [|done].
  destruct (proj2 (contents_defined st o Hok)) as [l Hc]; [by rewrite E|]. rewrite H in Hc. congruence.
Qed.

(** A resized object. *)
Lemma resize_shows st m o x len :
  shows st m -> objects st !! o = Some x -> 0 <= len < 2 ^ 64 - 1 ->
  exists st', resize o len st = Ok st' /\ shows st' (<[o := replicate (Z.to_nat len) None]> m).
Proof.
  intros Hs Hx Hlen. destruct Hs as [Hok Hc]. rewrite (resize_spec st o x) by done. eexists. split; [reflexivity|].
  eapply shows_insert; [by split| | |].
  - apply replace_ok; [done|done|by apply fresh_block_ok].
  - rewrite contents_replace, decide_True by done. unfold fresh_block. destruct (Z.eqb_spec len 0) as [->|]; [done|]. f_equal.
    rewrite length_app, length_replicate. cbn [length]. apply take_app_length'. rewrite length_replicate. lia.
  - intros q Hq. by rewrite contents_replace, decide_False.
Qed.

(** A copy or an assignment of bytes that are there. *)
Lemma assign_bytes_shows st m o p x y :
  shows st m -> objects st !! o = Some x -> objects st !! p = Some y -> b_len y <> 0 ->
  exists st' l, (st1 ← resize o (b_len y) st; copy_bytes o p st1) = Ok st' /\ m !! p = Some l
    /\ shows st' (<[o := if decide (o = p) then replicate (length l) None else l]> m).
Proof.
  intros [Hok Hc] Hx Hy Hn. destruct (resize_copy_spec st o p x y Hok Hx Hy Hn) as (st' & E & Hok' & Ho & Hq & _).
  destruct (contents_length st p y Hok Hy) as (l & El & _). exists st', l. split; [done|]. split; [by rewrite <- Hc|].
  apply (shows_insert st); [by split|done| |done]. rewrite Ho. unfold assigned. rewrite El. by case_decide.
Qed.

Lemma last_of_drop {A} (l : list A) n : (n < length l)%nat -> last (drop n l) = last l.
Proof.
  intros Hn. rewrite <- (take_drop n l) at 2. rewrite last_app. destruct (last (drop n l)) eqn:E; [done|].
  apply last_None in E. pose proof (f_equal length E) as H. rewrite length_drop in H. cbn in H. lia.
Qed.

Lemma buffer_step_spec op st m m' : shows st m -> buffer_spec op m = Some m' ->
  exists st', buffer_step op st = Ok st' /\ shows st' m'.
Proof.
  intros Hs. destruct op as [o|o|o p|o p|o len|o off data]; cbn [buffer_spec buffer_step].
  - destruct (m !! o) eqn:Eo; [done|]. intros [= <-]. pose proof (shows_none _ _ _ Hs Eo) as Ho. rewrite Ho.
    eexists. split; [reflexivity|]. destruct (construct_spec st o (proj1 Hs) Ho) as (H1 & H2 & _ & H3). by eapply shows_insert.
  - intros [= <-]. eexists. split; [reflexivity|]. destruct (destroy_ok st o (proj1 Hs)) as (H1 & H2 & H3). split; [done|].
    intros q. rewrite lookup_delete. case_decide as E; [by subst q|]. rewrite H3 by congruence. apply Hs.
  - destruct (m !! o) eqn:Eo; [done|]. destruct (m !! p) as [l|] eqn:Ep; [|done]. intros [= <-].
    pose proof (shows_none _ _ _ Hs Eo) as Ho. rewrite Ho. destruct (shows_object _ _ _ _ Hs Ep) as (y & Hy & Hc & Hl & _).
    destruct (construct_spec st o (proj1 Hs) Ho) as (H1 & H2 & Hx & H3). unfold copy_construct. rewrite Hy.
    assert (shows (construct o st) (<[o:=[]]> m)) as Hs1 by (by eapply shows_insert).
    assert (o <> p) as Hne by congruence.
    assert (objects (construct o st) !! p = Some y) as Hy1 by (cbn; by rewrite lookup_insert_ne).
    destruct (Z.eqb_spec (b_len y) 0) as [E0|E0]; cbn [negb].
    + exists (construct o st). split; [done|]. rewrite E0 in Hl. by destruct l.
    + destruct (assign_bytes_shows _ _ o p new_buffer y Hs1 Hx Hy1 E0) as (st' & l' & E & Hl' & Hs'). exists st'. split; [done|].
      rewrite lookup_insert_ne in Hl' by done. rewrite decide_False, insert_insert_eq in Hs' by done.
      by assert (l' = l) as -> by congruence.
  - destruct (m !! o) as [k|] eqn:Eo; [|done]. destruct (m !! p) as [l|] eqn:Ep; [|done]. intros [= <-].
    destruct (shows_object _ _ _ _ Hs Eo) as (x & Hx & _). destruct (shows_object _ _ _ _ Hs Ep) as (y & Hy & Hc & Hl & _).
    unfold assign. rewrite Hy. destruct (Z.eqb_spec (b_len y) 0) as [E0|E0]; cbn [negb].
    + destruct (resize_shows st m o x 0 Hs Hx ltac:(lia)) as (st' & E & Hs'). exists st'. split; [done|].
      rewrite E0 in Hl. destruct l; [|done]. cbn in Hs'. by case_decide.
    + destruct (assign_bytes_shows _ _ o p x y Hs Hx Hy E0) as (st' & l' & E & Hl' & Hs'). exists st'. split; [done|].
      by assert (l' = l) as -> by congruence.
  - destruct ((0 <=? len) && (len <? 2 ^ 64 - 1)) eqn:El; [|done]. destruct (m !! o) as [k|] eqn:Eo; [|done]. intros [= <-].
    destruct (shows_object _ _ _ _ Hs Eo) as (x & Hx & _). apply (resize_shows st m o x); [done|done|lia].
  - destruct (m !! o) as [l|] eqn:Eo; [|done]. destruct (Nat.leb_spec (off + length data) (length l)) as [Hle|]; [|done]. intros [= <-].
    destruct (shows_object _ _ _ _ Hs Eo) as (x & Hx & Hc & Hl & Hlen). unfold write_bytes. rewrite Hx.
    assert ((Z.of_nat off + zlen data <=? b_len x) = true) as -> by (unfold zlen; lia). cbn [negb].
    destruct (st_objects st (proj1 Hs) o x Hx) as (Hp & _ & Hb). rewrite Hp. destruct (b_buf x) as [b|] eqn:Eb.
    2: { exists st. split; [done|]. rewrite Hb in Hl. destruct l, off, data; cbn in *; try lia. rewrite insert_id; done. }
    destruct Hb as (_ & k & Hk & Hkl & Hka). rewrite Hk. eexists. split; [reflexivity|].
    assert (take (Z.to_nat (b_len x)) k = l) as Ekl.
    { unfold contents in Hc. rewrite Hx in Hc. cbn in Hc. rewrite Hp, Hk in Hc. by injection Hc. }
    apply (shows_insert st); [done| | |].
    + apply (overwrite_ok st b k); [done| | |apply Hs].
      * rewrite !length_app, length_take, length_fmap, length_drop. lia.
      * rewrite app_assoc, last_app, last_of_drop by lia. by rewrite Hka.
    + rewrite (contents_overwrite st o x b k) by (done || apply Hs). rewrite decide_True by done. f_equal.
      set (n := Z.to_nat (b_len x)) in *. assert (length k = S n) as Hkn by lia. rewrite <- Ekl.
      rewrite take_take, Nat.min_l, skipn_firstn_comm by lia. rewrite app_assoc, (app_assoc (take off k)).
      set (front := take off k ++ (Some <$> data)).
      assert (length front = (off + length data)%nat) as Hfl by (unfold front; rewrite length_app, length_take, length_fmap; lia).
      rewrite take_app_ge by lia. by rewrite Hfl.
    + intros q Hq. by rewrite (contents_overwrite st o x b k), decide_False by (done || apply Hs).
Qed.

Fixpoint spec_run (ops : list buffer_op) (m : gmap nat content_buffer_t) : option (gmap nat content_buffer_t) :=
  match ops with [] => Some m | op :: ops' => m' ← buffer_spec op m; spec_run ops' m' end.

Lemma buffer_run_spec ops : forall st m m', shows st m -> spec_run ops m = Some m' ->
  exists st', buffer_run ops st = Ok st' /\ shows st' m'.
Proof.
  induction ops as [|op ops IH]; intros st m m' Hs; cbn [spec_run buffer_run].
  - intros [= <-]. by exists st.
  - destruct (buffer_spec op m) as [m1|] eqn:E; [|done]. cbn [mbind option_bind].
    destruct (buffer_step_spec op st m m1 Hs E) as (st1 & -> & Hs1). cbn [mbind res_bind]. by apply IH.
Qed.

(** C31: the content buffers are lists of bytes of their own.  Whatever buffers are
    constructed, copied, assigned, resized, written and destroyed, in the bounds of their
    lengths: nothing outside of a block is touched, every buffer holds what the picture of a
    list for each object says (so writing to a copy leaves its original alone), no two
    buffers share a block, the blocks that are allocated are those that a buffer owns, and the
    byte behind the content is NUL. *)
Theorem buffers_are_lists ops m :
  spec_run ops ∅ = Some m ->
  exists st, buffer_run ops empty_store = Ok st
    /\ (forall o, contents st o = m !! o)
    /\ (forall b, is_Some (blocks st !! b) <-> exists o x, objects st !! o = Some x /\ b_buf x = Some b)
    /\ (forall o o' x x' b, objects st !! o = Some x -> objects st !! o' = Some x' ->
        b_buf x = Some b -> b_buf x' = Some b -> o = o')
    /\ (forall o x b, objects st !! o = Some x -> b_ptr x = Some b ->
        exists l, blocks st !! b = Some l /\ l !! Z.to_nat (b_len x) = Some (Some NUL)).
Proof.
  intros Hr. destruct (buffer_run_spec ops empty_store ∅ m) as (st & E & Hok & Hc); [split; [apply empty_store_ok|done]|done|].
  exists st. split; [done|]. split; [done|]. split; [apply Hok|]. split; [apply (st_owner st Hok)|].
  intros o x b Hx Hb. destruct (st_objects st Hok o x Hx) as (Hp & _ & H). rewrite <- Hp, Hb in H.
  destruct H as (_ & l & Hl & Hlen & Hla). exists l. split; [done|]. rewrite last_lookup, Hlen in Hla. exact Hla.
Qed.

Abbreviation sample_ops := [op_construct 0; op_resize 0 3; op_write 0 0 (str "abc"); op_copy 1 0; op_write 1 1 (str "x");
  op_construct 2; op_assign 2 1; op_resize 1 0; op_destruct 0].
Lemma buffers_are_lists_witness :
  exists st, buffer_run sample_ops empty_store = Ok st /\ contents st 2%nat = Some (Some <$> str "axc") /\ contents st 0%nat = None.
Proof.
  destruct (buffers_are_lists sample_ops (<[2%nat := Some <$> str "axc"]> {[1%nat := []]})) as (st & E & H & _).
  { vm_compute. reflexivity. }
  exists st. split; [done|]. rewrite !H. split; vm_compute; reflexivity.
Defined.

(** ** Messages that are copied *)

(** [message::operator=] and the copy constructor copy every member; [same] when a message is
    assigned to itself. *)
Definition message_assign (same : bool) (m : message) : message :=
  mk_message (m_first_line m) (m_is_valid m) (m_is_chunked m) (m_chunks_supported m) (m_do_not_send_content_length m)
    (m_version_major m) (m_version_minor m) (m_content_length m)
    (if same then replicate (length (m_content_buf m)) None else m_content_buf m)
    (m_chunk_cache m) (m_headers m) (m_cookie_params m) (m_status m) (m_has_missing_packets m) (m_has_data_after_missing m)
    (m_kind m).

Lemma message_copied m : message_assign false m = m.
Proof. by destruct m. Qed.

(** ** Deviations *)

(** A buffer that is assigned to itself allocates a new block and copies it to itself: what
    it held is lost. *)
Lemma self_assignment_loses_content :
  exists st, buffer_run [op_construct 0; op_resize 0 3; op_write 0 0 (str "abc"); op_assign 0 0] empty_store = Ok st
    /\ contents st 0%nat = Some [None; None; None].
Proof. eexists. split; vm_compute; reflexivity. Qed.

(** So a message that is assigned to itself has no content that can be read. *)
Lemma self_assigned_message m :
  0 < m_content_length m <= zlen (m_content_buf m) -> read_content (message_assign true m) = Fault undefined_behaviour.
Proof.
  intros Hm. unfold read_content. cbn [m_content_length m_content_buf message_assign]. unfold zlen in *. rewrite length_replicate.
  destruct (Z.leb_spec (m_content_length m) (Z.of_nat (length (m_content_buf m)))) as [_|]; [|lia].
  destruct (Z.to_nat (m_content_length m)) as [|n] eqn:En; [lia|].
  by destruct (length (m_content_buf m)) as [|k] eqn:Ek; [lia|].
Qed.

(** Resizing to the largest length allocates nothing and writes the terminator. *)
Lemma largest_buffer_faults st o x : objects st !! o = Some x -> resize o (2 ^ 64 - 1) st = Fault undefined_behaviour.
Proof. intros Hx. unfold resize. by rewrite Hx. Qed.
