(* ===== verification/ParserBase.v ===== *)
(** * The HTTP parser: state, limits and character classes

    Models the declarations of [http::parser] (include/pion/http/parser.hpp): the error
    codes, the three state enumerations, the data members, the size limits, the
    character predicates and the small inline members.

    The pointer pair [m_read_ptr], [m_read_end_ptr] is the list [m_read] of the bytes
    between them (a null pointer is the empty list: [eof()] treats both alike).  The
    payload handler is a function of the caller; the model records the blocks it is
    called with, in order. *)
From S2P Require Import Prelude CLib StringUtils Dict Tribool HttpTypes Message.

(** ** Enumerations *)

Inductive error_value_t :=
| ERROR_METHOD_CHAR | ERROR_METHOD_SIZE | ERROR_URI_CHAR | ERROR_URI_SIZE
| ERROR_QUERY_CHAR | ERROR_QUERY_SIZE | ERROR_VERSION_EMPTY | ERROR_VERSION_CHAR
| ERROR_STATUS_EMPTY | ERROR_STATUS_CHAR | ERROR_HEADER_CHAR | ERROR_HEADER_NAME_SIZE
| ERROR_HEADER_VALUE_SIZE | ERROR_INVALID_CONTENT_LENGTH | ERROR_CHUNK_CHAR
| ERROR_MISSING_CHUNK_DATA | ERROR_MISSING_HEADER_DATA | ERROR_MISSING_TOO_MUCH_CONTENT.

(** [asio::error_code]: clear, or an error of the parser's category. *)
Abbreviation error_code := (option error_value_t).

Inductive message_parse_state_t :=
| PARSE_START | PARSE_HEADERS | PARSE_FOOTERS | PARSE_CONTENT | PARSE_CONTENT_NO_LENGTH
| PARSE_CHUNKS | PARSE_END.

Inductive header_parse_state_t :=
| PARSE_METHOD_START | PARSE_METHOD | PARSE_URI_STEM | PARSE_URI_QUERY
| PARSE_HTTP_VERSION_H | PARSE_HTTP_VERSION_T_1 | PARSE_HTTP_VERSION_T_2
| PARSE_HTTP_VERSION_P | PARSE_HTTP_VERSION_SLASH
| PARSE_HTTP_VERSION_MAJOR_START | PARSE_HTTP_VERSION_MAJOR
| PARSE_HTTP_VERSION_MINOR_START | PARSE_HTTP_VERSION_MINOR
| PARSE_STATUS_CODE_START | PARSE_STATUS_CODE | PARSE_STATUS_MESSAGE
| PARSE_EXPECTING_NEWLINE | PARSE_EXPECTING_CR
| PARSE_HEADER_WHITESPACE | PARSE_HEADER_START | PARSE_HEADER_NAME
| PARSE_SPACE_BEFORE_HEADER_VALUE | PARSE_HEADER_VALUE
| PARSE_EXPECTING_FINAL_NEWLINE | PARSE_EXPECTING_FINAL_CR.

Inductive chunk_parse_state_t :=
| PARSE_CHUNK_SIZE_START | PARSE_CHUNK_SIZE
| PARSE_EXPECTING_IGNORED_TEXT_AFTER_CHUNK_SIZE
| PARSE_EXPECTING_CR_AFTER_CHUNK_SIZE
| PARSE_EXPECTING_LF_AFTER_CHUNK_SIZE | PARSE_CHUNK
| PARSE_EXPECTING_CR_AFTER_CHUNK | PARSE_EXPECTING_LF_AFTER_CHUNK
| PARSE_EXPECTING_FINAL_CR_OR_FOOTERS_AFTER_LAST_CHUNK
| PARSE_EXPECTING_FINAL_LF_AFTER_LAST_CHUNK.

#[export] Instance error_value_eq_dec : EqDecision error_value_t.
Proof. solve_decision. Defined.
#[export] Instance message_parse_state_eq_dec : EqDecision message_parse_state_t.
Proof. solve_decision. Defined.
#[export] Instance header_parse_state_eq_dec : EqDecision header_parse_state_t.
Proof. solve_decision. Defined.
#[export] Instance chunk_parse_state_eq_dec : EqDecision chunk_parse_state_t.
Proof. solve_decision. Defined.

(** The numeric value of an error code ([ERROR_METHOD_CHAR] is 1, then in order). *)
Definition error_number (e : error_value_t) : Z :=
  match e with
  | ERROR_METHOD_CHAR => 1 | ERROR_METHOD_SIZE => 2 | ERROR_URI_CHAR => 3
  | ERROR_URI_SIZE => 4 | ERROR_QUERY_CHAR => 5 | ERROR_QUERY_SIZE => 6
  | ERROR_VERSION_EMPTY => 7 | ERROR_VERSION_CHAR => 8 | ERROR_STATUS_EMPTY => 9
  | ERROR_STATUS_CHAR => 10 | ERROR_HEADER_CHAR => 11 | ERROR_HEADER_NAME_SIZE => 12
  | ERROR_HEADER_VALUE_SIZE => 13 | ERROR_INVALID_CONTENT_LENGTH => 14
  | ERROR_CHUNK_CHAR => 15 | ERROR_MISSING_CHUNK_DATA => 16
  | ERROR_MISSING_HEADER_DATA => 17 | ERROR_MISSING_TOO_MUCH_CONTENT => 18
  end.

(** [error_category_t::message]. *)
Definition error_message (e : error_value_t) : bytes :=
  match e with
  | ERROR_METHOD_CHAR => str "invalid method character"
  | ERROR_METHOD_SIZE => str "method exceeds maximum size"
  | ERROR_URI_CHAR => str "invalid URI character"
  | ERROR_URI_SIZE => str "method exceeds maximum size"
  | ERROR_QUERY_CHAR => str "invalid query string character"
  | ERROR_QUERY_SIZE => str "query string exceeds maximum size"
  | ERROR_VERSION_EMPTY => str "HTTP version undefined"
  | ERROR_VERSION_CHAR => str "invalid version character"
  | ERROR_STATUS_EMPTY => str "HTTP status undefined"
  | ERROR_STATUS_CHAR => str "invalid status character"
  | ERROR_HEADER_CHAR => str "invalid header character"
  | ERROR_HEADER_NAME_SIZE => str "header name exceeds maximum size"
  | ERROR_HEADER_VALUE_SIZE => str "header value exceeds maximum size"
  | ERROR_INVALID_CONTENT_LENGTH => str "invalid Content-Length header"
  | ERROR_CHUNK_CHAR => str "invalid chunk character"
  | ERROR_MISSING_HEADER_DATA => str "missing header data"
  | ERROR_MISSING_CHUNK_DATA => str "missing chunk data"
  | ERROR_MISSING_TOO_MUCH_CONTENT => str "missing too much content"
  end.

(** ** Limits *)

Definition STATUS_MESSAGE_MAX : Z := 1024.
Definition METHOD_MAX : Z := 1024.
Definition RESOURCE_MAX : Z := 256 * 1024.
Definition QUERY_STRING_MAX : Z := 1024 * 1024.
Definition HEADER_NAME_MAX : Z := 1024.
Definition HEADER_VALUE_MAX : Z := 1024 * 1024.
Definition QUERY_NAME_MAX : Z := 1024.
Definition QUERY_VALUE_MAX : Z := 1024 * 1024.
Definition COOKIE_NAME_MAX : Z := 1024.
Definition COOKIE_VALUE_MAX : Z := 1024 * 1024.
Definition DEFAULT_CONTENT_MAX : Z := 1024 * 1024.

(** ** Character classes

    The argument is a [char] promoted to [int], negative above 127. *)

Definition is_char (c : char) : bool := (0 <=? schar c) && (schar c <=? 127).
Definition is_control (c : char) : bool :=
  ((0 <=? schar c) && (schar c <=? 31)) || (schar c =? 127).
Definition is_special (c : char) : bool :=
  existsb (Byte.eqb c) (str "()<>@,;:\/[]?={} " ++ [x22; TAB]).
Definition is_digit (c : char) : bool := (48 <=? schar c) && (schar c <=? 57).
Definition is_hex_digit (c : char) : bool :=
  ((48 <=? schar c) && (schar c <=? 57)) || ((97 <=? schar c) && (schar c <=? 102))
  || ((65 <=? schar c) && (schar c <=? 70)).

Definition is_cookie_attribute (name : bytes) (set_cookie_header : bool) : bool :=
  match name with
  | [] => true
  | c :: _ =>
      (c =c "$"%byte)
      || (set_cookie_header
          && (iequals name (str "Comment") || iequals name (str "Domain")
              || iequals name (str "Max-Age") || iequals name (str "Path")
              || iequals name (str "Secure") || iequals name (str "Version")
              || iequals name (str "Expires") || iequals name (str "HttpOnly")))
  end.

(** The condition [!is_char(c) || is_control(c) || is_special(c)] of the header
    parser. *)
Definition not_token (c : char) : bool := negb (is_char c) || is_control c || is_special c.

(** The value of a decimal digit: [c - '0']. *)
Definition digit (c : char) : Z := schar c - 48.

(** ** State *)

(** [http::parser]. *)
Record parser := mk_parser {
  m_is_request : bool;
  m_read : bytes;  (* the bytes from m_read_ptr to m_read_end_ptr *)
  m_message_parse_state : message_parse_state_t;
  m_headers_parse_state : header_parse_state_t;
  m_chunked_content_parse_state : chunk_parse_state_t;
  m_payload_handler : option (list bytes);  (* None: not set; Some: the blocks it was called with *)
  m_status_code : Z;  (* uint16_t *)
  m_status_message : bytes;
  m_method : bytes;
  m_resource : bytes;
  m_query_string : bytes;
  m_raw_headers : bytes;
  m_header_name : bytes;
  m_header_value : bytes;
  m_chunk_size_str : bytes;
  m_size_of_current_chunk : Z;  (* size_t *)
  m_bytes_read_in_current_chunk : Z;  (* size_t *)
  m_bytes_content_remaining : Z;  (* size_t *)
  m_bytes_content_read : Z;  (* size_t *)
  m_bytes_last_read : Z;  (* size_t *)
  m_bytes_total_read : Z;  (* size_t *)
  m_max_content_length : Z;  (* size_t *)
  m_parse_headers_only : bool;
  m_save_raw_headers : bool
}.

(** Functional update of one field. *)
Definition with_m_is_request (v : bool) (p : parser) : parser :=
  mk_parser v (m_read p) (m_message_parse_state p) (m_headers_parse_state p)
    (m_chunked_content_parse_state p) (m_payload_handler p) (m_status_code p)
    (m_status_message p) (m_method p) (m_resource p) (m_query_string p)
    (m_raw_headers p) (m_header_name p) (m_header_value p) (m_chunk_size_str p)
    (m_size_of_current_chunk p) (m_bytes_read_in_current_chunk p)
    (m_bytes_content_remaining p) (m_bytes_content_read p) (m_bytes_last_read p)
    (m_bytes_total_read p) (m_max_content_length p) (m_parse_headers_only p)
    (m_save_raw_headers p).
Definition with_m_read (v : bytes) (p : parser) : parser :=
  mk_parser (m_is_request p) v (m_message_parse_state p) (m_headers_parse_state p)
    (m_chunked_content_parse_state p) (m_payload_handler p) (m_status_code p)
    (m_status_message p) (m_method p) (m_resource p) (m_query_string p)
    (m_raw_headers p) (m_header_name p) (m_header_value p) (m_chunk_size_str p)
    (m_size_of_current_chunk p) (m_bytes_read_in_current_chunk p)
    (m_bytes_content_remaining p) (m_bytes_content_read p) (m_bytes_last_read p)
    (m_bytes_total_read p) (m_max_content_length p) (m_parse_headers_only p)
    (m_save_raw_headers p).
Definition with_m_message_parse_state (v : message_parse_state_t) (p : parser) : parser :=
  mk_parser (m_is_request p) (m_read p) v (m_headers_parse_state p)
    (m_chunked_content_parse_state p) (m_payload_handler p) (m_status_code p)
    (m_status_message p) (m_method p) (m_resource p) (m_query_string p)
    (m_raw_headers p) (m_header_name p) (m_header_value p) (m_chunk_size_str p)
    (m_size_of_current_chunk p) (m_bytes_read_in_current_chunk p)
    (m_bytes_content_remaining p) (m_bytes_content_read p) (m_bytes_last_read p)
    (m_bytes_total_read p) (m_max_content_length p) (m_parse_headers_only p)
    (m_save_raw_headers p).
Definition with_m_headers_parse_state (v : header_parse_state_t) (p : parser) : parser :=
  mk_parser (m_is_request p) (m_read p) (m_message_parse_state p) v
    (m_chunked_content_parse_state p) (m_payload_handler p) (m_status_code p)
    (m_status_message p) (m_method p) (m_resource p) (m_query_string p)
    (m_raw_headers p) (m_header_name p) (m_header_value p) (m_chunk_size_str p)
    (m_size_of_current_chunk p) (m_bytes_read_in_current_chunk p)
    (m_bytes_content_remaining p) (m_bytes_content_read p) (m_bytes_last_read p)
    (m_bytes_total_read p) (m_max_content_length p) (m_parse_headers_only p)
    (m_save_raw_headers p).
Definition with_m_chunked_content_parse_state (v : chunk_parse_state_t) (p : parser) : parser :=
  mk_parser (m_is_request p) (m_read p) (m_message_parse_state p)
    (m_headers_parse_state p) v (m_payload_handler p) (m_status_code p)
    (m_status_message p) (m_method p) (m_resource p) (m_query_string p)
    (m_raw_headers p) (m_header_name p) (m_header_value p) (m_chunk_size_str p)
    (m_size_of_current_chunk p) (m_bytes_read_in_current_chunk p)
    (m_bytes_content_remaining p) (m_bytes_content_read p) (m_bytes_last_read p)
    (m_bytes_total_read p) (m_max_content_length p) (m_parse_headers_only p)
    (m_save_raw_headers p).
Definition with_m_payload_handler (v : option (list bytes)) (p : parser) : parser :=
  mk_parser (m_is_request p) (m_read p) (m_message_parse_state p)
    (m_headers_parse_state p) (m_chunked_content_parse_state p) v (m_status_code p)
    (m_status_message p) (m_method p) (m_resource p) (m_query_string p)
    (m_raw_headers p) (m_header_name p) (m_header_value p) (m_chunk_size_str p)
    (m_size_of_current_chunk p) (m_bytes_read_in_current_chunk p)
    (m_bytes_content_remaining p) (m_bytes_content_read p) (m_bytes_last_read p)
    (m_bytes_total_read p) (m_max_content_length p) (m_parse_headers_only p)
    (m_save_raw_headers p).
Definition with_m_status_code (v : Z) (p : parser) : parser :=
  mk_parser (m_is_request p) (m_read p) (m_message_parse_state p)
    (m_headers_parse_state p) (m_chunked_content_parse_state p) (m_payload_handler p) v
    (m_status_message p) (m_method p) (m_resource p) (m_query_string p)
    (m_raw_headers p) (m_header_name p) (m_header_value p) (m_chunk_size_str p)
    (m_size_of_current_chunk p) (m_bytes_read_in_current_chunk p)
    (m_bytes_content_remaining p) (m_bytes_content_read p) (m_bytes_last_read p)
    (m_bytes_total_read p) (m_max_content_length p) (m_parse_headers_only p)
    (m_save_raw_headers p).
Definition with_m_status_message (v : bytes) (p : parser) : parser :=
  mk_parser (m_is_request p) (m_read p) (m_message_parse_state p)
    (m_headers_parse_state p) (m_chunked_content_parse_state p) (m_payload_handler p)
    (m_status_code p) v (m_method p) (m_resource p) (m_query_string p) (m_raw_headers p)
    (m_header_name p) (m_header_value p) (m_chunk_size_str p)
    (m_size_of_current_chunk p) (m_bytes_read_in_current_chunk p)
    (m_bytes_content_remaining p) (m_bytes_content_read p) (m_bytes_last_read p)
    (m_bytes_total_read p) (m_max_content_length p) (m_parse_headers_only p)
    (m_save_raw_headers p).
Definition with_m_method (v : bytes) (p : parser) : parser :=
  mk_parser (m_is_request p) (m_read p) (m_message_parse_state p)
    (m_headers_parse_state p) (m_chunked_content_parse_state p) (m_payload_handler p)
    (m_status_code p) (m_status_message p) v (m_resource p) (m_query_string p)
    (m_raw_headers p) (m_header_name p) (m_header_value p) (m_chunk_size_str p)
    (m_size_of_current_chunk p) (m_bytes_read_in_current_chunk p)
    (m_bytes_content_remaining p) (m_bytes_content_read p) (m_bytes_last_read p)
    (m_bytes_total_read p) (m_max_content_length p) (m_parse_headers_only p)
    (m_save_raw_headers p).
Definition with_m_resource (v : bytes) (p : parser) : parser :=
  mk_parser (m_is_request p) (m_read p) (m_message_parse_state p)
    (m_headers_parse_state p) (m_chunked_content_parse_state p) (m_payload_handler p)
    (m_status_code p) (m_status_message p) (m_method p) v (m_query_string p)
    (m_raw_headers p) (m_header_name p) (m_header_value p) (m_chunk_size_str p)
    (m_size_of_current_chunk p) (m_bytes_read_in_current_chunk p)
    (m_bytes_content_remaining p) (m_bytes_content_read p) (m_bytes_last_read p)
    (m_bytes_total_read p) (m_max_content_length p) (m_parse_headers_only p)
    (m_save_raw_headers p).
Definition with_m_query_string (v : bytes) (p : parser) : parser :=
  mk_parser (m_is_request p) (m_read p) (m_message_parse_state p)
    (m_headers_parse_state p) (m_chunked_content_parse_state p) (m_payload_handler p)
    (m_status_code p) (m_status_message p) (m_method p) (m_resource p) v
    (m_raw_headers p) (m_header_name p) (m_header_value p) (m_chunk_size_str p)
    (m_size_of_current_chunk p) (m_bytes_read_in_current_chunk p)
    (m_bytes_content_remaining p) (m_bytes_content_read p) (m_bytes_last_read p)
    (m_bytes_total_read p) (m_max_content_length p) (m_parse_headers_only p)
    (m_save_raw_headers p).
Definition with_m_raw_headers (v : bytes) (p : parser) : parser :=
  mk_parser (m_is_request p) (m_read p) (m_message_parse_state p)
    (m_headers_parse_state p) (m_chunked_content_parse_state p) (m_payload_handler p)
    (m_status_code p) (m_status_message p) (m_method p) (m_resource p)
    (m_query_string p) v (m_header_name p) (m_header_value p) (m_chunk_size_str p)
    (m_size_of_current_chunk p) (m_bytes_read_in_current_chunk p)
    (m_bytes_content_remaining p) (m_bytes_content_read p) (m_bytes_last_read p)
    (m_bytes_total_read p) (m_max_content_length p) (m_parse_headers_only p)
    (m_save_raw_headers p).
Definition with_m_header_name (v : bytes) (p : parser) : parser :=
  mk_parser (m_is_request p) (m_read p) (m_message_parse_state p)
    (m_headers_parse_state p) (m_chunked_content_parse_state p) (m_payload_handler p)
    (m_status_code p) (m_status_message p) (m_method p) (m_resource p)
    (m_query_string p) (m_raw_headers p) v (m_header_value p) (m_chunk_size_str p)
    (m_size_of_current_chunk p) (m_bytes_read_in_current_chunk p)
    (m_bytes_content_remaining p) (m_bytes_content_read p) (m_bytes_last_read p)
    (m_bytes_total_read p) (m_max_content_length p) (m_parse_headers_only p)
    (m_save_raw_headers p).
Definition with_m_header_value (v : bytes) (p : parser) : parser :=
  mk_parser (m_is_request p) (m_read p) (m_message_parse_state p)
    (m_headers_parse_state p) (m_chunked_content_parse_state p) (m_payload_handler p)
    (m_status_code p) (m_status_message p) (m_method p) (m_resource p)
    (m_query_string p) (m_raw_headers p) (m_header_name p) v (m_chunk_size_str p)
    (m_size_of_current_chunk p) (m_bytes_read_in_current_chunk p)
    (m_bytes_content_remaining p) (m_bytes_content_read p) (m_bytes_last_read p)
    (m_bytes_total_read p) (m_max_content_length p) (m_parse_headers_only p)
    (m_save_raw_headers p).
Definition with_m_chunk_size_str (v : bytes) (p : parser) : parser :=
  mk_parser (m_is_request p) (m_read p) (m_message_parse_state p)
    (m_headers_parse_state p) (m_chunked_content_parse_state p) (m_payload_handler p)
    (m_status_code p) (m_status_message p) (m_method p) (m_resource p)
    (m_query_string p) (m_raw_headers p) (m_header_name p) (m_header_value p) v
    (m_size_of_current_chunk p) (m_bytes_read_in_current_chunk p)
    (m_bytes_content_remaining p) (m_bytes_content_read p) (m_bytes_last_read p)
    (m_bytes_total_read p) (m_max_content_length p) (m_parse_headers_only p)
    (m_save_raw_headers p).
Definition with_m_size_of_current_chunk (v : Z) (p : parser) : parser :=
  mk_parser (m_is_request p) (m_read p) (m_message_parse_state p)
    (m_headers_parse_state p) (m_chunked_content_parse_state p) (m_payload_handler p)
    (m_status_code p) (m_status_message p) (m_method p) (m_resource p)
    (m_query_string p) (m_raw_headers p) (m_header_name p) (m_header_value p)
    (m_chunk_size_str p) v (m_bytes_read_in_current_chunk p)
    (m_bytes_content_remaining p) (m_bytes_content_read p) (m_bytes_last_read p)
    (m_bytes_total_read p) (m_max_content_length p) (m_parse_headers_only p)
    (m_save_raw_headers p).
Definition with_m_bytes_read_in_current_chunk (v : Z) (p : parser) : parser :=
  mk_parser (m_is_request p) (m_read p) (m_message_parse_state p)
    (m_headers_parse_state p) (m_chunked_content_parse_state p) (m_payload_handler p)
    (m_status_code p) (m_status_message p) (m_method p) (m_resource p)
    (m_query_string p) (m_raw_headers p) (m_header_name p) (m_header_value p)
    (m_chunk_size_str p) (m_size_of_current_chunk p) v (m_bytes_content_remaining p)
    (m_bytes_content_read p) (m_bytes_last_read p) (m_bytes_total_read p)
    (m_max_content_length p) (m_parse_headers_only p) (m_save_raw_headers p).
Definition with_m_bytes_content_remaining (v : Z) (p : parser) : parser :=
  mk_parser (m_is_request p) (m_read p) (m_message_parse_state p)
    (m_headers_parse_state p) (m_chunked_content_parse_state p) (m_payload_handler p)
    (m_status_code p) (m_status_message p) (m_method p) (m_resource p)
    (m_query_string p) (m_raw_headers p) (m_header_name p) (m_header_value p)
    (m_chunk_size_str p) (m_size_of_current_chunk p) (m_bytes_read_in_current_chunk p) v
    (m_bytes_content_read p) (m_bytes_last_read p) (m_bytes_total_read p)
    (m_max_content_length p) (m_parse_headers_only p) (m_save_raw_headers p).
Definition with_m_bytes_content_read (v : Z) (p : parser) : parser :=
  mk_parser (m_is_request p) (m_read p) (m_message_parse_state p)
    (m_headers_parse_state p) (m_chunked_content_parse_state p) (m_payload_handler p)
    (m_status_code p) (m_status_message p) (m_method p) (m_resource p)
    (m_query_string p) (m_raw_headers p) (m_header_name p) (m_header_value p)
    (m_chunk_size_str p) (m_size_of_current_chunk p) (m_bytes_read_in_current_chunk p)
    (m_bytes_content_remaining p) v (m_bytes_last_read p) (m_bytes_total_read p)
    (m_max_content_length p) (m_parse_headers_only p) (m_save_raw_headers p).
Definition with_m_bytes_last_read (v : Z) (p : parser) : parser :=
  mk_parser (m_is_request p) (m_read p) (m_message_parse_state p)
    (m_headers_parse_state p) (m_chunked_content_parse_state p) (m_payload_handler p)
    (m_status_code p) (m_status_message p) (m_method p) (m_resource p)
    (m_query_string p) (m_raw_headers p) (m_header_name p) (m_header_value p)
    (m_chunk_size_str p) (m_size_of_current_chunk p) (m_bytes_read_in_current_chunk p)
    (m_bytes_content_remaining p) (m_bytes_content_read p) v (m_bytes_total_read p)
    (m_max_content_length p) (m_parse_headers_only p) (m_save_raw_headers p).
Definition with_m_bytes_total_read (v : Z) (p : parser) : parser :=
  mk_parser (m_is_request p) (m_read p) (m_message_parse_state p)
    (m_headers_parse_state p) (m_chunked_content_parse_state p) (m_payload_handler p)
    (m_status_code p) (m_status_message p) (m_method p) (m_resource p)
    (m_query_string p) (m_raw_headers p) (m_header_name p) (m_header_value p)
    (m_chunk_size_str p) (m_size_of_current_chunk p) (m_bytes_read_in_current_chunk p)
    (m_bytes_content_remaining p) (m_bytes_content_read p) (m_bytes_last_read p) v
    (m_max_content_length p) (m_parse_headers_only p) (m_save_raw_headers p).
Definition with_m_max_content_length (v : Z) (p : parser) : parser :=
  mk_parser (m_is_request p) (m_read p) (m_message_parse_state p)
    (m_headers_parse_state p) (m_chunked_content_parse_state p) (m_payload_handler p)
    (m_status_code p) (m_status_message p) (m_method p) (m_resource p)
    (m_query_string p) (m_raw_headers p) (m_header_name p) (m_header_value p)
    (m_chunk_size_str p) (m_size_of_current_chunk p) (m_bytes_read_in_current_chunk p)
    (m_bytes_content_remaining p) (m_bytes_content_read p) (m_bytes_last_read p)
    (m_bytes_total_read p) v (m_parse_headers_only p) (m_save_raw_headers p).
Definition with_m_parse_headers_only (v : bool) (p : parser) : parser :=
  mk_parser (m_is_request p) (m_read p) (m_message_parse_state p)
    (m_headers_parse_state p) (m_chunked_content_parse_state p) (m_payload_handler p)
    (m_status_code p) (m_status_message p) (m_method p) (m_resource p)
    (m_query_string p) (m_raw_headers p) (m_header_name p) (m_header_value p)
    (m_chunk_size_str p) (m_size_of_current_chunk p) (m_bytes_read_in_current_chunk p)
    (m_bytes_content_remaining p) (m_bytes_content_read p) (m_bytes_last_read p)
    (m_bytes_total_read p) (m_max_content_length p) v (m_save_raw_headers p).
Definition with_m_save_raw_headers (v : bool) (p : parser) : parser :=
  mk_parser (m_is_request p) (m_read p) (m_message_parse_state p)
    (m_headers_parse_state p) (m_chunked_content_parse_state p) (m_payload_handler p)
    (m_status_code p) (m_status_message p) (m_method p) (m_resource p)
    (m_query_string p) (m_raw_headers p) (m_header_name p) (m_header_value p)
    (m_chunk_size_str p) (m_size_of_current_chunk p) (m_bytes_read_in_current_chunk p)
    (m_bytes_content_remaining p) (m_bytes_content_read p) (m_bytes_last_read p)
    (m_bytes_total_read p) (m_max_content_length p) (m_parse_headers_only p) v.

(** ** Inline members *)

Definition initial_header_state (request : bool) : header_parse_state_t :=
  if request then PARSE_METHOD_START else PARSE_HTTP_VERSION_H.

(** The constructor. *)
Definition new_parser (request : bool) (max_content_length : Z) : parser :=
  mk_parser request [] PARSE_START (initial_header_state request) PARSE_CHUNK_SIZE_START
    None 0 [] [] [] [] [] [] [] [] 0 0 0 0 0 0 max_content_length false false.

Definition set_read_buffer (buf : bytes) (p : parser) : parser := with_m_read buf p.

Definition eof (p : parser) : bool := bool_decide (m_read p = []).

Definition bytes_available (p : parser) : Z := if eof p then 0 else zlen (m_read p).

Definition parse_headers_only (b : bool) (p : parser) : parser := with_m_parse_headers_only b p.

Definition set_max_content_length (n : Z) (p : parser) : parser := with_m_max_content_length n p.

Definition reset_max_content_length (p : parser) : parser :=
  with_m_max_content_length DEFAULT_CONTENT_MAX p.

Definition set_save_raw_headers (b : bool) (p : parser) : parser := with_m_save_raw_headers b p.

(** A handler that has not been called yet. *)
Definition set_payload_handler (p : parser) : parser := with_m_payload_handler (Some []) p.

Definition has_handler (p : parser) : bool :=
  match m_payload_handler p with Some _ => true | None => false end.

(** [m_payload_handler(ptr, len)]. *)
Definition call_handler (block : bytes) (p : parser) : parser :=
  match m_payload_handler p with
  | Some calls => with_m_payload_handler (Some (calls ++ [block])) p
  | None => p
  end.

Definition reset (p : parser) : parser :=
  let p := with_m_message_parse_state PARSE_START p in
  let p := with_m_headers_parse_state (initial_header_state (m_is_request p)) p in
  let p := with_m_chunked_content_parse_state PARSE_CHUNK_SIZE_START p in
  let p := with_m_status_code 0 p in
  let p := with_m_status_message [] p in
  let p := with_m_method [] p in
  let p := with_m_resource [] p in
  let p := with_m_query_string [] p in
  let p := with_m_raw_headers [] p in
  let p := with_m_bytes_content_read 0 p in
  let p := with_m_bytes_last_read 0 p in
  with_m_bytes_total_read 0 p.

(** Simplification leaves the character classes folded. *)
Arguments is_char : simpl never.
Arguments is_control : simpl never.
Arguments is_special : simpl never.
Arguments is_digit : simpl never.
Arguments is_hex_digit : simpl never.
Arguments not_token : simpl never.
Arguments digit : simpl never.

(** ** Lemmas on the character classes *)

Lemma digit_range c : is_digit c = true -> 0 <= digit c <= 9.
Proof. unfold is_digit, digit. intros. reflect_bools. lia. Qed.

(** A character of a token is not a separator of the header grammar. *)
Lemma token_char_ne c d : not_token c = false -> not_token d = true -> c <> d.
Proof. congruence. Qed.

Lemma control_ne c d : is_control c = false -> is_control d = true -> c <> d.
Proof. congruence. Qed.

(** The separators are recognised as such. *)
Lemma separators_not_token :
  Forall (fun c => not_token c = true) [SP; CR; LF; TAB; ":"%byte].
Proof. repeat constructor. Qed.
