(* ===== verification/ParserHeaders.v ===== *)
(** * The HTTP parser: headers

    Models [parser::parse_headers] (src/http_parser.cpp): one definition per group of
    [case]s of the [switch], the loop over the read buffer, and the member function.

    A character either advances the state machine ([HNext]), is refused ([HError]) or
    ends the headers ([HDone]), in which case it is consumed or left in the buffer. *)
From S2P Require Import Prelude CLib StringUtils Dict Tribool HttpTypes Message ParserBase.

Inductive hstep :=
| HNext (p : parser) (m : message)
| HError (e : error_value_t)
| HDone (consume : bool).

(** [m_headers_parse_state = s]. *)
Definition goto (s : header_parse_state_t) (p : parser) : parser :=
  with_m_headers_parse_state s p.

(** [set_version_major(n); set_version_minor(n)] for a request without a version. *)
Definition version_zero (m : message) : message :=
  set_version_minor 0 (set_version_major 0 m).

(** ** Cases of the switch *)

(** Request method. *)
Definition step_method_start (c : char) (p : parser) (m : message) : hstep :=
  if (c <>c SP) && (c <>c CR) && (c <>c LF) then
    if not_token c then HError ERROR_METHOD_CHAR
    else HNext (with_m_method [c] (goto PARSE_METHOD p)) m
  else HNext p m.

Definition step_method (c : char) (p : parser) (m : message) : hstep :=
  if c =c SP then HNext (goto PARSE_URI_STEM (with_m_resource [] p)) m
  else if not_token c then HError ERROR_METHOD_CHAR
  else if METHOD_MAX <=? zlen (m_method p) then HError ERROR_METHOD_SIZE
  else HNext (with_m_method (m_method p ++ [c]) p) m.

(** URI stem and query string. *)
Definition step_uri_stem (c : char) (p : parser) (m : message) : hstep :=
  if c =c SP then HNext (goto PARSE_HTTP_VERSION_H p) m
  else if c =c "?"%byte then HNext (goto PARSE_URI_QUERY (with_m_query_string [] p)) m
  else if c =c CR then HNext (goto PARSE_EXPECTING_NEWLINE p) (version_zero m)
  else if c =c LF then HNext (goto PARSE_EXPECTING_CR p) (version_zero m)
  else if is_control c then HError ERROR_URI_CHAR
  else if RESOURCE_MAX <=? zlen (m_resource p) then HError ERROR_URI_SIZE
  else HNext (with_m_resource (m_resource p ++ [c]) p) m.

Definition step_uri_query (c : char) (p : parser) (m : message) : hstep :=
  if c =c SP then HNext (goto PARSE_HTTP_VERSION_H p) m
  else if c =c CR then HNext (goto PARSE_EXPECTING_NEWLINE p) (version_zero m)
  else if c =c LF then HNext (goto PARSE_EXPECTING_CR p) (version_zero m)
  else if is_control c then HError ERROR_QUERY_CHAR
  else if QUERY_STRING_MAX <=? zlen (m_query_string p) then HError ERROR_QUERY_SIZE
  else HNext (with_m_query_string (m_query_string p ++ [c]) p) m.

(** HTTP version.  The assignment after the [if] chain of the first case overrides the
    state chosen for a line that ends here. *)
Definition step_version_h (c : char) (p : parser) (m : message) : hstep :=
  if c =c CR then
    if negb (m_is_request p) then HError ERROR_VERSION_EMPTY
    else HNext (goto PARSE_HTTP_VERSION_T_1 (goto PARSE_EXPECTING_NEWLINE p)) (version_zero m)
  else if c =c LF then
    if negb (m_is_request p) then HError ERROR_VERSION_EMPTY
    else HNext (goto PARSE_HTTP_VERSION_T_1 (goto PARSE_EXPECTING_CR p)) (version_zero m)
  else if c <>c "H"%byte then HError ERROR_VERSION_CHAR
  else HNext (goto PARSE_HTTP_VERSION_T_1 p) m.

Definition step_version_letter (letter : char) (next : header_parse_state_t)
    (c : char) (p : parser) (m : message) : hstep :=
  if c <>c letter then HError ERROR_VERSION_CHAR else HNext (goto next p) m.

Definition step_version_major_start (c : char) (p : parser) (m : message) : hstep :=
  if negb (is_digit c) then HError ERROR_VERSION_CHAR
  else HNext (goto PARSE_HTTP_VERSION_MAJOR p) (set_version_major (digit c) m).

Definition step_version_major (c : char) (p : parser) (m : message) : hstep :=
  if c =c "."%byte then HNext (goto PARSE_HTTP_VERSION_MINOR_START p) m
  else if is_digit c then HNext p (set_version_major (m_version_major m * 10 + digit c) m)
  else HError ERROR_VERSION_CHAR.

Definition step_version_minor_start (c : char) (p : parser) (m : message) : hstep :=
  if negb (is_digit c) then HError ERROR_VERSION_CHAR
  else HNext (goto PARSE_HTTP_VERSION_MINOR p) (set_version_minor (digit c) m).

Definition step_version_minor (c : char) (p : parser) (m : message) : hstep :=
  if c =c SP then
    HNext (if negb (m_is_request p) then goto PARSE_STATUS_CODE_START p else p) m
  else if c =c CR then
    if negb (m_is_request p) then HError ERROR_STATUS_EMPTY
    else HNext (goto PARSE_EXPECTING_NEWLINE p) m
  else if c =c LF then
    if negb (m_is_request p) then HError ERROR_STATUS_EMPTY
    else HNext (goto PARSE_EXPECTING_CR p) m
  else if is_digit c then HNext p (set_version_minor (m_version_minor m * 10 + digit c) m)
  else HError ERROR_VERSION_CHAR.

(** Response status. *)
Definition step_status_code_start (c : char) (p : parser) (m : message) : hstep :=
  if negb (is_digit c) then HError ERROR_STATUS_CHAR
  else HNext (goto PARSE_STATUS_CODE (with_m_status_code (u16 (digit c)) p)) m.

Definition step_status_code (c : char) (p : parser) (m : message) : hstep :=
  if c =c SP then HNext (goto PARSE_STATUS_MESSAGE (with_m_status_message [] p)) m
  else if is_digit c then
    HNext (with_m_status_code (u16 (m_status_code p * 10 + digit c)) p) m
  else if c =c CR then HNext (goto PARSE_EXPECTING_NEWLINE (with_m_status_message [] p)) m
  else if c =c LF then HNext (goto PARSE_EXPECTING_CR (with_m_status_message [] p)) m
  else HError ERROR_STATUS_CHAR.

Definition step_status_message (c : char) (p : parser) (m : message) : hstep :=
  if c =c CR then HNext (goto PARSE_EXPECTING_NEWLINE p) m
  else if c =c LF then HNext (goto PARSE_EXPECTING_CR p) m
  else if is_control c then HError ERROR_STATUS_CHAR
  else if STATUS_MESSAGE_MAX <=? zlen (m_status_message p) then HError ERROR_STATUS_CHAR
  else HNext (with_m_status_message (m_status_message p ++ [c]) p) m.

(** The first character of a header name, common to the next four cases. *)
Definition start_header_name (c : char) (p : parser) : parser :=
  goto PARSE_HEADER_NAME (with_m_header_name [c] p).

(** Line ends and header names. *)
Definition step_expecting_newline (c : char) (p : parser) (m : message) : hstep :=
  if c =c LF then
    if m_is_request p && (m_version_major m =? 0) then HDone true
    else HNext (goto PARSE_HEADER_START p) m
  else if c =c CR then HDone true
  else if (c =c TAB) || (c =c SP) then HNext (goto PARSE_HEADER_WHITESPACE p) m
  else if not_token c then HError ERROR_HEADER_CHAR
  else HNext (start_header_name c p) m.

Definition step_expecting_cr (c : char) (p : parser) (m : message) : hstep :=
  if c =c CR then HNext (goto PARSE_HEADER_START p) m
  else if c =c LF then HDone true
  else if (c =c TAB) || (c =c SP) then HNext (goto PARSE_HEADER_WHITESPACE p) m
  else if not_token c then HError ERROR_HEADER_CHAR
  else HNext (start_header_name c p) m.

Definition step_header_whitespace (c : char) (p : parser) (m : message) : hstep :=
  if c =c CR then HNext (goto PARSE_EXPECTING_NEWLINE p) m
  else if c =c LF then HNext (goto PARSE_EXPECTING_CR p) m
  else if (c <>c TAB) && (c <>c SP) then
    if not_token c then HError ERROR_HEADER_CHAR else HNext (start_header_name c p) m
  else HNext p m.

Definition step_header_start (c : char) (p : parser) (m : message) : hstep :=
  if c =c CR then HNext (goto PARSE_EXPECTING_FINAL_NEWLINE p) m
  else if c =c LF then HNext (goto PARSE_EXPECTING_FINAL_CR p) m
  else if (c =c TAB) || (c =c SP) then HNext (goto PARSE_HEADER_WHITESPACE p) m
  else if not_token c then HError ERROR_HEADER_CHAR
  else HNext (start_header_name c p) m.

Definition step_header_name (c : char) (p : parser) (m : message) : hstep :=
  if c =c ":"%byte then
    HNext (goto PARSE_SPACE_BEFORE_HEADER_VALUE (with_m_header_value [] p)) m
  else if not_token c then HError ERROR_HEADER_CHAR
  else if HEADER_NAME_MAX <=? zlen (m_header_name p) then HError ERROR_HEADER_NAME_SIZE
  else HNext (with_m_header_name (m_header_name p ++ [c]) p) m.

(** [http_msg.add_header(m_header_name, m_header_value)]. *)
Definition store_header (p : parser) (m : message) : message :=
  add_header (m_header_name p) (m_header_value p) m.

Definition step_space_before_value (c : char) (p : parser) (m : message) : hstep :=
  if c =c SP then HNext (goto PARSE_HEADER_VALUE p) m
  else if c =c CR then HNext (goto PARSE_EXPECTING_NEWLINE p) (store_header p m)
  else if c =c LF then HNext (goto PARSE_EXPECTING_CR p) (store_header p m)
  else if not_token c then HError ERROR_HEADER_CHAR
  else HNext (goto PARSE_HEADER_VALUE
                (with_m_header_value (m_header_value p ++ [c]) p)) m.

Definition step_header_value (c : char) (p : parser) (m : message) : hstep :=
  if c =c CR then HNext (goto PARSE_EXPECTING_NEWLINE p) (store_header p m)
  else if c =c LF then HNext (goto PARSE_EXPECTING_CR p) (store_header p m)
  else if (c <>c TAB) && is_control c then HError ERROR_HEADER_CHAR
  else if HEADER_VALUE_MAX <=? zlen (m_header_value p) then HError ERROR_HEADER_VALUE_SIZE
  else HNext (with_m_header_value (m_header_value p ++ [c]) p) m.

(** The two final states consume the expected character and stop in any case. *)
Definition step_final (expected : char) (c : char) : hstep := HDone (c =c expected).

Definition headers_step (c : char) (p : parser) (m : message) : hstep :=
  match m_headers_parse_state p with
  | PARSE_METHOD_START => step_method_start c p m
  | PARSE_METHOD => step_method c p m
  | PARSE_URI_STEM => step_uri_stem c p m
  | PARSE_URI_QUERY => step_uri_query c p m
  | PARSE_HTTP_VERSION_H => step_version_h c p m
  | PARSE_HTTP_VERSION_T_1 => step_version_letter "T"%byte PARSE_HTTP_VERSION_T_2 c p m
  | PARSE_HTTP_VERSION_T_2 => step_version_letter "T"%byte PARSE_HTTP_VERSION_P c p m
  | PARSE_HTTP_VERSION_P => step_version_letter "P"%byte PARSE_HTTP_VERSION_SLASH c p m
  | PARSE_HTTP_VERSION_SLASH =>
      step_version_letter "/"%byte PARSE_HTTP_VERSION_MAJOR_START c p m
  | PARSE_HTTP_VERSION_MAJOR_START => step_version_major_start c p m
  | PARSE_HTTP_VERSION_MAJOR => step_version_major c p m
  | PARSE_HTTP_VERSION_MINOR_START => step_version_minor_start c p m
  | PARSE_HTTP_VERSION_MINOR => step_version_minor c p m
  | PARSE_STATUS_CODE_START => step_status_code_start c p m
  | PARSE_STATUS_CODE => step_status_code c p m
  | PARSE_STATUS_MESSAGE => step_status_message c p m
  | PARSE_EXPECTING_NEWLINE => step_expecting_newline c p m
  | PARSE_EXPECTING_CR => step_expecting_cr c p m
  | PARSE_HEADER_WHITESPACE => step_header_whitespace c p m
  | PARSE_HEADER_START => step_header_start c p m
  | PARSE_HEADER_NAME => step_header_name c p m
  | PARSE_SPACE_BEFORE_HEADER_VALUE => step_space_before_value c p m
  | PARSE_HEADER_VALUE => step_header_value c p m
  | PARSE_EXPECTING_FINAL_NEWLINE => step_final LF c
  | PARSE_EXPECTING_FINAL_CR => step_final CR c
  end.

(** ** The loop and the member function *)

(** [if (m_save_raw_headers) m_raw_headers += *m_read_ptr]. *)
Definition save_raw (c : char) (p : parser) : parser :=
  if m_save_raw_headers p then with_m_raw_headers (m_raw_headers p ++ [c]) p else p.

(** What the loop leaves: the result, the error, the parser, the message and the bytes
    that were not consumed. *)
Record hresult := mk_hresult {
  h_rc : tribool;
  h_error : option error_value_t;
  h_parser : parser;
  h_message : message;
  h_rest : bytes
}.

Fixpoint parse_headers_loop (buf : bytes) (p : parser) (m : message) : hresult :=
  match buf with
  | [] => mk_hresult indeterminate_value None p m []
  | c :: buf' =>
      let p := save_raw c p in
      match headers_step c p m with
      | HNext p m => parse_headers_loop buf' p m
      | HError e => mk_hresult false_value (Some e) p m buf
      | HDone consume => mk_hresult true_value None p m (if consume then buf' else buf)
      end
  end.

(** An error leaves [m_bytes_last_read] at zero and the total unchanged. *)
Definition parse_headers (p : parser) (m : message) (ec : error_code)
  : tribool * parser * message * error_code :=
  let r := parse_headers_loop (m_read p) p m in
  let n := zlen (m_read p) - zlen (h_rest r) in
  let p' := with_m_read (h_rest r) (h_parser r) in
  match h_error r with
  | Some e => (h_rc r, with_m_bytes_last_read 0 p', h_message r, Some e)
  | None =>
      (h_rc r,
       with_m_bytes_total_read (u64 (m_bytes_total_read p' + n)) (with_m_bytes_last_read n p'),
       h_message r, ec)
  end.

(** ** The loop on a stream that arrives in pieces *)

(** A fragment that was not refused and did not end the headers is consumed whole. *)
Lemma parse_headers_loop_rest buf p m :
  h_rc (parse_headers_loop buf p m) = indeterminate_value ->
  h_rest (parse_headers_loop buf p m) = [] /\ h_error (parse_headers_loop buf p m) = None.
Proof.
  revert p m. induction buf as [|c buf IH]; intros p m; simpl; [done|].
  destruct (headers_step _ _ _); simpl; [apply IH | done | done].
Qed.

(** The result and the error code agree. *)
Lemma parse_headers_loop_error buf p m :
  h_rc (parse_headers_loop buf p m) = false_value
  <-> exists e, h_error (parse_headers_loop buf p m) = Some e.
Proof.
  revert p m. induction buf as [|c buf IH]; intros p m; simpl.
  - split; [done | by intros [e [=]]].
  - destruct (headers_step _ _ _); simpl; [apply IH | split; eauto | split; [done|]].
    by intros [e [=]].
Qed.

(** Continue with [more] after a result on a first fragment. *)
Definition hcontinue (r : hresult) (more : bytes) : hresult :=
  match h_rc r with
  | indeterminate_value => parse_headers_loop more (h_parser r) (h_message r)
  | _ => mk_hresult (h_rc r) (h_error r) (h_parser r) (h_message r) (h_rest r ++ more)
  end.

(** Parsing [b1 ++ b2] is parsing [b1] and going on with [b2]. *)
Lemma parse_headers_loop_app b1 b2 p m :
  parse_headers_loop (b1 ++ b2) p m = hcontinue (parse_headers_loop b1 p m) b2.
Proof.
  revert p m. induction b1 as [|c b1 IH]; intros p m; simpl; [done|].
  destruct (headers_step _ _ _) as [p' m'|e|[]]; [apply IH | done | done | done].
Qed.

(** ** What the parser stores *)

(** A character that may appear in a header value. *)
Definition value_char (c : char) : bool := (c =c TAB) || negb (is_control c).

Definition text_char (c : char) : bool := negb (is_control c).

Definition token_char (c : char) : bool := negb (not_token c).

(** Strings over a class of characters with a limited length. *)
Definition bounded (cls : char -> bool) (max : Z) (s : bytes) : Prop :=
  Forall (fun c => cls c = true) s /\ zlen s <= max.

(** A stored header: a token and a value without control characters. *)
Definition header_ok (kv : bytes * bytes) : Prop :=
  fst kv <> [] /\ bounded token_char HEADER_NAME_MAX (fst kv)
  /\ bounded value_char HEADER_VALUE_MAX (snd kv).

(** The states in which a header name has been read. *)
Definition has_name (s : header_parse_state_t) : bool :=
  match s with
  | PARSE_HEADER_NAME | PARSE_SPACE_BEFORE_HEADER_VALUE | PARSE_HEADER_VALUE => true
  | _ => false
  end.

(** The invariant of the header parser. *)
Record headers_inv (p : parser) (m : message) : Prop := mk_headers_inv {
  hi_method : bounded token_char METHOD_MAX (m_method p);
  hi_resource : bounded text_char RESOURCE_MAX (m_resource p);
  hi_query : bounded text_char QUERY_STRING_MAX (m_query_string p);
  hi_status_message : bounded text_char STATUS_MESSAGE_MAX (m_status_message p);
  hi_name : bounded token_char HEADER_NAME_MAX (m_header_name p);
  hi_named : has_name (m_headers_parse_state p) = true -> m_header_name p <> [];
  hi_value : bounded value_char HEADER_VALUE_MAX (m_header_value p);
  hi_fresh_value : m_headers_parse_state p = PARSE_SPACE_BEFORE_HEADER_VALUE ->
                   m_header_value p = [];
  hi_status_code : 0 <= m_status_code p < 2 ^ 16;
  hi_major : 0 <= m_version_major m < 2 ^ 16;
  hi_minor : 0 <= m_version_minor m < 2 ^ 16;
  hi_headers : Forall header_ok (m_headers m)
}.

Lemma bounded_nil cls max : 0 <= max -> bounded cls max [].
Proof. by split. Qed.

Lemma bounded_one cls max c : 1 <= max -> cls c = true -> bounded cls max [c].
Proof. intros. split; [by repeat constructor | done]. Qed.

Lemma bounded_snoc cls max s c :
  bounded cls max s -> (max <=? zlen s) = false -> cls c = true -> bounded cls max (s ++ [c]).
Proof.
  intros [Hs _] Hmax Hc. reflect_bools. split.
  - apply Forall_app. split; [done|]. by repeat constructor.
  - rewrite zlen_snoc. lia.
Qed.

Lemma token_char_intro c : not_token c = false -> token_char c = true.
Proof. unfold token_char. by intros ->. Qed.

Lemma text_char_intro c : is_control c = false -> text_char c = true.
Proof. unfold text_char. by intros ->. Qed.

Lemma value_char_intro c : (c <>c TAB) && is_control c = false -> value_char c = true.
Proof. unfold value_char. destruct (c =c TAB), (is_control c); done. Qed.

Lemma token_value_char c : not_token c = false -> value_char c = true.
Proof.
  unfold not_token, value_char. destruct (is_char c), (is_control c), (is_special c); simpl;
    rewrite ?orb_true_r; done.
Qed.

#[export] Hint Resolve bounded_nil bounded_one bounded_snoc token_char_intro
  text_char_intro value_char_intro token_value_char : pion.
#[export] Hint Extern 1 (0 <= _) => done : pion.
#[export] Hint Extern 1 (1 <= _) => done : pion.

(** Run through the cases of the switch and of the conditions in each of them. *)
Ltac hstep_cases p :=
  unfold headers_step;
  destruct (m_headers_parse_state p) eqn:?;
  unfold step_method_start, step_method, step_uri_stem, step_uri_query, step_version_h,
    step_version_letter, step_version_major_start, step_version_major,
    step_version_minor_start, step_version_minor, step_status_code_start,
    step_status_code, step_status_message, step_expecting_newline, step_expecting_cr,
    step_header_whitespace, step_header_start, step_header_name,
    step_space_before_value, step_header_value, step_final;
  repeat case_if.

Lemma store_header_ok p m :
  headers_inv p m -> has_name (m_headers_parse_state p) = true ->
  Forall header_ok (m_headers (store_header p m)).
Proof.
  intros [] Hs. apply Forall_app. split; [done|]. constructor; [|done].
  by split; [apply hi_named0 | split].
Qed.

Lemma headers_step_inv c p m p' m' :
  headers_inv p m -> headers_step c p m = HNext p' m' -> headers_inv p' m'.
Proof.
  intros Hi. pose proof (store_header_ok p m Hi) as Hstore.
  hstep_cases p; try discriminate; intros [= <- <-]; destruct Hi; split; cbn;
    try assumption; try discriminate; try apply u16_range; try congruence;
    auto with pion.
  all: try by destruct (m_header_name p).
  all: try (intros _; apply hi_named0; by rewrite Heqh).
  rewrite hi_fresh_value0 by done. auto with pion.
Qed.

Lemma save_raw_inv c p m : headers_inv p m -> headers_inv (save_raw c p) m.
Proof.
  unfold save_raw. intros Hi. case_if; [|exact Hi].
  destruct Hi as [H1 H2 H3 H4 H5 H6 H7 H8 H9 H10 H11 H12].
  exact (mk_headers_inv (with_m_raw_headers (m_raw_headers p ++ [c]) p) m
           H1 H2 H3 H4 H5 H6 H7 H8 H9 H10 H11 H12).
Qed.

Lemma parse_headers_loop_inv buf p m :
  headers_inv p m ->
  headers_inv (h_parser (parse_headers_loop buf p m)) (h_message (parse_headers_loop buf p m)).
Proof.
  revert p m. induction buf as [|c buf IH]; intros p m Hi; simpl; [done|].
  pose proof (save_raw_inv c p m Hi).
  destruct (headers_step c (save_raw c p) m) eqn:E; simpl; [|done|done].
  apply IH. by eapply headers_step_inv.
Qed.

Lemma new_parser_inv request max kind : headers_inv (new_parser request max) (new_message kind).
Proof. split; simpl; auto with pion; try done; by destruct request. Qed.

(** C33: whatever bytes arrive, everything the header parser has stored is well formed:
    method, resource, query string, status message and every header name and value are
    within their limits and free of control characters (so of CR, LF and NUL; a header
    value may hold a TAB), header names are non-empty tokens, and the numbers fit their
    sixteen bits.  This holds at every point of the stream, also after an error. *)
Theorem headers_stored_well_formed buf request max kind r :
  r = parse_headers_loop buf (new_parser request max) (new_message kind) ->
  bounded token_char METHOD_MAX (m_method (h_parser r))
  /\ bounded text_char RESOURCE_MAX (m_resource (h_parser r))
  /\ bounded text_char QUERY_STRING_MAX (m_query_string (h_parser r))
  /\ bounded text_char STATUS_MESSAGE_MAX (m_status_message (h_parser r))
  /\ Forall header_ok (m_headers (h_message r))
  /\ 0 <= m_status_code (h_parser r) < 2 ^ 16
  /\ 0 <= m_version_major (h_message r) < 2 ^ 16
  /\ 0 <= m_version_minor (h_message r) < 2 ^ 16.
Proof.
  intros ->. destruct (parse_headers_loop_inv buf _ _ (new_parser_inv request max kind)).
  repeat split; try assumption; apply hi_method0 || apply hi_resource0 || apply hi_query0
    || apply hi_status_message0 || lia.
Qed.

Lemma headers_stored_well_formed_witness :
  let r := parse_headers_loop (str "GET /a?b=c HTTP/1.1") (new_parser true 10)
             (new_message (KResponse (mk_response 0 [] []))) in
  m_resource (h_parser r) = str "/a" /\ bounded text_char RESOURCE_MAX (m_resource (h_parser r)).
Proof.
  intros r. split; [reflexivity|].
  apply (headers_stored_well_formed (str "GET /a?b=c HTTP/1.1") true 10
           (KResponse (mk_response 0 [] [])) r eq_refl).
Defined.

(** ** The two automata *)

(** The states of the start line, which differ between requests and responses. *)
Definition request_line_state (s : header_parse_state_t) : bool :=
  match s with
  | PARSE_METHOD_START | PARSE_METHOD | PARSE_URI_STEM | PARSE_URI_QUERY => true
  | _ => false
  end.

Definition status_line_state (s : header_parse_state_t) : bool :=
  match s with
  | PARSE_STATUS_CODE_START | PARSE_STATUS_CODE | PARSE_STATUS_MESSAGE => true
  | _ => false
  end.

(** A parser for requests is never in a state of the status line, and conversely. *)
Definition automaton_ok (p : parser) : Prop :=
  if m_is_request p then status_line_state (m_headers_parse_state p) = false
  else request_line_state (m_headers_parse_state p) = false.

Lemma headers_step_automaton c p m p' m' :
  automaton_ok p -> headers_step c p m = HNext p' m' ->
  automaton_ok p' /\ m_is_request p' = m_is_request p.
Proof.
  unfold automaton_ok. intros Ha.
  hstep_cases p; try discriminate; intros [= <- <-]; cbn in *; destruct (m_is_request p);
    cbn in *; try discriminate; rewrite ?Heqh; auto.
Qed.

Lemma save_raw_automaton c p : automaton_ok p -> automaton_ok (save_raw c p).
Proof. unfold automaton_ok, save_raw. by destruct (m_save_raw_headers p). Qed.

Lemma save_raw_is_request c p : m_is_request (save_raw c p) = m_is_request p.
Proof. unfold save_raw. by case_if. Qed.

(** Parsing headers never changes the kind of the parser and stays in its automaton. *)
Lemma parse_headers_loop_automaton buf p m :
  automaton_ok p ->
  automaton_ok (h_parser (parse_headers_loop buf p m))
  /\ m_is_request (h_parser (parse_headers_loop buf p m)) = m_is_request p.
Proof.
  revert p m. induction buf as [|c buf IH]; intros p m Ha; simpl; [done|].
  pose proof (save_raw_automaton c p Ha) as Hr.
  pose proof (save_raw_is_request c p) as Hk.
  destruct (headers_step c (save_raw c p) m) eqn:E; simpl; [|done|done].
  destruct (headers_step_automaton _ _ _ _ _ Hr E) as [Ha' Hk'].
  destruct (IH _ m0 Ha') as [? ->]. split; [done | congruence].
Qed.

(** ** What parsing headers leaves alone *)

(** The members of the parser that [parse_headers] does not touch in its loop. *)
Definition body_view (p : parser) :=
  (m_is_request p, m_read p, m_message_parse_state p, m_chunked_content_parse_state p,
   m_payload_handler p, m_chunk_size_str p,
   (m_size_of_current_chunk p, m_bytes_read_in_current_chunk p,
    m_bytes_content_remaining p, m_bytes_content_read p, m_bytes_last_read p,
    m_bytes_total_read p, m_max_content_length p, m_parse_headers_only p,
    m_save_raw_headers p)).

(** The members of the message it does not touch. *)
Definition payload_view (m : message) :=
  (m_is_valid m, m_is_chunked m, m_chunks_supported m, m_do_not_send_content_length m,
   m_content_length m, m_content_buf m, m_chunk_cache m, m_cookie_params m,
   (m_status m, m_has_missing_packets m, m_has_data_after_missing m, m_kind m)).

Lemma headers_step_frame c p m p' m' :
  headers_step c p m = HNext p' m' ->
  body_view p' = body_view p /\ payload_view m' = payload_view m.
Proof. hstep_cases p; try discriminate; intros [= <- <-]; split; reflexivity. Qed.

Lemma save_raw_frame c p : body_view (save_raw c p) = body_view p.
Proof. unfold save_raw. by case_if. Qed.

Lemma parse_headers_loop_frame buf p m :
  body_view (h_parser (parse_headers_loop buf p m)) = body_view p
  /\ payload_view (h_message (parse_headers_loop buf p m)) = payload_view m.
Proof.
  revert p m. induction buf as [|c buf IH]; intros p m; simpl; [done|].
  pose proof (save_raw_frame c p) as Hr.
  destruct (headers_step c (save_raw c p) m) eqn:E; simpl; [|done|done].
  destruct (headers_step_frame _ _ _ _ _ E), (IH p0 m0). split; congruence.
Qed.

(** What is left of the buffer is a suffix of it. *)
Lemma parse_headers_loop_suffix buf p m :
  exists pre, buf = pre ++ h_rest (parse_headers_loop buf p m).
Proof.
  revert p m. induction buf as [|c buf IH]; intros p m; simpl; [by exists []|].
  destruct (headers_step _ _ _) as [p' m'|e|[]]; simpl;
    [destruct (IH p' m') as [pre E]; exists (c :: pre); simpl; by rewrite <- E
    | by exists [] | by exists [c] | by exists []].
Qed.
