(* ===== verification/ParserForms.v ===== *)
(** * The HTTP parser: URIs, query strings, cookies and form data

    Models the static functions of [http::parser] (src/http_parser.cpp) that parse a
    string on their own: [parse_uri], [parse_url_encoded], [binary_2base64],
    [base64_2binary], [parse_multipart_form_data], [parse_cookie_header] and
    [parse_forwarded_for].  A function that fills a dictionary returns its boolean with
    the dictionary, which keeps the entries made before a failure. *)
From S2P Require Import Prelude CLib StringUtils Algorithm Dict HttpTypes Message ParserBase.

(** ** URIs *)

(** The output parameters of [parse_uri]. *)
Record uri_parts := mk_uri {
  u_proto : bytes;
  u_host : bytes;
  u_port : Z;  (* uint16_t *)
  u_path : bytes;
  u_query : bytes
}.

(** [s.find(c, pos)]. *)
Definition find_char_from (c : char) (s : bytes) (pos : nat) : option nat :=
  (fun i => pos + i)%nat <$> find_char c (drop pos s).

(** [outs] holds the values of the parameters before the call; on failure some of them
    have been assigned already. *)
Definition parse_uri (uri : bytes) (outs : uri_parts) : bool * uri_parts :=
  let '(proto, proto_len) :=
    match find_sub (str "://") uri with
    | Some e => (take e uri, (e + 3)%nat)
    | None => ([], 0%nat)
    end in
  let '(path, server_port_end) :=
    match find_char_from "/"%byte uri proto_len with
    | None => (str "/", length uri)
    | Some e => (u_path outs, e)
    end in
  let t := take (server_port_end - proto_len) (drop proto_len uri) in
  let port_pos := find_char ":"%byte t in
  let host := match port_pos with Some i => take i t | None => t end in
  if bool_decide (host = []) then (false, mk_uri proto host (u_port outs) path (u_query outs))
  else
    let port :=
      match port_pos with
      | Some i => match stoi (drop (i + 1) t) with
                  | Ok n => Some (u16 n)
                  | Fault _ => None
                  end
      | None =>
          Some (if bytes_eqb proto (str "http") || bytes_eqb proto (str "HTTP") then 80
                else if bytes_eqb proto (str "https") || bytes_eqb proto (str "HTTPS")
                then 443 else 0)
      end in
    match port with
    | None => (false, mk_uri proto host (u_port outs) path (u_query outs))
    | Some port =>
        if (server_port_end <? length uri)%nat then
          let path := drop server_port_end uri in
          match find_char "?"%byte path with
          | Some q => (true, mk_uri proto host port (take q path) (drop (q + 1) path))
          | None => (true, mk_uri proto host port path [])
          end
        else (true, mk_uri proto host port path (u_query outs))
    end.

(** ** URL-encoded pairs *)

Inductive QueryParseState := QUERY_PARSE_NAME | QUERY_PARSE_VALUE.

(** [dict.insert(make_pair(url_decode(name), url_decode(value)))]. *)
Definition insert_decoded (dict : ihash_multimap) (name value : bytes) : ihash_multimap :=
  insert dict (url_decode name) (url_decode value).

Fixpoint parse_url_encoded_loop (st : QueryParseState) (query_name query_value : bytes)
    (dict : ihash_multimap) (s : bytes) : bool * ihash_multimap :=
  match s with
  | [] =>
      (true, if bool_decide (query_name = []) then dict
             else insert_decoded dict query_name query_value)
  | c :: s' =>
      match st with
      | QUERY_PARSE_NAME =>
          if c =c "="%byte then
            parse_url_encoded_loop QUERY_PARSE_VALUE query_name query_value dict s'
          else if c =c "&"%byte then
            if bool_decide (query_name = [])
            then parse_url_encoded_loop QUERY_PARSE_NAME query_name query_value dict s'
            else parse_url_encoded_loop QUERY_PARSE_NAME [] query_value
                   (insert_decoded dict query_name query_value) s'
          else if (c =c CR) || (c =c LF) || (c =c TAB) then
            parse_url_encoded_loop QUERY_PARSE_NAME query_name query_value dict s'
          else if is_control c || (QUERY_NAME_MAX <=? zlen query_name) then (false, dict)
          else parse_url_encoded_loop QUERY_PARSE_NAME (query_name ++ [c]) query_value dict s'
      | QUERY_PARSE_VALUE =>
          if c =c "&"%byte then
            if bool_decide (query_name = [])
            then parse_url_encoded_loop QUERY_PARSE_NAME query_name [] dict s'
            else parse_url_encoded_loop QUERY_PARSE_NAME [] []
                   (insert_decoded dict query_name query_value) s'
          else if c =c ","%byte then
            parse_url_encoded_loop QUERY_PARSE_VALUE query_name []
              (if bool_decide (query_name = []) then dict
               else insert_decoded dict query_name query_value) s'
          else if (c =c CR) || (c =c LF) || (c =c TAB) then
            parse_url_encoded_loop QUERY_PARSE_VALUE query_name query_value dict s'
          else if is_control c || (QUERY_VALUE_MAX <=? zlen query_value) then (false, dict)
          else parse_url_encoded_loop QUERY_PARSE_VALUE query_name (query_value ++ [c]) dict s'
      end
  end.

Definition parse_url_encoded (dict : ihash_multimap) (s : bytes) : bool * ihash_multimap :=
  if zlen s =? 0 then (true, dict)
  else parse_url_encoded_loop QUERY_PARSE_NAME [] [] dict s.

(** ** Cookies *)

Inductive CookieParseState := COOKIE_PARSE_NAME | COOKIE_PARSE_VALUE | COOKIE_PARSE_IGNORE.

(** The cookie is stored unless its name is an attribute. *)
Definition insert_cookie (set_cookie_header : bool) (dict : ihash_multimap)
    (name value : bytes) : ihash_multimap :=
  if is_cookie_attribute name set_cookie_header then dict else insert dict name value.

Fixpoint parse_cookie_loop (set_cookie_header : bool) (st : CookieParseState)
    (cookie_name cookie_value : bytes) (value_quote_character : char)
    (dict : ihash_multimap) (s : bytes) : bool * ihash_multimap :=
  let store := insert_cookie set_cookie_header in
  match s with
  | [] => (true, store dict cookie_name cookie_value)
  | c :: s' =>
      let continue st name value quote dict :=
        parse_cookie_loop set_cookie_header st name value quote dict s' in
      match st with
      | COOKIE_PARSE_NAME =>
          if c =c "="%byte then continue COOKIE_PARSE_VALUE cookie_name cookie_value NUL dict
          else if (c =c ";"%byte) || (c =c ","%byte) then
            if bool_decide (cookie_name = [])
            then continue st cookie_name cookie_value value_quote_character dict
            else continue st [] cookie_value value_quote_character
                   (store dict cookie_name cookie_value)
          else if c <>c SP then
            if is_control c || (COOKIE_NAME_MAX <=? zlen cookie_name) then (false, dict)
            else continue st (cookie_name ++ [c]) cookie_value value_quote_character dict
          else continue st cookie_name cookie_value value_quote_character dict
      | COOKIE_PARSE_VALUE =>
          if value_quote_character =c NUL then
            if (c =c ";"%byte) || (c =c ","%byte) then
              continue COOKIE_PARSE_NAME [] [] value_quote_character
                (store dict cookie_name cookie_value)
            else if (c =c "'"%byte) || (c =c x22) then
              if bool_decide (cookie_value = [])
              then continue st cookie_name cookie_value c dict
              else if COOKIE_VALUE_MAX <=? zlen cookie_value then (false, dict)
              else continue st cookie_name (cookie_value ++ [c]) value_quote_character dict
            else if (c <>c SP) || negb (bool_decide (cookie_value = [])) then
              if is_control c || (COOKIE_VALUE_MAX <=? zlen cookie_value) then (false, dict)
              else continue st cookie_name (cookie_value ++ [c]) value_quote_character dict
            else continue st cookie_name cookie_value value_quote_character dict
          else if c =c value_quote_character then
            continue COOKIE_PARSE_IGNORE [] [] value_quote_character
              (store dict cookie_name cookie_value)
          else if COOKIE_VALUE_MAX <=? zlen cookie_value then (false, dict)
          else continue st cookie_name (cookie_value ++ [c]) value_quote_character dict
      | COOKIE_PARSE_IGNORE =>
          continue (if (c =c ";"%byte) || (c =c ","%byte) then COOKIE_PARSE_NAME else st)
            cookie_name cookie_value value_quote_character dict
      end
  end.

Definition parse_cookie_header (dict : ihash_multimap) (s : bytes)
    (set_cookie_header : bool) : bool * ihash_multimap :=
  parse_cookie_loop set_cookie_header COOKIE_PARSE_NAME [] [] NUL dict s.

(** ** Base64 blocks of form data *)

Definition padding (n : Z) : bytes :=
  if n =? 0 then [] else if n =? 1 then str "==" else str "=".

(** The first [buf_size] characters of the encoding are copied, then the padding.  The NUL
    behind the encoding may be read; more may not, and the encoding is shorter when the
    length of the block does not fit its 32 bits.  The block is a string of [buf_size] bytes,
    so a null pointer is the caller's matter. *)
Definition binary_2base64 (buf : bytes) (stream_type : bytes) : res bytes :=
  let encoded := snd (base64_encode buf) in
  if zlen encoded + 1 <? zlen buf then Fault undefined_behaviour
  else Ok (str "data:" ++ stream_type ++ str "; base64, " ++ take (length buf) (encoded ++ [NUL])
           ++ padding (zlen buf mod 3)).

(** Returns the boolean, [out_size], the stream type and the bytes stored in the buffer;
    [buf_size] is the size of the output buffer, which is not null. *)
Definition base64_2binary (buf_size : Z) (base64 : bytes)
  : res (bool * Z * option bytes * bytes) :=
  if negb (equals (take 5 base64) (str "data:")) then Ok (false, 0, None, [])
  else match find_sub (str "; base64, ") base64 with
       | None => Ok (false, 0, None, [])
       | Some pos =>
           let out_stream_type := take (pos - 5) (drop 5 base64) in
           let prefix_end_pos := Z.of_nat pos + 10 in
           let size := zlen base64 in
           let ends_in_pad n := bool_decide (base64 !! Z.to_nat (n - 1) = Some "="%byte) in
           let size :=
             if (0 <? size) && ends_in_pad size then
               if (0 <? size - 1) && ends_in_pad (size - 1) then size - 2 else size - 1
             else size in
           let out_size := u64 (u64 (u64 (size - prefix_end_pos) * 6) / 8 + 1) in
           if size =? 0 then Ok (true, out_size, Some out_stream_type, [])
           else if buf_size <? size then Ok (false, out_size, Some out_stream_type, [])
           else
             r ← base64_decode (take (Z.to_nat size) base64);
             let decoded := snd r in
             (* the copied range must lie inside the decoded string *)
             if (size <? prefix_end_pos) || (zlen decoded <? size)
             then Fault undefined_behaviour
             else Ok (true, out_size, Some out_stream_type,
                      take (Z.to_nat (size - prefix_end_pos))
                        (drop (Z.to_nat prefix_end_pos) decoded) ++ [NUL])
       end.

(** ** Multipart form data *)

Inductive MultiPartParseState :=
| MP_PARSE_START | MP_PARSE_HEADER_CR | MP_PARSE_HEADER_LF | MP_PARSE_HEADER_NAME
| MP_PARSE_HEADER_SPACE | MP_PARSE_HEADER_VALUE | MP_PARSE_HEADER_LAST_LF
| MP_PARSE_FIELD_DATA.

#[export] Instance MultiPartParseState_eq_dec : EqDecision MultiPartParseState.
Proof. solve_decision. Defined.

(** The local variables of [parse_multipart_form_data]; [mp_pos] is [ptr] as an offset
    into the content. *)
Record mp_state := mk_mp {
  mp_parse_state : MultiPartParseState;
  mp_pos : nat;
  mp_header_name : bytes;
  mp_header_value : bytes;
  mp_field_name : bytes;
  mp_content_type : bytes;
  mp_found : bool;
  mp_mime64 : bool;
  mp_dict : ihash_multimap
}.

Definition mp_goto (s : MultiPartParseState) (x : mp_state) : mp_state :=
  mk_mp s (mp_pos x) (mp_header_name x) (mp_header_value x) (mp_field_name x)
    (mp_content_type x) (mp_found x) (mp_mime64 x) (mp_dict x).
Definition mp_set_pos (pos : nat) (x : mp_state) : mp_state :=
  mk_mp (mp_parse_state x) pos (mp_header_name x) (mp_header_value x) (mp_field_name x)
    (mp_content_type x) (mp_found x) (mp_mime64 x) (mp_dict x).

(** [std::search(buf + pos, end, boundary)]: the position of the boundary, or the end. *)
Definition mp_search (buf boundary : bytes) (pos : nat) : nat :=
  match find_sub boundary (drop pos buf) with
  | Some i => (pos + i)%nat
  | None => length buf
  end.

(** The characters from the position up to a double quote. *)
Fixpoint take_until_quote (s : bytes) : bytes :=
  match s with
  | [] => []
  | c :: s' => if c =c x22 then [] else c :: take_until_quote s'
  end.

(** The end of a header value: keep the content type or the field name. *)
Definition mp_end_of_header (x : mp_state) : mp_state :=
  let x :=
    if iequals (mp_header_name x) HEADER_CONTENT_TYPE then
      mk_mp (mp_parse_state x) (mp_pos x) (mp_header_name x) (mp_header_value x)
        (mp_field_name x) (mp_header_value x) (mp_found x)
        (negb (iequals (take 5 (mp_header_value x)) (str "text/"))) (mp_dict x)
    else if iequals (mp_header_name x) HEADER_CONTENT_DISPOSITION then
      match find_sub (str "name=" ++ [x22]) (mp_header_value x) with
      | Some i =>
          mk_mp (mp_parse_state x) (mp_pos x) (mp_header_name x) (mp_header_value x)
            (mp_field_name x ++ take_until_quote (drop (i + 6) (mp_header_value x)))
            (mp_content_type x) (mp_found x) (mp_mime64 x) (mp_dict x)
      | None => x
      end
    else x in
  mk_mp (mp_parse_state x) (mp_pos x) [] [] (mp_field_name x) (mp_content_type x)
    (mp_found x) (mp_mime64 x) (mp_dict x).

(** The end of the field that starts at [pos], given where the next boundary starts:
    the two bytes before the boundary are read to drop a CRLF. *)
Definition mp_field_end (buf : bytes) (next : nat) : res nat :=
  if (next <? 2)%nat then Fault undefined_behaviour
  else match buf !! (next - 2)%nat, buf !! (next - 1)%nat with
       | Some a, Some b => Ok (if (a =c CR) && (b =c LF) then (next - 2)%nat else next)
       | _, _ => Fault undefined_behaviour
       end.

(** [field_value.assign(ptr, field_end_ptr - ptr)] (or its Base64 form): the difference
    is converted to [size_t], so an end in front of the start asks for a string of
    nearly 2^64 bytes. *)
Definition mp_store_field (buf : bytes) (field_end : nat) (x : mp_state) : res mp_state :=
  if (field_end <? mp_pos x)%nat then Fault std_length_error
  else
    let block := take (field_end - mp_pos x) (drop (mp_pos x) buf) in
    value ← (if mp_mime64 x then binary_2base64 block (mp_content_type x) else Ok block);
    Ok (mk_mp (mp_parse_state x) (mp_pos x) (mp_header_name x) (mp_header_value x)
          (mp_field_name x) (mp_content_type x) true (mp_mime64 x)
          (insert (mp_dict x) (mp_field_name x) value)).

(** One iteration of the loop at the character [c]; [inl b] is a [return b]. *)
Definition mp_step (buf boundary : bytes) (c : char) (x : mp_state)
  : res (bool + mp_state) :=
  match mp_parse_state x with
  | MP_PARSE_START =>
      Ok (inr (mk_mp MP_PARSE_HEADER_CR (mp_pos x + length boundary - 1) [] [] [] []
                 (mp_found x) false (mp_dict x)))
  | MP_PARSE_HEADER_CR =>
      if c =c CR then Ok (inr (mp_goto MP_PARSE_HEADER_LF x))
      else if c =c LF then Ok (inr (mp_goto MP_PARSE_HEADER_NAME x))
      else if (c =c "-"%byte) && bool_decide (buf !! (mp_pos x + 1)%nat = Some "-"%byte)
      then Ok (inl true)
      else Ok (inl false)
  | MP_PARSE_HEADER_LF =>
      if c =c LF then Ok (inr (mp_goto MP_PARSE_HEADER_NAME x)) else Ok (inl false)
  | MP_PARSE_HEADER_NAME =>
      if (c =c CR) || (c =c LF) then
        if bool_decide (mp_header_name x = []) then
          Ok (inr (mp_goto (if c =c CR then MP_PARSE_HEADER_LAST_LF
                            else MP_PARSE_FIELD_DATA) x))
        else Ok (inr (mp_goto (if c =c CR then MP_PARSE_HEADER_LF
                               else MP_PARSE_HEADER_NAME) x))
      else if c =c ":"%byte then Ok (inr (mp_goto MP_PARSE_HEADER_SPACE x))
      else Ok (inr (mk_mp (mp_parse_state x) (mp_pos x) (mp_header_name x ++ [c])
                      (mp_header_value x) (mp_field_name x) (mp_content_type x)
                      (mp_found x) (mp_mime64 x) (mp_dict x)))
  | MP_PARSE_HEADER_SPACE =>
      if c =c CR then Ok (inr (mp_goto MP_PARSE_HEADER_LF x))
      else if c =c LF then Ok (inr (mp_goto MP_PARSE_HEADER_NAME x))
      else if c <>c SP then
        Ok (inr (mk_mp MP_PARSE_HEADER_VALUE (mp_pos x) (mp_header_name x)
                   (mp_header_value x ++ [c]) (mp_field_name x) (mp_content_type x)
                   (mp_found x) (mp_mime64 x) (mp_dict x)))
      else Ok (inr x)
  | MP_PARSE_HEADER_VALUE =>
      if (c =c CR) || (c =c LF) then
        Ok (inr (mp_goto (if c =c CR then MP_PARSE_HEADER_LF else MP_PARSE_HEADER_NAME)
                   (mp_end_of_header x)))
      else Ok (inr (mk_mp (mp_parse_state x) (mp_pos x) (mp_header_name x)
                      (mp_header_value x ++ [c]) (mp_field_name x) (mp_content_type x)
                      (mp_found x) (mp_mime64 x) (mp_dict x)))
  | MP_PARSE_HEADER_LAST_LF =>
      if c =c LF then
        if bool_decide (mp_field_name x = []) then
          Ok (inr (mp_goto MP_PARSE_START (mp_set_pos (mp_search buf boundary (mp_pos x)) x)))
        else Ok (inr (mp_goto MP_PARSE_FIELD_DATA x))
      else Ok (inl false)
  | MP_PARSE_FIELD_DATA =>
      let next := mp_search buf boundary (mp_pos x) in
      field_end ← mp_field_end buf next;
      x ← mp_store_field buf field_end x;
      Ok (inr (mp_goto MP_PARSE_START (mp_set_pos next x)))
  end.

(** [None] when [fuel] iterations were not enough. *)
Fixpoint mp_loop (fuel : nat) (buf boundary : bytes) (x : mp_state)
  : option (res (bool * ihash_multimap)) :=
  match fuel with
  | O => None
  | S fuel' =>
      match buf !! mp_pos x with
      | None => Some (Ok (mp_found x, mp_dict x))
      | Some c =>
          match mp_step buf boundary c x with
          | Fault f => Some (Fault f)
          | Ok (inl b) => Some (Ok (b, mp_dict x))
          | Ok (inr x') =>
              mp_loop fuel' buf boundary
                (if bool_decide (mp_parse_state x' = MP_PARSE_START) then x'
                 else mp_set_pos (mp_pos x' + 1) x')
          end
      end
  end.

(** Two iterations per byte are enough. *)
Definition mp_fuel (buf : bytes) : nat := 2 * length buf + 3.

Definition parse_multipart_form_data (dict : ihash_multimap) (content_type buf : bytes)
  : option (res (bool * ihash_multimap)) :=
  if zlen buf =? 0 then Some (Ok (true, dict))
  else match find_sub (str "boundary=") content_type with
       | None => Some (Ok (false, dict))
       | Some pos =>
           let boundary := str "--" ++ drop (pos + 9) content_type in
           mp_loop (mp_fuel buf) buf boundary
             (mk_mp MP_PARSE_START (mp_search buf boundary 0) [] [] [] [] false false dict)
       end.

(** ** The X-Forwarded-For header *)

(** [\[0-9\]{1,3}] at the beginning of the string, greedily. *)
Definition match_octet (s : bytes) : option (bytes * bytes) :=
  match s with
  | a :: s1 =>
      if is_digit a then
        match s1 with
        | b :: s2 =>
            if is_digit b then
              match s2 with
              | c :: s3 => if is_digit c then Some ([a; b; c], s3) else Some ([a; b], s2)
              | [] => Some ([a; b], s2)
              end
            else Some ([a], s1)
        | [] => Some ([a], s1)
        end
      else None
  | [] => None
  end.

Definition match_dot (s : bytes) : option bytes :=
  match s with c :: s' => if c =c "."%byte then Some s' else None | [] => None end.

(** The four octets of a match of [IPV4_ADDR_RX] at the beginning of [s] with what
    follows.  A shorter run of digits never helps the match, since an octet that is
    followed by another one must be followed by a dot. *)
Definition match_ipv4 (s : bytes) : option (list bytes * bytes) :=
  '(a, s) ← match_octet s; s ← match_dot s;
  '(b, s) ← match_octet s; s ← match_dot s;
  '(c, s) ← match_octet s; s ← match_dot s;
  '(d, s) ← match_octet s;
  Some ([a; b; c; d], s).

(** [std::regex_match(ip, PRIVATE_NET_RX)] on four octets of one to three digits. *)
Definition is_private_net (octets : list bytes) : bool :=
  match octets with
  | [a; b; _; _] =>
      bytes_eqb a (str "10") || bytes_eqb a (str "127")
      || (bytes_eqb a (str "192") && bytes_eqb b (str "168"))
      || (bytes_eqb a (str "172")
          && match b with
             | [x; y] =>
                 ((x =c "1"%byte) && (54 <=? uchar y) && (uchar y <=? 57))
                 || ((x =c "2"%byte) && is_digit y)
                 || ((x =c "3"%byte) && (48 <=? uchar y) && (uchar y <=? 49))
             | _ => false
             end)
  | _ => false
  end.

(** The text of a match. *)
Definition join_octets (octets : list bytes) : bytes :=
  match octets with
  | [a; b; c; d] => a ++ str "." ++ b ++ str "." ++ c ++ str "." ++ d
  | _ => []
  end.

(** The [regex_search] loop; [skip] characters belong to the previous match. *)
Fixpoint forwarded_loop (skip : nat) (s : bytes) : option bytes :=
  match s with
  | [] => None
  | _ :: s' =>
      match skip with
      | S k => forwarded_loop k s'
      | O => match match_ipv4 s with
             | Some (octets, _) =>
                 if negb (is_private_net octets) then Some (join_octets octets)
                 else forwarded_loop (length (join_octets octets) - 1) s'
             | None => forwarded_loop 0 s'
             end
      end
  end.

(** The returned boolean is [true] exactly when an address is returned. *)
Definition parse_forwarded_for (header : bytes) : option bytes :=
  if bool_decide (header = []) then None else forwarded_loop 0 header.

(** ** The multipart parser ends and stays inside its buffer *)

Lemma mp_search_bounds buf boundary pos :
  (pos <= length buf)%nat -> (pos <= mp_search buf boundary pos <= length buf)%nat.
Proof.
  intros Hp. unfold mp_search. destruct (find_sub boundary (drop pos buf)) as [i|] eqn:E; [|lia].
  apply find_sub_Some in E as (pre & post & E & <-).
  apply (f_equal length) in E. rewrite length_drop, !length_app in E. lia.
Qed.

(** The boundary has passed once the parser is past [MP_PARSE_START]. *)
Definition mp_inv (x : mp_state) : Prop :=
  mp_parse_state x = MP_PARSE_START \/ (2 <= mp_pos x)%nat.

Definition mp_measure (buf : bytes) (x : mp_state) : nat :=
  2 * (length buf - mp_pos x)
  + (if bool_decide (mp_parse_state x = MP_PARSE_START) then 0 else 1).

(** The position after an iteration. *)
Definition mp_advance (x : mp_state) : mp_state :=
  if bool_decide (mp_parse_state x = MP_PARSE_START) then x
  else mp_set_pos (mp_pos x + 1) x.

Lemma mp_end_of_header_frame x :
  mp_pos (mp_end_of_header x) = mp_pos x /\ mp_parse_state (mp_end_of_header x) = mp_parse_state x.
Proof. unfold mp_end_of_header. repeat case_match; done. Qed.

Lemma mp_field_end_ok buf next :
  (2 <= next <= length buf)%nat -> exists e, mp_field_end buf next = Ok e /\ (e <= next)%nat.
Proof.
  intros Hn. unfold mp_field_end. destruct (Nat.ltb_spec next 2) as [?|_]; [lia|].
  destruct (lookup_lt_is_Some_2 buf (next - 2)) as [a ->]; [lia|].
  destruct (lookup_lt_is_Some_2 buf (next - 1)) as [b ->]; [lia|].
  case_if; eexists; (split; [reflexivity|lia]).
Qed.

(** The encoding is read beyond its end exactly for blocks of 4 GiB and more. *)
Lemma binary_2base64_small buf stream_type : zlen buf < 2 ^ 32 -> exists s, binary_2base64 buf stream_type = Ok s.
Proof.
  intros Hz. unfold binary_2base64, base64_encode. cbn [snd]. rewrite take_u32 by done.
  pose proof (base64_encode_loop_length buf) as Hl. pose proof (Nat.div_mod_eq (length buf + 2) 3).
  pose proof (Nat.mod_upper_bound (length buf + 2) 3 ltac:(lia)).
  replace (_ <? _) with false by (unfold zlen; lia). by eexists.
Qed.

Lemma binary_2base64_large buf stream_type :
  2 ^ 32 <= zlen buf -> binary_2base64 buf stream_type = Fault undefined_behaviour.
Proof.
  intros Hz. unfold binary_2base64, base64_encode. cbn [snd]. set (s := take _ buf).
  assert (zlen s < 2 ^ 32 /\ zlen s + 2 ^ 32 <= zlen buf) as [Hs Hs'].
  { unfold s. pose proof (u32_range (zlen buf)). pose proof (Z.div_mod (zlen buf) (2 ^ 32) ltac:(lia)).
    fold (u32 (zlen buf)) in *. unfold zlen at 1 3. rewrite length_take. unfold zlen in *. lia. }
  pose proof (base64_encode_loop_length s) as Hl. pose proof (Nat.div_mod_eq (length s + 2) 3).
  replace (_ <? _) with true by (unfold zlen in *; lia). done.
Qed.

(** How storing a field of a content of [n] bytes can fail. *)
Definition form_fault (n : Z) (f : fault) : Prop :=
  f = std_length_error \/ (f = undefined_behaviour /\ 2 ^ 32 <= n).

Lemma mp_store_field_ok buf e x :
  match mp_store_field buf e x with
  | Ok x' => (mp_pos x <= e)%nat /\ mp_pos x' = mp_pos x
  | Fault f => form_fault (zlen buf) f
  end.
Proof.
  unfold mp_store_field. destruct (Nat.ltb_spec e (mp_pos x)); [by left|]. set (block := take _ _).
  destruct (mp_mime64 x); [|done]. destruct (Z.lt_ge_cases (zlen block) (2 ^ 32)) as [Hz|Hz].
  - destruct (binary_2base64_small block (mp_content_type x) Hz) as [v ->]. done.
  - rewrite binary_2base64_large by done. right. split; [done|]. unfold zlen, block in *.
    rewrite length_take, length_drop in Hz. lia.
Qed.

(** One iteration: the only faults are those of the field that is stored; otherwise the
    invariant holds and the measure decreases. *)
Lemma mp_step_ok buf boundary c x :
  (2 <= length boundary)%nat -> (mp_pos x < length buf)%nat -> mp_inv x ->
  match mp_step buf boundary c x with
  | Fault f => form_fault (zlen buf) f
  | Ok (inl _) => True
  | Ok (inr x') => mp_inv (mp_advance x')
                   /\ (mp_measure buf (mp_advance x') < mp_measure buf x)%nat
  end.
Proof.
  intros Hb Hp Hi. unfold mp_step.
  pose proof (mp_search_bounds buf boundary (mp_pos x) ltac:(lia)) as Hs.
  destruct (mp_end_of_header_frame x) as [Ep Es].
  destruct (mp_parse_state x) eqn:Est.
  all: try (destruct Hi as [Hi|Hi]; [congruence|]).
  8: { destruct (mp_field_end_ok buf (mp_search buf boundary (mp_pos x)) ltac:(lia))
         as (e & -> & He). cbn [mbind res_bind]. pose proof (mp_store_field_ok buf e x) as Hf.
       destruct (mp_store_field buf e x) as [x'|f]; [|done]. destruct Hf as [He' Hx'].
       split; [by left|]. unfold mp_measure, mp_advance.
       repeat case_bool_decide; simpl in *; try congruence; lia. }
  all: repeat case_if; try exact I; unfold mp_inv, mp_measure, mp_advance;
    cbn [mp_goto mp_parse_state mp_pos mp_set_pos]; rewrite ?Est, ?Ep;
    repeat case_bool_decide; simpl in *; try congruence; rewrite ?Ep; split; auto; lia.
Qed.

Lemma mp_loop_ok fuel buf boundary x :
  (2 <= length boundary)%nat -> mp_inv x -> (mp_measure buf x < fuel)%nat ->
  exists r, mp_loop fuel buf boundary x = Some r
            /\ (forall f, r = Fault f -> form_fault (zlen buf) f).
Proof.
  intros Hb. revert x. induction fuel as [|fuel IH]; intros x Hi Hm; [lia|]. simpl.
  destruct (buf !! mp_pos x) as [c|] eqn:E; [|eexists; split; [done|]; by intros ? [=]].
  apply lookup_lt_Some in E. pose proof (mp_step_ok buf boundary c x Hb E Hi) as H.
  destruct (mp_step buf boundary c x) as [[b|x']|f].
  - eexists. split; [done|]. by intros ? [=].
  - destruct H as [Hi' Hm']. apply IH; [done|]. unfold mp_advance in Hm'. lia.
  - eexists. split; [done|]. by intros ? [= <-].
Qed.

Lemma multipart_ok dict content_type buf :
  exists r, parse_multipart_form_data dict content_type buf = Some r
            /\ (forall f, r = Fault f -> form_fault (zlen buf) f).
Proof.
  unfold parse_multipart_form_data. case_if; [eexists; split; [done|]; by intros ? [=]|].
  destruct (find_sub _ content_type) as [pos|]; [|eexists; split; [done|]; by intros ? [=]].
  apply mp_loop_ok.
  - rewrite length_app. simpl. lia.
  - by left.
  - unfold mp_measure, mp_fuel. simpl. lia.
Qed.

(** C37: [parse_multipart_form_data] returns on every content type and every body (two
    iterations per byte are enough).  For a body below 4 GiB it never reads or writes outside
    of the content or of the text it makes, and the only exception it can throw is
    [std::length_error]; for a longer one the only other failure is that of
    [binary_2base64], which reads beyond the encoding of a field of 4 GiB or more. *)
Theorem multipart_terminates_safely dict content_type buf :
  match parse_multipart_form_data dict content_type buf with
  | None => False
  | Some (Fault f) => form_fault (zlen buf) f
  | Some (Ok _) => True
  end.
Proof.
  destruct (multipart_ok dict content_type buf) as (r & -> & Hf). destruct r; auto.
Qed.

(** The exception is thrown for a part whose boundary follows the headers at once. *)
Lemma multipart_length_error :
  parse_multipart_form_data [] (str "multipart/form-data; boundary=B")
    (str "--B" ++ [CR; LF] ++ str "Content-Disposition: form-data; name=" ++ [x22] ++ str "a"
     ++ [x22; CR; LF; CR; LF] ++ str "--B--" ++ [CR; LF])
  = Some (Fault std_length_error).
Proof. reflexivity. Qed.

(** ** Query strings *)

(** An encoded name or value holds no character with a meaning for the query parser. *)
Lemma url_safe_plain c :
  url_safe c = true ->
  (c =c "="%byte) = false /\ (c =c "&"%byte) = false /\ (c =c ","%byte) = false
  /\ ((c =c CR) || (c =c LF) || (c =c TAB)) = false /\ is_control c = false.
Proof. by_all_chars c; auto. Qed.

Lemma query_name_run s name value dict rest :
  Forall (fun d => url_safe d = true) s -> zlen name + zlen s <= QUERY_NAME_MAX ->
  parse_url_encoded_loop QUERY_PARSE_NAME name value dict (s ++ rest)
  = parse_url_encoded_loop QUERY_PARSE_NAME (name ++ s) value dict rest.
Proof.
  intros Hs. revert name. induction Hs as [|c s Hc Hs IH]; intros name Hm.
  - by rewrite app_nil_r.
  - rewrite zlen_cons in Hm. pose proof (zlen_nonneg s).
    destruct (url_safe_plain c Hc) as (E1 & E2 & E3 & E4 & E5).
    cbn [app parse_url_encoded_loop]. rewrite E1, E2, E4, E5.
    replace (QUERY_NAME_MAX <=? zlen name) with false by lia. cbn [orb].
    rewrite IH by (rewrite zlen_snoc; lia). by rewrite <- app_assoc.
Qed.

Lemma query_value_run s name value dict rest :
  Forall (fun d => url_safe d = true) s -> zlen value + zlen s <= QUERY_VALUE_MAX ->
  parse_url_encoded_loop QUERY_PARSE_VALUE name value dict (s ++ rest)
  = parse_url_encoded_loop QUERY_PARSE_VALUE name (value ++ s) dict rest.
Proof.
  intros Hs. revert value. induction Hs as [|c s Hc Hs IH]; intros value Hm.
  - by rewrite app_nil_r.
  - rewrite zlen_cons in Hm. pose proof (zlen_nonneg s).
    destruct (url_safe_plain c Hc) as (E1 & E2 & E3 & E4 & E5).
    cbn [app parse_url_encoded_loop]. rewrite E2, E3, E4, E5.
    replace (QUERY_VALUE_MAX <=? zlen value) with false by lia. cbn [orb].
    rewrite IH by (rewrite zlen_snoc; lia). by rewrite <- app_assoc.
Qed.

(** A pair that survives the limits of the query parser. *)
Definition query_pair_ok (kv : bytes * bytes) : Prop :=
  fst kv <> [] /\ (NUL ∉ fst kv) /\ (NUL ∉ snd kv)
  /\ zlen (url_encode (fst kv)) <= QUERY_NAME_MAX
  /\ zlen (url_encode (snd kv)) <= QUERY_VALUE_MAX.

Lemma url_encode_nonempty s : s <> [] -> url_encode s <> [].
Proof.
  destruct s as [|c s]; [done|]. intros _. rewrite url_encode_cons. unfold url_encode_char.
  by case_if.
Qed.

Lemma query_loop_ok kvs k v dict :
  query_pair_ok (k, v) -> Forall query_pair_ok kvs ->
  parse_url_encoded_loop QUERY_PARSE_NAME [] [] dict
    (make_query_string_loop true ((k, v) :: kvs))
  = (true, dict ++ (k, v) :: kvs).
Proof.
  intros Hk Hkvs. revert k v dict Hk. induction Hkvs as [|[k2 v2] kvs Hk2 Hkvs IH];
    intros k v dict (Hne & Hn1 & Hn2 & Hz1 & Hz2).
  all: cbn [fst snd] in *; cbn [make_query_string_loop app];
    rewrite (query_name_run (url_encode k)) by (apply url_encode_safe || by rewrite zlen_nil);
    cbn [app parse_url_encoded_loop];
    rewrite (query_value_run (url_encode v)) by (apply url_encode_safe || by rewrite zlen_nil);
    cbn [app parse_url_encoded_loop];
    rewrite bool_decide_false by (by apply url_encode_nonempty);
    unfold insert_decoded; rewrite !url_decode_encode by done.
  { done. }
  specialize (IH k2 v2 (insert dict k v) Hk2). cbn [make_query_string_loop app] in IH.
  unfold insert in *. rewrite <- app_assoc in IH. exact IH.
Qed.

(** The query string [make_query_string] builds from any list of pairs with a
    non-empty name, without NUL characters and within the limits of the parser, is parsed
    back by [parse_url_encoded] into exactly these pairs, in order, whatever separators,
    blanks or bytes above 126 the names and values contain. *)
Theorem query_string_roundtrip kvs dict :
  Forall query_pair_ok kvs ->
  parse_url_encoded dict (make_query_string kvs) = (true, dict ++ kvs).
Proof.
  unfold parse_url_encoded, make_query_string. destruct kvs as [|[k v] kvs]; intros Hk.
  - simpl. by rewrite app_nil_r.
  - inversion Hk; subst. rewrite query_loop_ok by done. destruct (zlen _ =? 0) eqn:E; [|done].
    apply Z.eqb_eq, zlen_zero_iff in E. cbn [make_query_string_loop app] in E.
    by destruct (url_encode k).
Qed.

Lemma query_string_roundtrip_witness :
  parse_url_encoded [] (make_query_string [(str "a&b", str "c=d,e"); (str "x", [])])
  = (true, [(str "a&b", str "c=d,e"); (str "x", [])]).
Proof.
  apply (query_string_roundtrip [(str "a&b", str "c=d,e"); (str "x", [])] []).
  repeat constructor; try discriminate; by apply (bool_decide_unpack _).
Defined.

(** ** Cookies *)

(** A character of a cookie name, or of a value without quotes. *)
Definition cookie_plain (c : char) : bool :=
  negb (is_control c || existsb (Byte.eqb c) (str "=;,' " ++ [x22])).

Lemma cookie_plain_spec c :
  cookie_plain c = true ->
  is_control c = false /\ (c =c "="%byte) = false /\ ((c =c ";"%byte) || (c =c ","%byte)) = false
  /\ (c =c SP) = false /\ ((c =c "'"%byte) || (c =c x22)) = false.
Proof. by_all_chars c; auto. Qed.

Section cookies.
Context (set_cookie_header : bool).
Implicit Types (s name value rest : bytes) (dict : ihash_multimap).

Lemma cookie_name_run s name value quote dict rest :
  Forall (fun c => cookie_plain c = true) s -> zlen name + zlen s <= COOKIE_NAME_MAX ->
  parse_cookie_loop set_cookie_header COOKIE_PARSE_NAME name value quote dict (s ++ rest)
  = parse_cookie_loop set_cookie_header COOKIE_PARSE_NAME (name ++ s) value quote dict rest.
Proof.
  intros Hs. revert name. induction Hs as [|c s Hc Hs IH]; intros name Hm.
  - by rewrite app_nil_r.
  - rewrite zlen_cons in Hm. pose proof (zlen_nonneg s).
    destruct (cookie_plain_spec c Hc) as (E1 & E2 & E3 & E4 & _).
    cbn [app parse_cookie_loop]. rewrite E1, E2, E3, E4.
    replace (COOKIE_NAME_MAX <=? zlen name) with false by lia. cbn [orb negb].
    rewrite IH by (rewrite zlen_snoc; lia). by rewrite <- app_assoc.
Qed.

Lemma cookie_value_run s name value dict rest :
  Forall (fun c => cookie_plain c = true) s -> zlen value + zlen s <= COOKIE_VALUE_MAX ->
  parse_cookie_loop set_cookie_header COOKIE_PARSE_VALUE name value NUL dict (s ++ rest)
  = parse_cookie_loop set_cookie_header COOKIE_PARSE_VALUE name (value ++ s) NUL dict rest.
Proof.
  intros Hs. revert value. induction Hs as [|c s Hc Hs IH]; intros value Hm.
  - by rewrite app_nil_r.
  - rewrite zlen_cons in Hm. pose proof (zlen_nonneg s).
    destruct (cookie_plain_spec c Hc) as (E1 & E2 & E3 & E4 & E5).
    cbn [app parse_cookie_loop]. rewrite ceq_refl, E1, E3, E4, E5.
    replace (COOKIE_VALUE_MAX <=? zlen value) with false by lia. cbn [orb negb].
    rewrite IH by (rewrite zlen_snoc; lia). by rewrite <- app_assoc.
Qed.

(** Between quotes every other character belongs to the value. *)
Lemma cookie_quoted_run s name value dict rest :
  x22 ∉ s -> zlen value + zlen s <= COOKIE_VALUE_MAX ->
  parse_cookie_loop set_cookie_header COOKIE_PARSE_VALUE name value x22 dict (s ++ rest)
  = parse_cookie_loop set_cookie_header COOKIE_PARSE_VALUE name (value ++ s) x22 dict rest.
Proof.
  revert value. induction s as [|c s IH]; intros value Hq Hm.
  - by rewrite app_nil_r.
  - rewrite zlen_cons in Hm. pose proof (zlen_nonneg s).
    apply not_elem_of_cons in Hq as [Hc Hq]. cbn [app parse_cookie_loop].
    rewrite (ceq_ne c x22) by done. change (x22 =c NUL) with false.
    replace (COOKIE_VALUE_MAX <=? zlen value) with false by lia.
    rewrite IH by (rewrite ?zlen_snoc; done || lia). by rewrite <- app_assoc.
Qed.

(** An attribute [; name=value] is read and dropped. *)
Lemma cookie_attribute attr s st dict rest :
  is_cookie_attribute attr set_cookie_header = true ->
  Forall (fun c => cookie_plain c = true) attr -> zlen attr <= COOKIE_NAME_MAX ->
  Forall (fun c => cookie_plain c = true) s -> zlen s <= COOKIE_VALUE_MAX ->
  (rest = [] \/ exists t, rest = ";"%byte :: t) ->
  parse_cookie_loop set_cookie_header COOKIE_PARSE_NAME [] [] st dict
    (SP :: attr ++ "="%byte :: s ++ rest)
  = match rest with
    | [] => (true, dict)
    | _ :: t => parse_cookie_loop set_cookie_header COOKIE_PARSE_NAME [] [] NUL dict t
    end.
Proof.
  intros Ha Hp Hz Hs Hsz Hr.
  transitivity (parse_cookie_loop set_cookie_header COOKIE_PARSE_NAME [] [] st dict
                  (attr ++ "="%byte :: s ++ rest)); [done|].
  rewrite cookie_name_run by (done || by rewrite zlen_nil). cbn [app parse_cookie_loop].
  rewrite ceq_refl, cookie_value_run by (done || by rewrite zlen_nil).
  unfold insert_cookie in *. destruct Hr as [-> | [t ->]]; simpl;
    unfold insert_cookie; by rewrite Ha.
Qed.
End cookies.

(** What [make_set_cookie_header] can carry: a name that is a plain string and not the
    name of an attribute, any value without a double quote, a plain path. *)
Definition cookie_ok (name value path : bytes) : Prop :=
  is_cookie_attribute name true = false
  /\ Forall (fun c => cookie_plain c = true) name /\ zlen name <= COOKIE_NAME_MAX
  /\ (x22 ∉ value) /\ zlen value <= COOKIE_VALUE_MAX
  /\ Forall (fun c => cookie_plain c = true) path /\ zlen path <= COOKIE_VALUE_MAX.

Lemma to_string_plain n :
  0 <= n -> Forall (fun c => cookie_plain c = true) (to_string n).
Proof.
  intros Hn. unfold to_string. eapply Forall_impl; [by apply (to_digits_chars 10); lia|].
  intros c (d & Hd & ->).
  assert (forall i, 0 <= i < Z.of_nat 10 -> cookie_plain (digit_char i) = true) as H
    by (apply Z_below; reflexivity).
  by apply H.
Qed.

(** A list of attributes as they follow the value of a cookie. *)
Definition attribute_bytes (attrs : list (bytes * bytes)) : bytes :=
  attrs ≫= fun '(a, v) => ";"%byte :: SP :: a ++ "="%byte :: v.

Definition attribute_ok (av : bytes * bytes) : Prop :=
  is_cookie_attribute (fst av) true = true
  /\ Forall (fun c => cookie_plain c = true) (fst av) /\ zlen (fst av) <= COOKIE_NAME_MAX
  /\ Forall (fun c => cookie_plain c = true) (snd av) /\ zlen (snd av) <= COOKIE_VALUE_MAX.

Lemma cookie_attributes_dropped attrs dict :
  Forall attribute_ok attrs ->
  parse_cookie_loop true COOKIE_PARSE_IGNORE [] [] x22 dict (attribute_bytes attrs)
  = (true, dict).
Proof.
  intros Ha. destruct Ha as [|[a v] attrs Hok Ha]; [done|].
  transitivity (parse_cookie_loop true COOKIE_PARSE_NAME [] [] x22 dict
                  (drop 1 (attribute_bytes ((a, v) :: attrs)))); [done|].
  generalize x22. revert a v Hok.
  induction Ha as [|[a2 v2] attrs Hok2 Ha IH]; intros a v (H1 & H2 & H3 & H4 & H5) q.
  - pose proof (cookie_attribute true a v q dict [] H1 H2 H3 H4 H5 (or_introl eq_refl)) as H.
    rewrite app_nil_r in H. simpl. by rewrite app_nil_r.
  - specialize (IH a2 v2 Hok2 NUL).
    pose proof (cookie_attribute true a v q dict (attribute_bytes ((a2, v2) :: attrs))
                  H1 H2 H3 H4 H5 (or_intror (ex_intro _ _ eq_refl))) as H.
    etransitivity; [|exact IH]. etransitivity; [|exact H]. f_equal.
    change (drop 1 (attribute_bytes ((a, v) :: (a2, v2) :: attrs)))
      with (SP :: (a ++ "="%byte :: v) ++ attribute_bytes ((a2, v2) :: attrs)).
    by rewrite <- app_assoc.
Qed.

Definition set_cookie_attributes (path : bytes) (has_max_age : bool) (max_age : Z)
  : list (bytes * bytes) :=
  (str "Version", str "1")
  :: (if bool_decide (path = []) then [] else [(str "Path", path)])
  ++ (if has_max_age then [(str "Max-Age", to_string max_age)] else []).

Lemma make_set_cookie_header_attributes name value path has_max_age max_age :
  make_set_cookie_header name value path has_max_age max_age
  = name ++ "="%byte :: x22 :: value ++ x22
         :: attribute_bytes (set_cookie_attributes path has_max_age max_age).
Proof.
  unfold make_set_cookie_header, set_cookie_attributes, attribute_bytes.
  f_equal. simpl. do 2 f_equal. f_equal. simpl. do 11 f_equal.
  destruct (bool_decide (path = [])), has_max_age; simpl; rewrite ?app_nil_r; done.
Qed.

Lemma set_cookie_attributes_ok path has_max_age max_age :
  Forall (fun c => cookie_plain c = true) path -> zlen path <= COOKIE_VALUE_MAX ->
  0 <= max_age -> Forall attribute_ok (set_cookie_attributes path has_max_age max_age).
Proof.
  intros Hp Hz Hm. constructor.
  { split; [done|]. split; [by repeat constructor|]. split; [done|]. by repeat constructor. }
  apply Forall_app. split.
  - case_bool_decide; constructor; [|constructor].
    split; [done|]. split; [by repeat constructor|]. done.
  - destruct has_max_age; constructor; [|constructor].
    split; [done|]. split; [by repeat constructor|]. split; [done|].
    split; [by apply to_string_plain|]. pose proof (to_digits_length 10 20 max_age) as Hl.
    fold (to_string max_age) in Hl. cbn [snd]. unfold COOKIE_VALUE_MAX, zlen. lia.
Qed.

Lemma cookie_open_quote set_cookie_header name quote dict s :
  parse_cookie_loop set_cookie_header COOKIE_PARSE_NAME name [] quote dict
    ("="%byte :: x22 :: s)
  = parse_cookie_loop set_cookie_header COOKIE_PARSE_VALUE name [] x22 dict s.
Proof. reflexivity. Qed.

Lemma cookie_close_quote set_cookie_header name value dict s :
  parse_cookie_loop set_cookie_header COOKIE_PARSE_VALUE name value x22 dict (x22 :: s)
  = parse_cookie_loop set_cookie_header COOKIE_PARSE_IGNORE [] [] x22
      (insert_cookie set_cookie_header dict name value) s.
Proof. reflexivity. Qed.

(** A cookie set with [make_set_cookie_header] is read back by
    [parse_cookie_header] with its name and its value, whatever attributes the header
    carries: they do not become cookies. *)
Theorem set_cookie_roundtrip name value path has_max_age max_age dict :
  cookie_ok name value path -> 0 <= max_age ->
  parse_cookie_header dict (make_set_cookie_header name value path has_max_age max_age) true
  = (true, insert dict name value).
Proof.
  intros (Ha & Hn & Hnz & Hv & Hvz & Hp & Hpz) Hm. unfold parse_cookie_header.
  rewrite make_set_cookie_header_attributes.
  rewrite cookie_name_run by (done || by rewrite zlen_nil). cbn [app].
  rewrite cookie_open_quote, cookie_quoted_run by (done || by rewrite zlen_nil). cbn [app].
  rewrite cookie_close_quote. unfold insert_cookie. rewrite Ha.
  by apply cookie_attributes_dropped, set_cookie_attributes_ok.
Qed.

Lemma set_cookie_roundtrip_witness :
  parse_cookie_header [] (make_set_cookie_header (str "id") (str "a;b,c=d") (str "/") true 60)
    true = (true, [(str "id", str "a;b,c=d")]).
Proof.
  apply (set_cookie_roundtrip (str "id") (str "a;b,c=d") (str "/") true 60 []); [|done].
  split; [reflexivity|]. split; [by repeat constructor|]. split; [done|].
  split; [by apply (bool_decide_unpack _)|]. split; [done|].
  split; [by repeat constructor | done].
Defined.

(** ** URIs *)

Lemma find_char_app c pre post : c ∉ pre -> find_char c (pre ++ c :: post) = Some (length pre).
Proof.
  unfold find_char. induction pre as [|d pre IH]; intros H.
  - simpl. by rewrite ceq_refl.
  - apply not_elem_of_cons in H as [Hd H]. simpl. rewrite (ceq_ne c d) by done.
    cbn [andb]. by rewrite IH.
Qed.

Lemma find_char_none c s : c ∉ s -> find_char c s = None.
Proof.
  unfold find_char. induction s as [|d s IH]; intros H; [done|].
  apply not_elem_of_cons in H as [Hd H]. simpl. rewrite (ceq_ne c d) by done.
  cbn [andb]. by rewrite IH.
Qed.

Lemma find_proto pre post :
  ":"%byte ∉ pre -> find_sub (str "://") (pre ++ str "://" ++ post) = Some (length pre).
Proof.
  induction pre as [|d pre IH]; intros H; [done|].
  apply not_elem_of_cons in H as [Hd H].
  change ((d :: pre) ++ str "://" ++ post) with (d :: (pre ++ str "://" ++ post)).
  cbn [find_sub]. change (starts (str "://") (d :: ?s)) with
    ((":"%byte =c d) && starts (str "//") s). rewrite (ceq_ne ":"%byte d) by done.
  cbn [andb]. by rewrite IH.
Qed.

(** A URI with all its parts. *)
Definition uri_bytes (u : uri_parts) : bytes :=
  u_proto u ++ str "://" ++ u_host u ++ [":"%byte] ++ to_string (u_port u)
  ++ u_path u ++ ["?"%byte] ++ u_query u.

Definition uri_ok (u : uri_parts) : Prop :=
  (":"%byte ∉ u_proto u) /\ u_host u <> [] /\ (":"%byte ∉ u_host u) /\ ("/"%byte ∉ u_host u)
  /\ 0 <= u_port u < 2 ^ 16 /\ head (u_path u) = Some "/"%byte /\ ("?"%byte ∉ u_path u).

Lemma to_string_not_elem c n :
  0 <= n -> forallb (fun d => c <>c digit_char d) (Z.of_nat <$> seq 0 10) = true ->
  c ∉ to_string n.
Proof.
  intros Hn Hc Hin. pose proof (to_digits_chars 10 ltac:(lia) 20 n Hn) as Hd.
  rewrite Forall_forall in Hd. destruct (Hd c Hin) as (d & Hr & ->).
  pose proof (Z_below 10 (fun i => digit_char d <>c digit_char i) Hc d Hr) as H.
  cbn in H. by rewrite ceq_refl in H.
Qed.

(** [parse_uri] takes a URI with protocol, host, port, path and query apart into
    exactly these parts, whatever the output parameters held before. *)
Theorem parse_uri_roundtrip u outs :
  uri_ok u -> parse_uri (uri_bytes u) outs = (true, u).
Proof.
  destruct u as [proto host port path query].
  intros (Hp & Hh0 & Hh1 & Hh2 & Hport & Hpath & Hq). cbn [u_proto u_host u_port u_path u_query] in *.
  destruct path as [|sl path]; [done|]. injection Hpath as ->.
  assert ("/"%byte ∉ host ++ ":"%byte :: to_string port) as Hsl.
  { rewrite elem_of_app, elem_of_cons. intros [?|[?|Hd]]; [done|done|].
    revert Hd. apply to_string_not_elem; [lia | reflexivity]. }
  set (auth := host ++ ":"%byte :: to_string port) in *.
  assert (uri_bytes (mk_uri proto host port ("/"%byte :: path) query)
          = proto ++ str "://" ++ auth ++ "/"%byte :: path ++ "?"%byte :: query) as Hu.
  { unfold uri_bytes, auth. simpl. by rewrite <- !app_assoc. }
  unfold parse_uri. rewrite Hu, find_proto by done.
  rewrite take_app_length.
  set (rest := path ++ "?"%byte :: query).
  assert (drop (length proto + 3) (proto ++ str "://" ++ auth ++ "/"%byte :: rest)
          = auth ++ "/"%byte :: rest) as Hd by (by rewrite drop_app_add).
  unfold find_char_from. rewrite Hd, find_char_app by done. cbn [fmap option_fmap option_map].
  replace (length proto + 3 + length auth - (length proto + 3))%nat with (length auth) by lia.
  rewrite take_app_length.
  assert (find_char ":"%byte auth = Some (length host)) as -> by (by apply find_char_app).
  assert (take (length host) auth = host) as -> by (apply take_app_length).
  assert (drop (length host + 1) auth = to_string port) as -> by (apply drop_app_add).
  rewrite bool_decide_false by done.
  rewrite stoi_to_string by (unfold INT_MAX; lia).
  unfold u16. rewrite Z.mod_small by done.
  replace (_ <? _)%nat with true.
  2: { symmetry. apply Nat.ltb_lt. rewrite !length_app. simpl. lia. }
  rewrite <- drop_drop, Hd, drop_app_length. unfold rest.
  change ("/"%byte :: path ++ "?"%byte :: query) with (("/"%byte :: path) ++ "?"%byte :: query).
  rewrite find_char_app by done. rewrite take_app_length.
  rewrite drop_app_add. done.
Qed.

Lemma parse_uri_roundtrip_witness :
  parse_uri (str "http://host:8080/a/b?x=1") (mk_uri [] [] 0 [] [])
  = (true, mk_uri (str "http") (str "host") 8080 (str "/a/b") (str "x=1")).
Proof.
  apply (parse_uri_roundtrip (mk_uri (str "http") (str "host") 8080 (str "/a/b") (str "x=1"))
           (mk_uri [] [] 0 [] [])).
  by repeat split; try discriminate; apply (bool_decide_unpack _).
Defined.

(** The port is stored modulo 2^16. *)
Lemma parse_uri_port_wraps :
  parse_uri (str "http://h:65616/") (mk_uri [] [] 0 [] [])
  = (true, mk_uri (str "http") (str "h") 80 (str "/") []).
Proof. reflexivity. Qed.

(** ** Forwarded addresses *)

Definition octet_ok (o : bytes) : Prop :=
  (1 <= length o <= 3)%nat /\ Forall (fun c => is_digit c = true) o.

Lemma match_octet_spec s o rest : match_octet s = Some (o, rest) -> s = o ++ rest /\ octet_ok o.
Proof.
  unfold match_octet. intros H. repeat case_match; simplify_eq; (split; [done|]);
    (split; [simpl; lia | by repeat constructor]).
Qed.

Lemma match_dot_spec s rest : match_dot s = Some rest -> s = str "." ++ rest.
Proof. unfold match_dot. intros H. repeat case_match; simplify_eq. by reflect_bools; subst. Qed.

Lemma match_ipv4_spec s octets rest :
  match_ipv4 s = Some (octets, rest) ->
  s = join_octets octets ++ rest /\ Forall octet_ok octets /\ length octets = 4%nat.
Proof.
  unfold match_ipv4. intros H.
  repeat match type of H with
  | mbind _ ?x = Some _ => destruct x as [?|] eqn:?; [|done]; cbn [mbind option_bind] in H
  | (let '(_, _) := ?x in _) = _ => destruct x
  end. simplify_eq.
  repeat match goal with
  | E : match_octet _ = Some _ |- _ => apply match_octet_spec in E as [-> ?]
  | E : match_dot _ = Some _ |- _ => apply match_dot_spec in E as ->
  end. split; [|split; [repeat (constructor; [done|]); constructor | done]].
  unfold join_octets. by rewrite <- !app_assoc.
Qed.

Lemma forwarded_loop_spec skip s ip :
  forwarded_loop skip s = Some ip ->
  exists octets, ip = join_octets octets /\ Forall octet_ok octets /\ length octets = 4%nat
                 /\ is_private_net octets = false /\ exists pre post, s = pre ++ ip ++ post.
Proof.
  revert skip. induction s as [|c s IH]; intros skip H; [done|].
  assert (forall k, forwarded_loop k s = Some ip -> exists octets, ip = join_octets octets
    /\ Forall octet_ok octets /\ length octets = 4%nat /\ is_private_net octets = false
    /\ exists pre post, c :: s = pre ++ ip ++ post) as IH'.
  { intros k Hk. destruct (IH k Hk) as (o & ? & ? & ? & ? & pre & post & ->).
    exists o. repeat split; try done. by exists (c :: pre), post. }
  cbn [forwarded_loop] in H. destruct skip; [|by eapply IH'].
  destruct (match_ipv4 (c :: s)) as [[octets rest]|] eqn:E; [|by eapply IH'].
  case_if_in H; [|by eapply IH']. simplify_eq. reflect_bools.
  apply match_ipv4_spec in E as (E & Ho & Hl).
  exists octets. repeat split; try done. by exists [], rest.
Qed.

(** An address returned by [parse_forwarded_for] is a substring of the header of the
    form [d.d.d.d] with one to three digits per octet, and it is not an address of a
    private network (10/8, 127/8, 192.168/16, 172.16/12). *)
Theorem forwarded_for_public header ip :
  parse_forwarded_for header = Some ip ->
  exists octets, ip = join_octets octets /\ Forall octet_ok octets /\ length octets = 4%nat
                 /\ is_private_net octets = false /\ exists pre post, header = pre ++ ip ++ post.
Proof.
  unfold parse_forwarded_for. case_bool_decide; [done|]. apply forwarded_loop_spec.
Qed.

Lemma forwarded_for_public_witness :
  parse_forwarded_for (str "192.168.1.7, 10.0.0.1, 8.8.4.4") = Some (str "8.8.4.4")
  /\ exists pre post, str "192.168.1.7, 10.0.0.1, 8.8.4.4" = pre ++ str "8.8.4.4" ++ post.
Proof.
  split; [reflexivity|].
  destruct (forwarded_for_public (str "192.168.1.7, 10.0.0.1, 8.8.4.4") (str "8.8.4.4") eq_refl)
    as (_ & _ & _ & _ & _ & H). exact H.
Defined.
