(* ===== verification/ParserBody.v ===== *)
(** * The HTTP parser: payload content

    Models [parser::parse_chunks], [parser::consume_content] and
    [parser::consume_content_as_next_chunk] (src/http_parser.cpp). *)
From S2P Require Import Prelude CLib StringUtils Dict Tribool HttpTypes Message ParserBase.
From S2P Require Import ParserHeaders.

(** ** Chunked content *)

(** What one pass of the loop does with the character under the read pointer: go on
    after skipping [skip] more bytes, stop with an error, or stop with success, leaving
    the character or consuming it. *)
Inductive cstep :=
| CNext (p : parser) (chunks : bytes) (skip : nat)
| CError (e : error_value_t)
| CDone (consume : bool) (p : parser).

Definition cgoto (s : chunk_parse_state_t) (p : parser) : parser :=
  with_m_chunked_content_parse_state s p.

Definition step_chunk_size_start (c : char) (p : parser) (chunks : bytes) : cstep :=
  if is_hex_digit c then CNext (cgoto PARSE_CHUNK_SIZE (with_m_chunk_size_str [c] p)) chunks 0
  else if (c =c SP) || (c =c TAB) || (c =c CR) || (c =c LF) then CNext p chunks 0
  else CError ERROR_CHUNK_CHAR.

Definition step_chunk_size (c : char) (p : parser) (chunks : bytes) : cstep :=
  if is_hex_digit c then
    CNext (with_m_chunk_size_str (m_chunk_size_str p ++ [c]) p) chunks 0
  else if c =c CR then CNext (cgoto PARSE_EXPECTING_LF_AFTER_CHUNK_SIZE p) chunks 0
  else if (c =c SP) || (c =c TAB) then
    CNext (cgoto PARSE_EXPECTING_CR_AFTER_CHUNK_SIZE p) chunks 0
  else if c =c ";"%byte then
    CNext (cgoto PARSE_EXPECTING_IGNORED_TEXT_AFTER_CHUNK_SIZE p) chunks 0
  else CError ERROR_CHUNK_CHAR.

Definition step_ignored_text (c : char) (p : parser) (chunks : bytes) : cstep :=
  CNext (if c =c CR then cgoto PARSE_EXPECTING_LF_AFTER_CHUNK_SIZE p else p) chunks 0.

Definition step_cr_after_chunk_size (c : char) (p : parser) (chunks : bytes) : cstep :=
  if c =c CR then CNext (cgoto PARSE_EXPECTING_LF_AFTER_CHUNK_SIZE p) chunks 0
  else if (c =c SP) || (c =c TAB) then CNext p chunks 0
  else CError ERROR_CHUNK_CHAR.

Definition step_lf_after_chunk_size (c : char) (p : parser) (chunks : bytes) : cstep :=
  if c =c LF then
    let p := with_m_bytes_read_in_current_chunk 0 p in
    let p := with_m_size_of_current_chunk (u64 (strtol16 (m_chunk_size_str p))) p in
    CNext (cgoto (if m_size_of_current_chunk p =? 0
                  then PARSE_EXPECTING_FINAL_CR_OR_FOOTERS_AFTER_LAST_CHUNK
                  else PARSE_CHUNK) p) chunks 0
  else CError ERROR_CHUNK_CHAR.

(** [if (m_bytes_read_in_current_chunk == m_size_of_current_chunk) ...]. *)
Definition end_of_chunk (p : parser) : parser :=
  if m_bytes_read_in_current_chunk p =? m_size_of_current_chunk p
  then cgoto PARSE_EXPECTING_CR_AFTER_CHUNK p else p.

(** [buf] is the unread data, whose first character is [c]. *)
Definition step_chunk (buf : bytes) (c : char) (p : parser) (chunks : bytes) : cstep :=
  if m_bytes_read_in_current_chunk p <? m_size_of_current_chunk p then
    if has_handler p then
      let bytes_avail := zlen buf in
      let bytes_in_chunk := m_size_of_current_chunk p - m_bytes_read_in_current_chunk p in
      let len := if bytes_avail <? bytes_in_chunk then bytes_avail else bytes_in_chunk in
      let p := call_handler (take (Z.to_nat len) buf) p in
      let p := with_m_bytes_read_in_current_chunk
                 (u64 (m_bytes_read_in_current_chunk p + len)) p in
      CNext (end_of_chunk p) chunks (Z.to_nat (len - 1))
    else if zlen chunks <? m_max_content_length p then
      let p := with_m_bytes_read_in_current_chunk
                 (u64 (m_bytes_read_in_current_chunk p + 1)) p in
      CNext (end_of_chunk p) (chunks ++ [c]) 0
    else CNext (end_of_chunk p) chunks 0
  else CNext (end_of_chunk p) chunks 0.

Definition step_cr_after_chunk (c : char) (p : parser) (chunks : bytes) : cstep :=
  if c =c CR then CNext (cgoto PARSE_EXPECTING_LF_AFTER_CHUNK p) chunks 0
  else CError ERROR_CHUNK_CHAR.

Definition step_lf_after_chunk (c : char) (p : parser) (chunks : bytes) : cstep :=
  if c =c LF then CNext (cgoto PARSE_CHUNK_SIZE_START p) chunks 0
  else CError ERROR_CHUNK_CHAR.

(** A character other than CR starts the footers: they are parsed as headers. *)
Definition step_final_cr_or_footers (c : char) (p : parser) (chunks : bytes) : cstep :=
  if c =c CR then CNext (cgoto PARSE_EXPECTING_FINAL_LF_AFTER_LAST_CHUNK p) chunks 0
  else CDone false (with_m_headers_parse_state PARSE_HEADER_START
                      (with_m_message_parse_state PARSE_FOOTERS p)).

Definition step_final_lf (c : char) (p : parser) (chunks : bytes) : cstep :=
  if c =c LF then CDone true p else CError ERROR_CHUNK_CHAR.

Definition chunks_step (buf : bytes) (c : char) (p : parser) (chunks : bytes) : cstep :=
  match m_chunked_content_parse_state p with
  | PARSE_CHUNK_SIZE_START => step_chunk_size_start c p chunks
  | PARSE_CHUNK_SIZE => step_chunk_size c p chunks
  | PARSE_EXPECTING_IGNORED_TEXT_AFTER_CHUNK_SIZE => step_ignored_text c p chunks
  | PARSE_EXPECTING_CR_AFTER_CHUNK_SIZE => step_cr_after_chunk_size c p chunks
  | PARSE_EXPECTING_LF_AFTER_CHUNK_SIZE => step_lf_after_chunk_size c p chunks
  | PARSE_CHUNK => step_chunk buf c p chunks
  | PARSE_EXPECTING_CR_AFTER_CHUNK => step_cr_after_chunk c p chunks
  | PARSE_EXPECTING_LF_AFTER_CHUNK => step_lf_after_chunk c p chunks
  | PARSE_EXPECTING_FINAL_CR_OR_FOOTERS_AFTER_LAST_CHUNK =>
      step_final_cr_or_footers c p chunks
  | PARSE_EXPECTING_FINAL_LF_AFTER_LAST_CHUNK => step_final_lf c p chunks
  end.

(** What the loop leaves: result, error, parser, chunk cache, unread bytes. *)
Record cresult := mk_cresult {
  c_rc : tribool;
  c_error : option error_value_t;
  c_parser : parser;
  c_chunks : bytes;
  c_rest : bytes
}.

(** [skip] bytes at the beginning of [buf] have been handed to the payload handler. *)
Fixpoint parse_chunks_loop (skip : nat) (buf : bytes) (p : parser) (chunks : bytes)
  : cresult :=
  match buf with
  | [] => mk_cresult indeterminate_value None p chunks []
  | c :: buf' =>
      match skip with
      | S k => parse_chunks_loop k buf' p chunks
      | O =>
          match chunks_step buf c p chunks with
          | CNext p chunks skip => parse_chunks_loop skip buf' p chunks
          | CError e => mk_cresult false_value (Some e) p chunks buf
          | CDone consume p =>
              mk_cresult true_value None p chunks (if consume then buf' else buf)
          end
      end
  end.

Definition parse_chunks (p : parser) (chunks : bytes) (ec : error_code)
  : tribool * parser * bytes * error_code :=
  let r := parse_chunks_loop 0 (m_read p) p chunks in
  let n := zlen (m_read p) - zlen (c_rest r) in
  let p' := with_m_read (c_rest r) (c_parser r) in
  match c_error r with
  | Some e => (c_rc r, with_m_bytes_last_read 0 p', c_chunks r, Some e)
  | None =>
      let p' := with_m_bytes_last_read n p' in
      let p' := with_m_bytes_total_read (u64 (m_bytes_total_read p' + n)) p' in
      (c_rc r, with_m_bytes_content_read (u64 (m_bytes_content_read p' + n)) p',
       c_chunks r, ec)
  end.

(** ** Content with a known length *)

(** [memcpy] of the bytes that still fit into the content buffer. *)
Definition copy_content (data : bytes) (p : parser) (m : message) : res message :=
  let read := m_bytes_content_read p in
  let max := m_max_content_length p in
  if read <? max then
    if max <? u64 (read + zlen data)
    then write_content read (take (Z.to_nat (max - read)) data) m
    else write_content read data m
  else Ok m.

Definition consume_content (p : parser) (m : message) : res (tribool * parser * message) :=
  let content_bytes_available := bytes_available p in
  let remaining := m_bytes_content_remaining p in
  if remaining =? 0 then Ok (true_value, p, m)
  else
    let '(rc, n) := if remaining <=? content_bytes_available
                    then (true_value, remaining)
                    else (indeterminate_value, content_bytes_available) in
    let p := with_m_bytes_content_remaining (remaining - n) p in
    let data := take (Z.to_nat n) (m_read p) in
    pm ← (if has_handler p then Ok (call_handler data p, m)
          else m ← copy_content data p m; Ok (p, m));
    let '(p, m) := pm in
    let p := with_m_read (drop (Z.to_nat n) (m_read p)) p in
    let p := with_m_bytes_content_read (u64 (m_bytes_content_read p + n)) p in
    let p := with_m_bytes_total_read (u64 (m_bytes_total_read p + n)) p in
    Ok (rc, with_m_bytes_last_read n p, m).

(** ** Content up to the end of the connection *)

(** The loop that pushes bytes while the cache is below the limit. *)
Fixpoint push_limited (max : Z) (chunks data : bytes) : bytes :=
  match data with
  | [] => chunks
  | c :: data' =>
      push_limited max (if zlen chunks <? max then chunks ++ [c] else chunks) data'
  end.

Definition consume_content_as_next_chunk (p : parser) (chunks : bytes) : parser * bytes :=
  if bytes_available p =? 0 then (with_m_bytes_last_read 0 p, chunks)
  else
    let n := zlen (m_read p) in
    let data := m_read p in
    let '(p, chunks) := if has_handler p then (call_handler data p, chunks)
                        else (p, push_limited (m_max_content_length p) chunks data) in
    let p := with_m_read [] (with_m_bytes_last_read n p) in
    let p := with_m_bytes_total_read (u64 (m_bytes_total_read p + n)) p in
    (with_m_bytes_content_read (u64 (m_bytes_content_read p + n)) p, chunks).

(** ** Chunks that arrive in pieces *)

(** Run through the cases of the switch and of the conditions in each of them. *)
Ltac cstep_cases p :=
  unfold chunks_step;
  destruct (m_chunked_content_parse_state p) eqn:?;
  unfold step_chunk_size_start, step_chunk_size, step_ignored_text,
    step_cr_after_chunk_size, step_lf_after_chunk_size, step_chunk, step_cr_after_chunk,
    step_lf_after_chunk, step_final_cr_or_footers, step_final_lf, end_of_chunk;
  repeat case_if.

(** Without a payload handler a step looks at one character only. *)
Lemma chunks_step_local buf c p chunks :
  has_handler p = false -> chunks_step buf c p chunks = chunks_step [c] c p chunks.
Proof.
  intros Hh. unfold chunks_step. destruct (m_chunked_content_parse_state p); try done.
  unfold step_chunk. by rewrite Hh.
Qed.

Lemma chunks_step_skip buf c p chunks p' chunks' skip :
  has_handler p = false -> chunks_step buf c p chunks = CNext p' chunks' skip -> skip = 0%nat.
Proof.
  intros Hh. cstep_cases p; try discriminate; try congruence; by intros [= <- <- <-].
Qed.

(** The members that parsing chunks does not touch. *)
Definition header_view (p : parser) :=
  (m_is_request p, m_read p, m_status_code p, m_status_message p, m_method p, m_resource p,
   m_query_string p, m_raw_headers p,
   (m_bytes_content_remaining p, m_bytes_content_read p, m_bytes_last_read p,
    m_bytes_total_read p, m_max_content_length p, m_parse_headers_only p,
    m_save_raw_headers p)).

Lemma chunks_step_frame buf c p chunks p' chunks' skip :
  chunks_step buf c p chunks = CNext p' chunks' skip ->
  header_view p' = header_view p /\ has_handler p' = has_handler p
  /\ m_message_parse_state p' = m_message_parse_state p
  /\ m_headers_parse_state p' = m_headers_parse_state p.
Proof.
  cstep_cases p; try discriminate; intros [= <- <- <-];
    unfold header_view, has_handler, call_handler; cbn; auto;
    destruct (m_payload_handler p) eqn:E; cbn; rewrite ?E; auto.
  all: unfold has_handler in Heqb0; by rewrite E in Heqb0.
Qed.

Lemma chunks_step_done buf c p chunks consume p' :
  chunks_step buf c p chunks = CDone consume p' ->
  header_view p' = header_view p /\ has_handler p' = has_handler p
  /\ (consume = true /\ p' = p
      \/ consume = false /\ m_message_parse_state p' = PARSE_FOOTERS).
Proof. cstep_cases p; try discriminate; intros [= <- <-]; auto. Qed.

Lemma parse_chunks_loop_rest skip buf p chunks r :
  r = parse_chunks_loop skip buf p chunks ->
  c_rc r = indeterminate_value -> c_rest r = [] /\ c_error r = None.
Proof.
  intros ->. revert skip p chunks. induction buf as [|c buf IH]; intros skip p chunks; simpl;
    [done|]. destruct skip; [|apply IH]. destruct (chunks_step _ _ _ _); simpl; [apply IH|done..].
Qed.

Lemma parse_chunks_loop_error skip buf p chunks r :
  r = parse_chunks_loop skip buf p chunks ->
  c_rc r = false_value <-> exists e, c_error r = Some e.
Proof.
  intros ->. revert skip p chunks. induction buf as [|c buf IH]; intros skip p chunks; simpl.
  - split; [done | by intros [e [=]]].
  - destruct skip; [|apply IH]. destruct (chunks_step _ _ _ _); simpl; [apply IH | |].
    + split; eauto.
    + split; [done | by intros [e [=]]].
Qed.

(** The loop keeps the view, and leaves [PARSE_CHUNKS] only for the footers. *)
Lemma parse_chunks_loop_frame skip buf p chunks r :
  r = parse_chunks_loop skip buf p chunks ->
  header_view (c_parser r) = header_view p /\ has_handler (c_parser r) = has_handler p
  /\ (m_message_parse_state (c_parser r) = m_message_parse_state p
      \/ (m_message_parse_state (c_parser r) = PARSE_FOOTERS /\ c_rc r = true_value
          /\ c_rest r <> [])).
Proof.
  intros ->. revert skip p chunks. induction buf as [|c buf IH]; intros skip p chunks; simpl;
    [by auto|]. destruct skip; [|apply IH].
  destruct (chunks_step _ _ _ _) as [p' chunks' skip|e|consume p'] eqn:E; simpl.
  - destruct (chunks_step_frame _ _ _ _ _ _ _ E) as (E1 & E2 & E3 & _).
    destruct (IH skip p' chunks') as (F1 & F2 & F3).
    rewrite F1, F2, E1, E2. rewrite E3 in F3. auto.
  - auto.
  - destruct (chunks_step_done _ _ _ _ _ _ E) as (-> & -> & [[-> ->] | [-> ->]]); auto.
    split; [done|]. split; [done|]. by right.
Qed.

(** What is left of the buffer is a suffix of it. *)
Lemma parse_chunks_loop_suffix skip buf p chunks :
  exists pre, buf = pre ++ c_rest (parse_chunks_loop skip buf p chunks).
Proof.
  revert skip p chunks. induction buf as [|c buf IH]; intros skip p chunks; simpl;
    [by exists []|].
  destruct skip as [|skip].
  - destruct (chunks_step _ c p chunks) as [p' chunks' skip'|e|[] p']; simpl;
      [destruct (IH skip' p' chunks') as [pre E]; exists (c :: pre); simpl; by rewrite <- E
      | by exists [] | by exists [c] | by exists []].
  - destruct (IH skip p chunks) as [pre E]. exists (c :: pre). simpl. by rewrite <- E.
Qed.

(** Continue with [more] after a result on a first fragment. *)
Definition ccontinue (r : cresult) (more : bytes) : cresult :=
  match c_rc r with
  | indeterminate_value => parse_chunks_loop 0 more (c_parser r) (c_chunks r)
  | _ => mk_cresult (c_rc r) (c_error r) (c_parser r) (c_chunks r) (c_rest r ++ more)
  end.

Lemma parse_chunks_loop_app b1 b2 p chunks :
  has_handler p = false ->
  parse_chunks_loop 0 (b1 ++ b2) p chunks = ccontinue (parse_chunks_loop 0 b1 p chunks) b2.
Proof.
  revert p chunks. induction b1 as [|c b1 IH]; intros p chunks Hh; cbn [app parse_chunks_loop];
    [done|]. rewrite (chunks_step_local (c :: b1 ++ b2)), (chunks_step_local (c :: b1)) by done.
  destruct (chunks_step [c] c p chunks) as [p' chunks' skip|e|[] p'] eqn:E; [|done..].
  rewrite (chunks_step_skip _ _ _ _ _ _ _ Hh E).
  apply IH. by destruct (chunks_step_frame _ _ _ _ _ _ _ E) as (_ & -> & _).
Qed.

(** ** The chunk cache *)

Lemma chunks_step_cache buf c p chunks p' chunks' skip :
  chunks_step buf c p chunks = CNext p' chunks' skip ->
  zlen chunks <= m_max_content_length p -> zlen chunks' <= m_max_content_length p.
Proof.
  cstep_cases p; try discriminate; intros [= <- <- <-]; try done.
  all: rewrite zlen_snoc; reflect_bools; lia.
Qed.

(** The cache never outgrows the limit on the content. *)
Lemma parse_chunks_loop_cache skip buf p chunks :
  zlen chunks <= m_max_content_length p ->
  zlen (c_chunks (parse_chunks_loop skip buf p chunks)) <= m_max_content_length p.
Proof.
  revert skip p chunks. induction buf as [|c buf IH]; intros skip p chunks Hz; simpl; [done|].
  destruct skip; [|by apply IH].
  destruct (chunks_step _ _ _ _) as [p' chunks' skip|e|consume p'] eqn:E; simpl; [|done..].
  destruct (chunks_step_frame _ _ _ _ _ _ _ E) as (Hv & _).
  pose proof (chunks_step_cache _ _ _ _ _ _ _ E Hz) as Hz'.
  assert (m_max_content_length p' = m_max_content_length p) as Hm by (by injection Hv).
  rewrite <- Hm in Hz' |- *. by apply IH.
Qed.

Lemma push_limited_cache max chunks data :
  push_limited max chunks data = chunks ++ take (Z.to_nat (max - zlen chunks)) data.
Proof.
  revert chunks. induction data as [|c data IH]; intros chunks; simpl.
  - by rewrite take_nil, app_nil_r.
  - rewrite IH. case_if; reflect_bools.
    + rewrite zlen_snoc, <- app_assoc.
      replace (Z.to_nat (max - zlen chunks)) with (S (Z.to_nat (max - (zlen chunks + 1)))) by lia.
      done.
    + replace (Z.to_nat (max - zlen chunks)) with 0%nat by lia. by rewrite !take_0.
Qed.

(** ** Decoding a chunked body *)

(** The members that describe the current chunk. *)
Definition chunk_at (st : chunk_parse_state_t) (size_str : bytes) (size read : Z) (p : parser)
  : parser :=
  with_m_chunked_content_parse_state st
    (with_m_chunk_size_str size_str
       (with_m_size_of_current_chunk size (with_m_bytes_read_in_current_chunk read p))).

Lemma chunk_at_self p :
  chunk_at (m_chunked_content_parse_state p) (m_chunk_size_str p)
    (m_size_of_current_chunk p) (m_bytes_read_in_current_chunk p) p = p.
Proof. by destruct p. Qed.

(** A chunk: the size in hexadecimal, an optional extension, the data. *)
Definition chunk_bytes (hex ext data : bytes) : bytes :=
  hex ++ ext ++ STRING_CRLF ++ data ++ STRING_CRLF.

Definition is_chunk (hex ext data : bytes) : Prop :=
  hex <> [] /\ Forall (fun c => is_hex_digit c = true) hex
  /\ strtol16 hex = zlen data /\ data <> []
  /\ (ext = [] \/ exists t, ext = ";"%byte :: t /\ CR ∉ t).

(** Run the loop by one character in a state that is known: [f] is the [case]. *)
Ltac run_case f :=
  cbn [app parse_chunks_loop];
  match goal with
  | |- context [chunks_step ?b ?c ?p ?chunks] =>
      first [ change (chunks_step b c p chunks) with (f c p chunks)
            | change (chunks_step b c p chunks) with (f b c p chunks) ]
  end;
  unfold f.

Section chunks.
Context (p : parser) (Hh : has_handler p = false).
Implicit Types (hex ext data rest chunks : bytes) (size read : Z).

Lemma chunk_size_digits s rest hex size read chunks :
  Forall (fun c => is_hex_digit c = true) s ->
  parse_chunks_loop 0 (s ++ rest) (chunk_at PARSE_CHUNK_SIZE hex size read p) chunks
  = parse_chunks_loop 0 rest (chunk_at PARSE_CHUNK_SIZE (hex ++ s) size read p) chunks.
Proof.
  intros Hs. revert hex. induction Hs as [|c s Hc Hs IH]; intros hex.
  - by rewrite app_nil_r.
  - run_case step_chunk_size. rewrite Hc.
    specialize (IH (hex ++ [c])). by rewrite <- app_assoc in IH.
Qed.

Lemma chunk_extension ext rest hex size read chunks :
  (ext = [] \/ exists t, ext = ";"%byte :: t /\ CR ∉ t) ->
  parse_chunks_loop 0 (ext ++ CR :: rest) (chunk_at PARSE_CHUNK_SIZE hex size read p) chunks
  = parse_chunks_loop 0 rest
      (chunk_at PARSE_EXPECTING_LF_AFTER_CHUNK_SIZE hex size read p) chunks.
Proof.
  intros [-> | (t & -> & Ht)]; [done|].
  transitivity (parse_chunks_loop 0 (t ++ CR :: rest)
    (chunk_at PARSE_EXPECTING_IGNORED_TEXT_AFTER_CHUNK_SIZE hex size read p) chunks); [done|].
  induction t as [|c t IH]; [done|]. apply not_elem_of_cons in Ht as [Hc Ht].
  run_case step_ignored_text. rewrite (ceq_ne c CR) by done. by apply IH.
Qed.

(** The data of a chunk goes to the cache while there is room for it. *)
Lemma chunk_data data rest hex size read chunks :
  data <> [] -> read + zlen data = size -> 0 <= read -> size < 2 ^ 64 ->
  zlen chunks + zlen data <= m_max_content_length p ->
  parse_chunks_loop 0 (data ++ rest) (chunk_at PARSE_CHUNK hex size read p) chunks
  = parse_chunks_loop 0 rest
      (chunk_at PARSE_EXPECTING_CR_AFTER_CHUNK hex size size p) (chunks ++ data).
Proof.
  revert read chunks. induction data as [|c data IH]; intros read chunks Hne Hr H0 Hs Hm;
    [done|]. rewrite zlen_cons in *. pose proof (zlen_nonneg data).
  run_case step_chunk.
  change (has_handler (chunk_at _ _ _ _ p)) with (has_handler p). rewrite Hh.
  change (m_bytes_read_in_current_chunk (chunk_at _ _ _ _ p)) with read.
  change (m_size_of_current_chunk (chunk_at _ _ _ _ p)) with size.
  change (m_max_content_length (chunk_at _ _ _ _ p)) with (m_max_content_length p).
  replace (read <? size) with true by lia.
  replace (zlen chunks <? m_max_content_length p) with true by lia.
  rewrite u64_small by lia. unfold end_of_chunk. simpl.
  destruct data as [|d data].
  - rewrite zlen_nil in *. replace (read + 1 =? size) with true by lia.
    by replace (read + 1) with size by lia.
  - rewrite zlen_cons in *. pose proof (zlen_nonneg data).
    replace (read + 1 =? size) with false by lia.
    specialize (IH (read + 1) (chunks ++ [c])). rewrite zlen_snoc, <- app_assoc in IH.
    apply IH; (done || lia).
Qed.

Lemma one_chunk hex ext data rest hex0 size read chunks :
  is_chunk hex ext data -> zlen chunks + zlen data <= m_max_content_length p ->
  zlen data < 2 ^ 64 ->
  parse_chunks_loop 0 (chunk_bytes hex ext data ++ rest)
    (chunk_at PARSE_CHUNK_SIZE_START hex0 size read p) chunks
  = parse_chunks_loop 0 rest
      (chunk_at PARSE_CHUNK_SIZE_START hex (zlen data) (zlen data) p) (chunks ++ data).
Proof.
  intros (Hne & Hhex & Hsize & Hd & He) Hm Hb. unfold chunk_bytes.
  change STRING_CRLF with [CR; LF].
  destruct hex as [|h hex]; [done|]. inversion Hhex as [|? ? Hh1 Hh2]; subst.
  rewrite <- !app_assoc. run_case step_chunk_size_start. rewrite Hh1. change (cgoto _ _) with (chunk_at PARSE_CHUNK_SIZE [h] size read p).
  rewrite chunk_size_digits by done. cbn [app].
  rewrite chunk_extension by done. run_case step_lf_after_chunk_size. simpl.
  rewrite Hsize, (u64_small (zlen data)) by (pose proof (zlen_nonneg data); lia).
  destruct data as [|d data]; [done|]. pose proof (zlen_nonneg data).
  rewrite zlen_cons in *. replace (zlen data + 1 =? 0) with false by lia.
  rewrite <- zlen_cons with (x := d) in *.
  change (cgoto _ _) with (chunk_at PARSE_CHUNK (h :: hex) (zlen (d :: data)) 0 p).
  change (d :: data ++ [CR; LF] ++ rest) with ((d :: data) ++ [CR; LF] ++ rest).
  rewrite chunk_data; (done || lia).
Qed.
End chunks.

(** The last chunk: a size that reads as zero, and the final CRLF. *)
Definition last_chunk (hex : bytes) : bytes := hex ++ STRING_CRLF ++ STRING_CRLF.

Definition is_last (hex : bytes) : Prop :=
  hex <> [] /\ Forall (fun c => is_hex_digit c = true) hex /\ strtol16 hex = 0.

Lemma last_chunk_done hex rest p hex0 size read chunks :
  is_last hex ->
  parse_chunks_loop 0 (last_chunk hex ++ rest)
    (chunk_at PARSE_CHUNK_SIZE_START hex0 size read p) chunks
  = mk_cresult true_value None
      (chunk_at PARSE_EXPECTING_FINAL_LF_AFTER_LAST_CHUNK hex 0 0 p) chunks rest.
Proof.
  intros (Hne & Hhex & Hz). unfold last_chunk. change STRING_CRLF with [CR; LF].
  destruct hex as [|h hex]; [done|]. inversion Hhex as [|? ? Hh1 Hh2]; subst.
  rewrite <- !app_assoc. run_case step_chunk_size_start. rewrite Hh1.
  change (cgoto _ _) with (chunk_at PARSE_CHUNK_SIZE [h] size read p).
  rewrite chunk_size_digits by done. cbn [app].
  pose proof (chunk_extension p [] ([LF; CR; LF] ++ rest) (h :: hex) size read chunks
                (or_introl eq_refl)) as He. cbn [app] in He. rewrite He.
  run_case step_lf_after_chunk_size. simpl.
  by rewrite Hz.
Qed.


(** A chunked body: the chunks (size line, extension, data) and the last chunk. *)
Definition chunked_body (cs : list (bytes * bytes * bytes)) (last : bytes) : bytes :=
  (cs ≫= fun '(hex, ext, data) => chunk_bytes hex ext data) ++ last_chunk last.

Definition body_data (cs : list (bytes * bytes * bytes)) : bytes :=
  cs ≫= fun '(hex, ext, data) => data.

Lemma chunked_body_loop cs last rest p hex0 size read chunks :
  has_handler p = false ->
  Forall (fun '(hex, ext, data) => is_chunk hex ext data) cs -> is_last last ->
  zlen chunks + zlen (body_data cs) <= m_max_content_length p ->
  m_max_content_length p < 2 ^ 64 ->
  exists size' read',
    parse_chunks_loop 0 (chunked_body cs last ++ rest)
      (chunk_at PARSE_CHUNK_SIZE_START hex0 size read p) chunks
    = mk_cresult true_value None
        (chunk_at PARSE_EXPECTING_FINAL_LF_AFTER_LAST_CHUNK last size' read' p)
        (chunks ++ body_data cs) rest.
Proof.
  intros Hh Hcs Hl. unfold chunked_body.
  revert hex0 size read chunks. induction Hcs as [|[[hex ext] data] cs Hc Hcs IH];
    intros hex0 size read chunks Hm Hmax.
  - exists 0, 0. simpl. rewrite app_nil_r. by apply last_chunk_done.
  - change (body_data ((hex, ext, data) :: cs)) with (data ++ body_data cs) in *.
    rewrite zlen_app in Hm. pose proof (zlen_nonneg (body_data cs)).
    pose proof (zlen_nonneg chunks).
    cbn [mbind list_bind]. rewrite <- !app_assoc.
    rewrite (one_chunk p Hh hex ext data) by (done || lia).
    destruct (IH hex (zlen data) (zlen data) (chunks ++ data)) as (s' & r' & E);
      [rewrite zlen_app; lia | done |].
    exists s', r'. rewrite <- !app_assoc in E. by rewrite <- E.
Qed.

(** C32: a chunked body (any number of chunks, sizes in hexadecimal, optional chunk
    extensions) that fits the content limit is decoded completely: [parse_chunks]
    finishes, the cache holds exactly the data of the chunks in order, and the bytes
    after the body stay in the read buffer. *)
Theorem chunked_body_decoded cs last rest p ec :
  has_handler p = false ->
  m_chunked_content_parse_state p = PARSE_CHUNK_SIZE_START ->
  m_read p = chunked_body cs last ++ rest ->
  Forall (fun '(hex, ext, data) => is_chunk hex ext data) cs -> is_last last ->
  zlen (body_data cs) <= m_max_content_length p < 2 ^ 64 ->
  exists p', parse_chunks p [] ec = (true_value, p', body_data cs, ec)
             /\ m_read p' = rest /\ m_message_parse_state p' = m_message_parse_state p
             /\ m_bytes_last_read p' = zlen (chunked_body cs last).
Proof.
  intros Hh Hst Hr Hcs Hl Hm. unfold parse_chunks.
  pose proof (chunk_at_self p) as Hp. rewrite Hst in Hp.
  destruct (chunked_body_loop cs last rest p (m_chunk_size_str p) (m_size_of_current_chunk p)
              (m_bytes_read_in_current_chunk p) []) as (s' & r' & E); try (done || lia).
  { rewrite zlen_nil. lia. }
  rewrite Hp, <- Hr in E. rewrite E. eexists. split; [reflexivity|]. split; [done|].
  split; [done|]. simpl. rewrite Hr, zlen_app. lia.
Qed.

Lemma chunked_body_decoded_witness :
  exists p', parse_chunks (with_m_read (str "3;x=y" ++ [CR; LF] ++ str "abc" ++ [CR; LF]
                             ++ str "0" ++ [CR; LF; CR; LF] ++ str "GET") (new_parser true 100))
               [] None = (true_value, p', str "abc", None) /\ m_read p' = str "GET".
Proof.
  destruct (chunked_body_decoded [(str "3", str ";x=y", str "abc")] (str "0") (str "GET")
    (with_m_read (str "3;x=y" ++ [CR; LF] ++ str "abc" ++ [CR; LF]
                  ++ str "0" ++ [CR; LF; CR; LF] ++ str "GET") (new_parser true 100)) None)
    as (p' & E & R & _); try reflexivity.
  - constructor; [|constructor]. split; [discriminate|]. split; [by repeat constructor|].
    split; [reflexivity|]. split; [discriminate|]. right. exists (str "x=y"). split; [done|].
    by apply (bool_decide_unpack _).
  - split; [discriminate|]. split; [by repeat constructor | reflexivity].
  - vm_compute. split; [discriminate | reflexivity].
  - exists p'. split; [exact E | exact R].
Defined.

(** Once the cache is full inside a chunk, the parser takes no notice of the end of
    the chunk: it asks for more data for ever, whatever arrives. *)
Theorem chunk_beyond_limit_never_ends buf p chunks :
  has_handler p = false ->
  m_chunked_content_parse_state p = PARSE_CHUNK ->
  m_bytes_read_in_current_chunk p < m_size_of_current_chunk p ->
  m_max_content_length p <= zlen chunks ->
  parse_chunks_loop 0 buf p chunks = mk_cresult indeterminate_value None p chunks [].
Proof.
  intros Hh Hst Hr Hm. induction buf as [|c buf IH]; [done|]. cbn [parse_chunks_loop].
  unfold chunks_step. rewrite Hst. unfold step_chunk, end_of_chunk. rewrite Hh.
  replace (m_bytes_read_in_current_chunk p <? m_size_of_current_chunk p) with true by lia.
  replace (zlen chunks <? m_max_content_length p) with false by lia.
  replace (m_bytes_read_in_current_chunk p =? m_size_of_current_chunk p) with false by lia.
  apply IH.
Qed.

Lemma chunk_beyond_limit_never_ends_witness :
  let p := chunk_at PARSE_CHUNK (str "5") 5 2 (new_parser true 2) in
  parse_chunks_loop 0 (str "cde" ++ [CR; LF] ++ str "0" ++ [CR; LF; CR; LF]) p (str "ab")
  = mk_cresult indeterminate_value None p (str "ab") [].
Proof. intros p. apply chunk_beyond_limit_never_ends; vm_compute; (done || discriminate). Defined.
