(* ===== verification/Parser.v ===== *)
(** * The HTTP parser: whole messages

    Models the member functions of [http::parser] (src/http_parser.cpp) that work on a
    whole message: [update_message_with_header_data], [finish_header_parsing],
    [compute_msg_status], [finish], [parse], [parse_missing_data] and
    [check_premature_eof], and [message::read] (src/http_message.cpp), which feeds a
    parser one byte at a time. *)
From S2P Require Import Prelude CLib StringUtils Dict Tribool HttpTypes Message ParserBase.
From S2P Require Import ParserHeaders ParserForms ParserBody.

(** ** From the parser's strings to the message *)

(** Fill the query dictionary of a request from [s]. *)
Definition parse_queries (s : bytes) (m : message) : message :=
  on_queries (fun d => snd (parse_url_encoded d s)) m.

(** The loop over the cookie headers. *)
Definition parse_cookies (header : bytes) (set_cookie_header : bool) (m : message) : message :=
  foldl (fun m kv =>
           with_m_cookie_params
             (snd (parse_cookie_header (m_cookie_params m) (snd kv) set_cookie_header)) m)
    m (equal_range (m_headers m) header).

(** The [dynamic_cast] to the class the parser was created for. *)
Definition update_message_with_header_data (p : parser) (m : message) : res message :=
  if m_is_request p then
    match m_kind m with
    | KResponse _ => Fault std_bad_cast
    | KRequest _ =>
        let m := set_query_string (m_query_string p)
                   (set_resource (m_resource p) (set_method (m_method p) m)) in
        let m := if bool_decide (m_query_string p = []) then m
                 else parse_queries (m_query_string p) m in
        Ok (parse_cookies HEADER_COOKIE false m)
    end
  else
    match m_kind m with
    | KRequest _ => Fault std_bad_cast
    | KResponse _ =>
        let m := set_status_message (m_status_message p)
                   (set_status_code (m_status_code p) m) in
        Ok (parse_cookies HEADER_SET_COOKIE true m)
    end.

(** ** End of the headers *)

Definition mgoto (s : message_parse_state_t) (p : parser) : parser :=
  with_m_message_parse_state s p.

(** [rc = true] when only the headers are wanted. *)
Definition headers_only_rc (p : parser) : tribool :=
  if m_parse_headers_only p then true_value else indeterminate_value.

(** The branch for a message with a Content-Length header. *)
Definition finish_with_length (p : parser) (m : message) (ec : error_code)
  : res (tribool * parser * message * error_code) :=
  match update_content_length_using_header m with
  | Fault _ => Ok (false_value, p, m, Some ERROR_INVALID_CONTENT_LENGTH)
  | Ok m =>
      if m_content_length m =? 0 then Ok (true_value, mgoto PARSE_END p, m, ec)
      else
        let p := mgoto PARSE_CONTENT p in
        let p := with_m_bytes_content_remaining (m_content_length m) p in
        let m := if m_max_content_length p <? m_bytes_content_remaining p
                 then set_content_length (m_max_content_length p) m else m in
        if m_parse_headers_only p then Ok (true_value, p, m, ec)
        else m ← create_content_buffer m; Ok (indeterminate_value, p, m, ec)
  end.

Definition finish_header_parsing (p : parser) (m : message) (ec : error_code)
  : res (tribool * parser * message * error_code) :=
  let p := with_m_bytes_content_read 0 (with_m_bytes_content_remaining 0 p) in
  let m := set_content_length 0 m in
  let m := update_transfer_encoding_using_header m in
  m ← update_message_with_header_data p m;
  if m_is_chunked m then Ok (headers_only_rc p, mgoto PARSE_CHUNKS p, m, ec)
  else if is_content_length_implied m then Ok (true_value, mgoto PARSE_END p, m, ec)
  else if has_header m HEADER_CONTENT_LENGTH then finish_with_length p m ec
  else if negb (m_is_request p) then
    Ok (headers_only_rc p, mgoto PARSE_CONTENT_NO_LENGTH p, with_m_chunk_cache [] m, ec)
  else Ok (true_value, mgoto PARSE_END p, m, ec).

(** ** End of the message *)

Definition compute_msg_status (m : message) (msg_parsed_ok : bool) : message :=
  set_status
    (if m_has_missing_packets m then
       if m_has_data_after_missing m then STATUS_PARTIAL else STATUS_TRUNCATED
     else if msg_parsed_ok then STATUS_OK else STATUS_TRUNCATED) m.

(** [content_type_header.compare(0, t.length(), t) == 0]. *)
Definition has_prefix (s t : bytes) : bool := bytes_eqb (take (length t) s) t.

(** Query pairs from the content of a form.  [parse_multipart_form_data] always ends
    (see [ParserForms]). *)
Definition parse_form_content (m : message) : res message :=
  let content_type := get_header m HEADER_CONTENT_TYPE in
  if has_prefix content_type CONTENT_TYPE_URLENCODED then
    content ← read_content m;
    Ok (parse_queries content m)
  else if has_prefix content_type CONTENT_TYPE_MULTIPART_FORM_DATA then
    content ← read_content m;
    match m_kind m with
    | KRequest r =>
        match parse_multipart_form_data (rq_query_params r) content_type content with
        | Some (Ok (_, d)) => Ok (on_queries (fun _ => d) m)
        | Some (Fault f) => Fault f
        | None => Ok m
        end
    | KResponse _ => Ok m
    end
  else Ok m.

Definition finish_tail (p : parser) (m : message) : res message :=
  let m := compute_msg_status m (m_is_valid m) in
  if m_is_request p && negb (has_handler p) && negb (m_parse_headers_only p) then
    if is_request m then parse_form_content m else Fault std_bad_cast
  else Ok m.

Definition finish (p : parser) (m : message) : res message :=
  match m_message_parse_state p with
  | PARSE_START =>
      create_content_buffer (set_content_length 0 (set_is_valid false m))
  | PARSE_END => finish_tail p (set_is_valid true m)
  | PARSE_HEADERS | PARSE_FOOTERS =>
      m ← update_message_with_header_data p (set_is_valid false m);
      m ← create_content_buffer (set_content_length 0 m);
      finish_tail p m
  | PARSE_CONTENT =>
      let m := set_is_valid false m in
      finish_tail p (if m_bytes_content_read p <? m_max_content_length p
                     then set_content_length (m_bytes_content_read p) m else m)
  | PARSE_CHUNKS =>
      let m := set_is_valid (bool_decide (m_chunked_content_parse_state p
                                          = PARSE_CHUNK_SIZE_START)) m in
      m ← (if has_handler p then Ok m else concatenate_chunks m);
      finish_tail p m
  | PARSE_CONTENT_NO_LENGTH =>
      let m := set_is_valid true m in
      m ← (if has_handler p then Ok m else concatenate_chunks m);
      finish_tail p m
  end.

(** ** Parsing the read buffer *)

(** One pass of the [do] loop: the new result, and the bytes it read. *)
Definition parse_pass (rc : tribool) (p : parser) (m : message) (ec : error_code)
  : res (tribool * parser * message * error_code) :=
  let headers p :=
    let '(rc, p, m, ec) := parse_headers p m ec in
    if tri_is rc true && bool_decide (m_message_parse_state p = PARSE_HEADERS)
    then finish_header_parsing p m ec
    else Ok (rc, p, m, ec) in
  match m_message_parse_state p with
  | PARSE_START => headers (mgoto PARSE_HEADERS p)
  | PARSE_HEADERS | PARSE_FOOTERS => headers p
  | PARSE_CHUNKS =>
      let '(rc, p, chunks, ec) := parse_chunks p (m_chunk_cache m) ec in
      let m := with_m_chunk_cache chunks m in
      if tri_is rc true && negb (has_handler p) then
        m ← concatenate_chunks m;
        Ok (if bool_decide (m_message_parse_state p = PARSE_FOOTERS)
            then indeterminate_value else true_value, p, m, ec)
      else Ok (rc, p, m, ec)
  | PARSE_CONTENT =>
      r ← consume_content p m;
      let '(rc, p, m) := r in Ok (rc, p, m, ec)
  | PARSE_CONTENT_NO_LENGTH =>
      let '(p, chunks) := consume_content_as_next_chunk p (m_chunk_cache m) in
      Ok (rc, p, with_m_chunk_cache chunks m, ec)
  | PARSE_END => Ok (true_value, p, m, ec)
  end.

(** A pass in [PARSE_END] reads nothing, so it adds nothing to the bytes parsed. *)
Definition pass_bytes (p p' : parser) : Z :=
  if bool_decide (m_message_parse_state p = PARSE_END) then 0 else m_bytes_last_read p'.

(** The [do] loop for at most [fuel] passes; [None] if they were not enough. *)
Fixpoint parse_loop (fuel : nat) (rc : tribool) (total : Z) (p : parser) (m : message)
    (ec : error_code) : option (res (tribool * Z * parser * message * error_code)) :=
  match fuel with
  | O => None
  | S fuel' =>
      match parse_pass rc p m ec with
      | Fault f => Some (Fault f)
      | Ok (rc, p', m, ec) =>
          let total := u64 (total + pass_bytes p p') in
          if indeterminate rc && negb (eof p') then parse_loop fuel' rc total p' m ec
          else Some (Ok (rc, total, p', m, ec))
      end
  end.

(** Headers, content, footers: a call makes at most three passes (see
    [parse_terminates]), one less than this. *)
Definition parse_fuel : nat := 4.

(** The last part of [parse] and [parse_missing_data]. *)
Definition conclude (rc : tribool) (p : parser) (m : message) : res (parser * message) :=
  if tri_is rc true then
    let p := mgoto PARSE_END p in
    m ← finish p m; Ok (p, m)
  else if tri_is rc false then Ok (p, compute_msg_status m false)
  else Ok (p, m).

Definition parse (p : parser) (m : message) (ec : error_code)
  : option (res (tribool * parser * message * error_code)) :=
  if eof p then Some (Fault assertion_failed)
  else
    let m := if m_has_missing_packets m then set_data_after_missing_packet true m else m in
    match parse_loop parse_fuel indeterminate_value 0 p m ec with
    | None => None
    | Some (Fault f) => Some (Fault f)
    | Some (Ok (rc, total, p, m, ec)) =>
        Some (pm ← conclude rc p m;
              let '(p, m) := pm in
              Ok (rc, with_m_bytes_last_read total p, m, ec))
    end.

(** ** Missing data *)

Definition MISSING_DATA_CHAR : char := "X"%byte.

(** One handler call per missing byte. *)
Fixpoint call_handler_missing (n : nat) (p : parser) : parser :=
  match n with
  | O => p
  | S n' => call_handler_missing n' (call_handler [MISSING_DATA_CHAR] p)
  end.

(** Dummy content for [len] bytes: to the handler, or into the chunk cache. *)
Definition missing_into_cache (len : Z) (p : parser) (m : message) : parser * message :=
  if has_handler p then (call_handler_missing (Z.to_nat len) p, m)
  else (p, with_m_chunk_cache
             (push_limited (m_max_content_length p) (m_chunk_cache m)
                (replicate (Z.to_nat len) MISSING_DATA_CHAR)) m).

Definition missing_in_chunk (len : Z) (p : parser) (m : message) : parser * message :=
  let '(p, m) := missing_into_cache len p m in
  let p := with_m_bytes_read_in_current_chunk
             (u64 (m_bytes_read_in_current_chunk p + len)) p in
  let p := with_m_bytes_last_read len p in
  let p := with_m_bytes_total_read (u64 (m_bytes_total_read p + len)) p in
  let p := with_m_bytes_content_read (u64 (m_bytes_content_read p + len)) p in
  (end_of_chunk p, m).

Definition missing_in_content (len : Z) (p : parser) (m : message)
  : res (tribool * parser * message) :=
  let read := m_bytes_content_read p in
  pm ← (if has_handler p then Ok (call_handler_missing (Z.to_nat len) p, m)
        else if u64 (read + len) <=? m_max_content_length p then
          m ← write_content read (replicate (Z.to_nat len) MISSING_DATA_CHAR) m;
          Ok (with_m_bytes_content_read (u64 (read + len)) p, m)
        else Ok (with_m_bytes_content_read (u64 (read + len)) p, m));
  let '(p, m) := pm in
  let p := with_m_bytes_content_remaining (m_bytes_content_remaining p - len) p in
  let p := with_m_bytes_total_read (u64 (m_bytes_total_read p + len)) p in
  let p := with_m_bytes_last_read len p in
  Ok (if m_bytes_content_remaining p =? 0 then true_value else indeterminate_value, p, m).

(** The [switch] of [parse_missing_data]. *)
Definition missing_pass (len : Z) (p : parser) (m : message) (ec : error_code)
  : res (tribool * parser * message * error_code) :=
  match m_message_parse_state p with
  | PARSE_START | PARSE_HEADERS | PARSE_FOOTERS =>
      Ok (false_value, p, m, Some ERROR_MISSING_HEADER_DATA)
  | PARSE_CHUNKS =>
      if bool_decide (m_chunked_content_parse_state p = PARSE_CHUNK)
         && (m_bytes_read_in_current_chunk p <? m_size_of_current_chunk p)
         && (len <=? m_size_of_current_chunk p - m_bytes_read_in_current_chunk p)
      then let '(p, m) := missing_in_chunk len p m in Ok (indeterminate_value, p, m, ec)
      else Ok (false_value, p, m, Some ERROR_MISSING_CHUNK_DATA)
  | PARSE_CONTENT =>
      if m_bytes_content_remaining p =? 0 then Ok (true_value, p, m, ec)
      else if m_bytes_content_remaining p <? len then
        Ok (false_value, p, m, Some ERROR_MISSING_TOO_MUCH_CONTENT)
      else r ← missing_in_content len p m; let '(rc, p, m) := r in Ok (rc, p, m, ec)
  | PARSE_CONTENT_NO_LENGTH =>
      let '(p, m) := missing_into_cache len p m in
      let p := with_m_bytes_last_read len p in
      let p := with_m_bytes_total_read (u64 (m_bytes_total_read p + len)) p in
      Ok (indeterminate_value,
          with_m_bytes_content_read (u64 (m_bytes_content_read p + len)) p, m, ec)
  | PARSE_END => Ok (true_value, p, m, ec)
  end.

Definition parse_missing_data (len : Z) (p : parser) (m : message) (ec : error_code)
  : res (tribool * parser * message * error_code) :=
  let m := set_missing_packets true m in
  r ← missing_pass len p m ec;
  let '(rc, p, m, ec) := r in
  pm ← conclude rc p m;
  let '(p, m) := pm in
  Ok (rc, p, m, ec).

(** ** Other members *)

(** [true]: the end of the data is premature. *)
Definition check_premature_eof (p : parser) (m : message) : res (bool * parser * message) :=
  if negb (bool_decide (m_message_parse_state p = PARSE_CONTENT_NO_LENGTH))
  then Ok (true, p, m)
  else
    let p := mgoto PARSE_END p in
    m ← concatenate_chunks m;
    m ← finish p m;
    Ok (false, p, m).

Definition skip_header_parsing (p : parser) (m : message) : res (parser * message) :=
  r ← finish_header_parsing p m None;
  let '(_, p, m, _) := r in Ok (p, m).

(** ** Every call ends *)

(** How many kinds of data may still follow. *)
Definition rank (p : parser) : nat :=
  match m_message_parse_state p with
  | PARSE_START | PARSE_HEADERS => 3
  | PARSE_CONTENT | PARSE_CONTENT_NO_LENGTH | PARSE_CHUNKS => 2
  | PARSE_FOOTERS => 1
  | PARSE_END => 0
  end.

(** Where the end of the headers leads. *)
Lemma finish_header_parsing_state p m ec rc p' m' ec' :
  finish_header_parsing p m ec = Ok (rc, p', m', ec') ->
  (m_read p' = m_read p /\ m_payload_handler p' = m_payload_handler p)
  /\ (indeterminate rc = true -> rank p' = 2%nat).
Proof.
  unfold finish_header_parsing, finish_with_length, headers_only_rc. intros H.
  inv_res H. repeat case_if_in H; try (simplify_eq; by split).
  destruct (update_content_length_using_header _); [|simplify_eq; by split].
  repeat case_if_in H; try (simplify_eq; by split).
  all: inv_res H; simplify_eq; by split.
Qed.

Lemma eof_true p : eof p = true <-> m_read p = [].
Proof. unfold eof. apply bool_decide_eq_true. Qed.

Lemma eof_false p : eof p = false <-> m_read p <> [].
Proof. unfold eof. apply bool_decide_eq_false. Qed.

Lemma bytes_available_zlen p : bytes_available p = zlen (m_read p).
Proof.
  unfold bytes_available. destruct (eof p) eqn:E; [|done]. apply eof_true in E. by rewrite E.
Qed.

Lemma parse_headers_progress p m ec rc p' m' ec' :
  parse_headers p m ec = (rc, p', m', ec') ->
  m_message_parse_state p' = m_message_parse_state p
  /\ (indeterminate rc = true -> eof p' = true).
Proof.
  unfold parse_headers. destruct (parse_headers_loop_frame (m_read p) p m) as [Hv _].
  pose proof (parse_headers_loop_rest (m_read p) p m) as Hi.
  assert (m_message_parse_state (h_parser (parse_headers_loop (m_read p) p m))
          = m_message_parse_state p) as Hs by (by injection Hv).
  destruct (h_error _) eqn:E; intros [= <- <- <- <-]; (split; [done|]); intros Hrc;
    apply eof_true; simpl; destruct (h_rc _); try discriminate; by destruct Hi.
Qed.

Lemma parse_chunks_progress p chunks ec rc p' chunks' ec' :
  parse_chunks p chunks ec = (rc, p', chunks', ec') ->
  (m_message_parse_state p' = m_message_parse_state p /\ (indeterminate rc = true -> eof p' = true))
  \/ (m_message_parse_state p' = PARSE_FOOTERS /\ rc = true_value /\ eof p' = false).
Proof.
  unfold parse_chunks. set (r := parse_chunks_loop 0 (m_read p) p chunks).
  pose proof (parse_chunks_loop_frame 0 (m_read p) p chunks r eq_refl) as (_ & _ & Hs).
  pose proof (parse_chunks_loop_rest 0 (m_read p) p chunks r eq_refl) as Hi.
  destruct (c_error r); intros [= <- <- <- <-];
    (destruct Hs as [Hs | (Hs & Hrc & Hne)];
     [left; split; [done|]; intros Hrc; apply eof_true; simpl;
        destruct (c_rc r); try discriminate; by destruct Hi
     | right; split; [done|]; split; [done|]; by apply eof_false]).
Qed.

Lemma consume_content_progress p m rc p' m' :
  consume_content p m = Ok (rc, p', m') -> indeterminate rc = true -> eof p' = true.
Proof.
  unfold consume_content. rewrite bytes_available_zlen. intros H Hrc. case_if_in H.
  { simplify_eq. }
  destruct (_ <=? _) eqn:E.
  - inv_res H. destruct a. simplify_eq.
  - assert (forall q, m_read (call_handler q p) = m_read p) as Hc.
    { intros q. unfold call_handler. by destruct (m_payload_handler p). }
    inv_res H. destruct a as [q m2]. simplify_eq. apply eof_true. simpl.
    assert (m_read q = m_read p) as ->.
    { destruct (has_handler _); [|inv_res Heqr]; simplify_eq; [|done]. unfold call_handler.
      simpl. by destruct (m_payload_handler p). }
    apply drop_ge. unfold zlen. lia.
Qed.

(** A pass that wants more data has emptied the buffer or moved on, and not to the end. *)
Lemma parse_pass_progress rc p m ec rc' p' m' ec' :
  parse_pass rc p m ec = Ok (rc', p', m', ec') -> indeterminate rc' = true ->
  eof p' = true \/ (0 < rank p' < rank p)%nat.
Proof.
  unfold parse_pass. intros H Hi.
  assert (forall q, (let '(rc, p, m, ec) := parse_headers q m ec in
      if tri_is rc true && bool_decide (m_message_parse_state p = PARSE_HEADERS)
      then finish_header_parsing p m ec else Ok (rc, p, m, ec)) = Ok (rc', p', m', ec') ->
      eof p' = true \/ (m_message_parse_state q = PARSE_HEADERS /\ rank p' = 2%nat)) as Hh.
  { intros q Hq. destruct (parse_headers q m ec) as [[[rc1 p1] m1] ec1] eqn:E.
    destruct (parse_headers_progress _ _ _ _ _ _ _ E) as [Hs He].
    case_if_in Hq; [|simplify_eq; auto]. reflect_bools. apply bool_decide_eq_true in H1.
    right. split; [congruence|]. by eapply finish_header_parsing_state. }
  unfold rank at 3. destruct (m_message_parse_state p) eqn:Est.
  1-3: apply Hh in H as [?|[Hs Hr]]; [by left | right; rewrite Hr; first [lia | congruence]].
  - destruct (consume_content p m) as [[[rc1 p1] m1]|] eqn:E; [|done]. simpl in H. simplify_eq.
    left. by eapply consume_content_progress.
  - left. unfold consume_content_as_next_chunk in H. rewrite bytes_available_zlen in H.
    destruct (zlen (m_read p) =? 0) eqn:E.
    + simplify_eq. apply eof_true. simpl. apply zlen_zero_iff. lia.
    + destruct (has_handler p); simplify_eq; by apply eof_true.
  - destruct (parse_chunks p (m_chunk_cache m) ec) as [[[rc1 p1] ch] ec1] eqn:E.
    destruct (parse_chunks_progress _ _ _ _ _ _ _ E) as [[Hs He] | (Hs & -> & He)].
    + case_if_in H; [|simplify_eq; auto]. inv_res H. case_if_in H; simplify_eq.
      apply bool_decide_eq_true in Heqb0. congruence.
    + case_if_in H; [|simplify_eq; done]. inv_res H. case_if_in H; simplify_eq.
      right. unfold rank. rewrite Hs. lia.
  - simplify_eq.
Qed.

Lemma parse_loop_enough fuel rc total p m ec :
  (rank p < fuel)%nat -> exists r, parse_loop fuel rc total p m ec = Some r.
Proof.
  revert rc total p m ec. induction fuel as [|fuel IH]; intros rc total p m ec Hf; [lia|].
  simpl. destruct (parse_pass rc p m ec) as [[[[rc' p'] m'] ec']|f] eqn:E; [|eauto].
  case_if; [|eauto]. reflect_bools.
  destruct (parse_pass_progress _ _ _ _ _ _ _ _ E) as [He|Hr]; [done|congruence|].
  apply IH. lia.
Qed.

(** The [do] loop makes [n] passes and ends with [r]. *)
Inductive parse_passes : nat -> tribool -> Z -> parser -> message -> error_code ->
    res (tribool * Z * parser * message * error_code) -> Prop :=
| passes_fault rc total p m ec f :
    parse_pass rc p m ec = Fault f -> parse_passes 1 rc total p m ec (Fault f)
| passes_end rc total p m ec rc' p' m' ec' :
    parse_pass rc p m ec = Ok (rc', p', m', ec') -> indeterminate rc' && negb (eof p') = false ->
    parse_passes 1 rc total p m ec (Ok (rc', u64 (total + pass_bytes p p'), p', m', ec'))
| passes_more n rc total p m ec rc' p' m' ec' r :
    parse_pass rc p m ec = Ok (rc', p', m', ec') -> indeterminate rc' && negb (eof p') = true ->
    parse_passes n rc' (u64 (total + pass_bytes p p')) p' m' ec' r ->
    parse_passes (S n) rc total p m ec r.

Lemma parse_passes_loop n rc total p m ec r fuel :
  parse_passes n rc total p m ec r -> (n <= fuel)%nat -> parse_loop fuel rc total p m ec = Some r.
Proof.
  intros H. revert fuel.
  induction H as [? ? ? ? ? ? E|? ? ? ? ? ? ? ? ? E Hc|? ? ? ? ? ? ? ? ? ? ? E Hc H IH];
    intros [|fuel] Hf; try lia; cbn [parse_loop]; rewrite E, ?Hc; [done..|]. apply IH. lia.
Qed.

Lemma parse_passes_few k rc total p m ec :
  (rank p <= S k)%nat ->
  exists n r, (1 <= n <= S k)%nat /\ parse_passes n rc total p m ec r.
Proof.
  revert rc total p m ec. induction k as [|k IH]; intros rc total p m ec Hk;
    destruct (parse_pass rc p m ec) as [[[[rc' p'] m'] ec']|f] eqn:E;
    try (exists 1%nat; eexists; split; [lia|]; by apply passes_fault);
    (destruct (indeterminate rc' && negb (eof p')) eqn:Hc;
     [|exists 1%nat; eexists; split; [lia|]; eapply passes_end; [exact E|exact Hc]]).
  all: pose proof (proj1 (andb_true_iff _ _) Hc) as [Hi Hf%negb_true_iff];
    destruct (parse_pass_progress _ _ _ _ _ _ _ _ E Hi) as [He|Hr]; [congruence|].
  - lia.
  - destruct (IH rc' (u64 (total + pass_bytes p p')) p' m' ec') as (n & r & Hn & Hp); [lia|].
    exists (S n), r. split; [lia|]. eapply passes_more; [exact E|exact Hc|exact Hp].
Qed.

(** C5: [parse] always returns: whatever the state of the parser and whatever bytes are
    in the read buffer, the [do] loop ends after at most three passes (headers, content,
    footers), with the result that [parse_fuel] passes give. *)
Theorem parse_terminates p m ec :
  (forall rc total, exists n r, (1 <= n <= 3)%nat /\ parse_passes n rc total p m ec r
                                /\ parse_loop parse_fuel rc total p m ec = Some r)
  /\ exists r, parse p m ec = Some r.
Proof.
  split.
  - intros rc total. destruct (parse_passes_few 2 rc total p m ec) as (n & r & Hn & Hp).
    { unfold rank. destruct (m_message_parse_state p); lia. }
    exists n, r. split; [done|]. split; [done|]. eapply parse_passes_loop; [exact Hp|unfold parse_fuel; lia].
  - unfold parse. destruct (eof p); [eauto|].
    edestruct (parse_loop_enough parse_fuel) as [r ->].
    { unfold rank, parse_fuel. destruct (m_message_parse_state p); lia. }
    destruct r as [[[[[rc total] p'] m'] ec']|]; eauto.
Qed.
