(* ===== verification/ParserSafety.v ===== *)
(** * The HTTP parser is memory safe

    The invariant of [http::parser] with the message it fills, and the theorem that
    [parse] preserves it and never touches memory outside of the content buffer, reads
    a byte that was not written, casts the message to the wrong class or ends with an
    exception other than the one of [parse_multipart_form_data]; with a content limit of
    4 GiB or more a form can fail in [binary_2base64] as well. *)
From S2P Require Import Prelude CLib StringUtils Dict Tribool HttpTypes Message ParserBase.
From S2P Require Import ParserHeaders ParserForms ParserBody Parser.

(** ** The invariant *)

(** [finish] reads the content to fill the query parameters. *)
Definition reads_form (p : parser) : bool :=
  m_is_request p && negb (has_handler p) && negb (m_parse_headers_only p).

(** The first [m_content_length] bytes of the buffer exist and have been written, and they
    are not more than the limit. *)
Definition readable (max : Z) (m : message) : Prop := exists s, read_content m = Ok s /\ zlen s <= max.

(** The content of a message of [n] bytes, of which [k] have been read: the buffer has
    the size of the content cut at the limit, and the bytes read are in it. *)
Record content_inv (k n max : Z) (m : message) : Prop := mk_content_inv {
  ci_length : m_content_length m = Z.min n max;
  ci_buffer : zlen (m_content_buf m) = Z.min n max;
  ci_written : Forall is_Some (take (Z.to_nat k) (m_content_buf m))
}.

Record counters_inv (p : parser) : Prop := mk_counters_inv {
  co_read : 0 <= m_bytes_content_read p;
  co_remaining : 0 < m_bytes_content_remaining p;
  co_total : m_bytes_content_read p + m_bytes_content_remaining p < 2 ^ 64
}.

(** What holds in each state of the message parser. *)
Definition state_inv (p : parser) (m : message) : Prop :=
  match m_message_parse_state p with
  | PARSE_CONTENT =>
      counters_inv p
      /\ (has_handler p = false ->
          content_inv (m_bytes_content_read p)
            (m_bytes_content_read p + m_bytes_content_remaining p) (m_max_content_length p) m)
  | PARSE_FOOTERS | PARSE_END => reads_form p = true -> readable (m_max_content_length p) m
  | _ => True
  end.

Record parser_inv (p : parser) (m : message) : Prop := mk_parser_inv {
  pi_max : 0 <= m_max_content_length p < 2 ^ 64 - 1;
  pi_kind : is_request m = m_is_request p;
  pi_cache : zlen (m_chunk_cache m) <= m_max_content_length p;
  pi_state : state_inv p m
}.

(** A new parser with an empty message of its class. *)
Lemma new_parser_safe request max kind :
  0 <= max < 2 ^ 64 - 1 ->
  request = match kind with KRequest _ => true | KResponse _ => false end ->
  parser_inv (new_parser request max) (new_message kind).
Proof. intros Hm ->. split; simpl; [done | by destruct kind | rewrite zlen_nil; lia | done]. Qed.

(** ** Reading and writing the content *)

Lemma mapM_id_is_Some (l : list (option char)) :
  Forall is_Some l -> exists s, mapM id l = Some s.
Proof.
  induction 1 as [|o l [c ->] _ [s IH]]; [by exists []|]. exists (c :: s). simpl. by rewrite IH.
Qed.

Lemma readable_intro max m :
  m_content_length m <= max -> 0 <= max -> m_content_length m <= zlen (m_content_buf m) ->
  Forall is_Some (take (Z.to_nat (m_content_length m)) (m_content_buf m)) -> readable max m.
Proof.
  intros Hx H0 Hl Hs. destruct (mapM_id_is_Some _ Hs) as [s E]. exists s. unfold read_content.
  replace (_ <=? _) with true by lia. rewrite E. split; [done|].
  apply list.mapM_Some, Forall2_length in E. unfold zlen. rewrite <- E, length_take. lia.
Qed.

Lemma readable_empty max m : 0 <= max -> m_content_length m = 0 -> readable max m.
Proof.
  intros Hm E. apply readable_intro; rewrite ?E; [done..|apply zlen_nonneg|].
  change (Z.to_nat 0) with 0%nat. by rewrite take_0.
Qed.

(** The content depends on the length and the buffer only. *)
Lemma readable_same max m m' :
  m_content_length m' = m_content_length m -> m_content_buf m' = m_content_buf m ->
  readable max m -> readable max m'.
Proof. unfold readable, read_content. by intros -> ->. Qed.

(** A block inside the buffer can be written, and extends what has been written. *)
Lemma write_content_next k data m :
  0 <= k -> k + zlen data <= zlen (m_content_buf m) ->
  Forall is_Some (take (Z.to_nat k) (m_content_buf m)) ->
  exists buf, write_content k data m = Ok (with_m_content_buf buf m)
              /\ zlen buf = zlen (m_content_buf m)
              /\ Forall is_Some (take (Z.to_nat (k + zlen data)) buf).
Proof.
  intros Hk Hz Hs. unfold write_content.
  replace (0 <=? k) with true by lia. replace (_ <=? _) with true by lia. cbn [andb].
  eexists. split; [reflexivity|]. split.
  - unfold zlen in *. rewrite !length_app, length_take, length_fmap, length_drop. lia.
  - rewrite app_assoc, take_app_le.
    + apply Forall_take, Forall_app. split; [done|]. apply Forall_fmap, Forall_true. by eexists.
    + unfold zlen in *. rewrite length_app, length_take, length_fmap. lia.
Qed.

(** ** The parts of a pass *)

(** [copy_content] keeps the content invariant: the block goes to its place, cut at the
    limit, and nothing is written outside of the buffer. *)
Lemma copy_content_inv data p m :
  let k := m_bytes_content_read p in
  let n := k + m_bytes_content_remaining p in
  0 <= k -> zlen data <= m_bytes_content_remaining p -> n < 2 ^ 64 ->
  content_inv k n (m_max_content_length p) m ->
  exists buf, copy_content data p m = Ok (with_m_content_buf buf m)
              /\ content_inv (k + zlen data) n (m_max_content_length p)
                   (with_m_content_buf buf m).
Proof.
  intros k n Hk Hd Hn [Hl Hb Hw]. unfold copy_content. fold k. pose proof (zlen_nonneg data).
  set (max := m_max_content_length p) in *. rewrite u64_small by lia.
  destruct (k <? max) eqn:E1; reflect_bools.
  - destruct (max <? k + zlen data) eqn:E2; reflect_bools.
    + set (d := take (Z.to_nat (max - k)) data).
      assert (zlen d = max - k) as Hz by (unfold d, zlen in *; rewrite length_take; lia).
      destruct (write_content_next k d m) as (buf & -> & Hbuf & Hs); [lia | lia | done |].
      exists buf. split; [done|]. split; simpl; [done | lia |].
      rewrite take_ge in Hs by (unfold zlen in *; lia).
      rewrite take_ge by (unfold zlen in *; lia). done.
    + destruct (write_content_next k data m) as (buf & -> & Hbuf & Hs); [lia | lia | done |].
      exists buf. split; [done|]. split; simpl; [done | lia | done].
  - exists (m_content_buf m). split; [by destruct m|]. split; simpl; [done | done |].
    rewrite take_ge in Hw by (unfold zlen in *; lia).
    rewrite take_ge by (unfold zlen in *; lia). done.
Qed.

Lemma call_handler_has_handler data p : has_handler (call_handler data p) = has_handler p.
Proof. unfold call_handler, has_handler. by destruct (m_payload_handler p) eqn:E; rewrite ?E. Qed.

(** The members [call_handler] does not touch. *)
Lemma call_handler_frame data p :
  header_view (call_handler data p) = header_view p
  /\ m_message_parse_state (call_handler data p) = m_message_parse_state p.
Proof. unfold call_handler. by destruct (m_payload_handler p). Qed.

(** When a message is complete its content can be read. *)
Lemma content_inv_readable k n max m :
  0 <= max -> n <= k -> content_inv k n max m -> readable max m.
Proof.
  intros Hm Hk [Hl Hb Hw]. apply readable_intro; [lia..|].
  rewrite take_ge in Hw by (unfold zlen in *; lia).
  rewrite take_ge by (unfold zlen in *; lia). done.
Qed.

(** The parser as [conclude] sees it: a finished message is at its end. *)
Definition settle (rc : tribool) (p : parser) : parser :=
  match rc with true_value => mgoto PARSE_END p | _ => p end.

(** The counters after [n] bytes of content. *)
Definition consumed (n : Z) (p : parser) : parser :=
  let p := with_m_read (drop (Z.to_nat n) (m_read p)) p in
  let p := with_m_bytes_content_read (u64 (m_bytes_content_read p + n)) p in
  let p := with_m_bytes_total_read (u64 (m_bytes_total_read p + n)) p in
  with_m_bytes_last_read n p.

(** Accounting for [n] bytes keeps the invariant if the content does. *)
Lemma consumed_inv n p q m m' rc :
  parser_inv p m -> m_message_parse_state p = PARSE_CONTENT ->
  0 <= n <= m_bytes_content_remaining p ->
  rc = (if n =? m_bytes_content_remaining p then true_value else indeterminate_value) ->
  header_view q = header_view (with_m_bytes_content_remaining (m_bytes_content_remaining p - n) p) ->
  m_message_parse_state q = PARSE_CONTENT -> has_handler q = has_handler p ->
  m_kind m' = m_kind m -> m_chunk_cache m' = m_chunk_cache m ->
  (has_handler p = false ->
   content_inv (m_bytes_content_read p + n)
     (m_bytes_content_read p + m_bytes_content_remaining p) (m_max_content_length p) m') ->
  parser_inv (settle rc (consumed n q)) m'.
Proof.
  intros [Hmax Hkind Hcache Hst] Es Hn -> Hv Hqs Hqh Hk Hch Hci.
  unfold state_inv in Hst. rewrite Es in Hst. destruct Hst as [[Hr Hrem Htot] _].
  injection Hv as Vreq Vread _ _ _ _ _ _ Vrem Vcr _ _ Vmax Vho _.
  assert (is_request m' = m_is_request q) as Hkind'.
  { unfold is_request in *. rewrite Hk. congruence. }
  assert (u64 (m_bytes_content_read q + n) = m_bytes_content_read p + n) as Hu.
  { rewrite Vcr. apply u64_small. lia. }
  destruct (n =? m_bytes_content_remaining p) eqn:E; reflect_bools.
  - split; simpl; [by rewrite Vmax | done | by rewrite Vmax, Hch |].
    unfold state_inv, reads_form. simpl. intros Hf. rewrite Vmax. eapply content_inv_readable; [| |apply Hci].
    + lia.
    + lia.
    + rewrite <- Hqh. change (has_handler _) with (has_handler q) in Hf.
      by destruct (has_handler q); rewrite ?andb_false_r in Hf.
  - split; simpl; [by rewrite Vmax | done | by rewrite Vmax, Hch |].
    unfold state_inv. simpl. rewrite Hqs. split.
    + split; simpl; rewrite ?Hu, ?Vrem; simpl; lia.
    + intros Hh. change (has_handler _) with (has_handler q) in Hh. simpl.
      rewrite Hu, Vrem, Vmax. simpl.
      replace (_ + n + _) with (m_bytes_content_read p + m_bytes_content_remaining p) by lia.
      apply Hci. congruence.
Qed.

Lemma consume_content_safe p m :
  parser_inv p m -> m_message_parse_state p = PARSE_CONTENT ->
  exists rc p' m', consume_content p m = Ok (rc, p', m') /\ parser_inv (settle rc p') m'.
Proof.
  intros Hinv Es. pose proof Hinv as [Hmax Hkind Hcache Hst]. unfold state_inv in Hst.
  rewrite Es in Hst. destruct Hst as [[Hr Hrem Htot] Hc]. unfold consume_content.
  rewrite bytes_available_zlen. replace (m_bytes_content_remaining p =? 0) with false by lia.
  set (rem := m_bytes_content_remaining p) in *.
  destruct (if rem <=? _ then _ else _) as [rc n] eqn:E.
  assert (0 <= n <= rem /\ n <= zlen (m_read p)
          /\ rc = if n =? rem then true_value else indeterminate_value) as (Hn & Hn2 & Hrc).
  { pose proof (zlen_nonneg (m_read p)). destruct (rem <=? _) eqn:E2; injection E as <- <-;
      reflect_bools; (split; [lia|]); (split; [lia|]); case_if; reflect_bools; (done || lia). }
  set (p1 := with_m_bytes_content_remaining (rem - n) p).
  change (m_read p1) with (m_read p). set (data := take (Z.to_nat n) (m_read p)).
  assert (zlen data = n) as Hz by (unfold data, zlen in *; rewrite length_take; lia).
  change (has_handler p1) with (has_handler p). destruct (has_handler p) eqn:Eh.
  - cbn [mbind res_bind]. destruct (call_handler_frame data p1) as [Hv Hs].
    eexists rc, _, m. split; [reflexivity|].
    eapply (consumed_inv n p (call_handler data p1) m); try done.
    + by rewrite Hs.
    + by rewrite call_handler_has_handler.
    + congruence.
  - destruct (copy_content_inv data p m) as (buf & Hcopy & Hci); [lia.. | by apply Hc |].
    change (copy_content data p1 m) with (copy_content data p m).
    rewrite Hcopy. cbn [mbind res_bind].
    eexists rc, _, _. split; [reflexivity|]. rewrite Hz in Hci.
    by eapply (consumed_inv n p p1 m).
Qed.

(** ** The end of the headers *)

(** The members that hold the payload. *)
Definition content_view (m : message) :=
  (m_content_length m, m_content_buf m, m_chunk_cache m, m_headers m, m_is_chunked m,
   is_request m, m_has_missing_packets m, m_has_data_after_missing m).

Lemma parse_cookies_view header set_cookie m :
  content_view (parse_cookies header set_cookie m) = content_view m.
Proof.
  unfold parse_cookies. generalize (equal_range (m_headers m) header). intros l.
  revert m. induction l as [|kv l IH]; intros m; simpl; [done|]. by rewrite IH.
Qed.

Lemma on_request_view f m : content_view (on_request f m) = content_view m.
Proof. unfold on_request, content_view, is_request. by destruct (m_kind m) eqn:E; simpl; rewrite ?E. Qed.

Lemma on_response_view f m : content_view (on_response f m) = content_view m.
Proof. unfold on_response, content_view, is_request. by destruct (m_kind m) eqn:E; simpl; rewrite ?E. Qed.

(** Setters that only clear the cached first line besides. *)
Lemma set_method_view s m : content_view (set_method s m) = content_view m.
Proof. apply (on_request_view (with_rq_method s)). Qed.

Lemma set_resource_view s m : content_view (set_resource s m) = content_view m.
Proof. apply (on_request_view (fun r => with_rq_resource s (with_rq_original_resource s r))). Qed.

Lemma set_query_string_view s m : content_view (set_query_string s m) = content_view m.
Proof. apply (on_request_view (with_rq_query_string s)). Qed.

Lemma set_status_code_view n m : content_view (set_status_code n m) = content_view m.
Proof. apply (on_response_view (with_rs_status_code n)). Qed.

Lemma set_status_message_view s m : content_view (set_status_message s m) = content_view m.
Proof. apply (on_response_view (with_rs_status_message s)). Qed.

Lemma on_queries_view f m : content_view (on_queries f m) = content_view m.
Proof. apply on_request_view. Qed.

#[export] Hint Rewrite parse_cookies_view set_method_view set_resource_view
  set_query_string_view set_status_code_view set_status_message_view on_queries_view : pion.

Lemma update_message_ok p m :
  is_request m = m_is_request p ->
  exists m', update_message_with_header_data p m = Ok m' /\ content_view m' = content_view m.
Proof.
  unfold update_message_with_header_data, is_request, parse_queries. intros Hk.
  destruct (m_kind m) eqn:Ek; rewrite <- Hk; eexists; (split; [reflexivity|]).
  - case_bool_decide; by autorewrite with pion.
  - by autorewrite with pion.
Qed.

(** The branch for a message with a Content-Length header. *)
Lemma finish_with_length_safe p m ec :
  parser_inv p m -> m_message_parse_state p = PARSE_HEADERS -> m_bytes_content_read p = 0 ->
  m_content_length m = 0 ->
  exists rc p' m' ec', finish_with_length p m ec = Ok (rc, p', m', ec')
                       /\ parser_inv (settle rc p') m'.
Proof.
  intros Hinv Hst Hr Hl. pose proof Hinv as [Hmax Hkind Hcache _]. unfold finish_with_length.
  destruct (update_content_length_using_header m) as [m1|] eqn:E; [|by eauto 10].
  assert (exists n, 0 <= n < 2 ^ 64 /\ m1 = with_m_content_length n m) as (n & Hn & ->).
  { unfold update_content_length_using_header in E. destruct (find _ _) as [kv|].
    - destruct (stoul (snd kv)) as [n|] eqn:Es; [|done]. injection E as <-. exists n.
      split; [by eapply stoul_range | done].
    - injection E as <-. exists 0. split; [lia | done]. }
  cbn [m_content_length with_m_content_length]. destruct (n =? 0) eqn:E0; reflect_bools.
  { do 4 eexists. split; [reflexivity|]. split; simpl; try done.
    unfold state_inv. simpl. intros _. by apply readable_empty; [lia|]. }
  cbn [m_max_content_length m_bytes_content_remaining with_m_bytes_content_remaining mgoto
    with_m_message_parse_state m_parse_headers_only].
  set (m2 := if _ <? n then _ else _).
  assert (m_content_length m2 = Z.min n (m_max_content_length p) /\ m_kind m2 = m_kind m
          /\ m_chunk_cache m2 = m_chunk_cache m) as (Hl2 & Hk2 & Hc2).
  { unfold m2. case_if; reflect_bools; simpl; repeat split; lia. }
  assert (is_request m2 = m_is_request p) as Hkind2 by (unfold is_request in *; by rewrite Hk2).
  clearbody m2.
  destruct (m_parse_headers_only p) eqn:Eho.
  - do 4 eexists. split; [reflexivity|].
    split; simpl; [done | exact Hkind2 | by rewrite Hc2 |].
    unfold state_inv, reads_form. simpl. rewrite Eho. by rewrite andb_false_r.
  - rewrite create_content_buffer_ok by lia. cbn [mbind res_bind].
    do 4 eexists. split; [reflexivity|].
    split; simpl; [done | exact Hkind2 | by rewrite Hc2 |].
    unfold state_inv. simpl. split; [split; simpl; lia|]. intros _. rewrite Hr.
    split; simpl; [lia | rewrite zlen_replicate; lia | constructor].
Qed.

Lemma finish_header_parsing_safe p m ec :
  parser_inv p m -> m_message_parse_state p = PARSE_HEADERS ->
  exists rc p' m' ec', finish_header_parsing p m ec = Ok (rc, p', m', ec')
                       /\ parser_inv (settle rc p') m'.
Proof.
  intros Hinv Hst. pose proof Hinv as [Hmax Hkind Hcache _]. unfold finish_header_parsing.
  set (p1 := with_m_bytes_content_read 0 (with_m_bytes_content_remaining 0 p)).
  set (m1 := update_transfer_encoding_using_header (set_content_length 0 m)).
  assert (m_content_length m1 = 0 /\ m_kind m1 = m_kind m /\ m_chunk_cache m1 = m_chunk_cache m)
    as (Hl1 & Hk1 & Hc1).
  { unfold m1, update_transfer_encoding_using_header. by destruct (find _ _). }
  destruct (update_message_ok p1 m1) as (m2 & -> & Hv).
  { unfold is_request in *. by rewrite Hk1. }
  injection Hv as V1 V2 V3 _ _ V6 _ _. cbn [mbind res_bind].
  assert (is_request m2 = m_is_request p) as Hkind2.
  { rewrite V6. unfold is_request in *. by rewrite Hk1. }
  assert (parser_inv (mgoto PARSE_END p1) m2) as Hend.
  { split; simpl; [done | done | congruence |]. intros _. apply readable_empty; [simpl; lia|congruence]. }
  destruct (m_is_chunked m2).
  { do 4 eexists. split; [reflexivity|]. unfold headers_only_rc. simpl.
    case_if; simpl; [exact Hend|]. destruct Hend. split; simpl; done. }
  destruct (is_content_length_implied m2); [by eauto 10|].
  destruct (has_header _ _).
  { apply finish_with_length_safe; [|done|done|congruence].
    destruct Hend. split; simpl; try done. unfold state_inv. simpl. by rewrite Hst. }
  destruct (m_is_request p1); [by eauto 10|].
  do 4 eexists. split; [reflexivity|]. unfold headers_only_rc. simpl.
  case_if; simpl.
  - destruct Hend as [? ? ? He]. split; simpl; [done | done | rewrite zlen_nil; lia |].
    intros Hf. eapply readable_same; [| |by apply He]; done.
  - destruct Hend. split; simpl; [done | done | rewrite zlen_nil; lia | done].
Qed.

(** ** A pass *)

(** The members of the parser the invariant looks at, outside of [PARSE_CONTENT]. *)
Definition safety_view (p : parser) :=
  (m_is_request p, m_message_parse_state p, has_handler p, m_parse_headers_only p,
   m_max_content_length p).

(** The members of the message the invariant looks at. *)
Definition payload_of (m : message) :=
  (m_content_length m, m_content_buf m, m_chunk_cache m, is_request m).

Lemma parser_inv_view p p' m m' :
  safety_view p' = safety_view p -> payload_of m' = payload_of m ->
  m_message_parse_state p <> PARSE_CONTENT -> parser_inv p m -> parser_inv p' m'.
Proof.
  intros Hv Hp Hst [Hmax Hkind Hcache Hs]. injection Hv as V1 V2 V3 V4 V5.
  injection Hp as P1 P2 P3 P4. split; [congruence.. |].
  unfold state_inv, reads_form in *. rewrite V2, V1, V3, V4, V5.
  destruct (m_message_parse_state p); try done;
    intros Hf; (eapply readable_same; [exact P1 | exact P2 | auto]).
Qed.

Lemma parse_headers_safe p m ec rc p' m' ec' :
  parser_inv p m -> m_message_parse_state p <> PARSE_CONTENT ->
  parse_headers p m ec = (rc, p', m', ec') ->
  parser_inv p' m' /\ m_message_parse_state p' = m_message_parse_state p.
Proof.
  intros Hinv Hst. unfold parse_headers.
  destruct (parse_headers_loop_frame (m_read p) p m) as [Hb Hp].
  injection Hb as B1 _ B3 _ B5 _ _ _ _ _ _ _ B13 B14 _.
  injection Hp as _ _ _ _ P5 P6 P7 _ _ _ _ P12.
  set (r := parse_headers_loop (m_read p) p m) in *.
  assert (forall n t, parser_inv (with_m_bytes_total_read t (with_m_bytes_last_read n
            (with_m_read (h_rest r) (h_parser r)))) (h_message r)) as Hall.
  { intros n t. eapply parser_inv_view; [| |done|exact Hinv].
    - unfold safety_view, has_handler. simpl. by rewrite B1, B3, B5, B13, B14.
    - unfold payload_of, is_request. by rewrite P5, P6, P7, P12. }
  destruct (h_error r) eqn:E; intros [= <- <- <- <-]; (split; [|done]).
  - specialize (Hall 0 (m_bytes_total_read (h_parser r))).
    by eapply parser_inv_view; [| |done|exact Hinv]; [destruct Hall|];
      unfold safety_view, payload_of, has_handler, is_request; simpl;
      rewrite ?B1, ?B3, ?B5, ?B13, ?B14, ?P5, ?P6, ?P7, ?P12.
  - apply Hall.
Qed.

(** Headers or footers, with the end of the headers. *)
Lemma headers_pass_safe p m ec :
  parser_inv p m ->
  m_message_parse_state p = PARSE_HEADERS \/ m_message_parse_state p = PARSE_FOOTERS ->
  exists rc' p' m' ec',
    (let '(rc, p, m, ec) := parse_headers p m ec in
     if tri_is rc true && bool_decide (m_message_parse_state p = PARSE_HEADERS)
     then finish_header_parsing p m ec else Ok (rc, p, m, ec)) = Ok (rc', p', m', ec')
    /\ parser_inv (settle rc' p') m'.
Proof.
  intros Hinv Hst. destruct (parse_headers p m ec) as [[[rc1 p1] m1] ec1] eqn:E.
  assert (m_message_parse_state p <> PARSE_CONTENT) as Hnc by (destruct Hst; congruence).
  destruct (parse_headers_safe _ _ _ _ _ _ _ Hinv Hnc E) as [H1 Hs1].
  case_bool_decide as Hh; [destruct (tri_is rc1 true) eqn:Er|].
  - by apply finish_header_parsing_safe.
  - rewrite andb_false_l. do 4 eexists. split; [reflexivity|].
    destruct rc1; [done | discriminate | done].
  - rewrite andb_false_r. do 4 eexists. split; [reflexivity|].
    destruct Hst as [Hst|Hst]; [congruence|]. destruct rc1; try done. simpl.
    destruct H1 as [? ? ? Hf]. split; try done. unfold state_inv in *. simpl.
    by rewrite Hs1, Hst in Hf.
Qed.

Lemma chunks_pass_safe p m ec :
  parser_inv p m -> m_message_parse_state p = PARSE_CHUNKS ->
  exists rc' p' m' ec',
    (let '(rc, p, chunks, ec) := parse_chunks p (m_chunk_cache m) ec in
     let m := with_m_chunk_cache chunks m in
     if tri_is rc true && negb (has_handler p) then
       m ← concatenate_chunks m;
       Ok (if bool_decide (m_message_parse_state p = PARSE_FOOTERS)
           then indeterminate_value else true_value, p, m, ec)
     else Ok (rc, p, m, ec)) = Ok (rc', p', m', ec')
    /\ parser_inv (settle rc' p') m'.
Proof.
  intros [Hmax Hkind Hcache Hst] Es.
  destruct (parse_chunks p (m_chunk_cache m) ec) as [[[rc1 p1] ch] ec1] eqn:E.
  pose proof (parse_chunks_loop_frame 0 (m_read p) p (m_chunk_cache m) _ eq_refl) as (Hv & Hh & _).
  pose proof (parse_chunks_loop_cache 0 (m_read p) p (m_chunk_cache m) Hcache) as Hc.
  injection Hv as V1 _ _ _ _ _ _ _ _ _ _ _ V13 V14 _.
  assert (m_is_request p1 = m_is_request p /\ m_max_content_length p1 = m_max_content_length p
          /\ has_handler p1 = has_handler p /\ zlen ch <= m_max_content_length p)
    as (E1 & E2 & E3 & E4).
  { revert E. unfold parse_chunks. destruct (c_error _); intros [= <- <- <- <-]; simpl;
      unfold has_handler in *; simpl; by rewrite V1, V13, Hh. }
  assert (m_message_parse_state p1 = PARSE_CHUNKS \/ (m_message_parse_state p1 = PARSE_FOOTERS
          /\ rc1 = true_value)) as Hs1.
  { destruct (parse_chunks_progress _ _ _ _ _ _ _ E) as [[? _]|(? & ? & _)];
      [left; congruence | auto]. }
  cbv zeta. destruct (tri_is rc1 true && negb (has_handler p1)) eqn:Ec.
  - rewrite concatenate_chunks_ok by (simpl; lia). cbn [mbind res_bind].
    do 4 eexists. split; [reflexivity|].
    set (m2 := with_m_content_buf _ _).
    assert (readable (m_max_content_length p) m2) as Hr by (exists ch; split; [apply read_content_full; done|lia]).
    assert (zlen (m_chunk_cache m2) = zlen ch) as Hz by done.
    case_bool_decide as Hf; (split; [simpl; congruence | simpl; by rewrite E1
      | rewrite Hz; simpl; congruence |]); unfold state_inv; simpl; rewrite ?Hf, ?E2; by intros _.
  - do 4 eexists. split; [reflexivity|].
    destruct rc1; simpl.
    + destruct Hs1 as [Hs1|[_ ?]]; [|done].
      split; simpl; [congruence | by rewrite E1 | congruence |]. unfold state_inv. by rewrite Hs1.
    + split; simpl; [congruence | by rewrite E1 | congruence |]. unfold state_inv, reads_form. simpl.
      change (has_handler (mgoto PARSE_END p1)) with (has_handler p1). cbn in Ec.
      apply negb_false_iff in Ec. rewrite Ec. by rewrite andb_false_r.
    + destruct Hs1 as [Hs1|[_ ?]]; [|done].
      split; simpl; [congruence | by rewrite E1 | congruence |]. unfold state_inv. by rewrite Hs1.
Qed.

Lemma no_length_pass_safe p m p' chunks :
  parser_inv p m -> m_message_parse_state p = PARSE_CONTENT_NO_LENGTH ->
  consume_content_as_next_chunk p (m_chunk_cache m) = (p', chunks) ->
  parser_inv p' (with_m_chunk_cache chunks m)
  /\ m_message_parse_state p' = PARSE_CONTENT_NO_LENGTH.
Proof.
  intros [Hmax Hkind Hcache _] Es. unfold consume_content_as_next_chunk.
  destruct (bytes_available p =? 0); [|destruct (has_handler p)]; intros [= <- <-].
  - split; [|done]. split; simpl; try done. unfold state_inv. simpl. by rewrite Es.
  - destruct (call_handler_frame (m_read p) p) as [Hv Hs].
    injection Hv as V1 _ _ _ _ _ _ _ _ _ _ _ V13 _ _.
    split; [|simpl; congruence]. split; simpl; [by rewrite V13 | by rewrite V1 | by rewrite V13 |].
    unfold state_inv. simpl. by rewrite Hs, Es.
  - split; [|done]. split; simpl; try done.
    + rewrite push_limited_cache, zlen_app. unfold zlen in *. rewrite length_take. lia.
    + unfold state_inv. simpl. by rewrite Es.
Qed.

(** A pass never faults, and its outcome satisfies the invariant. *)
Lemma parse_pass_safe rc p m ec :
  parser_inv p m -> rc = indeterminate_value ->
  exists rc' p' m' ec', parse_pass rc p m ec = Ok (rc', p', m', ec')
                        /\ parser_inv (settle rc' p') m'.
Proof.
  intros Hinv ->. unfold parse_pass. destruct (m_message_parse_state p) eqn:Es.
  - apply headers_pass_safe; [|by left]. destruct Hinv. split; done.
  - apply headers_pass_safe; auto.
  - apply headers_pass_safe; auto.
  - destruct (consume_content_safe p m Hinv Es) as (rc & p' & m' & -> & H).
    cbn [mbind res_bind]. eauto 10.
  - destruct (consume_content_as_next_chunk p (m_chunk_cache m)) as [p' chunks] eqn:E.
    destruct (no_length_pass_safe p m p' chunks Hinv Es E). do 4 eexists. eauto.
  - by apply chunks_pass_safe.
  - do 4 eexists. split; [reflexivity|]. destruct Hinv as [? ? ? Hs].
    split; try done. unfold state_inv in *. simpl. by rewrite Es in Hs.
Qed.

Lemma parse_loop_safe fuel total p m ec rc total' p' m' ec' r :
  parser_inv p m -> parse_loop fuel indeterminate_value total p m ec = Some r ->
  (forall f, r <> Fault f)
  /\ (r = Ok (rc, total', p', m', ec') -> parser_inv (settle rc p') m').
Proof.
  revert total p m ec. induction fuel as [|fuel IH]; intros total p m ec Hinv; [done|].
  simpl. destruct (parse_pass_safe indeterminate_value p m ec Hinv eq_refl)
    as (rc1 & p1 & m1 & ec1 & -> & H1).
  case_if.
  - destruct rc1; try discriminate. by apply IH.
  - intros [= <-]. split; [done|]. by intros [= <- <- <- <- <-].
Qed.

(** No part of a pass changes the limit. *)
Lemma finish_header_parsing_max p m ec rc p' m' ec' :
  finish_header_parsing p m ec = Ok (rc, p', m', ec') -> m_max_content_length p' = m_max_content_length p.
Proof.
  unfold finish_header_parsing, finish_with_length, headers_only_rc. intros H.
  inv_res H. repeat case_if_in H; try by simplify_eq.
  destruct (update_content_length_using_header _); [|by simplify_eq].
  repeat case_if_in H; try by simplify_eq. all: inv_res H; by simplify_eq.
Qed.

Lemma parse_headers_max p m ec rc p' m' ec' :
  parse_headers p m ec = (rc, p', m', ec') -> m_max_content_length p' = m_max_content_length p.
Proof.
  unfold parse_headers. destruct (parse_headers_loop_frame (m_read p) p m) as [Hv _].
  injection Hv as _ _ _ _ _ _ _ _ _ _ _ _ Hv _ _. by destruct (h_error _); intros [= <- <- <- <-].
Qed.

Lemma consume_content_max p m rc p' m' :
  consume_content p m = Ok (rc, p', m') -> m_max_content_length p' = m_max_content_length p.
Proof.
  unfold consume_content. intros H. case_if_in H; [by simplify_eq|].
  destruct (if _ <=? _ then _ else _) as [rc1 n]. inv_res H. destruct a as [q m2]. simplify_eq.
  change (m_max_content_length q = m_max_content_length p).
  destruct (has_handler _); [|inv_res Heqr]; simplify_eq; [|done].
  match goal with |- context [call_handler ?d ?q] => destruct (call_handler_frame d q) as [Hv _] end.
  by injection Hv as _ _ _ _ _ _ _ _ _ _ _ _ -> _ _.
Qed.

Lemma parse_pass_max rc p m ec rc' p' m' ec' :
  parse_pass rc p m ec = Ok (rc', p', m', ec') -> m_max_content_length p' = m_max_content_length p.
Proof.
  unfold parse_pass. intros H.
  assert (forall q, (let '(rc, p, m, ec) := parse_headers q m ec in
      if tri_is rc true && bool_decide (m_message_parse_state p = PARSE_HEADERS)
      then finish_header_parsing p m ec else Ok (rc, p, m, ec)) = Ok (rc', p', m', ec') ->
      m_max_content_length p' = m_max_content_length q) as Hh.
  { intros q Hq. destruct (parse_headers q m ec) as [[[rc1 p1] m1] ec1] eqn:E. apply parse_headers_max in E.
    case_if_in Hq; [|by simplify_eq]. apply finish_header_parsing_max in Hq. congruence. }
  destruct (m_message_parse_state p).
  1-3: by apply Hh in H.
  - destruct (consume_content p m) as [[[rc1 p1] m1]|] eqn:E; [|done]. simpl in H. simplify_eq.
    by apply consume_content_max in E.
  - unfold consume_content_as_next_chunk in H. destruct (_ =? 0); [by simplify_eq|].
    destruct (has_handler p); simplify_eq; [|done]. destruct (call_handler_frame (m_read p) p) as [Hv _].
    injection Hv as _ _ _ _ _ _ _ _ _ _ _ _ Hv _ _. exact Hv.
  - destruct (parse_chunks p (m_chunk_cache m) ec) as [[[rc1 p1] ch] ec1] eqn:E.
    assert (m_max_content_length p1 = m_max_content_length p) as Hm.
    { revert E. unfold parse_chunks.
      destruct (parse_chunks_loop_frame 0 (m_read p) p (m_chunk_cache m) _ eq_refl) as (Hv & _).
      injection Hv as _ _ _ _ _ _ _ _ _ _ _ _ Hv _ _.
      destruct (c_error _); intros [= <- <- <- <-]; simpl; congruence. }
    case_if_in H; [inv_res H|]; by simplify_eq.
  - by simplify_eq.
Qed.

Lemma parse_loop_max fuel rc T p m ec rc' T' p' m' ec' :
  parse_loop fuel rc T p m ec = Some (Ok (rc', T', p', m', ec')) ->
  m_max_content_length p' = m_max_content_length p.
Proof.
  revert rc T p m ec. induction fuel as [|fuel IH]; intros rc T p m ec; [done|].
  cbn [parse_loop]. destruct (parse_pass rc p m ec) as [[[[rc1 p1] m1] ec1]|] eqn:E; [|done].
  apply parse_pass_max in E. case_if; [|by intros [= <- <- <- <- <-]]. intros H. apply IH in H. congruence.
Qed.

(** ** The end of a message *)

Lemma parser_inv_counters p p' m :
  safety_view p' = safety_view p ->
  m_bytes_content_read p' = m_bytes_content_read p ->
  m_bytes_content_remaining p' = m_bytes_content_remaining p ->
  parser_inv p m -> parser_inv p' m.
Proof.
  intros Hv Hr Hrem Hinv. destruct (decide (m_message_parse_state p = PARSE_CONTENT)) as [Es|Es];
    [|by eapply parser_inv_view].
  destruct Hinv as [Hmax Hkind Hcache Hs]. injection Hv as V1 V2 V3 V4 V5.
  split; [congruence.. |]. unfold state_inv in *. rewrite V2. rewrite Es in *.
  rewrite Hr, Hrem, V3, V5. destruct Hs as [[] Hc]. split; [split; congruence | exact Hc].
Qed.

(** The invariant depends on the payload of the message only. *)
Lemma parser_inv_payload p m m' :
  payload_of m' = payload_of m -> parser_inv p m -> parser_inv p m'.
Proof.
  intros Hp [Hmax Hkind Hcache Hs]. injection Hp as P1 P2 P3 P4.
  split; [done | congruence | congruence |]. unfold state_inv in *.
  destruct (m_message_parse_state p); try done;
    try (intros Hf; eapply readable_same; [exact P1 | exact P2 | by auto]).
  destruct Hs as [? Hc]. split; [done|]. intros Hh. destruct (Hc Hh). split; congruence.
Qed.

Definition is_multipart (m : message) : bool :=
  has_prefix (get_header m HEADER_CONTENT_TYPE) CONTENT_TYPE_MULTIPART_FORM_DATA.

Lemma form_fault_le n n' f : n <= n' -> form_fault n f -> form_fault n' f.
Proof. intros Hn [->|[-> H]]; [by left|right; split; [done|lia]]. Qed.

Lemma parse_form_content_safe max m :
  readable max m ->
  match parse_form_content m with
  | Ok m' => content_view m' = content_view m
  | Fault f => form_fault max f /\ is_multipart m = true
  end.
Proof.
  intros (s & Hs & Hz). unfold parse_form_content, is_multipart. rewrite Hs.
  destruct (has_prefix _ CONTENT_TYPE_URLENCODED).
  { cbn [mbind res_bind]. unfold parse_queries. by autorewrite with pion. }
  destruct (has_prefix _ CONTENT_TYPE_MULTIPART_FORM_DATA) eqn:E; [|done].
  cbn [mbind res_bind]. destruct (m_kind m) as [r|]; [|done].
  destruct (multipart_ok (rq_query_params r) (get_header m HEADER_CONTENT_TYPE) s)
    as (res & -> & Hf).
  destruct res as [[b d]|f]; [by autorewrite with pion|]. split; [|done]. eapply form_fault_le; [exact Hz|auto].
Qed.

(** [finish] at the end of a message that satisfies the invariant. *)
Lemma finish_safe p m :
  parser_inv p m -> m_message_parse_state p = PARSE_END ->
  match finish p m with
  | Ok m' => parser_inv p m'
  | Fault f => form_fault (m_max_content_length p) f /\ is_multipart m = true
  end.
Proof.
  intros Hinv Es. pose proof Hinv as [_ Hkind _ Hst]. unfold finish, state_inv in *.
  rewrite Es in *. unfold finish_tail. fold (reads_form p). set (m1 := compute_msg_status _ _).
  assert (parser_inv p m1) as Hinv1 by (by eapply parser_inv_payload; [|exact Hinv]).
  destruct (reads_form p) eqn:Er; [|done].
  assert (is_request m1 = true) as ->.
  { unfold m1. change (is_request m = true). rewrite Hkind. unfold reads_form in Er.
    by reflect_bools. }
  assert (readable (m_max_content_length p) m1) as Hr by (by eapply readable_same; [| |apply Hst]).
  pose proof (parse_form_content_safe _ m1 Hr) as Hf.
  destruct (parse_form_content m1) as [m2|f]; [|done].
  eapply parser_inv_payload; [|exact Hinv1]. unfold payload_of.
  by injection Hf as -> -> -> _ _ -> _ _.
Qed.

Lemma conclude_safe rc p m :
  parser_inv (settle rc p) m ->
  match conclude rc p m with
  | Ok (p', m') => parser_inv p' m'
  | Fault f => form_fault (m_max_content_length p) f /\ is_multipart m = true
  end.
Proof.
  unfold conclude. destruct rc; simpl; intros Hinv.
  - by eapply parser_inv_payload; [|exact Hinv].
  - pose proof (finish_safe _ _ Hinv eq_refl) as Hf.
    destruct (finish (mgoto PARSE_END p) m); done.
  - done.
Qed.

(** What one call of [parse] does to the invariant. *)
Lemma parse_keeps_inv p m ec :
  parser_inv p m -> m_read p <> [] ->
  match parse p m ec with
  | Some (Ok (_, p', m', _)) => parser_inv p' m'
  | Some (Fault f) => form_fault (m_max_content_length p) f
  | None => False
  end.
Proof.
  intros Hinv Hr. unfold parse. rewrite (proj2 (eof_false p) Hr).
  set (m1 := if m_has_missing_packets m then _ else _).
  assert (parser_inv p m1) as Hinv1.
  { unfold m1. destruct (m_has_missing_packets m); [|done].
    by eapply parser_inv_payload; [|exact Hinv]. }
  destruct (parse_loop_enough parse_fuel indeterminate_value 0 p m1 ec) as [r E].
  { unfold rank, parse_fuel. destruct (m_message_parse_state p); lia. }
  rewrite E. destruct r as [[[[[rc total] p1] m2] ec1]|f].
  - destruct (parse_loop_safe _ _ _ _ _ rc total p1 m2 ec1 _ Hinv1 E) as [_ H2].
    pose proof (conclude_safe rc p1 m2 (H2 eq_refl)) as Hc.
    rewrite (parse_loop_max _ _ _ _ _ _ _ _ _ _ _ E) in Hc.
    destruct (conclude rc p1 m2) as [[p2 m3]|f]; simpl; [|by destruct Hc].
    by eapply parser_inv_counters; [| | |exact Hc].
  - destruct (parse_loop_safe _ _ _ _ _ indeterminate_value 0 p m1 ec _ Hinv1 E) as [H _].
    by destruct (H f).
Qed.

Lemma parse_max p m ec rc p' m' ec' :
  parse p m ec = Some (Ok (rc, p', m', ec')) -> m_max_content_length p' = m_max_content_length p.
Proof.
  unfold parse. destruct (eof p); [done|].
  destruct (parse_loop _ _ _ _ _ _) as [[[[[[rc1 T] p1] m1] ec1]|]|] eqn:E; [|done..].
  apply parse_loop_max in E. unfold conclude.
  destruct (tri_is rc1 true); [destruct (finish _ _); [|done]|destruct (tri_is rc1 false)];
    intros [= <- <- <- <-]; exact E.
Qed.

(** The end of the data. *)
Lemma check_premature_eof_safe p m :
  parser_inv p m ->
  match check_premature_eof p m with
  | Ok (_, p', m') => parser_inv p' m'
  | Fault f => form_fault (m_max_content_length p) f
  end.
Proof.
  intros Hinv. unfold check_premature_eof. case_bool_decide as Es; [|exact Hinv]. cbn [negb].
  pose proof Hinv as [Hmax Hkind Hcache _].
  rewrite concatenate_chunks_ok by lia. cbn [mbind res_bind]. set (m1 := with_m_content_buf _ _).
  assert (parser_inv (mgoto PARSE_END p) m1) as Hinv1.
  { split; [done|done|done|]. intros _. exists (m_chunk_cache m). split; [by apply read_content_full|done]. }
  pose proof (finish_safe _ _ Hinv1 eq_refl) as Hf.
  destruct (finish (mgoto PARSE_END p) m1); [exact Hf | by destruct Hf].
Qed.

(** C3: memory safety of [parse].  For a parser whose content limit is below 4 GiB, on any
    message of the parser's class and any bytes: [parse] returns, and it
    neither accesses the content buffer out of bounds, nor reads a byte of it that was
    never written, nor fails an [assert] or a [dynamic_cast]; the state it leaves satisfies
    the same invariant, so this holds for every later call.  The only way it does not
    return normally is the [std::length_error] of [parse_multipart_form_data].  The same
    holds for every limit below the largest [size_t], but for one more failure: a field of a
    form of 4 GiB or more is read beyond the end of its encoding ([binary_2base64]). *)
Theorem parse_safe p m ec :
  parser_inv p m -> m_read p <> [] ->
  match parse p m ec with
  | Some (Ok (_, p', m', _)) => parser_inv p' m'
  | Some (Fault f) => form_fault (m_max_content_length p) f
  | None => False
  end.
Proof. apply parse_keeps_inv. Qed.

(** A request whose content is longer than the limit. *)
Definition sample_post : parser :=
  with_m_read (str "POST / HTTP/1.1" ++ [CR; LF] ++ str "Content-Length: 3"
               ++ [CR; LF; CR; LF] ++ str "abcdef") (new_parser true 2).

Lemma parse_safe_witness :
  match parse sample_post new_request None with
  | Some (Ok (rc, p', m', _)) =>
      (rc = true_value /\ read_content m' = Ok (str "ab") /\ m_read p' = str "def")
      /\ parser_inv p' m'
  | _ => False
  end.
Proof.
  assert (match parse sample_post new_request None with
          | Some (Ok (rc, p', m', _)) =>
              rc = true_value /\ read_content m' = Ok (str "ab") /\ m_read p' = str "def"
          | _ => False
          end) as E by (vm_compute; auto).
  assert (parser_inv sample_post new_request) as Hp.
  { apply (parser_inv_counters (new_parser true 2) sample_post new_request
             eq_refl eq_refl eq_refl).
    apply (new_parser_safe true 2 (m_kind new_request)); [lia | reflexivity]. }
  pose proof (parse_safe sample_post new_request None Hp ltac:(discriminate)) as H.
  revert E H. destruct (parse sample_post new_request None) as [[[[[rc p'] m'] ec']|f]|]; tauto.
Defined.

(** With the largest [size_t] as limit (the default of [message::receive] and
    [message::read]) a Content-Length of 2^64-1 makes the allocation wrap to zero bytes and
    the terminator is written out of bounds. *)
Lemma content_length_overflow :
  parse (with_m_read (str "POST / HTTP/1.1" ++ [CR; LF]
           ++ str "Content-Length: 18446744073709551615" ++ [CR; LF; CR; LF])
           (new_parser true (2 ^ 64 - 1))) new_request None
  = Some (Fault undefined_behaviour).
Proof. vm_compute. reflexivity. Qed.
