(* ===== verification/ParserStream.v ===== *)
(** * The HTTP parser does not depend on how the data arrives

    A connection delivers a message in pieces of any size.  The theorems of this file
    show that the outcome of [parse] on a stream does not depend on where it was cut:
    parsing [b1 ++ b2] at once gives the same result, message and error as parsing [b1]
    and, when more data is wanted, [b2].  [message::read] (src/http_message.cpp), which
    feeds the parser one byte at a time, is the extreme case. *)
From S2P Require Import Prelude CLib StringUtils Dict Tribool HttpTypes Message ParserBase.
From S2P Require Import ParserHeaders ParserForms ParserBody Parser ParserSafety.

(** ** The read buffer and the byte counters *)

(** The members that record how much has been read. *)
Definition io (b : bytes) (last total read : Z) (p : parser) : parser :=
  with_m_read b (with_m_bytes_last_read last
    (with_m_bytes_total_read total (with_m_bytes_content_read read p))).

Lemma io_self p :
  io (m_read p) (m_bytes_last_read p) (m_bytes_total_read p) (m_bytes_content_read p) p = p.
Proof. by destruct p. Qed.

Lemma io_io b l t k b' l' t' k' p : io b l t k (io b' l' t' k' p) = io b l t k p.
Proof. done. Qed.

(** The header loop neither reads nor writes these members. *)
Lemma headers_step_io b l t k c p m :
  headers_step c (io b l t k p) m
  = match headers_step c p m with
    | HNext p' m' => HNext (io b l t k p') m'
    | r => r
    end.
Proof.
  destruct p as [? ? ? st]. unfold headers_step. simpl. destruct st;
  unfold step_method_start, step_method, step_uri_stem, step_uri_query, step_version_h,
    step_version_letter, step_version_major_start, step_version_major,
    step_version_minor_start, step_version_minor, step_status_code_start,
    step_status_code, step_status_message, step_expecting_newline, step_expecting_cr,
    step_header_whitespace, step_header_start, step_header_name,
    step_space_before_value, step_header_value, step_final;
  simpl;
  repeat match goal with |- context [if ?x then _ else _] => destruct x end; reflexivity.
Qed.

Lemma save_raw_io b l t k c p : save_raw c (io b l t k p) = io b l t k (save_raw c p).
Proof. unfold save_raw. by destruct (m_save_raw_headers p) eqn:E; simpl; rewrite E. Qed.

Lemma parse_headers_loop_io buf b l t k p m :
  parse_headers_loop buf (io b l t k p) m
  = let r := parse_headers_loop buf p m in
    mk_hresult (h_rc r) (h_error r) (io b l t k (h_parser r)) (h_message r) (h_rest r).
Proof.
  revert p m. induction buf as [|c buf IH]; intros p m; [done|]. cbn [parse_headers_loop].
  rewrite save_raw_io, headers_step_io. destruct (headers_step c (save_raw c p) m); [|done..].
  apply IH.
Qed.

(** Nor does the chunk loop. *)
Lemma chunks_step_io b l t k buf c p chunks :
  chunks_step buf c (io b l t k p) chunks
  = match chunks_step buf c p chunks with
    | CNext p' chunks' skip => CNext (io b l t k p') chunks' skip
    | CDone consume p' => CDone consume (io b l t k p')
    | r => r
    end.
Proof.
  destruct p as [? ? ? ? st h]. unfold chunks_step. simpl. destruct st; simpl;
  unfold step_chunk_size_start, step_chunk_size, step_ignored_text,
    step_cr_after_chunk_size, step_lf_after_chunk_size, step_chunk, step_cr_after_chunk,
    step_lf_after_chunk, step_final_cr_or_footers, step_final_lf, end_of_chunk;
  unfold has_handler, call_handler; simpl; destruct h; simpl;
  repeat match goal with |- context [if ?x then _ else _] => destruct x end; reflexivity.
Qed.

Lemma parse_chunks_loop_io skip buf b l t k p chunks :
  parse_chunks_loop skip buf (io b l t k p) chunks
  = let r := parse_chunks_loop skip buf p chunks in
    mk_cresult (c_rc r) (c_error r) (io b l t k (c_parser r)) (c_chunks r) (c_rest r).
Proof.
  revert skip p chunks. induction buf as [|c buf IH]; intros skip p chunks; [done|].
  cbn [parse_chunks_loop]. destruct skip; [|apply IH].
  rewrite chunks_step_io. destruct (chunks_step (c :: buf) c p chunks); [apply IH | done..].
Qed.

(** ** Writing the content piece by piece *)

(** The buffer after [data] has been written at [k], cut at the end of the buffer. *)
Definition overlay (k : nat) (data : bytes) (buf : list (option char)) : list (option char) :=
  imap (fun i o => if decide (k <= i < k + length data)%nat then data !! (i - k)%nat else o) buf.

Lemma overlay_lookup k data buf i :
  overlay k data buf !! i
  = (fun o => if decide (k <= i < k + length data)%nat then data !! (i - k)%nat else o)
    <$> buf !! i.
Proof. apply list_lookup_imap. Qed.

Lemma overlay_app k d1 d2 buf :
  overlay (k + length d1) d2 (overlay k d1 buf) = overlay k (d1 ++ d2) buf.
Proof.
  apply list_eq. intros i. rewrite !overlay_lookup. destruct (buf !! i) as [o|]; [|done]. simpl.
  f_equal. rewrite length_app. repeat case_decide; try lia; try done.
  - rewrite lookup_app_r by lia. f_equal. lia.
  - by rewrite lookup_app_l by lia.
Qed.

Lemma overlay_length k data buf : length (overlay k data buf) = length buf.
Proof. apply length_imap. Qed.

Lemma write_overlay k data buf :
  (k + length data <= length buf)%nat ->
  take k buf ++ (Some <$> data) ++ drop (k + length data) buf = overlay k data buf.
Proof.
  intros Hl. apply list_eq. intros i. rewrite overlay_lookup.
  destruct (decide (i < k)%nat) as [Hi|Hi].
  { rewrite lookup_app_l by (rewrite length_take; lia). rewrite lookup_take_lt by lia.
    destruct (buf !! i); [|done]. simpl. by rewrite decide_False by lia. }
  rewrite lookup_app_r by (rewrite length_take; lia). rewrite length_take, Nat.min_l by lia.
  destruct (decide (i < k + length data)%nat) as [Hj|Hj].
  - rewrite lookup_app_l by (rewrite length_fmap; lia). rewrite list_lookup_fmap.
    destruct (lookup_lt_is_Some_2 buf i) as [o ->]; [lia|]. simpl. rewrite decide_True by lia.
    by destruct (lookup_lt_is_Some_2 data (i - k)) as [c ->]; [lia|].
  - rewrite lookup_app_r by (rewrite length_fmap; lia). rewrite length_fmap, lookup_drop.
    replace (k + length data + (i - k - length data))%nat with i by lia.
    destruct (buf !! i); [|done]. simpl. by rewrite decide_False by lia.
Qed.

(** Only the part that fits matters. *)
Lemma overlay_take k n data buf :
  (length buf <= k + n)%nat -> overlay k (take n data) buf = overlay k data buf.
Proof.
  intros Hl. apply list_eq. intros i. rewrite !overlay_lookup.
  destruct (buf !! i) as [o|] eqn:E; [|done]. apply lookup_lt_Some in E. simpl. f_equal.
  rewrite length_take. repeat case_decide; try lia; try done. by rewrite lookup_take_lt by lia.
Qed.

Lemma overlay_beyond k data buf : (length buf <= k)%nat -> overlay k data buf = buf.
Proof.
  intros Hl. apply list_eq. intros i. rewrite overlay_lookup.
  destruct (buf !! i) as [o|] eqn:E; [|done]. apply lookup_lt_Some in E. simpl.
  by rewrite decide_False by lia.
Qed.

Lemma copy_content_overlay data p m :
  let k := m_bytes_content_read p in
  let max := m_max_content_length p in
  0 <= k -> k + zlen data < 2 ^ 64 ->
  zlen (m_content_buf m) <= max -> Z.min (k + zlen data) max <= zlen (m_content_buf m) ->
  copy_content data p m
  = Ok (with_m_content_buf (overlay (Z.to_nat k) data (m_content_buf m)) m).
Proof.
  intros k max Hk Hw Hb1 Hb2. unfold copy_content. fold k max. pose proof (zlen_nonneg data).
  rewrite u64_small by lia. unfold zlen in *.
  destruct (k <? max) eqn:E1; [destruct (max <? _) eqn:E2|]; reflect_bools.
  - unfold write_content, zlen. rewrite length_take.
    rewrite (Nat.min_l (Z.to_nat (max - k))) by lia.
    rewrite (proj2 (Z.leb_le 0 k)), (proj2 (Z.leb_le (k + _) _)) by lia. cbn [andb].
    pose proof (write_overlay (Z.to_nat k) (take (Z.to_nat (max - k)) data) (m_content_buf m)) as Hwo.
    rewrite length_take, (Nat.min_l (Z.to_nat (max - k))) in Hwo by lia.
    rewrite Hwo by lia. by rewrite overlay_take by lia.
  - unfold write_content, zlen.
    rewrite (proj2 (Z.leb_le 0 k)), (proj2 (Z.leb_le (k + _) _)) by lia. cbn [andb].
    by rewrite write_overlay by lia.
  - rewrite overlay_beyond by lia. by destruct m.
Qed.

(** ** Results up to the byte counters *)

(** The number of bytes of the last read depends on the pieces; after an error the totals
    do too, since a call that fails does not add what it read. *)
Definition forget (rc : tribool) (p : parser) : parser :=
  match rc with
  | false_value => io (m_read p) 0 0 0 p
  | _ => io (m_read p) 0 (m_bytes_total_read p) (m_bytes_content_read p) p
  end.

Definition outcome := (tribool * parser * message * error_code)%type.

Definition obs1 (o : outcome) : outcome :=
  let '(rc, p, m, ec) := o in (rc, forget rc p, m, ec).

Definition obs (r : res outcome) : res outcome :=
  match r with Ok o => Ok (obs1 o) | Fault f => Fault f end.

Lemma obs_Ok_inv rc p m ec rc' p' m' ec' :
  obs (Ok (rc, p, m, ec)) = obs (Ok (rc', p', m', ec')) ->
  rc' = rc /\ forget rc p' = forget rc p /\ m' = m /\ ec' = ec.
Proof. unfold obs, obs1. intros H. by simplify_eq. Qed.

(** ** Headers *)

Lemma parse_headers_io b l t k p m ec :
  parse_headers (io b l t k p) m ec
  = let r := parse_headers_loop b p m in
    let n := zlen b - zlen (h_rest r) in
    match h_error r with
    | Some e => (h_rc r, io (h_rest r) 0 t k (h_parser r), h_message r, Some e)
    | None => (h_rc r, io (h_rest r) n (u64 (t + n)) k (h_parser r), h_message r, ec)
    end.
Proof.
  unfold parse_headers. change (m_read (io b l t k p)) with b.
  rewrite parse_headers_loop_io. cbn zeta. cbn [h_rest h_error h_rc h_message h_parser].
  by destruct (h_error _).
Qed.

Lemma parse_headers_split b1 b2 l t k p m ec rc p1 m1 ec1 :
  parse_headers (io b1 l t k p) m ec = (rc, p1, m1, ec1) ->
  (indeterminate rc = false ->
   parse_headers (io (b1 ++ b2) l t k p) m ec
   = (rc, with_m_read (m_read p1 ++ b2) p1, m1, ec1))
  /\ (indeterminate rc = true ->
      obs1 (parse_headers (io (b1 ++ b2) l t k p) m ec)
      = obs1 (parse_headers (with_m_read b2 p1) m1 ec1)).
Proof.
  rewrite !parse_headers_io. cbv zeta. rewrite parse_headers_loop_app. unfold hcontinue.
  pose proof (parse_headers_loop_rest b1 p m) as Hr.
  destruct (parse_headers_loop b1 p m) as [rc' e' p' m' rest].
  cbn [h_rc h_error h_parser h_message h_rest] in *.
  destruct rc'.
  - destruct e'; intros [= <- <- <- <-]; (split; [intros _|done]);
      cbn [h_rc h_error h_parser h_message h_rest]; rewrite ?zlen_app; [done|].
    by replace (zlen b1 + zlen b2 - (zlen rest + zlen b2)) with (zlen b1 - zlen rest) by lia.
  - destruct e'; intros [= <- <- <- <-]; (split; [intros _|done]);
      cbn [h_rc h_error h_parser h_message h_rest]; rewrite ?zlen_app; [done|].
    by replace (zlen b1 + zlen b2 - (zlen rest + zlen b2)) with (zlen b1 - zlen rest) by lia.
  - destruct Hr as [-> ->]; [done|]. intros [= <- <- <- <-]. split; [done|]. intros _.
    rewrite (zlen_nil (A := char)), Z.sub_0_r.
    change (with_m_read b2 (io [] (zlen b1) (u64 (t + zlen b1)) k p'))
      with (io b2 (zlen b1) (u64 (t + zlen b1)) k p').
    rewrite parse_headers_io. cbv zeta.
    destruct (parse_headers_loop b2 p' m') as [rc2 e2 p2 m2 rest2] eqn:E2.
    pose proof (parse_headers_loop_error b2 p' m') as He. rewrite E2 in He.
    cbn [h_rc h_error h_parser h_message h_rest] in *. rewrite zlen_app.
    destruct e2 as [e2|].
    + unfold obs1. rewrite (proj2 He) by eauto. done.
    + assert (rc2 <> false_value) as Hnf by (intros Hf; apply He in Hf as [e [=]]).
      rewrite u64_add_l.
      replace (t + (zlen b1 + zlen b2 - zlen rest2)) with (t + zlen b1 + (zlen b2 - zlen rest2)) by lia.
      unfold obs1, forget. by destruct rc2.
Qed.

(** ** Chunks *)

Lemma parse_chunks_io b l t k p chunks ec :
  parse_chunks (io b l t k p) chunks ec
  = let r := parse_chunks_loop 0 b p chunks in
    let n := zlen b - zlen (c_rest r) in
    match c_error r with
    | Some e => (c_rc r, io (c_rest r) 0 t k (c_parser r), c_chunks r, Some e)
    | None => (c_rc r, io (c_rest r) n (u64 (t + n)) (u64 (k + n)) (c_parser r), c_chunks r, ec)
    end.
Proof.
  unfold parse_chunks. change (m_read (io b l t k p)) with b.
  rewrite parse_chunks_loop_io. cbn zeta. cbn [c_rest c_error c_rc c_chunks c_parser].
  by destruct (c_error _).
Qed.

Definition cobs1 (o : tribool * parser * bytes * error_code) : tribool * parser * bytes * error_code :=
  let '(rc, p, chunks, ec) := o in (rc, forget rc p, chunks, ec).

Lemma parse_chunks_split b1 b2 l t k p chunks ec rc p1 chunks1 ec1 :
  has_handler p = false ->
  parse_chunks (io b1 l t k p) chunks ec = (rc, p1, chunks1, ec1) ->
  (indeterminate rc = false ->
   parse_chunks (io (b1 ++ b2) l t k p) chunks ec
   = (rc, with_m_read (m_read p1 ++ b2) p1, chunks1, ec1))
  /\ (indeterminate rc = true ->
      cobs1 (parse_chunks (io (b1 ++ b2) l t k p) chunks ec)
      = cobs1 (parse_chunks (with_m_read b2 p1) chunks1 ec1)).
Proof.
  intros Hh. rewrite !parse_chunks_io. cbv zeta. rewrite parse_chunks_loop_app by done.
  unfold ccontinue. pose proof (parse_chunks_loop_rest 0 b1 p chunks _ eq_refl) as Hr.
  destruct (parse_chunks_loop 0 b1 p chunks) as [rc' e' p' ch' rest].
  cbn [c_rc c_error c_parser c_chunks c_rest] in *.
  destruct rc'.
  - destruct e'; intros [= <- <- <- <-]; (split; [intros _|done]);
      cbn [c_rc c_error c_parser c_chunks c_rest]; rewrite ?zlen_app; [done|].
    by replace (zlen b1 + zlen b2 - (zlen rest + zlen b2)) with (zlen b1 - zlen rest) by lia.
  - destruct e'; intros [= <- <- <- <-]; (split; [intros _|done]);
      cbn [c_rc c_error c_parser c_chunks c_rest]; rewrite ?zlen_app; [done|].
    by replace (zlen b1 + zlen b2 - (zlen rest + zlen b2)) with (zlen b1 - zlen rest) by lia.
  - destruct Hr as [-> ->]; [done|]. intros [= <- <- <- <-]. split; [done|]. intros _.
    rewrite (zlen_nil (A := char)), Z.sub_0_r.
    change (with_m_read b2 (io [] (zlen b1) (u64 (t + zlen b1)) (u64 (k + zlen b1)) p'))
      with (io b2 (zlen b1) (u64 (t + zlen b1)) (u64 (k + zlen b1)) p').
    rewrite parse_chunks_io. cbv zeta.
    destruct (parse_chunks_loop 0 b2 p' ch') as [rc2 e2 p2 ch2 rest2] eqn:E2.
    pose proof (parse_chunks_loop_error 0 b2 p' ch' _ eq_refl) as He. rewrite E2 in He.
    cbn [c_rc c_error c_parser c_chunks c_rest] in *. rewrite zlen_app.
    destruct e2 as [e2|].
    + unfold cobs1. rewrite (proj2 He) by eauto. done.
    + assert (rc2 <> false_value) as Hnf by (intros Hf; apply He in Hf as [e [=]]).
      rewrite !u64_add_l.
      replace (t + (zlen b1 + zlen b2 - zlen rest2)) with (t + zlen b1 + (zlen b2 - zlen rest2)) by lia.
      replace (k + (zlen b1 + zlen b2 - zlen rest2)) with (k + zlen b1 + (zlen b2 - zlen rest2)) by lia.
      unfold cobs1, forget. by destruct rc2.
Qed.

(** ** Content *)

(** [consume_content] without a handler, when content is expected. *)
Lemma consume_content_io b l t k p m :
  has_handler p = false -> 0 < m_bytes_content_remaining p ->
  let rem := m_bytes_content_remaining p in
  let n := Z.min rem (zlen b) in
  consume_content (io b l t k p) m
  = m ← copy_content (take (Z.to_nat n) b) (io b l t k p) m;
    Ok (if rem <=? zlen b then true_value else indeterminate_value,
        io (drop (Z.to_nat n) b) n (u64 (t + n)) (u64 (k + n))
          (with_m_bytes_content_remaining (rem - n) p), m).
Proof.
  intros Hh Hrem rem n. unfold consume_content. rewrite bytes_available_zlen.
  change (m_bytes_content_remaining (io b l t k p)) with rem.
  change (m_read (io b l t k p)) with b.
  replace (rem =? 0) with false by lia. unfold n.
  destruct (rem <=? zlen b) eqn:E; reflect_bools;
    [rewrite (Z.min_l rem) by lia | rewrite (Z.min_r rem) by lia].
  all: change (has_handler (with_m_bytes_content_remaining _ (io b l t k p))) with (has_handler p);
    rewrite Hh; change (copy_content ?d (with_m_bytes_content_remaining ?r (io b l t k p)) m)
      with (copy_content d (io b l t k p) m);
    change (m_read (with_m_bytes_content_remaining ?r (io b l t k p))) with b;
    by destruct (copy_content _ (io b l t k p) m).
Qed.

Definition mobs (r : res (tribool * parser * message)) : res outcome :=
  match r with
  | Ok (rc, p, m) => Ok (obs1 (rc, p, m, None))
  | Fault f => Fault f
  end.

Lemma consume_content_split b1 b2 l t k p m rc p1 m1 :
  has_handler p = false ->
  parser_inv (io b1 l t k p) m -> m_message_parse_state p = PARSE_CONTENT ->
  consume_content (io b1 l t k p) m = Ok (rc, p1, m1) ->
  (indeterminate rc = false ->
   consume_content (io (b1 ++ b2) l t k p) m
   = Ok (rc, with_m_read (m_read p1 ++ b2) p1, m1))
  /\ (indeterminate rc = true ->
      mobs (consume_content (io (b1 ++ b2) l t k p) m)
      = mobs (consume_content (with_m_read b2 p1) m1)).
Proof.
  intros Hh [Hmax _ _ Hs] Hst. unfold state_inv in Hs.
  change (m_message_parse_state (io b1 l t k p)) with (m_message_parse_state p) in Hs.
  rewrite Hst in Hs. destruct Hs as [[Hk Hrem Htot] Hc].
  specialize (Hc Hh). destruct Hc as [Hl Hb _].
  change (m_bytes_content_read (io b1 l t k p)) with k in *.
  change (m_bytes_content_remaining (io b1 l t k p)) with (m_bytes_content_remaining p) in *.
  change (m_max_content_length (io b1 l t k p)) with (m_max_content_length p) in *.
  pose proof (consume_content_io b1 l t k p m Hh Hrem) as E1.
  pose proof (consume_content_io (b1 ++ b2) l t k p m Hh Hrem) as E12. cbv zeta in *.
  rewrite E1, E12. clear E1 E12. rewrite zlen_app.
  set (rem := m_bytes_content_remaining p) in *.
  pose proof (zlen_nonneg b1). pose proof (zlen_nonneg b2).
  destruct (rem <=? zlen b1) eqn:E; reflect_bools.
  - rewrite !Z.min_l by lia. replace (rem <=? zlen b1 + zlen b2) with true by lia.
    rewrite take_app_le by (unfold zlen in *; lia).
    rewrite drop_app_le by (unfold zlen in *; lia).
    change (copy_content ?d (io (b1 ++ b2) l t k p) m) with (copy_content d (io b1 l t k p) m).
    destruct (copy_content _ (io b1 l t k p) m) as [m'|]; [|done].
    intros [= <- <- <-]. split; [by intros _|done].
  - rewrite (Z.min_r rem (zlen b1)) by lia.
    rewrite take_ge, drop_ge by (unfold zlen; lia).
    rewrite copy_content_overlay by (simpl; lia). cbn [mbind res_bind].
    intros [= <- <- <-]. split; [done|]. intros _.
    set (n := Z.min rem (zlen b1 + zlen b2)).
    set (p' := with_m_bytes_content_remaining (rem - zlen b1) p).
    change (with_m_read b2 (io [] (zlen b1) (u64 (t + zlen b1)) (u64 (k + zlen b1)) p'))
      with (io b2 (zlen b1) (u64 (t + zlen b1)) (u64 (k + zlen b1)) p').
    rewrite (u64_small (k + zlen b1)) by lia.
    pose proof (consume_content_io b2 (zlen b1) (u64 (t + zlen b1)) (k + zlen b1) p'
      (with_m_content_buf (overlay (Z.to_nat k) b1 (m_content_buf m)) m)) as E2.
    rewrite E2 by (try done; simpl; lia). clear E2. cbv zeta.
    change (m_bytes_content_remaining p') with (rem - zlen b1).
    set (n2 := Z.min (rem - zlen b1) (zlen b2)).
    assert (n = zlen b1 + n2) as Hn by (unfold n, n2; lia).
    assert (0 <= n2 <= zlen b2) as Hn2 by (unfold n2; lia).
    assert (take (Z.to_nat n) (b1 ++ b2) = b1 ++ take (Z.to_nat n2) b2) as ->.
    { rewrite take_app_ge by (unfold zlen in *; lia). do 2 f_equal. unfold zlen in *; lia. }
    assert (drop (Z.to_nat n) (b1 ++ b2) = drop (Z.to_nat n2) b2) as ->.
    { rewrite drop_app_ge by (unfold zlen in *; lia). f_equal. unfold zlen in *; lia. }
    assert (zlen (take (Z.to_nat n2) b2) = n2) as Hz
      by (unfold zlen in *; rewrite length_take; lia).
    assert (zlen (overlay (Z.to_nat k) b1 (m_content_buf m)) = zlen (m_content_buf m)) as Hov
      by (unfold zlen; by rewrite overlay_length).
    rewrite !copy_content_overlay; cbn [m_content_buf with_m_content_buf];
      rewrite ?Hov, ?zlen_app, ?Hz; try (simpl; lia).
    change (m_bytes_content_read (io b2 (zlen b1) (u64 (t + zlen b1)) (k + zlen b1) p'))
      with (k + zlen b1).
    change (m_bytes_content_read (io (b1 ++ b2) l t k p)) with k.
    replace (Z.to_nat (k + zlen b1)) with (Z.to_nat k + length b1)%nat by (unfold zlen; lia).
    rewrite overlay_app. cbn [mbind res_bind mobs].
    replace (rem <=? zlen b1 + zlen b2) with (rem - zlen b1 <=? zlen b2) by lia.
    rewrite u64_add_l, Hn, !Z.add_assoc.
    replace (rem - (zlen b1 + n2)) with (rem - zlen b1 - n2) by lia.
    unfold obs1, forget. by destruct (_ <=? _).
Qed.

(** ** One pass *)

Lemma update_message_io b l t k p m :
  update_message_with_header_data
    (with_m_bytes_content_read 0 (with_m_bytes_content_remaining 0 (io b l t k p))) m
  = update_message_with_header_data
      (with_m_bytes_content_read 0 (with_m_bytes_content_remaining 0 p)) m.
Proof. by destruct p. Qed.

Lemma finish_header_parsing_io b l t k p m ec :
  finish_header_parsing (io b l t k p) m ec
  = match finish_header_parsing p m ec with
    | Ok (rc, p', m', ec') => Ok (rc, io b l t 0 p', m', ec')
    | Fault f => Fault f
    end.
Proof.
  unfold finish_header_parsing, finish_with_length, headers_only_rc.
  rewrite update_message_io. destruct p as [? ? ? ? ? ? ? ? ? ? ? ? ? ? ? ? ? ? ? ? ? max ho ?].
  destruct (update_message_with_header_data _ _) as [m1|]; [|done]. cbn [mbind res_bind].
  destruct (m_is_chunked m1); [by destruct ho|].
  destruct (is_content_length_implied m1); [done|].
  destruct (has_header m1 _).
  - destruct (update_content_length_using_header m1) as [m2|]; [|done].
    destruct (m_content_length m2 =? 0); [done|]. simpl.
    destruct (max <? _); destruct ho; try done; by destruct (create_content_buffer _).
  - simpl. destruct m_is_request; [done|]. by destruct ho.
Qed.

(** The part of a pass that reads headers or footers. *)
Definition headers_pass (p : parser) (m : message) (ec : error_code) : res outcome :=
  let '(rc, p, m, ec) := parse_headers p m ec in
  if tri_is rc true && bool_decide (m_message_parse_state p = PARSE_HEADERS)
  then finish_header_parsing p m ec
  else Ok (rc, p, m, ec).

(** What follows the headers does not depend on the counters. *)
Definition after_headers (o : outcome) : res outcome :=
  let '(rc, p, m, ec) := o in
  if tri_is rc true && bool_decide (m_message_parse_state p = PARSE_HEADERS)
  then finish_header_parsing p m ec
  else Ok (rc, p, m, ec).

Lemma forget_of_io rc b l t k p :
  forget rc (io b l t k p)
  = match rc with false_value => io b 0 0 0 p | _ => io b 0 t k p end.
Proof. by destruct p, rc. Qed.

Lemma forget_io rc p q :
  forget rc q = forget rc p ->
  m_read q = m_read p /\ exists l t k, q = io (m_read p) l t k p.
Proof.
  intros H. assert (m_read q = m_read p) as Hr
    by (destruct rc; apply (f_equal m_read) in H; exact H).
  split; [done|]. exists (m_bytes_last_read q), (m_bytes_total_read q), (m_bytes_content_read q).
  rewrite <- (io_self q) at 1. rewrite Hr.
  destruct rc; unfold forget in H; apply (f_equal (io (m_read p) (m_bytes_last_read q)
    (m_bytes_total_read q) (m_bytes_content_read q))) in H; by rewrite !io_io in H.
Qed.

Lemma forget_total rc p q :
  forget rc q = forget rc p -> rc <> false_value ->
  m_bytes_total_read q = m_bytes_total_read p /\ m_bytes_content_read q = m_bytes_content_read p.
Proof.
  destruct rc; [done | |]; intros H _; split;
    [apply (f_equal m_bytes_total_read) in H | apply (f_equal m_bytes_content_read) in H
    |apply (f_equal m_bytes_total_read) in H | apply (f_equal m_bytes_content_read) in H];
    exact H.
Qed.

Lemma after_headers_obs o o' : obs1 o = obs1 o' -> obs (after_headers o) = obs (after_headers o').
Proof.
  destruct o as [[[rc p] m] ec], o' as [[[rc' p'] m'] ec']. unfold obs1. intros H.
  injection H as -> Hf -> ->. destruct (forget_io _ _ _ Hf) as [_ (l & t & k & ->)].
  unfold after_headers.
  change (m_message_parse_state (io (m_read p') l t k p')) with (m_message_parse_state p').
  destruct (tri_is rc' true) eqn:Er; [|simpl; by rewrite Hf].
  case_bool_decide; simpl; [|by rewrite Hf].
  destruct rc'; try discriminate. destruct (forget_total _ _ _ Hf) as [Ht Hk]; [done|].
  simpl in Ht, Hk. subst t k. rewrite finish_header_parsing_io.
  pose proof (finish_header_parsing_io (m_read p') (m_bytes_last_read p')
    (m_bytes_total_read p') (m_bytes_content_read p') p' m' ec') as E.
  rewrite io_self in E. rewrite E.
  destruct (finish_header_parsing p' m' ec') as [[[[rc1 p1] m1] ec1]|]; [|done].
  unfold obs, obs1. by rewrite !forget_of_io, !io_io.
Qed.

Lemma headers_pass_split b1 b2 l t k p m ec rc p1 m1 ec1 :
  m_message_parse_state p = PARSE_HEADERS \/ m_message_parse_state p = PARSE_FOOTERS ->
  headers_pass (io b1 l t k p) m ec = Ok (rc, p1, m1, ec1) ->
  headers_pass (io (b1 ++ b2) l t k p) m ec
  = Ok (rc, with_m_read (m_read p1 ++ b2) p1, m1, ec1)
  \/ (indeterminate rc = true /\ m_read p1 = []
      /\ m_message_parse_state p1 = m_message_parse_state p
      /\ obs (headers_pass (io (b1 ++ b2) l t k p) m ec)
         = obs (headers_pass (with_m_read b2 p1) m1 ec1)).
Proof.
  intros Hst. unfold headers_pass.
  destruct (parse_headers (io b1 l t k p) m ec) as [[[rc' p'] m'] ec'] eqn:E.
  destruct (parse_headers_split b1 b2 _ _ _ _ _ _ _ _ _ _ E) as [Hd Hi].
  destruct (parse_headers_progress _ _ _ _ _ _ _ E) as [Hs He].
  change (m_message_parse_state (io b1 l t k p)) with (m_message_parse_state p) in Hs.
  destruct (indeterminate rc') eqn:Er.
  - destruct rc'; try discriminate. simpl. intros [= <- <- <- <-]. right.
    split; [done|]. split; [by apply eof_true, He|]. split; [done|].
    fold (after_headers (parse_headers (io (b1 ++ b2) l t k p) m ec)).
    fold (after_headers (parse_headers (with_m_read b2 p') m' ec')).
    by apply after_headers_obs, Hi.
  - intros H. left. rewrite (Hd eq_refl).
    change (m_message_parse_state (with_m_read (m_read p' ++ b2) p'))
      with (m_message_parse_state p').
    case_if; [|by simplify_eq].
    pose proof (finish_header_parsing_io (m_read p') (m_bytes_last_read p')
      (m_bytes_total_read p') (m_bytes_content_read p') p' m' ec') as E2. rewrite io_self in E2.
    pose proof (finish_header_parsing_io (m_read p' ++ b2) (m_bytes_last_read p')
      (m_bytes_total_read p') (m_bytes_content_read p') p' m' ec') as E3.
    assert (io (m_read p' ++ b2) (m_bytes_last_read p') (m_bytes_total_read p')
              (m_bytes_content_read p') p' = with_m_read (m_read p' ++ b2) p') as E4
      by (by destruct p').
    rewrite E4 in E3. rewrite E3. rewrite H in *. injection E2 as E5. do 4 f_equal.
    set (l' := m_bytes_last_read p') in *. set (t' := m_bytes_total_read p') in *.
    transitivity (with_m_read (m_read (io (m_read p') l' t' 0 p1) ++ b2)
                    (io (m_read p') l' t' 0 p1)); [done | by rewrite <- E5].
Qed.

Lemma no_length_split b1 b2 l t k p chunks p1 chunks1 :
  has_handler p = false -> b1 <> [] ->
  consume_content_as_next_chunk (io b1 l t k p) chunks = (p1, chunks1) ->
  m_read p1 = []
  /\ exists last, consume_content_as_next_chunk (io (b1 ++ b2) l t k p) chunks
     = let '(p2, chunks2) := consume_content_as_next_chunk (with_m_read b2 p1) chunks1 in
       (with_m_bytes_last_read last p2, chunks2).
Proof.
  intros Hh Hb. unfold consume_content_as_next_chunk. rewrite !bytes_available_zlen.
  change (m_read (io ?b l t k p)) with b. change (has_handler (io ?b l t k p)) with (has_handler p).
  rewrite Hh. pose proof (zlen_nonneg b1). pose proof (zlen_nonneg b2).
  assert (zlen b1 <> 0) by (by rewrite zlen_zero_iff).
  replace (zlen b1 =? 0) with false by lia. intros [= <- <-]. split; [done|].
  rewrite zlen_app. replace (zlen b1 + zlen b2 =? 0) with false by lia.
  exists (zlen b1 + zlen b2). simpl.
  unfold has_handler in *. simpl. destruct (m_payload_handler p); [done|].
  rewrite !push_limited_cache.
  destruct (zlen b2 =? 0) eqn:E.
  - assert (b2 = []) as -> by (apply zlen_zero_iff; lia). rewrite zlen_nil, !app_nil_r, !Z.add_0_r.
    done.
  - simpl. rewrite !u64_add_l, !Z.add_assoc, <- app_assoc. do 2 f_equal.
    rewrite zlen_app, take_app. do 2 f_equal. unfold zlen. rewrite length_take. lia.
Qed.

(** The part of a pass that reads chunks. *)
Definition after_chunks (m : message) (o : tribool * parser * bytes * error_code) : res outcome :=
  let '(rc, p, chunks, ec) := o in
  let m := with_m_chunk_cache chunks m in
  if tri_is rc true && negb (has_handler p) then
    m ← concatenate_chunks m;
    Ok (if bool_decide (m_message_parse_state p = PARSE_FOOTERS)
        then indeterminate_value else true_value, p, m, ec)
  else Ok (rc, p, m, ec).

Lemma after_chunks_obs m o o' :
  cobs1 o = cobs1 o' -> obs (after_chunks m o) = obs (after_chunks m o').
Proof.
  destruct o as [[[rc p] ch] ec], o' as [[[rc' p'] ch'] ec']. unfold cobs1. intros H.
  injection H as -> Hf -> ->. pose proof Hf as Hf'.
  destruct (forget_io _ _ _ Hf) as [_ (l & t & k & ->)]. unfold after_chunks.
  change (has_handler (io (m_read p') l t k p')) with (has_handler p').
  change (m_message_parse_state (io (m_read p') l t k p')) with (m_message_parse_state p').
  destruct (tri_is rc' true) eqn:Er; cbn [andb]; [|unfold obs, obs1; by rewrite Hf].
  destruct (has_handler p'); cbn [negb]; [unfold obs, obs1; by rewrite Hf|].
  apply tri_is_true in Er as ->.
  destruct (concatenate_chunks (with_m_chunk_cache ch' m)); [|done]. cbn [mbind res_bind obs obs1].
  destruct (forget_total _ _ _ Hf) as [Ht Hk]; [done|]. simpl in Ht, Hk. subst t k.
  rewrite forget_of_io. by case_bool_decide.
Qed.

Lemma chunks_pass_split b1 b2 l t k p m ec rc p1 m1 ec1 :
  has_handler p = false -> m_message_parse_state p = PARSE_CHUNKS ->
  after_chunks m (parse_chunks (io b1 l t k p) (m_chunk_cache m) ec) = Ok (rc, p1, m1, ec1) ->
  after_chunks m (parse_chunks (io (b1 ++ b2) l t k p) (m_chunk_cache m) ec)
  = Ok (rc, with_m_read (m_read p1 ++ b2) p1, m1, ec1)
  \/ (indeterminate rc = true /\ m_read p1 = [] /\ m_message_parse_state p1 = PARSE_CHUNKS
      /\ obs (after_chunks m (parse_chunks (io (b1 ++ b2) l t k p) (m_chunk_cache m) ec))
         = obs (after_chunks m1 (parse_chunks (with_m_read b2 p1) (m_chunk_cache m1) ec1))).
Proof.
  intros Hh Hst. destruct (parse_chunks (io b1 l t k p) _ ec) as [[[rc' p'] ch'] ec'] eqn:E.
  destruct (parse_chunks_split b1 b2 _ _ _ _ _ _ _ _ _ _ Hh E) as [Hd Hi].
  destruct (indeterminate rc') eqn:Er.
  - destruct rc'; try discriminate. simpl. intros [= <- <- <- <-]. right.
    destruct (parse_chunks_progress _ _ _ _ _ _ _ E) as [[Hs He]|(_ & ? & _)]; [|done].
    split; [done|]. split; [by apply eof_true, He|]. split; [by rewrite Hs|].
    etransitivity; [apply after_chunks_obs, Hi; done|]. simpl.
    destruct (parse_chunks (with_m_read b2 p') ch' ec') as [[[? ?] ?] ?]. done.
  - intros H. left. rewrite (Hd eq_refl). unfold after_chunks in *. cbv zeta in *.
    change (has_handler (with_m_read (m_read p' ++ b2) p')) with (has_handler p').
    change (m_message_parse_state (with_m_read (m_read p' ++ b2) p'))
      with (m_message_parse_state p').
    case_if; [|by simplify_eq].
    destruct (concatenate_chunks _); [|done]. cbn [mbind res_bind] in *. by simplify_eq.
Qed.

(** The pass, with its parts named. *)
Lemma parse_pass_eq rc p m ec :
  parse_pass rc p m ec
  = match m_message_parse_state p with
    | PARSE_START => headers_pass (mgoto PARSE_HEADERS p) m ec
    | PARSE_HEADERS | PARSE_FOOTERS => headers_pass p m ec
    | PARSE_CHUNKS => after_chunks m (parse_chunks p (m_chunk_cache m) ec)
    | PARSE_CONTENT =>
        match consume_content p m with
        | Ok (rc, p, m) => Ok (rc, p, m, ec)
        | Fault f => Fault f
        end
    | PARSE_CONTENT_NO_LENGTH =>
        let '(p, chunks) := consume_content_as_next_chunk p (m_chunk_cache m) in
        Ok (rc, p, with_m_chunk_cache chunks m, ec)
    | PARSE_END => Ok (true_value, p, m, ec)
    end.
Proof.
  unfold parse_pass. by destruct (m_message_parse_state p).
Qed.

Lemma consume_content_state p m rc p' m' :
  consume_content p m = Ok (rc, p', m') -> m_message_parse_state p' = m_message_parse_state p.
Proof.
  unfold consume_content. intros H. case_if_in H; [by simplify_eq|].
  destruct (if _ <=? _ then _ else _) as [rc1 n]. inv_res H. destruct a as [q m2]. simplify_eq.
  simpl. destruct (has_handler _); [|inv_res Heqr]; simplify_eq; [|done].
  unfold call_handler. simpl. by destruct (m_payload_handler p).
Qed.

(** Cutting the data of a pass: either the first piece decides, or the pass goes on with
    the second piece. *)
Lemma parse_pass_split b1 b2 l t k p m ec rc p1 m1 ec1 :
  has_handler p = false -> b1 <> [] -> parser_inv (io b1 l t k p) m ->
  parse_pass indeterminate_value (io b1 l t k p) m ec = Ok (rc, p1, m1, ec1) ->
  parse_pass indeterminate_value (io (b1 ++ b2) l t k p) m ec
  = Ok (rc, with_m_read (m_read p1 ++ b2) p1, m1, ec1)
  \/ (indeterminate rc = true /\ m_read p1 = []
      /\ obs (parse_pass indeterminate_value (io (b1 ++ b2) l t k p) m ec)
         = obs (parse_pass indeterminate_value (with_m_read b2 p1) m1 ec1)).
Proof.
  intros Hh Hb Hinv. rewrite !parse_pass_eq.
  change (m_message_parse_state (io ?b l t k p)) with (m_message_parse_state p).
  change (m_message_parse_state (with_m_read b2 p1)) with (m_message_parse_state p1).
  set (next := match m_message_parse_state p1 with PARSE_START => _ | _ => _ end).
  assert (forall q, m_message_parse_state q = PARSE_HEADERS \/ m_message_parse_state q = PARSE_FOOTERS ->
    headers_pass (io b1 l t k q) m ec = Ok (rc, p1, m1, ec1) ->
    headers_pass (io (b1 ++ b2) l t k q) m ec = Ok (rc, with_m_read (m_read p1 ++ b2) p1, m1, ec1)
    \/ (indeterminate rc = true /\ m_read p1 = []
        /\ obs (headers_pass (io (b1 ++ b2) l t k q) m ec) = obs next)) as Hhd.
  { intros q Hq H. destruct (headers_pass_split b1 b2 _ _ _ _ _ _ _ _ _ _ Hq H)
      as [?|(? & ? & Hs & ?)]; [by left|]. right. unfold next. rewrite Hs.
    destruct Hq as [-> | ->]; auto. }
  unfold next in *. clear next.
  destruct (m_message_parse_state p) eqn:Es.
  - intros H. apply (Hhd (mgoto PARSE_HEADERS p)) in H; [exact H | by left].
  - intros H. apply Hhd in H; [exact H | by left].
  - intros H. apply Hhd in H; [exact H | by right].
  - destruct (consume_content (io b1 l t k p) m) as [[[rc' p'] m']|] eqn:E; [|done].
    intros [= <- <- <- <-].
    destruct (consume_content_split b1 b2 _ _ _ _ _ _ _ _ Hh Hinv Es E) as [Hd Hi].
    destruct (indeterminate rc') eqn:Er; [right | left; by rewrite (Hd eq_refl)].
    specialize (Hi eq_refl). split; [done|].
    split; [by eapply eof_true, consume_content_progress|].
    assert (m_message_parse_state p' = PARSE_CONTENT) as ->
      by (rewrite <- Es; exact (consume_content_state _ _ _ _ _ E)).
    unfold mobs in Hi.
    destruct (consume_content (io (b1 ++ b2) l t k p) m) as [[[r2 p2] m2]|],
      (consume_content (with_m_read b2 p') m') as [[[r3 p3] m3]|]; try done; unfold obs1 in Hi.
    simplify_eq. unfold obs, obs1. by rewrite H.
  - destruct (consume_content_as_next_chunk (io b1 l t k p) _) as [p' ch'] eqn:E.
    intros [= <- <- <- <-].
    destruct (no_length_split b1 b2 _ _ _ _ _ _ _ Hh Hb E) as (Hr & last & E2). rewrite E2.
    right. split; [done|]. split; [done|].
    assert (m_message_parse_state p' = PARSE_CONTENT_NO_LENGTH) as ->.
    { exact (proj2 (no_length_pass_safe _ _ _ _ Hinv Es E)). }
    cbn [m_chunk_cache with_m_chunk_cache].
    destruct (consume_content_as_next_chunk (with_m_read b2 p') ch') as [p2 ch2].
    unfold obs, obs1. by do 4 f_equal.
  - intros H. destruct (chunks_pass_split b1 b2 _ _ _ _ _ _ _ _ _ _ Hh Es H)
      as [?|(? & ? & -> & ?)]; auto.
  - intros [= <- <- <- <-]. by left.
Qed.

(** ** The loop *)

(** A pass does not depend on the size of the last read. *)
Lemma parse_pass_last b l l' t k p m ec rc :
  has_handler p = false ->
  obs (parse_pass rc (io b l t k p) m ec) = obs (parse_pass rc (io b l' t k p) m ec).
Proof.
  intros Hh. rewrite !parse_pass_eq.
  change (m_message_parse_state (io b ?x t k p)) with (m_message_parse_state p).
  assert (forall q, headers_pass (io b l t k q) m ec = headers_pass (io b l' t k q) m ec) as Hp.
  { intros q. unfold headers_pass. by rewrite !parse_headers_io. }
  destruct (m_message_parse_state p) eqn:Es.
  - f_equal. exact (Hp (mgoto PARSE_HEADERS p)).
  - by rewrite Hp.
  - by rewrite Hp.
  - unfold consume_content. rewrite !bytes_available_zlen.
    change (m_bytes_content_remaining (io b ?x t k p)) with (m_bytes_content_remaining p).
    change (m_read (io b ?x t k p)) with b.
    destruct (m_bytes_content_remaining p =? 0).
    { unfold obs, obs1. by rewrite !forget_of_io. }
    destruct (if _ <=? _ then _ else _) as [rc1 n].
    change (has_handler (with_m_bytes_content_remaining ?r (io b ?x t k p))) with (has_handler p).
    rewrite Hh.
    change (copy_content ?d (with_m_bytes_content_remaining ?r (io b ?x t k p)) m)
      with (copy_content d (io b 0 t k p) m).
    by destruct (copy_content _ _ m).
  - unfold consume_content_as_next_chunk. rewrite !bytes_available_zlen.
    change (m_read (io b ?x t k p)) with b.
    change (has_handler (io b ?x t k p)) with (has_handler p).
    destruct (zlen b =? 0); [done|]. by rewrite Hh.
  - by rewrite !parse_chunks_io.
  - unfold obs, obs1. by rewrite !forget_of_io.
Qed.

(** The result of the loop without the byte count. *)
Definition lobs (r : option (res (tribool * Z * parser * message * error_code)))
  : option (res outcome) :=
  match r with
  | Some (Ok (rc, _, p, m, ec)) => Some (obs (Ok (rc, p, m, ec)))
  | Some (Fault f) => Some (Fault f)
  | None => None
  end.

Lemma consume_content_handler p m rc p' m' :
  consume_content p m = Ok (rc, p', m') -> has_handler p' = has_handler p.
Proof.
  unfold consume_content. intros H. case_if_in H; [by simplify_eq|].
  destruct (if _ <=? _ then _ else _) as [rc1 n]. inv_res H. destruct a as [q m2]. simplify_eq.
  change (has_handler q = has_handler p).
  change (has_handler (with_m_bytes_content_remaining _ p)) with (has_handler p) in Heqr.
  destruct (has_handler p) eqn:Eh; [|inv_res Heqr]; simplify_eq; [|exact Eh].
  by rewrite call_handler_has_handler.
Qed.

Lemma parse_pass_handler rc p m ec rc' p' m' ec' :
  has_handler p = false -> parse_pass rc p m ec = Ok (rc', p', m', ec') ->
  has_handler p' = false.
Proof.
  intros Hh. rewrite parse_pass_eq.
  assert (forall q, has_handler q = false -> headers_pass q m ec = Ok (rc', p', m', ec') ->
                    has_handler p' = false) as Hp.
  { intros q Hq. unfold headers_pass.
    destruct (parse_headers q m ec) as [[[rc1 p1] m1] ec1] eqn:E.
    assert (m_payload_handler p1 = m_payload_handler q) as Hp1.
    { revert E. unfold parse_headers.
      destruct (parse_headers_loop_frame (m_read q) q m) as [Hv _].
      injection Hv as _ _ _ _ Hv _ _ _ _ _ _ _ _ _ _.
      by destruct (h_error _); intros [= <- <- <- <-]. }
    unfold has_handler in *. case_if; [|intros [= <- <- <- <-]; by rewrite Hp1].
    intros H. by rewrite (proj2 (proj1 (finish_header_parsing_state _ _ _ _ _ _ _ H))), Hp1. }
  destruct (m_message_parse_state p) eqn:Es.
  - by apply (Hp (mgoto PARSE_HEADERS p)).
  - by apply Hp.
  - by apply Hp.
  - destruct (consume_content p m) as [[[rc1 p1] m1]|] eqn:E; [|done]. intros [= <- <- <- <-].
    rewrite (consume_content_handler _ _ _ _ _ E). exact Hh.
  - unfold consume_content_as_next_chunk. rewrite Hh.
    destruct (bytes_available p =? 0); by intros [= <- <- <- <-].
  - destruct (parse_chunks p (m_chunk_cache m) ec) as [[[rc1 p1] ch] ec1] eqn:E.
    assert (has_handler p1 = false) as Hp1.
    { pose proof (parse_chunks_loop_frame 0 (m_read p) p (m_chunk_cache m) _ eq_refl)
        as (_ & Hf & _). revert E. unfold parse_chunks, has_handler in *.
      destruct (c_error _); intros [= <- <- <- <-]; simpl; congruence. }
    unfold after_chunks. case_if; [|by intros [= <- <- <- <-]].
    destruct (concatenate_chunks _); [|done]. by intros [= <- <- <- <-].
  - by intros [= <- <- <- <-].
Qed.

(** The loop does not depend on the fuel, when there is enough, on the count it starts
    with, or on the size of the last read. *)
Lemma parse_loop_lobs fuel fuel' T T' p q m ec :
  has_handler p = false ->
  (rank p < fuel)%nat -> (rank p < fuel')%nat ->
  forget indeterminate_value q = forget indeterminate_value p ->
  lobs (parse_loop fuel indeterminate_value T p m ec)
  = lobs (parse_loop fuel' indeterminate_value T' q m ec).
Proof.
  revert fuel' T T' p q m ec. induction fuel as [|fuel IH]; intros fuel' T T' p q m ec Hh Hf Hf' Hq;
    [lia|]. destruct fuel' as [|fuel']; [lia|]. cbn [parse_loop].
  assert (obs (parse_pass indeterminate_value p m ec) = obs (parse_pass indeterminate_value q m ec))
    as Ho.
  { destruct (forget_io _ _ _ Hq) as [_ (l & t & k & ->)].
    destruct (forget_total _ _ _ Hq) as [Ht Hk]; [done|]. simpl in Ht, Hk. subst t k.
    rewrite <- (io_self p) at 1. by apply parse_pass_last. }
  destruct (parse_pass indeterminate_value p m ec) as [[[[rc1 p1] m1] ec1]|f] eqn:E1,
    (parse_pass indeterminate_value q m ec) as [[[[rc2 p2] m2] ec2]|f2] eqn:E2; try done;
    [|by injection Ho as ->].
  apply obs_Ok_inv in Ho as (-> & Hp2 & -> & ->).
  assert (eof p2 = eof p1) as He.
  { unfold eof. by rewrite (proj1 (forget_io _ _ _ Hp2)). }
  rewrite He. destruct (indeterminate rc1 && negb (eof p1)) eqn:Ec.
  - reflect_bools. destruct rc1; try discriminate.
    destruct (parse_pass_progress _ _ _ _ _ _ _ _ E1 eq_refl) as [?|Hr]; [congruence|].
    apply IH; [by eapply parse_pass_handler | lia | lia | done].
  - unfold lobs, obs, obs1. by rewrite Hp2.
Qed.

Lemma parse_loop_lobs_step fuel fuel' T T' p q m m' ec ec' :
  has_handler p = false -> (rank p < S fuel)%nat -> (rank q < S fuel')%nat ->
  obs (parse_pass indeterminate_value p m ec) = obs (parse_pass indeterminate_value q m' ec') ->
  lobs (parse_loop (S fuel) indeterminate_value T p m ec)
  = lobs (parse_loop (S fuel') indeterminate_value T' q m' ec').
Proof.
  intros Hh Hf Hf' Ho. cbn [parse_loop].
  destruct (parse_pass indeterminate_value p m ec) as [[[[rc1 p1] m1] ec1]|f] eqn:E1,
    (parse_pass indeterminate_value q m' ec') as [[[[rc2 p2] m2] ec2]|f2] eqn:E2; try done;
    [|by injection Ho as ->].
  apply obs_Ok_inv in Ho as (-> & Hp2 & -> & ->).
  destruct (forget_io _ _ _ Hp2) as [Hread (l & t & k & Hio)].
  assert (eof p2 = eof p1) as He by (unfold eof; by rewrite Hread).
  rewrite He. destruct (indeterminate rc1 && negb (eof p1)) eqn:Ec.
  - reflect_bools. destruct rc1; try discriminate.
    destruct (parse_pass_progress _ _ _ _ _ _ _ _ E1 eq_refl) as [?|Hr]; [congruence|].
    destruct (parse_pass_progress _ _ _ _ _ _ _ _ E2 eq_refl) as [?|Hr2]; [congruence|].
    assert (rank p2 = rank p1) as Hrk by (by rewrite Hio).
    apply parse_loop_lobs; [by eapply parse_pass_handler | lia | lia | done].
  - unfold lobs, obs, obs1. by rewrite Hp2.
Qed.

Lemma with_m_read_io b p :
  with_m_read b p
  = io b (m_bytes_last_read p) (m_bytes_total_read p) (m_bytes_content_read p) p.
Proof. by destruct p. Qed.

Lemma rank_below p : (rank p < 4)%nat.
Proof. unfold rank. destruct (m_message_parse_state p); lia. Qed.

Lemma parse_loop_split fuel T T' b2 p m ec rc1 T1 p1 m1 ec1 :
  has_handler p = false -> parser_inv p m -> m_read p <> [] -> b2 <> [] -> (rank p < fuel)%nat ->
  parse_loop fuel indeterminate_value T p m ec = Some (Ok (rc1, T1, p1, m1, ec1)) ->
  (indeterminate rc1 = false ->
   parse_loop fuel indeterminate_value T (with_m_read (m_read p ++ b2) p) m ec
   = Some (Ok (rc1, T1, with_m_read (m_read p1 ++ b2) p1, m1, ec1)))
  /\ (indeterminate rc1 = true ->
      lobs (parse_loop fuel indeterminate_value T (with_m_read (m_read p ++ b2) p) m ec)
      = lobs (parse_loop parse_fuel indeterminate_value T' (with_m_read b2 p1) m1 ec1)).
Proof.
  revert T p m ec. induction fuel as [|fuel IH]; intros T p m ec Hh Hinv Hb1 Hb2 Hf; [done|].
  destruct (parse_pass_safe indeterminate_value p m ec Hinv eq_refl)
    as (rc & p' & m' & ec' & Ep & Hinv').
  pose proof (parse_pass_split (m_read p) b2 (m_bytes_last_read p) (m_bytes_total_read p)
    (m_bytes_content_read p) p m ec rc p' m' ec' Hh Hb1) as Hsp.
  rewrite io_self, <- with_m_read_io in Hsp. specialize (Hsp Hinv Ep).
  set (q := with_m_read (m_read p ++ b2) p) in *.
  assert (forall b, pass_bytes q (with_m_read b p') = pass_bytes p p') as Hpb by done.
  cbn [parse_loop]. rewrite Ep. destruct (indeterminate rc && negb (eof p')) eqn:Ec.
  - apply andb_true_iff in Ec as [Hrc Hne%negb_true_iff]. destruct rc; try discriminate.
    destruct (parse_pass_progress _ _ _ _ _ _ _ _ Ep eq_refl) as [?|Hr]; [congruence|].
    destruct Hsp as [-> | (_ & Hr' & _)]; [|apply eof_false in Hne; congruence].
    rewrite Hpb. replace (eof (with_m_read (m_read p' ++ b2) p')) with false.
    2: { symmetry. apply eof_false. simpl. by destruct (m_read p'), b2. }
    cbn [indeterminate negb andb]. intros H. apply IH in H; [exact H | | done | | done | lia].
    + by eapply parse_pass_handler.
    + by apply eof_false.
  - intros [= <- <- <- <- <-]. split.
    + intros Hrc. destruct Hsp as [-> | (? & _)]; [|congruence]. by rewrite Hpb, Hrc.
    + intros Hrc. rewrite Hrc in *. apply negb_false_iff, eof_true in Ec.
      destruct rc; try discriminate.
      assert (eof (with_m_read b2 p') = false) as He by (by apply eof_false).
      destruct Hsp as [E12 | (_ & _ & Ho)].
      * rewrite E12, Ec. cbn [app indeterminate]. rewrite He. cbn [negb andb].
        rewrite Ec in E12. cbn [app] in E12.
        destruct (parse_pass_progress _ _ _ _ _ _ _ _ E12 eq_refl) as [?|Hr]; [congruence|].
        change (rank q) with (rank p) in Hr.
        apply parse_loop_lobs; [| lia | apply rank_below | done].
        exact (parse_pass_handler _ _ _ _ _ _ _ _ Hh Ep).
      * fold (parse_loop (S fuel) indeterminate_value T q m ec).
        change parse_fuel with (S 3). apply parse_loop_lobs_step; [done | | apply rank_below | done].
        change (rank q) with (rank p). lia.
Qed.

(** ** Messages that arrive in pieces *)

(** The result of [parse] up to the counters. *)
Definition parse_obs (r : option (res outcome)) : option (res outcome) :=
  match r with Some r => Some (obs r) | None => None end.

(** [parse] after the loop. *)
Definition parse_end (r : res (tribool * Z * parser * message * error_code)) : res outcome :=
  match r with
  | Ok (rc, total, p, m, ec) =>
      pm ← conclude rc p m;
      let '(p, m) := pm in Ok (rc, with_m_bytes_last_read total p, m, ec)
  | Fault f => Fault f
  end.

Definition note_missing (m : message) : message :=
  if m_has_missing_packets m then set_data_after_missing_packet true m else m.

Lemma parse_eq p m ec :
  m_read p <> [] ->
  parse p m ec
  = parse_end <$> parse_loop parse_fuel indeterminate_value 0 p (note_missing m) ec.
Proof.
  intros Hr. unfold parse. rewrite (proj2 (eof_false p) Hr). fold (note_missing m).
  destruct (parse_loop _ _ _ _ _ _) as [[[[[[rc total] p'] m'] ec']|f]|]; done.
Qed.

(** [finish] at the end of a message does not look at the counters. *)
Lemma finish_end_io b l t k p m :
  finish (mgoto PARSE_END (io b l t k p)) m = finish (mgoto PARSE_END p) m.
Proof. by destruct p. Qed.

Lemma conclude_io rc b l t k p m :
  conclude rc (io b l t k p) m
  = match conclude rc p m with
    | Ok (p', m') => Ok (io b l t k p', m')
    | Fault f => Fault f
    end.
Proof.
  unfold conclude. destruct rc; cbn [tri_is safe_bool tri_eq tribool_of_bool indeterminate orb
    tri_or tri_and tri_not andb]; try done.
  rewrite finish_end_io. by destruct (finish (mgoto PARSE_END p) m).
Qed.

Lemma parse_end_obs rc T p m ec T' p' :
  forget rc p' = forget rc p ->
  obs (parse_end (Ok (rc, T, p, m, ec))) = obs (parse_end (Ok (rc, T', p', m, ec))).
Proof.
  intros Hf. destruct (forget_io _ _ _ Hf) as [_ (l & t & k & ->)]. unfold parse_end.
  rewrite conclude_io.
  pose proof (conclude_io rc (m_read p) (m_bytes_last_read p) (m_bytes_total_read p)
    (m_bytes_content_read p) p m) as E. rewrite io_self in E. rewrite E.
  destruct (conclude rc p m) as [[p1 m1]|]; [|done]. cbn [mbind res_bind obs obs1].
  change (with_m_bytes_last_read T (io (m_read p) (m_bytes_last_read p) (m_bytes_total_read p)
    (m_bytes_content_read p) p1)) with (io (m_read p) T (m_bytes_total_read p)
    (m_bytes_content_read p) p1).
  change (with_m_bytes_last_read T' (io (m_read p) l t k (io (m_read p) (m_bytes_last_read p)
    (m_bytes_total_read p) (m_bytes_content_read p) p1))) with (io (m_read p) T' t k p1).
  rewrite !forget_of_io. destruct rc; [done| |];
    (destruct (forget_total _ _ _ Hf) as [Ht Hk]; [done|]); simpl in Ht, Hk; by rewrite Ht, Hk.
Qed.

(** A pass does not change the marks of missing packets. *)
Definition missing_view (m : message) := (m_has_missing_packets m, m_has_data_after_missing m).

Lemma create_content_buffer_missing m m' :
  create_content_buffer m = Ok m' -> missing_view m' = missing_view m.
Proof. unfold create_content_buffer. case_if; [done|]. by intros [= <-]. Qed.

Lemma write_content_missing k data m m' :
  write_content k data m = Ok m' -> missing_view m' = missing_view m.
Proof. unfold write_content. case_if; [|done]. by intros [= <-]. Qed.

Lemma concatenate_chunks_missing m m' :
  concatenate_chunks m = Ok m' -> missing_view m' = missing_view m.
Proof.
  unfold concatenate_chunks. intros H. inv_res H. apply create_content_buffer_missing in Heqr.
  change (missing_view a = missing_view m) in Heqr.
  case_if_in H; [apply write_content_missing in H; congruence | injection H as <-; exact Heqr].
Qed.

Lemma update_message_missing p m m' :
  update_message_with_header_data p m = Ok m' -> missing_view m' = missing_view m.
Proof.
  intros H. assert (content_view m' = content_view m) as Hv; 
    [|unfold missing_view; by injection Hv as _ _ _ _ _ _ -> ->].
  unfold update_message_with_header_data, parse_queries in H.
  destruct (m_is_request p), (m_kind m); try done; injection H as <-.
  - case_bool_decide; by autorewrite with pion.
  - by autorewrite with pion.
Qed.

Lemma finish_header_parsing_missing p m ec rc p' m' ec' :
  finish_header_parsing p m ec = Ok (rc, p', m', ec') -> missing_view m' = missing_view m.
Proof.
  unfold finish_header_parsing. intros H. inv_res H. apply update_message_missing in Heqr.
  assert (missing_view a = missing_view m) as Ha.
  { rewrite Heqr. unfold update_transfer_encoding_using_header. by destruct (find _ _). }
  rewrite <- Ha. clear Heqr Ha. repeat case_if_in H; try by simplify_eq.
  unfold finish_with_length in H.
  destruct (update_content_length_using_header a) as [m1|] eqn:E; [|by simplify_eq].
  assert (missing_view m1 = missing_view a) as <-.
  { unfold update_content_length_using_header in E. destruct (find _ _) as [kv|]; [|by simplify_eq].
    destruct (stoul (snd kv)); [|done]. by injection E as <-. }
  repeat case_if_in H; try by simplify_eq.
  all: inv_res H; simplify_eq; by apply create_content_buffer_missing in Heqr.
Qed.

Lemma parse_pass_missing rc p m ec rc' p' m' ec' :
  parse_pass rc p m ec = Ok (rc', p', m', ec') -> missing_view m' = missing_view m.
Proof.
  rewrite parse_pass_eq.
  assert (forall q, headers_pass q m ec = Ok (rc', p', m', ec') -> missing_view m' = missing_view m)
    as Hp.
  { intros q. unfold headers_pass.
    destruct (parse_headers q m ec) as [[[rc1 p1] m1] ec1] eqn:E.
    assert (missing_view m1 = missing_view m) as <-.
    { revert E. unfold parse_headers. destruct (parse_headers_loop_frame (m_read q) q m) as [_ Hv].
      injection Hv as _ _ _ _ _ _ _ _ _ V1 V2 _. unfold missing_view. rewrite <- V1, <- V2.
      by destruct (h_error _); intros [= <- <- <- <-]. }
    case_if; [apply finish_header_parsing_missing | by intros [= <- <- <- <-]]. }
  destruct (m_message_parse_state p); try apply Hp.
  - destruct (consume_content p m) as [[[rc1 p1] m1]|] eqn:E; [|done]. intros [= <- <- <- <-].
    revert E. unfold consume_content. case_if; [by intros [= <- <- <-]|].
    destruct (if _ <=? _ then _ else _) as [rc2 n]. intros H. inv_res H.
    destruct a as [q m2]. simplify_eq. destruct (has_handler _); [by simplify_eq|].
    inv_res Heqr. simplify_eq. unfold copy_content in Heqr0.
    repeat case_if_in Heqr0; try by apply write_content_missing in Heqr0. by simplify_eq.
  - destruct (consume_content_as_next_chunk p _). by intros [= <- <- <- <-].
  - unfold after_chunks. destruct (parse_chunks p _ ec) as [[[rc1 p1] ch] ec1]. case_if.
    + intros H. inv_res H. simplify_eq. by apply concatenate_chunks_missing in Heqr.
    + by intros [= <- <- <- <-].
  - by intros [= <- <- <- <-].
Qed.

Lemma parse_loop_missing fuel rc T p m ec rc' T' p' m' ec' :
  parse_loop fuel rc T p m ec = Some (Ok (rc', T', p', m', ec')) ->
  missing_view m' = missing_view m.
Proof.
  revert rc T p m ec. induction fuel as [|fuel IH]; intros rc T p m ec; [done|]. cbn [parse_loop].
  destruct (parse_pass rc p m ec) as [[[[rc1 p1] m1] ec1]|] eqn:E; [|done].
  apply parse_pass_missing in E. rewrite <- E.
  case_if; [apply IH | by intros [= <- <- <- <- <-]].
Qed.

Lemma note_missing_idem m m' :
  missing_view m' = missing_view (note_missing m) -> note_missing m' = m'.
Proof.
  unfold missing_view, note_missing. intros H. destruct (m_has_missing_packets m) eqn:E.
  - simpl in H. injection H as H1 H2. rewrite E in H1. rewrite H1.
    destruct m'. simpl in *. by subst.
  - injection H as H1 H2. by rewrite H1, E.
Qed.

(** More data behind a buffer that was not needed. *)
Definition append_unread (b : bytes) (r : res outcome) : res outcome :=
  match r with
  | Ok (rc, p, m, ec) => Ok (rc, with_m_read (m_read p ++ b) p, m, ec)
  | Fault f => Fault f
  end.

Lemma parse_end_append b rc T p m ec :
  parse_end (Ok (rc, T, with_m_read (m_read p ++ b) p, m, ec))
  = append_unread b (parse_end (Ok (rc, T, p, m, ec))).
Proof.
  unfold parse_end. rewrite with_m_read_io, conclude_io.
  pose proof (conclude_io rc (m_read p) (m_bytes_last_read p) (m_bytes_total_read p)
    (m_bytes_content_read p) p m) as E. rewrite io_self in E. rewrite E.
  by destruct (conclude rc p m) as [[p1 m1]|].
Qed.

Lemma lobs_parse_end r r' :
  lobs r = lobs r' -> parse_obs (parse_end <$> r) = parse_obs (parse_end <$> r').
Proof.
  destruct r as [[[[[[rc T] p] m] ec]|f]|], r' as [[[[[[rc' T'] p'] m'] ec']|f']|]; try done.
  unfold lobs. intros H.
  assert (obs (Ok (rc, p, m, ec)) = obs (Ok (rc', p', m', ec'))) as H' by congruence.
  clear H. rename H' into H. apply (obs_Ok_inv rc p m ec rc' p' m' ec') in H as (-> & Hf & -> & ->).
  cbn [fmap option_fmap option_map parse_obs]. f_equal. by apply parse_end_obs.
Qed.

Lemma parse_loop_handler fuel rc T p m ec rc' T' p' m' ec' :
  has_handler p = false -> parse_loop fuel rc T p m ec = Some (Ok (rc', T', p', m', ec')) ->
  has_handler p' = false.
Proof.
  revert rc T p m ec. induction fuel as [|fuel IH]; intros rc T p m ec Hh; [done|].
  cbn [parse_loop]. destruct (parse_pass rc p m ec) as [[[[rc1 p1] m1] ec1]|] eqn:E; [|done].
  apply parse_pass_handler in E; [|done].
  case_if; [by apply IH | by intros [= <- <- <- <- <-]].
Qed.

(** Cutting the data of a call of [parse] after a first piece. *)
Lemma parse_split b2 p m ec :
  has_handler p = false -> parser_inv p m -> m_read p <> [] -> b2 <> [] ->
  (exists p1 m1 ec1, parse p m ec = Some (Ok (indeterminate_value, p1, m1, ec1))
     /\ (has_handler p1 = false /\ parser_inv p1 m1)
     /\ parse_obs (parse (with_m_read (m_read p ++ b2) p) m ec)
        = parse_obs (parse (with_m_read b2 p1) m1 ec1))
  \/ (exists r, parse p m ec = Some r
        /\ (forall p1 m1 ec1, r <> Ok (indeterminate_value, p1, m1, ec1))
        /\ parse (with_m_read (m_read p ++ b2) p) m ec = Some (append_unread b2 r)).
Proof.
  intros Hh Hinv Hr Hb.
  assert (parser_inv p (note_missing m)) as Hinv1.
  { unfold note_missing. destruct (m_has_missing_packets m); [|done].
    by eapply parser_inv_payload; [|exact Hinv]. }
  assert (m_read (with_m_read (m_read p ++ b2) p) <> []) as Hr2
    by (simpl; by destruct (m_read p)).
  rewrite (parse_eq p), (parse_eq (with_m_read (m_read p ++ b2) p)) by done.
  destruct (parse_loop_enough parse_fuel indeterminate_value 0 p (note_missing m) ec) as [r E];
    [apply rank_below|].
  destruct r as [[[[[rc T] p1] m1] ec1]|f].
  2: { exfalso. destruct (parse_loop_safe _ _ _ _ _ indeterminate_value 0 p m ec _ Hinv1 E) as [H _].
       by apply (H f). }
  destruct (parse_loop_split parse_fuel 0 0 b2 p (note_missing m) ec rc T p1 m1 ec1 Hh Hinv1 Hr Hb
              (rank_below p) E) as [Hd Hi].
  rewrite E. cbn [fmap option_fmap option_map]. destruct (indeterminate rc) eqn:Er.
  - left. destruct rc; try discriminate. do 3 eexists. split; [reflexivity|]. split.
    { split; [by eapply (parse_loop_handler _ _ _ _ _ _ _ _ _ _ _ Hh) in E|].
      eapply parser_inv_counters; [| | |by eapply (parse_loop_safe _ _ _ _ _ _ _ _ _ _ _ Hinv1 E)];
        done. }
    rewrite parse_eq by done. rewrite (note_missing_idem m m1); [|by eapply parse_loop_missing].
    apply lobs_parse_end. rewrite (Hi eq_refl).
    apply parse_loop_lobs; [|apply rank_below..|done].
    exact (parse_loop_handler _ _ _ _ _ _ _ _ _ _ _ Hh E).
  - right. eexists. split; [reflexivity|]. split.
    + intros p2 m2 ec2 H. cbn [parse_end] in H. destruct (conclude rc p1 m1) as [[? ?]|]; [|done].
      cbn [mbind res_bind] in H. by simplify_eq.
    + rewrite (Hd eq_refl). cbn [fmap option_fmap option_map]. f_equal. apply parse_end_append.
Qed.

(** The pieces of a stream, parsed one after the other while more data is wanted. *)
Fixpoint feed (pieces : list bytes) (p : parser) (m : message) (ec : error_code)
  : option (res outcome) :=
  match pieces with
  | [] => Some (Ok (indeterminate_value, p, m, ec))
  | b :: pieces' =>
      match parse (with_m_read b p) m ec with
      | Some (Ok (indeterminate_value, p', m', ec')) => feed pieces' p' m' ec'
      | Some r => Some (append_unread (mjoin pieces') r)
      | None => None
      end
  end.

Lemma feed_whole pieces p m ec :
  has_handler p = false -> parser_inv p m ->
  pieces <> [] -> Forall (fun b => b <> []) pieces ->
  parse_obs (feed pieces p m ec) = parse_obs (parse (with_m_read (mjoin pieces) p) m ec).
Proof.
  revert p m ec. induction pieces as [|b pieces IH]; intros p m ec Hh Hinv Hne Hall; [done|].
  inversion Hall as [|? ? Hb Hall']; subst. cbn [feed].
  destruct (decide (pieces = [])) as [->|Hp].
  { change (mjoin [b]) with (b ++ []). rewrite app_nil_r.
    destruct (parse (with_m_read b p) m ec) as [[[[[rc p1] m1] ec1]|f]|]; [|done..].
    destruct rc; try done; simpl; rewrite app_nil_r; by destruct p1. }
  assert (parser_inv (with_m_read b p) m) as Hinv'
    by (by eapply parser_inv_counters; [| | |exact Hinv]).
  assert (mjoin pieces <> []) as Hj.
  { destruct pieces as [|b' pieces]; [done|]. inversion Hall'; subst.
    change (mjoin (b' :: pieces)) with (b' ++ mjoin pieces). by destruct b'. }
  change (mjoin (b :: pieces)) with (b ++ mjoin pieces).
  destruct (parse_split (mjoin pieces) (with_m_read b p) m ec Hh Hinv' Hb Hj)
    as [(p1 & m1 & ec1 & -> & [Hh1 Hinv1] & Ho) | (r & -> & Hnot & E)].
  - etransitivity; [|symmetry; exact Ho]. by apply IH.
  - change (with_m_read (m_read (with_m_read b p) ++ mjoin pieces) (with_m_read b p))
      with (with_m_read (b ++ mjoin pieces) p) in E. rewrite E. destruct r as [[[[rc p1] m1] ec1]|f]; [|done].
    destruct rc; try done. by destruct (Hnot p1 m1 ec1).
Qed.

(** C4: the result of parsing does not depend on how the stream is cut into pieces.
    Whatever the pieces (at least one, none empty), parsing them one after the other while
    the parser wants more data has the outcome of parsing the whole stream at once: the
    same result, message, error and parser state (up to the counter of the last read and,
    after an error, the byte totals), with the same bytes left unread.  It holds in every
    state the parser can be in, without a payload handler. *)
Theorem parse_stream pieces p m ec :
  has_handler p = false -> parser_inv p m ->
  pieces <> [] -> Forall (fun b => b <> []) pieces ->
  parse_obs (feed pieces p m ec) = parse_obs (parse (with_m_read (mjoin pieces) p) m ec).
Proof. apply feed_whole. Qed.

Lemma parse_stream_witness :
  let pieces := [str "POST / HT"; str "TP/1.1" ++ [CR; LF] ++ str "Content-Length: 3" ++ [CR];
                 [LF; CR; LF]; str "a"; str "bcGET"] in
  parse_obs (feed pieces (new_parser true 100) new_request None)
  = parse_obs (parse (with_m_read (mjoin pieces) (new_parser true 100)) new_request None).
Proof.
  intros pieces. apply parse_stream.
  - reflexivity.
  - apply (new_parser_safe true 100 (m_kind new_request)); [lia | reflexivity].
  - discriminate.
  - repeat constructor; discriminate.
Defined.

(** ** Reading a message from a stream *)

(** The error codes of [message::read]. *)
Inductive read_error := parse_error (e : error_value_t) | io_error.

(** What [message::read] leaves: the result of the last parse, the error code, the parser,
    the message, and the characters that are still in the stream. *)
Record read_result := mk_read_result {
  r_result : tribool;
  r_error : option read_error;
  r_parser : parser;
  r_message : message;
  r_stream : bytes
}.

(** The [while] loop: one character at a time.  [parse_result] is the result of the
    previous character (a new [tribool] is false). *)
Fixpoint read_loop (parse_result : tribool) (input : bytes) (p : parser) (m : message)
    (ec : error_code) : option (res read_result) :=
  match input with
  | [] => Some (Ok (mk_read_result parse_result (Some io_error) p m []))
  | c :: input' =>
      match parse (set_read_buffer [c] p) m ec with
      | None => None
      | Some (Fault f) => Some (Fault f)
      | Some (Ok (rc, p, m, ec)) =>
          if indeterminate rc then read_loop rc input' p m ec
          else Some (Ok (mk_read_result rc (parse_error <$> ec) p m input'))
      end
  end.

(** [message::read(in, ec, http_parser)]; the size it returns is
    [m_bytes_total_read]. *)
Definition message_read (input : bytes) (p : parser) (m : message) : option (res read_result) :=
  match read_loop false_value input p (clear m) None with
  | None => None
  | Some (Fault f) => Some (Fault f)
  | Some (Ok r) =>
      if indeterminate (r_result r) then
        Some (e ← check_premature_eof (r_parser r) (r_message r);
              match e with
              | (true, p, m) =>
                  Ok (mk_read_result (r_result r) (Some (default io_error (r_error r))) p m
                        (r_stream r))
              | (false, p, m) => Ok (mk_read_result true_value None p m (r_stream r))
              end)
      else Some (Ok r)
  end.

(** [message::read(in, ec, headers_only, max_content_length)]: with a parser of its own. *)
Definition message_read_new (input : bytes) (headers_only : bool) (max_content_length : Z)
    (m : message) : option (res read_result) :=
  message_read input
    (set_max_content_length max_content_length
       (parse_headers_only headers_only (new_parser (is_request m) DEFAULT_CONTENT_MAX))) m.

(** The loop is [feed] on the single characters. *)
Lemma read_loop_feed parse_result input p m ec :
  input <> [] ->
  match feed ((fun c => [c]) <$> input) p m ec with
  | Some (Ok (rc, p', m', ec')) =>
      exists r, read_loop parse_result input p m ec = Some (Ok r)
        /\ r_result r = rc /\ r_message r = m'
        /\ (if indeterminate rc
            then r_parser r = p' /\ r_stream r = [] /\ r_error r = Some io_error
            else p' = with_m_read (m_read (r_parser r) ++ r_stream r) (r_parser r)
                 /\ r_error r = parse_error <$> ec')
  | Some (Fault f) => read_loop parse_result input p m ec = Some (Fault f)
  | None => read_loop parse_result input p m ec = None
  end.
Proof.
  revert parse_result p m ec. induction input as [|c input IH]; intros pr p m ec Hne; [done|].
  cbn [fmap list_fmap feed read_loop]. unfold set_read_buffer.
  destruct (parse (with_m_read [c] p) m ec) as [[[[[rc p1] m1] ec1]|f]|]; [|done..].
  assert (mjoin ((fun c => [c]) <$> input) = input) as Hj.
  { clear. induction input as [|c input IH]; [done|]. cbn. by f_equal. }
  destruct rc; cbn [indeterminate append_unread].
  - eexists. split; [reflexivity|]. cbn. by rewrite Hj.
  - eexists. split; [reflexivity|]. cbn. by rewrite Hj.
  - destruct input as [|d input]; [|by apply IH]. cbn [fmap list_fmap feed read_loop indeterminate].
    eexists. split; [reflexivity|]. done.
Qed.

(** [message::read], which feeds the parser one character at a time, finishes or
    fails exactly when parsing the whole stream at once does, with the same message and
    error, and the characters it has not consumed are the same. *)
Theorem message_read_whole input p m rc p1 m1 ec1 :
  has_handler p = false -> parser_inv p (clear m) -> input <> [] ->
  parse (with_m_read input p) (clear m) None = Some (Ok (rc, p1, m1, ec1)) ->
  indeterminate rc = false ->
  exists r, message_read input p m = Some (Ok r)
            /\ r_result r = rc /\ r_message r = m1 /\ r_error r = parse_error <$> ec1
            /\ m_read (r_parser r) ++ r_stream r = m_read p1.
Proof.
  intros Hh Hinv Hne Hp Hrc.
  assert (mjoin ((fun c => [c]) <$> input) = input) as Hj.
  { clear. induction input as [|c input IH]; [done|]. cbn. by f_equal. }
  assert (parse_obs (feed ((fun c => [c]) <$> input) p (clear m) None)
          = parse_obs (Some (Ok (rc, p1, m1, ec1)))) as Hf.
  { rewrite <- Hp. pose proof (feed_whole ((fun c => [c]) <$> input) p (clear m) None Hh Hinv) as H.
    rewrite Hj in H. apply H.
    - by destruct input.
    - clear. induction input; constructor; done. }
  pose proof (read_loop_feed false_value input p (clear m) None Hne) as Hr.
  unfold message_read. revert Hr Hf.
  destruct (feed _ p (clear m) None) as [[[[[rc2 p2] m2] ec2]|f]|]; [|done..]. intros Hr Hf.
  assert (obs (Ok (rc, p1, m1, ec1)) = obs (Ok (rc2, p2, m2, ec2))) as Ho
    by (apply (inj Some); exact (eq_sym Hf)).
  apply obs_Ok_inv in Ho as (-> & Hp2 & -> & ->).
  destruct Hr as (r & -> & Hres & Hm & Hr). rewrite Hres, Hrc in *. destruct Hr as [E1 E2].
  exists r. split; [done|]. split; [done|]. split; [done|]. split; [done|].
  destruct (forget_io _ _ _ Hp2) as [Hread _]. rewrite <- Hread, E1. done.
Qed.

(** A request followed by other data. *)
Definition sample_stream : bytes := str "GET /x HTTP/1.1" ++ [CR; LF; CR; LF] ++ str "rest".

Lemma message_read_whole_witness :
  exists r, message_read sample_stream (new_parser true 100) new_request = Some (Ok r)
            /\ r_result r = true_value /\ r_error r = None
            /\ m_read (r_parser r) ++ r_stream r = str "rest".
Proof.
  let o := eval vm_compute in (parse (with_m_read sample_stream (new_parser true 100))
                                 (clear new_request) None) in
  match o with
  | Some (Ok (?rc, ?p1, ?m1, ?ec1)) =>
      destruct (message_read_whole sample_stream (new_parser true 100) new_request rc p1 m1 ec1)
        as (r & Hr & Hrc & _ & Hec & Hrest)
  end.
  - reflexivity.
  - apply (new_parser_safe true 100 (m_kind (clear new_request))); [lia | reflexivity].
  - discriminate.
  - vm_compute. reflexivity.
  - reflexivity.
  - exists r. split; [exact Hr|]. split; [exact Hrc|]. split; [exact Hec | exact Hrest].
Defined.
