(* ===== verification/ParserRoundTrip.v ===== *)
(** * Writing a message and parsing it

    The text [message::write] produces (src/http_message.cpp, include/pion/http/message.hpp)
    is parsed by [http::parser] into the same message.  The file follows the header
    automaton over the parts of a message: start line, header lines, blank line. *)
From S2P Require Import Prelude CLib StringUtils Dict Tribool HttpTypes Message ParserBase.
From S2P Require Import ParserHeaders ParserForms ParserBody Parser ParserSafety ParserStream.

(** ** Runs of the header automaton *)

(** Reading [s] takes the automaton from one configuration to another. *)
Definition run_to (p : parser) (m : message) (s : bytes) (p' : parser) (m' : message) : Prop :=
  forall rest, parse_headers_loop (s ++ rest) p m = parse_headers_loop rest p' m'.

Lemma run_nil p m : run_to p m [] p m.
Proof. done. Qed.

Lemma run_app p m s p1 m1 t p2 m2 :
  run_to p m s p1 m1 -> run_to p1 m1 t p2 m2 -> run_to p m (s ++ t) p2 m2.
Proof. intros H1 H2 rest. by rewrite <- app_assoc, H1, H2. Qed.

Lemma run_one p m c p' m' :
  m_save_raw_headers p = false -> headers_step c p m = HNext p' m' -> run_to p m [c] p' m'.
Proof. intros Hr Hs rest. cbn [app parse_headers_loop]. unfold save_raw. by rewrite Hr, Hs. Qed.

Lemma run_cons p m c p1 m1 s p2 m2 :
  m_save_raw_headers p = false -> headers_step c p m = HNext p1 m1 ->
  run_to p1 m1 s p2 m2 -> run_to p m (c :: s) p2 m2.
Proof. intros Hr Hs H. by apply (run_app p m [c] p1 m1 s), H; apply run_one. Qed.

(** A state that collects characters into a member of the parser. *)
Section accumulate.
Context (st : header_parse_state_t) (cls : char -> bool) (max : Z).
Context (get : parser -> bytes) (upd : bytes -> parser -> parser).
Context (get_upd : forall v p, get (upd v p) = v).
Context (upd_upd : forall v w p, upd v (upd w p) = upd v p).
Context (upd_get : forall p, upd (get p) p = p).
Context (upd_state : forall v p, m_headers_parse_state (upd v p) = m_headers_parse_state p).
Context (upd_raw : forall v p, m_save_raw_headers (upd v p) = m_save_raw_headers p).
Context (step : forall c p m,
  m_headers_parse_state p = st -> cls c = true -> zlen (get p) < max ->
  headers_step c p m = HNext (upd (get p ++ [c]) p) m).

Lemma run_accumulate s p m :
  m_save_raw_headers p = false -> m_headers_parse_state p = st ->
  Forall (fun c => cls c = true) s -> zlen (get p) + zlen s <= max ->
  run_to p m s (upd (get p ++ s) p) m.
Proof.
  intros Hr Hst Hs. revert p Hr Hst. induction Hs as [|c s Hc Hs IH]; intros p Hr Hst Hm.
  - rewrite app_nil_r, upd_get. apply run_nil.
  - rewrite zlen_cons in Hm. pose proof (zlen_nonneg s).
    eapply run_cons; [done | apply step; [done | done | lia] |].
    specialize (IH (upd (get p ++ [c]) p)). rewrite get_upd, upd_upd, <- app_assoc in IH.
    apply IH; [by rewrite upd_raw | by rewrite upd_state |]. rewrite zlen_snoc. lia.
Qed.
End accumulate.

(** Each collecting state, with the characters it accepts. *)
Definition uri_char (c : char) : bool :=
  negb (is_control c) && (c <>c SP) && (c <>c "?"%byte).
Definition query_char (c : char) : bool := negb (is_control c) && (c <>c SP).

Ltac by_step :=
  clear; intros c p m Hst Hc Hz; unfold headers_step; rewrite Hst.

Lemma token_char_sep c :
  token_char c = true ->
  (c =c SP) = false /\ (c =c CR) = false /\ (c =c LF) = false /\ (c =c TAB) = false
  /\ (c =c ":"%byte) = false /\ not_token c = false.
Proof. by_all_chars c; auto 10. Qed.

Lemma text_char_sep c :
  text_char c = true -> (c =c CR) = false /\ (c =c LF) = false /\ is_control c = false.
Proof. by_all_chars c; auto 10. Qed.

Lemma value_char_sep c :
  value_char c = true ->
  (c =c CR) = false /\ (c =c LF) = false /\ (c <>c TAB) && is_control c = false.
Proof. by_all_chars c; auto 10. Qed.

Lemma uri_char_sep c :
  uri_char c = true ->
  (c =c SP) = false /\ (c =c "?"%byte) = false /\ (c =c CR) = false /\ (c =c LF) = false
  /\ is_control c = false.
Proof. by_all_chars c; auto 10. Qed.

Lemma query_char_sep c :
  query_char c = true ->
  (c =c SP) = false /\ (c =c CR) = false /\ (c =c LF) = false /\ is_control c = false.
Proof. by_all_chars c; auto 10. Qed.

Lemma run_method s p m :
  m_save_raw_headers p = false -> m_headers_parse_state p = PARSE_METHOD ->
  Forall (fun c => token_char c = true) s -> zlen (m_method p) + zlen s <= METHOD_MAX ->
  run_to p m s (with_m_method (m_method p ++ s) p) m.
Proof.
  apply (run_accumulate PARSE_METHOD token_char METHOD_MAX m_method with_m_method);
    try done; [by intros []|].
  by_step. destruct (token_char_sep c Hc) as (E1 & _ & _ & _ & _ & E6). unfold step_method.
  rewrite E1, E6. by replace (METHOD_MAX <=? _) with false by lia.
Qed.

Lemma run_resource s p m :
  m_save_raw_headers p = false -> m_headers_parse_state p = PARSE_URI_STEM ->
  Forall (fun c => uri_char c = true) s -> zlen (m_resource p) + zlen s <= RESOURCE_MAX ->
  run_to p m s (with_m_resource (m_resource p ++ s) p) m.
Proof.
  apply (run_accumulate PARSE_URI_STEM uri_char RESOURCE_MAX m_resource with_m_resource);
    try done; [by intros []|].
  by_step. destruct (uri_char_sep c Hc) as (E1 & E2 & E3 & E4 & E5). unfold step_uri_stem.
  rewrite E1, E2, E3, E4, E5. by replace (RESOURCE_MAX <=? _) with false by lia.
Qed.

Lemma run_query s p m :
  m_save_raw_headers p = false -> m_headers_parse_state p = PARSE_URI_QUERY ->
  Forall (fun c => query_char c = true) s -> zlen (m_query_string p) + zlen s <= QUERY_STRING_MAX ->
  run_to p m s (with_m_query_string (m_query_string p ++ s) p) m.
Proof.
  apply (run_accumulate PARSE_URI_QUERY query_char QUERY_STRING_MAX m_query_string
           with_m_query_string); try done; [by intros []|].
  by_step. destruct (query_char_sep c Hc) as (E1 & E2 & E3 & E4). unfold step_uri_query.
  rewrite E1, E2, E3, E4. by replace (QUERY_STRING_MAX <=? _) with false by lia.
Qed.

Lemma run_status_message s p m :
  m_save_raw_headers p = false -> m_headers_parse_state p = PARSE_STATUS_MESSAGE ->
  Forall (fun c => text_char c = true) s ->
  zlen (m_status_message p) + zlen s <= STATUS_MESSAGE_MAX ->
  run_to p m s (with_m_status_message (m_status_message p ++ s) p) m.
Proof.
  apply (run_accumulate PARSE_STATUS_MESSAGE text_char STATUS_MESSAGE_MAX m_status_message
           with_m_status_message); try done; [by intros []|].
  by_step. destruct (text_char_sep c Hc) as (E1 & E2 & E3). unfold step_status_message.
  rewrite E1, E2, E3. by replace (STATUS_MESSAGE_MAX <=? _) with false by lia.
Qed.

Lemma run_header_name s p m :
  m_save_raw_headers p = false -> m_headers_parse_state p = PARSE_HEADER_NAME ->
  Forall (fun c => token_char c = true) s -> zlen (m_header_name p) + zlen s <= HEADER_NAME_MAX ->
  run_to p m s (with_m_header_name (m_header_name p ++ s) p) m.
Proof.
  apply (run_accumulate PARSE_HEADER_NAME token_char HEADER_NAME_MAX m_header_name
           with_m_header_name); try done; [by intros []|].
  by_step. destruct (token_char_sep c Hc) as (_ & _ & _ & _ & E5 & E6). unfold step_header_name.
  rewrite E5, E6. by replace (HEADER_NAME_MAX <=? _) with false by lia.
Qed.

Lemma run_header_value s p m :
  m_save_raw_headers p = false -> m_headers_parse_state p = PARSE_HEADER_VALUE ->
  Forall (fun c => value_char c = true) s -> zlen (m_header_value p) + zlen s <= HEADER_VALUE_MAX ->
  run_to p m s (with_m_header_value (m_header_value p ++ s) p) m.
Proof.
  apply (run_accumulate PARSE_HEADER_VALUE value_char HEADER_VALUE_MAX m_header_value
           with_m_header_value); try done; [by intros []|].
  by_step. destruct (value_char_sep c Hc) as (E1 & E2 & E3). unfold step_header_value.
  rewrite E1, E2, E3. by replace (HEADER_VALUE_MAX <=? _) with false by lia.
Qed.

(** ** Numbers *)

(** The value the automaton computes from digits after [a]. *)
Definition digits_value (a : Z) (s : bytes) : Z := foldl (fun a c => a * 10 + digit c) a s.

Lemma digit_digit_char d : 0 <= d < 10 -> is_digit (digit_char d) = true /\ digit (digit_char d) = d.
Proof.
  intros Hd.
  assert (forall i, 0 <= i < Z.of_nat 10 ->
    is_digit (digit_char i) && (digit (digit_char i) =? i) = true) as H
    by (apply (Z_below 10 (fun i => is_digit (digit_char i) && (digit (digit_char i) =? i)));
        reflexivity).
  specialize (H d Hd). reflect_bools. auto.
Qed.

Lemma scan_digits_value s a :
  Forall (fun c => exists d, 0 <= d < 10 /\ c = digit_char d) s ->
  scan_digits 10 (Some a) s = Some (digits_value a s).
Proof.
  intros Hs. revert a. induction Hs as [|c s (d & Hd & ->) Hs IH]; intros a; [done|].
  simpl. rewrite digit_value_digit_char by lia. rewrite IH.
  unfold digits_value. simpl. by rewrite (proj2 (digit_digit_char d Hd)).
Qed.

(** A printed number: a first digit and the rest, with its value. *)
Lemma to_string_split n :
  0 <= n <= ULONG_MAX ->
  exists d s, to_string n = digit_char d :: s /\ 0 <= d < 10
    /\ Forall (fun c => exists d, 0 <= d < 10 /\ c = digit_char d) s
    /\ digits_value d s = n.
Proof.
  intros Hn. unfold to_string. assert (n < 10 ^ Z.of_nat 20) by (unfold ULONG_MAX in Hn; simpl; lia).
  pose proof (to_digits_chars 10 ltac:(lia) 20 n ltac:(lia)) as Hc.
  pose proof (to_digits_nonempty 10 20 n ltac:(lia)) as Hne.
  destruct (scan_printed 10 ltac:(lia) 20 n) as [_ E]; [lia..|].
  destruct (to_digits 10 20 n []) as [|c s]; [done|].
  inversion Hc as [|? ? (d & Hd & ->) Hs]; subst. exists d, s. split; [done|]. split; [done|].
  split; [done|]. cbn [scan_digits] in E. rewrite digit_value_digit_char in E by lia.
  rewrite scan_digits_value in E by done. cbn [default] in E.
  rewrite Z.mul_0_l, Z.add_0_l in E. by injection E.
Qed.

Lemma digits_value_mono s a :
  Forall (fun c => exists d, 0 <= d < 10 /\ c = digit_char d) s -> 0 <= a -> a <= digits_value a s.
Proof.
  intros Hs. revert a. induction Hs as [|c s (d & Hd & ->) Hs IH]; intros a Ha; [done|].
  unfold digits_value in *. simpl. rewrite (proj2 (digit_digit_char d Hd)).
  specialize (IH (a * 10 + d)). lia.
Qed.

Lemma u16_small z : 0 <= z < 2 ^ 16 -> u16 z = z.
Proof. apply Z.mod_small. Qed.

Lemma digit_sep d :
  0 <= d < 10 ->
  (digit_char d =c "."%byte) = false /\ (digit_char d =c SP) = false
  /\ (digit_char d =c CR) = false /\ (digit_char d =c LF) = false.
Proof.
  intros Hd.
  assert (forall i, 0 <= i < Z.of_nat 10 ->
    negb ((digit_char i =c "."%byte) || (digit_char i =c SP) || (digit_char i =c CR)
          || (digit_char i =c LF)) = true) as H
    by (apply (Z_below 10 (fun i => negb ((digit_char i =c "."%byte) || (digit_char i =c SP)
          || (digit_char i =c CR) || (digit_char i =c LF)))); reflexivity).
  specialize (H d Hd). apply negb_true_iff in H. rewrite !orb_false_iff in H. tauto.
Qed.

Lemma run_major s a p m :
  m_save_raw_headers p = false -> m_headers_parse_state p = PARSE_HTTP_VERSION_MAJOR ->
  Forall (fun c => exists d, 0 <= d < 10 /\ c = digit_char d) s ->
  0 <= a -> digits_value a s < 2 ^ 16 ->
  run_to p (set_version_major a m) s p (set_version_major (digits_value a s) m).
Proof.
  intros Hr Hst Hs. revert a. induction Hs as [|c s (d & Hd & ->) Hs IH]; intros a Ha Hv;
    [apply run_nil|].
  destruct (digit_digit_char d Hd) as [E1 E2]. destruct (digit_sep d Hd) as (E3 & _).
  pose proof (digits_value_mono s (a * 10 + d) Hs ltac:(lia)) as Hmono.
  assert (digits_value a (digit_char d :: s) = digits_value (a * 10 + d) s) as Hdv
    by (unfold digits_value; simpl; by rewrite E2).
  rewrite Hdv in *. eapply run_cons; [done | |apply (IH (a * 10 + d)); lia].
  unfold headers_step. rewrite Hst. unfold step_version_major. rewrite E3, E1, E2.
  change (m_version_major (set_version_major a m)) with (u16 a). by rewrite u16_small by lia.
Qed.

Lemma run_minor s a p m :
  m_save_raw_headers p = false -> m_headers_parse_state p = PARSE_HTTP_VERSION_MINOR ->
  Forall (fun c => exists d, 0 <= d < 10 /\ c = digit_char d) s ->
  0 <= a -> digits_value a s < 2 ^ 16 ->
  run_to p (set_version_minor a m) s p (set_version_minor (digits_value a s) m).
Proof.
  intros Hr Hst Hs. revert a. induction Hs as [|c s (d & Hd & ->) Hs IH]; intros a Ha Hv;
    [apply run_nil|].
  destruct (digit_digit_char d Hd) as [E1 E2]. destruct (digit_sep d Hd) as (_ & E4 & E5 & E6).
  pose proof (digits_value_mono s (a * 10 + d) Hs ltac:(lia)) as Hmono.
  assert (digits_value a (digit_char d :: s) = digits_value (a * 10 + d) s) as Hdv
    by (unfold digits_value; simpl; by rewrite E2).
  rewrite Hdv in *. eapply run_cons; [done | |apply (IH (a * 10 + d)); lia].
  unfold headers_step. rewrite Hst. unfold step_version_minor. rewrite E4, E5, E6, E1, E2.
  change (m_version_minor (set_version_minor a m)) with (u16 a). by rewrite u16_small by lia.
Qed.

Lemma run_status_code s a p m :
  m_save_raw_headers p = false -> m_headers_parse_state p = PARSE_STATUS_CODE ->
  Forall (fun c => exists d, 0 <= d < 10 /\ c = digit_char d) s ->
  0 <= a -> digits_value a s < 2 ^ 16 ->
  run_to (with_m_status_code a p) m s (with_m_status_code (digits_value a s) p) m.
Proof.
  intros Hr Hst Hs. revert a. induction Hs as [|c s (d & Hd & ->) Hs IH]; intros a Ha Hv;
    [apply run_nil|].
  destruct (digit_digit_char d Hd) as [E1 E2]. destruct (digit_sep d Hd) as (_ & E4 & _).
  pose proof (digits_value_mono s (a * 10 + d) Hs ltac:(lia)) as Hmono.
  assert (digits_value a (digit_char d :: s) = digits_value (a * 10 + d) s) as Hdv
    by (unfold digits_value; simpl; by rewrite E2).
  rewrite Hdv in *. eapply run_cons; [done | |apply (IH (a * 10 + d)); lia].
  unfold headers_step. change (m_headers_parse_state (with_m_status_code a p))
    with (m_headers_parse_state p). rewrite Hst. unfold step_status_code. rewrite E4, E1, E2.
  change (m_status_code (with_m_status_code a p)) with a. by rewrite u16_small by lia.
Qed.

(** The version string, from the state that expects the letter H.  [goto] ends in the
    state after the minor number. *)
Lemma run_version major minor p m :
  m_save_raw_headers p = false -> m_headers_parse_state p = PARSE_HTTP_VERSION_H ->
  0 <= major < 2 ^ 16 -> 0 <= minor < 2 ^ 16 ->
  run_to p m (STRING_HTTP_VERSION ++ to_string major ++ "."%byte :: to_string minor)
    (goto PARSE_HTTP_VERSION_MINOR p)
    (set_version_minor minor (set_version_major major m)).
Proof.
  intros Hr Hst Hmaj Hmin.
  destruct (to_string_split major) as (d & s & -> & Hd & Hs & Hv); [unfold ULONG_MAX; lia|].
  destruct (to_string_split minor) as (e & t & -> & He & Ht & Hw); [unfold ULONG_MAX; lia|].
  destruct (digit_digit_char d Hd) as [D1 D2]. destruct (digit_digit_char e He) as [F1 F2].
  apply (run_app _ _ _ (goto PARSE_HTTP_VERSION_MAJOR_START p) m).
  { unfold STRING_HTTP_VERSION. eapply run_cons; [done | |].
    { unfold headers_step. rewrite Hst. reflexivity. }
    do 4 (eapply run_cons; [done | reflexivity |]). apply run_nil. }
  cbn [app]. eapply run_cons; [done | |].
  { unfold headers_step. cbn [goto m_headers_parse_state with_m_headers_parse_state].
    unfold step_version_major_start. rewrite D1, D2. reflexivity. }
  eapply run_app; [apply run_major; [done | done | done | lia | lia]|]. rewrite Hv.
  eapply run_cons; [done | reflexivity |].
  eapply run_cons; [done | |].
  { unfold headers_step. cbn [goto m_headers_parse_state with_m_headers_parse_state].
    unfold step_version_minor_start. rewrite F1, F2. reflexivity. }
  rewrite <- Hw. apply (run_minor t e (goto PARSE_HTTP_VERSION_MINOR p)); (done || lia).
Qed.

(** ** Start lines *)

Lemma run_eq s t p m p' m' : s = t -> run_to p m s p' m' -> run_to p m t p' m'.
Proof. by intros ->. Qed.

(** What the start line leaves in the parser. *)
Definition start_view (p : parser) :=
  (m_is_request p, m_method p, m_resource p, m_query_string p, m_status_code p,
   m_status_message p, m_save_raw_headers p).

Definition request_line (method resource query : bytes) (major minor : Z) : bytes :=
  method ++ [SP] ++ resource ++ (if bool_decide (query = []) then [] else ["?"%byte] ++ query)
  ++ [SP] ++ STRING_HTTP_VERSION ++ to_string major ++ "."%byte :: to_string minor.

Record request_line_ok (method resource query : bytes) (major minor : Z) : Prop := mk_rl_ok {
  rl_method : method <> [] /\ bounded token_char METHOD_MAX method;
  rl_resource : bounded uri_char RESOURCE_MAX resource;
  rl_query : bounded query_char QUERY_STRING_MAX query;
  rl_major : 0 < major < 2 ^ 16;
  rl_minor : 0 <= minor < 2 ^ 16
}.

(** A new parser whose buffer holds the message, when [parse] starts on the headers. *)
Definition fresh (request : bool) (max : Z) (data : bytes) : parser :=
  with_m_read data (mgoto PARSE_HEADERS (new_parser request max)).

Lemma run_request_line method resource query major minor max data m :
  request_line_ok method resource query major minor ->
  exists p', run_to (fresh true max data) m
               (request_line method resource query major minor ++ STRING_CRLF) p'
               (set_version_minor minor (set_version_major major m))
             /\ m_headers_parse_state p' = PARSE_HEADER_START
             /\ start_view p' = (true, method, resource, query, 0, [], false).
Proof.
  intros [[Hne [Hm1 Hm2]] [Hr1 Hr2] [Hq1 Hq2] Hmaj Hmin].
  destruct method as [|c method]; [done|]. inversion Hm1 as [|? ? Hc Hm1']; subst.
  rewrite zlen_cons in Hm2. set (p0 := fresh true max data).
  destruct (token_char_sep c Hc) as (E1 & E2 & E3 & _ & _ & E6).
  set (p1 := with_m_method [c] (goto PARSE_METHOD p0)).
  set (p2 := with_m_resource [] (goto PARSE_URI_STEM (with_m_method (c :: method) p1))).
  set (p3 := with_m_resource resource p2).
  set (p4 := goto PARSE_HTTP_VERSION_H (with_m_query_string query p3)).
  set (p5 := goto PARSE_HTTP_VERSION_MINOR p4).
  set (m5 := set_version_minor minor (set_version_major major m)).
  assert (run_to p0 m (c :: method) (with_m_method (c :: method) p1) m) as R1.
  { eapply run_cons; [done | |].
    { unfold headers_step. change (m_headers_parse_state p0) with PARSE_METHOD_START.
      unfold step_method_start. rewrite E1, E2, E3, E6. reflexivity. }
    apply (run_method method p1); [done | done | done |].
    change (m_method p1) with [c]. rewrite zlen_cons, zlen_nil. lia. }
  assert (run_to (with_m_method (c :: method) p1) m [SP] p2 m) as R2 by (by apply run_one).
  assert (run_to p2 m resource p3 m) as R3
    by (apply (run_resource resource p2); (done || by rewrite zlen_nil)).
  assert (run_to p3 m (if bool_decide (query = []) then [SP] else "?"%byte :: query ++ [SP]) p4 m)
    as R4.
  { case_bool_decide as Eq; [subst query; by apply run_one|].
    eapply (run_cons _ _ _ (goto PARSE_URI_QUERY (with_m_query_string [] p3)) m); [done | done |].
    eapply run_app; [apply run_query; (done || by rewrite zlen_nil)|]. by apply run_one. }
  assert (run_to p4 m (STRING_HTTP_VERSION ++ to_string major ++ "."%byte :: to_string minor) p5 m5)
    as R5 by (apply run_version; (done || lia)).
  assert (run_to p5 m5 STRING_CRLF (goto PARSE_HEADER_START p5) m5) as R6.
  { eapply run_cons; [done | reflexivity |]. apply run_one; [done|].
    unfold headers_step. cbn [goto m_headers_parse_state with_m_headers_parse_state].
    unfold step_expecting_newline. cbn [m_is_request goto with_m_headers_parse_state].
    change (m_version_major m5) with (u16 major). rewrite u16_small by lia.
    by replace (major =? 0) with false by lia. }
  exists (goto PARSE_HEADER_START p5). split; [|done].
  eapply run_eq; [|exact (run_app _ _ _ _ _ _ _ _ R1 (run_app _ _ _ _ _ _ _ _ R2
    (run_app _ _ _ _ _ _ _ _ R3 (run_app _ _ _ _ _ _ _ _ R4
      (run_app _ _ _ _ _ _ _ _ R5 R6)))))].
  unfold request_line. case_bool_decide; rewrite <- !app_assoc; simpl; by rewrite <- ?app_assoc.
Qed.

Definition status_line (code : Z) (text : bytes) (major minor : Z) : bytes :=
  (STRING_HTTP_VERSION ++ to_string major ++ "."%byte :: to_string minor)
  ++ [SP] ++ to_string code ++ [SP] ++ text.

Record status_line_ok (code : Z) (text : bytes) (major minor : Z) : Prop := mk_sl_ok {
  sl_code : 0 <= code < 2 ^ 16;
  sl_text : bounded text_char STATUS_MESSAGE_MAX text;
  sl_major : 0 <= major < 2 ^ 16;
  sl_minor : 0 <= minor < 2 ^ 16
}.

Lemma run_status_line code text major minor max data m :
  status_line_ok code text major minor ->
  exists p', run_to (fresh false max data) m (status_line code text major minor ++ STRING_CRLF) p'
               (set_version_minor minor (set_version_major major m))
             /\ m_headers_parse_state p' = PARSE_HEADER_START
             /\ start_view p' = (false, [], [], [], code, text, false).
Proof.
  intros [Hcode [Ht1 Ht2] Hmaj Hmin]. set (p0 := fresh false max data).
  set (p1 := goto PARSE_HTTP_VERSION_MINOR p0).
  set (m1 := set_version_minor minor (set_version_major major m)).
  set (p2 := goto PARSE_STATUS_CODE p1).
  set (p3 := goto PARSE_STATUS_MESSAGE (with_m_status_message [] (with_m_status_code code p2))).
  set (p4 := with_m_status_message text p3).
  destruct (to_string_split code) as (d & s & Es & Hd & Hs & Hv); [unfold ULONG_MAX; lia|].
  destruct (digit_digit_char d Hd) as [D1 D2].
  assert (run_to p0 m (STRING_HTTP_VERSION ++ to_string major ++ "."%byte :: to_string minor) p1 m1)
    as R1 by (by apply run_version).
  assert (run_to p1 m1 [SP] (goto PARSE_STATUS_CODE_START p1) m1) as R2 by (by apply run_one).
  assert (run_to (goto PARSE_STATUS_CODE_START p1) m1 (to_string code) (with_m_status_code code p2) m1)
    as R3.
  { rewrite Es. eapply (run_cons _ _ _ (with_m_status_code d p2) m1); [done | |].
    { unfold headers_step. cbn [goto m_headers_parse_state with_m_headers_parse_state].
      unfold step_status_code_start. rewrite D1, D2, u16_small by lia. reflexivity. }
    rewrite <- Hv. apply (run_status_code s d p2); (done || lia). }
  assert (run_to (with_m_status_code code p2) m1 [SP] p3 m1) as R4 by (by apply run_one).
  assert (run_to p3 m1 text p4 m1) as R5
    by (apply (run_status_message text p3); (done || by rewrite zlen_nil)).
  assert (run_to p4 m1 STRING_CRLF (goto PARSE_HEADER_START p4) m1) as R6.
  { eapply run_cons; [done | reflexivity |]. by apply run_one. }
  exists (goto PARSE_HEADER_START p4). split; [|done].
  eapply run_eq; [|exact (run_app _ _ _ _ _ _ _ _ R1 (run_app _ _ _ _ _ _ _ _ R2
    (run_app _ _ _ _ _ _ _ _ R3 (run_app _ _ _ _ _ _ _ _ R4
      (run_app _ _ _ _ _ _ _ _ R5 R6)))))].
  unfold status_line. by rewrite <- !app_assoc.
Qed.

(** ** Header lines *)

Definition header_line (kv : bytes * bytes) : bytes :=
  fst kv ++ HEADER_NAME_VALUE_DELIMITER ++ snd kv ++ STRING_CRLF.

Lemma run_header_line kv p m :
  header_ok kv -> m_save_raw_headers p = false ->
  m_headers_parse_state p = PARSE_HEADER_START ->
  (m_is_request p = true -> m_version_major m <> 0) ->
  exists p', run_to p m (header_line kv) p' (add_header (fst kv) (snd kv) m)
             /\ m_headers_parse_state p' = PARSE_HEADER_START /\ start_view p' = start_view p.
Proof.
  destruct kv as [name value]. intros (Hne & [Hn1 Hn2] & [Hv1 Hv2]) Hr Hst Hmaj. cbn [fst snd] in *.
  destruct name as [|c name]; [done|]. inversion Hn1 as [|? ? Hc Hn1']; subst.
  rewrite zlen_cons in Hn2. destruct (token_char_sep c Hc) as (E1 & E2 & E3 & E4 & _ & E6).
  set (p1 := start_header_name c p). set (p2 := with_m_header_name (c :: name) p1).
  set (p3 := goto PARSE_HEADER_VALUE (with_m_header_value [] p2)).
  set (p4 := with_m_header_value value p3). set (m4 := add_header (c :: name) value m).
  assert (run_to p m (c :: name) p2 m) as R1.
  { eapply (run_cons _ _ _ p1 m); [done | |].
    { unfold headers_step. rewrite Hst. unfold step_header_start. rewrite E2, E3, E4, E1, E6. done. }
    apply (run_header_name name p1); [done | done | done |].
    change (m_header_name p1) with [c]. rewrite zlen_cons, zlen_nil. lia. }
  assert (run_to p2 m HEADER_NAME_VALUE_DELIMITER p3 m) as R2.
  { eapply run_cons; [done | reflexivity |]. by apply run_one. }
  assert (run_to p3 m value p4 m) as R3
    by (apply (run_header_value value p3); (done || by rewrite zlen_nil)).
  assert (run_to p4 m STRING_CRLF (goto PARSE_HEADER_START p4) m4) as R4.
  { eapply run_cons; [done | reflexivity |]. apply run_one; [done|].
    unfold headers_step. cbn [goto m_headers_parse_state with_m_headers_parse_state].
    unfold step_expecting_newline. change (m_is_request (goto _ p4)) with (m_is_request p).
    change (m_version_major (store_header p4 m)) with (m_version_major m).
    change (x0a =c LF) with true. destruct (m_is_request p); [|done]. cbn [andb].
    by replace (m_version_major m =? 0) with false by (symmetry; apply Z.eqb_neq; auto). }
  exists (goto PARSE_HEADER_START p4). split; [|done].
  eapply run_eq; [|exact (run_app _ _ _ _ _ _ _ _ R1 (run_app _ _ _ _ _ _ _ _ R2
    (run_app _ _ _ _ _ _ _ _ R3 R4)))]. done.
Qed.

Lemma run_headers hs p m :
  Forall header_ok hs -> m_save_raw_headers p = false ->
  m_headers_parse_state p = PARSE_HEADER_START ->
  (m_is_request p = true -> m_version_major m <> 0) ->
  exists p', run_to p m (hs ≫= header_line) p' (with_m_headers (m_headers m ++ hs) m)
             /\ m_headers_parse_state p' = PARSE_HEADER_START /\ start_view p' = start_view p.
Proof.
  intros Hh. revert p m. induction Hh as [|kv hs Hkv Hh IH]; intros p m Hr Hst Hmaj.
  - exists p. split; [|done]. rewrite app_nil_r. destruct m. apply run_nil.
  - destruct (run_header_line kv p m Hkv Hr Hst Hmaj) as (p1 & R1 & Hst1 & Hv1).
    pose proof Hv1 as Hv. injection Hv as V1 _ _ _ _ _ V7.
    destruct (IH p1 (add_header (fst kv) (snd kv) m)) as (p2 & R2 & Hst2 & Hv2);
      [congruence | done | by rewrite V1 |].
    exists p2. split; [|split; [done|]].
    + cbn [mbind list_bind]. eapply run_app; [exact R1|].
      unfold add_header, insert in R2. destruct kv as [k v]. cbn [fst snd] in R2.
      change (m_headers (with_m_headers (m_headers m ++ [(k, v)]) m))
        with (m_headers m ++ [(k, v)]) in R2. rewrite <- app_assoc in R2. exact R2.
    + by rewrite Hv2.
Qed.

(** The blank line ends the headers. *)
Lemma run_blank_line rest p m :
  m_save_raw_headers p = false -> m_headers_parse_state p = PARSE_HEADER_START ->
  exists p', parse_headers_loop (STRING_CRLF ++ rest) p m
             = mk_hresult true_value None p' m rest /\ start_view p' = start_view p.
Proof.
  intros Hr Hst. exists (goto PARSE_EXPECTING_FINAL_NEWLINE p). split; [|done].
  assert (run_to p m [CR] (goto PARSE_EXPECTING_FINAL_NEWLINE p) m) as R.
  { apply run_one; [done|]. unfold headers_step. by rewrite Hst. }
  change (STRING_CRLF ++ rest) with ([CR] ++ LF :: rest). rewrite R.
  cbn [parse_headers_loop]. unfold save_raw. cbn [m_save_raw_headers goto with_m_headers_parse_state].
  by rewrite Hr.
Qed.

(** ** The text of a message *)

(** The start line [update_first_line] builds. *)
Definition start_line (m : message) : bytes :=
  match m_kind m with
  | KRequest r => request_line (rq_method r) (rq_resource r) (rq_query_string r)
                    (m_version_major m) (m_version_minor m)
  | KResponse r => status_line (rs_status_code r) (rs_status_message r)
                     (m_version_major m) (m_version_minor m)
  end.

Definition start_line_ok (m : message) : Prop :=
  match m_kind m with
  | KRequest r => request_line_ok (rq_method r) (rq_resource r) (rq_query_string r)
                    (m_version_major m) (m_version_minor m)
  | KResponse r => status_line_ok (rs_status_code r) (rs_status_message r)
                     (m_version_major m) (m_version_minor m)
  end.

Lemma update_first_line_eq m : m_first_line (update_first_line m) = start_line m.
Proof.
  unfold update_first_line, start_line, request_line, status_line, get_version_string. simpl.
  destruct (m_kind m); [done|]. by rewrite <- !app_assoc.
Qed.

(** The headers [write] sends. *)
Definition sent_headers (m : message) : ihash_multimap :=
  m_headers (prepare_headers_for_send true false m).

(** A message that can be sent: no cached first line, no cookies left to add, a
    Content-Length header, well-formed start line and headers, no transfer encoding, and a
    content that has been set. *)
Record sendable (content : bytes) (m : message) : Prop := mk_sendable {
  sd_first_line : m_first_line m = [];
  sd_cookies : m_cookie_params m = [];
  sd_length : m_do_not_send_content_length m = false;
  sd_start_line : start_line_ok m;
  sd_headers : Forall header_ok (m_headers m);
  sd_encoding : has_header m HEADER_TRANSFER_ENCODING = false;
  sd_content : read_content m = Ok content;
  sd_content_length : m_content_length m = zlen content;
  sd_size : zlen content < 2 ^ 64 - 1
}.

Definition message_text (content : bytes) (m : message) : bytes :=
  start_line m ++ STRING_CRLF ++ (sent_headers m ≫= header_line) ++ STRING_CRLF ++ content.

Lemma mjoin_app (l k : list bytes) : mjoin (l ++ k) = mjoin l ++ mjoin k.
Proof.
  induction l as [|x l IH]; [done|]. change (x ++ mjoin (l ++ k) = (x ++ mjoin l) ++ mjoin k).
  by rewrite IH, app_assoc.
Qed.

Lemma mjoin_one (s : bytes) : mjoin [s] = s.
Proof. apply app_nil_r. Qed.

Lemma mjoin_two (s t : bytes) : mjoin [s; t] = s ++ t.
Proof. change (s ++ (t ++ []) = s ++ t). by rewrite app_nil_r. Qed.

Lemma mjoin_headers (hs : ihash_multimap) :
  mjoin (hs ≫= fun kv => [fst kv; HEADER_NAME_VALUE_DELIMITER; snd kv; STRING_CRLF])
  = hs ≫= header_line.
Proof.
  induction hs as [|kv hs IH]; [done|]. cbn [mbind list_bind]. rewrite mjoin_app, IH.
  change (mjoin [fst kv; HEADER_NAME_VALUE_DELIMITER; snd kv; STRING_CRLF])
    with (fst kv ++ HEADER_NAME_VALUE_DELIMITER ++ snd kv ++ STRING_CRLF ++ []).
  by rewrite app_nil_r.
Qed.

Lemma prepare_eq m :
  m_do_not_send_content_length m = false ->
  prepare_headers_for_send true false m
  = with_m_headers
      (change_value (change_value (m_headers m) HEADER_CONNECTION (str "Keep-Alive"))
         HEADER_CONTENT_LENGTH (to_string (m_content_length m))) m.
Proof.
  intros Hl. unfold prepare_headers_for_send.
  change (m_do_not_send_content_length (change_header HEADER_CONNECTION _ m))
    with (m_do_not_send_content_length m). by rewrite Hl.
Qed.

Lemma write_text content m :
  sendable content m -> exists m1, write false m = Ok (m1, message_text content m)
                                   /\ m_headers m1 = sent_headers m.
Proof.
  intros [Hf Hc Hl _ _ _ Hrc Hcl Hz]. unfold write, prepare_buffers_for_send, get_first_line.
  set (m1 := prepare_headers_for_send true false m).
  assert (m1 = with_m_headers (sent_headers m) m) as Em1.
  { unfold m1, sent_headers. by rewrite prepare_eq. }
  assert (m_first_line m1 = []) as -> by (by rewrite Em1).
  rewrite bool_decide_true by done.
  set (m2 := update_first_line m1).
  assert (append_cookie_headers m2 = m2) as ->.
  { unfold append_cookie_headers. change (m_cookie_params m2) with (m_cookie_params m1).
    by rewrite Em1; cbn [m_cookie_params with_m_headers]; rewrite Hc. }
  assert (m_first_line m2 = start_line m) as Hfl.
  { unfold m2. by rewrite update_first_line_eq, Em1. }
  assert (read_content m2 = Ok content) as Hr2
    by (change (read_content m2) with (read_content m1); by rewrite Em1).
  assert (m_content_length m2 = zlen content) as Hl2
    by (change (m_content_length m2) with (m_content_length m1); by rewrite Em1).
  assert (m_headers m2 = sent_headers m) as Hh2
    by (change (m_headers m2) with (m_headers m1); by rewrite Em1).
  rewrite Hfl, Hl2, Hr2. unfold append_headers. rewrite Hh2. unfold message_text.
  destruct (0 <? zlen content) eqn:E; cbn [negb andb mbind res_bind].
  - exists m2. split; [|done]. do 2 f_equal.
    rewrite !mjoin_app, mjoin_headers, <- !app_assoc. by rewrite !mjoin_one, mjoin_two, <- !app_assoc.
  - exists m2. split; [|done].
    assert (content = []) as -> by (apply zlen_zero_iff; pose proof (zlen_nonneg content); lia).
    do 2 f_equal. rewrite !mjoin_app, mjoin_headers.
    by rewrite mjoin_one, mjoin_two, app_nil_r, <- !app_assoc.
Qed.

(** ** The headers that are sent *)

Lemma header_ok_value k v v' :
  header_ok (k, v) -> bounded value_char HEADER_VALUE_MAX v' -> header_ok (k, v').
Proof. intros (H1 & H2 & _) H. done. Qed.

Lemma change_value_ok d k v :
  Forall header_ok d -> header_ok (k, v) -> Forall header_ok (change_value d k v).
Proof.
  intros Hd Hk. unfold change_value. case_bool_decide.
  - apply Forall_app. split; [done|]. by constructor.
  - clear H. induction Hd as [|[k' v'] d Hk' Hd IH]; simpl; [constructor|].
    destruct (iequals k' k); constructor; try done.
    + eapply header_ok_value; [exact Hk'|]. apply Hk.
    + apply Forall_forall. intros kv Hin. apply list_elem_of_filter in Hin as [_ Hin].
      by eapply Forall_forall in Hd.
Qed.

Lemma to_string_value n : 0 <= n -> bounded value_char HEADER_VALUE_MAX (to_string n).
Proof.
  intros Hn. split.
  - unfold to_string. eapply Forall_impl; [by apply (to_digits_chars 10); lia|].
    intros c (d & Hd & ->).
    assert (forall i, 0 <= i < Z.of_nat 10 -> value_char (digit_char i) = true) as H
      by (apply Z_below; reflexivity).
    by apply H.
  - pose proof (to_digits_length 10 20 n) as Hl. fold (to_string n) in Hl.
    unfold HEADER_VALUE_MAX, zlen. lia.
Qed.

Lemma sent_headers_ok content m : sendable content m -> Forall header_ok (sent_headers m).
Proof.
  intros [_ _ Hl _ Hh _ _ Hcl Hz]. unfold sent_headers. rewrite prepare_eq by done.
  cbn [m_headers with_m_headers]. apply change_value_ok; [apply change_value_ok; [done|]|].
  - split; [done|]. split; (split; [by repeat constructor | done]).
  - split; [done|]. split; [split; [by repeat constructor | done]|].
    apply to_string_value. rewrite Hcl. apply zlen_nonneg.
Qed.

Lemma sent_headers_range content m key :
  sendable content m ->
  equal_range (sent_headers m) key
  = if iequals HEADER_CONTENT_LENGTH key
    then [(from_option fst HEADER_CONTENT_LENGTH
             (head (equal_range (change_value (m_headers m) HEADER_CONNECTION (str "Keep-Alive"))
                      HEADER_CONTENT_LENGTH)), to_string (zlen content))]
    else equal_range (change_value (m_headers m) HEADER_CONNECTION (str "Keep-Alive")) key.
Proof.
  intros [_ _ Hl _ _ _ _ Hcl _]. unfold sent_headers. rewrite prepare_eq by done.
  cbn [m_headers with_m_headers]. rewrite Hcl. apply equal_range_change_value.
Qed.

(** ** Parsing the text *)

(** The message with the start line and the headers the parser has read. *)
Definition read_headers (hs : ihash_multimap) (m m0 : message) : message :=
  with_m_headers hs
    (set_version_minor (m_version_minor m) (set_version_major (m_version_major m) m0)).

(** The parser holds the start line of [m]. *)
Definition holds_start (p : parser) (m : message) : Prop :=
  match m_kind m with
  | KRequest r => start_view p = (true, rq_method r, rq_resource r, rq_query_string r, 0, [], false)
  | KResponse r => start_view p = (false, [], [], [], rs_status_code r, rs_status_message r, false)
  end.

(** The text of the start line and the headers. *)
Definition head_text (hs : ihash_multimap) (m : message) : bytes :=
  start_line m ++ STRING_CRLF ++ (hs ≫= header_line) ++ STRING_CRLF.

Lemma headers_of_text hs m rest max data kind0 :
  start_line_ok m -> Forall header_ok hs ->
  exists p', parse_headers_loop (head_text hs m ++ rest) (fresh (is_request m) max data)
               (new_message kind0)
             = mk_hresult true_value None p' (read_headers hs m (new_message kind0)) rest
             /\ holds_start p' m.
Proof.
  intros Hsl Hh. unfold head_text. rewrite <- !app_assoc. set (m0 := new_message kind0).
  assert (exists p1, run_to (fresh (is_request m) max data) m0 (start_line m ++ STRING_CRLF) p1
      (set_version_minor (m_version_minor m) (set_version_major (m_version_major m) m0))
    /\ m_headers_parse_state p1 = PARSE_HEADER_START /\ holds_start p1 m
    /\ m_save_raw_headers p1 = false
    /\ (m_is_request p1 = true -> m_version_major (set_version_minor (m_version_minor m)
          (set_version_major (m_version_major m) m0)) <> 0)) as (p1 & R1 & Hst1 & Hp1 & Hraw1 & Hmaj).
  { unfold start_line, start_line_ok, holds_start, is_request in *. destruct (m_kind m) as [r|r].
    - pose proof (rl_major _ _ _ _ _ Hsl) as Hmj.
      destruct (run_request_line _ _ _ _ _ max data m0 Hsl) as (p1 & R & Hst & Hv).
      exists p1. pose proof Hv as Hv'. injection Hv' as _ _ _ _ _ _ Hraw.
      split; [done|]. split; [done|]. split; [done|]. split; [done|]. intros _. simpl.
      rewrite u16_small by lia. lia.
    - destruct (run_status_line _ _ _ _ max data m0 Hsl) as (p1 & R & Hst & Hv).
      exists p1. pose proof Hv as Hv'. injection Hv' as Hreq _ _ _ _ _ Hraw.
      split; [done|]. split; [done|]. split; [done|]. split; [done|]. congruence. }
  destruct (run_headers hs p1 _ Hh Hraw1 Hst1 Hmaj) as (p2 & R2 & Hst2 & Hv2).
  assert (m_save_raw_headers p2 = false) as Hraw2 by (injection Hv2; congruence).
  destruct (run_blank_line rest p2 (with_m_headers (m_headers (set_version_minor
    (m_version_minor m) (set_version_major (m_version_major m) m0)) ++ hs)
    (set_version_minor (m_version_minor m) (set_version_major (m_version_major m) m0)))
    Hraw2 Hst2) as (p3 & E3 & Hv3).
  exists p3. split.
  - rewrite app_assoc. rewrite R1, R2. exact E3.
  - unfold holds_start in *. rewrite Hv3, Hv2. done.
Qed.

(** The parser after the first pass on such a text. *)
Record past_headers (request : bool) (max : Z) (rest : bytes) (m : message) (p : parser) : Prop :=
  mk_past_headers {
  ph_start : holds_start p m;
  ph_read : m_read p = rest;
  ph_request : m_is_request p = request;
  ph_handler : m_payload_handler p = None;
  ph_max : m_max_content_length p = max;
  ph_only : m_parse_headers_only p = false;
  ph_chunk : m_chunked_content_parse_state p = PARSE_CHUNK_SIZE_START
}.

Lemma first_pass hs m rest max kind0 :
  start_line_ok m -> Forall header_ok hs ->
  exists q, parse_pass indeterminate_value
              (with_m_read (head_text hs m ++ rest) (new_parser (is_request m) max))
              (new_message kind0) None
            = finish_header_parsing q (read_headers hs m (new_message kind0)) None
            /\ past_headers (is_request m) max rest m q.
Proof.
  intros Hsl Hh. set (text := head_text hs m ++ rest).
  destruct (headers_of_text hs m rest max text kind0 Hsl Hh) as (p1 & E1 & Hst1).
  pose proof (parse_headers_loop_frame text (fresh (is_request m) max text) (new_message kind0))
    as [Hbv _]. fold text in E1. rewrite E1 in Hbv. cbn [h_parser] in Hbv.
  injection Hbv as Hreq _ Hms Hcs Hph _ _ _ _ _ _ _ Hmx Hho _.
  set (n1 := zlen text - zlen rest).
  exists (io rest n1 (u64 (0 + n1)) 0 p1). split; [|by constructor].
  unfold parse_pass. cbn [m_message_parse_state with_m_read new_parser].
  change (mgoto PARSE_HEADERS (with_m_read text (new_parser (is_request m) max)))
    with (io text 0 0 0 (fresh (is_request m) max text)).
  rewrite parse_headers_io, E1. cbn zeta. cbn [h_rest h_error h_rc h_message h_parser].
  change (m_message_parse_state (io ?b ?l ?t ?k p1)) with (m_message_parse_state p1).
  rewrite Hms. reflexivity.
Qed.

(** ** What the message takes from the parser *)

(** The start line of [m] has arrived in [m']. *)
Definition same_start (m' m : message) : Prop :=
  match m_kind m', m_kind m with
  | KRequest r', KRequest r =>
      rq_method r' = rq_method r /\ rq_resource r' = rq_resource r
      /\ rq_query_string r' = rq_query_string r
  | KResponse r', KResponse r =>
      rs_status_code r' = rs_status_code r /\ rs_status_message r' = rs_status_message r
  | _, _ => False
  end.

(** The message of class [kind0] that receives [m] expects a content. *)
Definition expects_content (kind0 : message_kind) (m : message) : Prop :=
  match kind0, m_kind m with
  | KRequest _, KRequest _ => True
  | KResponse r0, KResponse r =>
      is_content_length_implied
        (new_message (KResponse (mk_response (rs_status_code r) (rs_status_message r)
                                   (rs_request_method r0)))) = false
  | _, _ => False
  end.

(** The start line setters, on the kind and the version of the message. *)
Definition start_fields (m : message) := (m_kind m, m_version_major m, m_version_minor m).

Lemma clear_first_line_start m : start_fields (clear_first_line m) = start_fields m.
Proof. done. Qed.

Lemma on_request_start f r m major minor :
  start_fields m = (KRequest r, major, minor) ->
  start_fields (on_request f m) = (KRequest (f r), major, minor).
Proof. unfold start_fields, on_request. intros [= H <- <-]. by rewrite H. Qed.

Lemma on_response_start f r m major minor :
  start_fields m = (KResponse r, major, minor) ->
  start_fields (on_response f m) = (KResponse (f r), major, minor).
Proof. unfold start_fields, on_response. intros [= H <- <-]. by rewrite H. Qed.

Lemma parse_cookies_start header set_cookie m :
  start_fields (parse_cookies header set_cookie m) = start_fields m.
Proof.
  unfold parse_cookies. generalize (equal_range (m_headers m) header). intros l.
  revert m. induction l as [|kv l IH]; intros m; simpl; [done|]. by rewrite IH.
Qed.

Lemma update_message_start p m m1 kind0 :
  holds_start p m -> expects_content kind0 m -> m_kind m1 = kind0 ->
  exists m', update_message_with_header_data p m1 = Ok m' /\ same_start m' m
             /\ content_view m' = content_view m1
             /\ m_version_major m' = m_version_major m1 /\ m_version_minor m' = m_version_minor m1
             /\ is_content_length_implied m' = false.
Proof.
  unfold holds_start, expects_content, same_start. intros Hp He Hk.
  destruct (update_message_ok p m1) as (m' & Em & Hv).
  { unfold is_request. rewrite Hk. destruct kind0, (m_kind m); try done; injection Hp as -> _; done. }
  exists m'. split; [done|]. unfold update_message_with_header_data in Em. rewrite Hk in Em.
  assert (start_fields m1 = (kind0, m_version_major m1, m_version_minor m1)) as Hs
    by (unfold start_fields; by rewrite Hk).
  destruct kind0 as [r0|r0], (m_kind m) as [r|r]; try done; injection Hp as H1 H2 H3 H4 H5 H6 _;
    rewrite H1 in Em; injection Em as Em.
  - assert (exists r', start_fields m' = (KRequest r', m_version_major m1, m_version_minor m1)
      /\ rq_method r' = rq_method r /\ rq_resource r' = rq_resource r
      /\ rq_query_string r' = rq_query_string r) as (r' & Hf & ?).
    { rewrite <- Em, parse_cookies_start.
      assert (start_fields (set_query_string (m_query_string p) (set_resource (m_resource p)
                (set_method (m_method p) m1))) = _) as Hq by
        (do 3 (apply on_request_start); exact Hs).
      case_bool_decide; [rewrite Hq; eexists; split; [reflexivity|]; by rewrite H2, H3, H4|].
      unfold parse_queries, on_queries. erewrite on_request_start; [|exact Hq].
      eexists; split; [reflexivity|]. by rewrite H2, H3, H4. }
    injection Hf as Hf1 Hf2 Hf3. unfold is_content_length_implied. rewrite Hf1. auto 10.
  - assert (start_fields m' = (KResponse (mk_response (rs_status_code r) (rs_status_message r)
      (rs_request_method r0)), m_version_major m1, m_version_minor m1)) as Hf.
    { rewrite <- Em, parse_cookies_start, <- H5, <- H6.
      apply (on_response_start (with_rs_status_message (m_status_message p))
               (with_rs_status_code (m_status_code p) r0)).
      apply (on_response_start (with_rs_status_code (m_status_code p)) r0). exact Hs. }
    injection Hf as Hf1 Hf2 Hf3. unfold is_content_length_implied. rewrite Hf1. auto 10.
Qed.

(** ** The end of the headers *)

(** [m'] has the start line and the version of [m] and the headers [hs], and no part of it
    was lost. *)
Record arrived (hs : ihash_multimap) (m' m : message) : Prop := mk_arrived {
  ar_start : same_start m' m;
  ar_major : m_version_major m' = m_version_major m;
  ar_minor : m_version_minor m' = m_version_minor m;
  ar_headers : m_headers m' = hs;
  ar_missing : m_has_missing_packets m' = false
}.

(** The members [arrived] looks at. *)
Definition arrival_view (m : message) :=
  (m_kind m, m_version_major m, m_version_minor m, m_headers m, m_has_missing_packets m).

Lemma arrived_view hs m1 m2 m :
  arrival_view m1 = arrival_view m2 -> arrived hs m2 m -> arrived hs m1 m.
Proof.
  intros [= H1 H2 H3 H4 H5] [A1 A2 A3 A4 A5]. unfold same_start in A1. rewrite <- H1 in A1.
  constructor; [exact A1|congruence..].
Qed.

Lemma sent_headers_length content m :
  sendable content m ->
  exists name, find (sent_headers m) HEADER_CONTENT_LENGTH = Some (name, to_string (zlen content)).
Proof. intros Hs. unfold find. rewrite (sent_headers_range _ _ _ Hs). eexists. reflexivity. Qed.

Lemma sent_headers_other content m key :
  sendable content m -> iequals HEADER_CONTENT_LENGTH key = false ->
  iequals HEADER_CONNECTION key = false ->
  equal_range (sent_headers m) key = equal_range (m_headers m) key.
Proof.
  intros Hs H1 H2. rewrite (sent_headers_range _ _ _ Hs), H1, equal_range_change_value.
  by rewrite H2.
Qed.

Lemma start_line_versions m :
  start_line_ok m -> u16 (m_version_major m) = m_version_major m
                     /\ u16 (m_version_minor m) = m_version_minor m.
Proof.
  unfold start_line_ok. destruct (m_kind m); intros [? ? ? ? ?] || intros [? ? ? ?];
    split; apply u16_small; lia.
Qed.

(** The parser at the start of the content. *)
Definition at_content (n : Z) (p : parser) : parser :=
  let p := with_m_bytes_content_read 0 (with_m_bytes_content_remaining n p) in
  if n =? 0 then mgoto PARSE_END p else mgoto PARSE_CONTENT p.

Lemma finish_headers_of_text content m p kind0 :
  sendable content m -> expects_content kind0 m -> holds_start p m ->
  zlen content <= m_max_content_length p -> m_parse_headers_only p = false ->
  exists m', finish_header_parsing p (read_headers (sent_headers m) m (new_message kind0)) None
             = Ok (if zlen content =? 0 then true_value else indeterminate_value,
                   at_content (zlen content) p, m', None)
             /\ arrived (sent_headers m) m' m /\ m_content_length m' = zlen content
             /\ m_content_buf m' = replicate (Z.to_nat (zlen content)) None.
Proof.
  intros Hs He Hp Hmax Ho. pose proof (zlen_nonneg content) as Hn.
  destruct (start_line_versions m (sd_start_line _ _ Hs)) as [Hmaj Hmin].
  set (m1 := set_content_length 0 (read_headers (sent_headers m) m (new_message kind0))).
  assert (update_transfer_encoding_using_header m1 = m1) as Ete.
  { unfold update_transfer_encoding_using_header.
    change (m_headers (with_m_is_chunked false m1)) with (sent_headers m).
    pose proof (sd_encoding _ _ Hs) as Hte. unfold has_header in Hte.
    rewrite has_key_range in Hte. unfold find.
    rewrite (sent_headers_other _ _ _ Hs) by reflexivity.
    apply negb_false_iff, bool_decide_eq_true in Hte. by rewrite Hte. }
  destruct (update_message_start
    (with_m_bytes_content_read 0 (with_m_bytes_content_remaining 0 p)) m m1 kind0 Hp He eq_refl)
    as (m2 & Em & Hst & Hv & Hv1 & Hv2 & Hi).
  injection Hv as Hl Hb _ Hh Hch _ Hmp _.
  assert (arrived (sent_headers m) m2 m) as Ha.
  { constructor; [done| | |done|done]; [rewrite Hv1; exact Hmaj | rewrite Hv2; exact Hmin]. }
  destruct (sent_headers_length _ _ Hs) as [name Hf].
  unfold finish_header_parsing. fold m1. rewrite Ete, Em. cbn [mbind res_bind].
  rewrite Hch, Hi. change (m_is_chunked m1) with false. cbn [andb].
  unfold has_header, has_key. rewrite Hh. change (m_headers m1) with (sent_headers m).
  rewrite Hf. unfold finish_with_length, update_content_length_using_header. rewrite Hh.
  change (m_headers m1) with (sent_headers m). rewrite Hf. cbn [snd].
  pose proof (sd_size _ _ Hs) as Hsz.
  rewrite stoul_to_string by (unfold ULONG_MAX; lia). cbn [mbind res_bind].
  cbn [m_content_length with_m_content_length]. unfold at_content.
  destruct (zlen content =? 0) eqn:E0.
  - exists (with_m_content_length (zlen content) m2). apply Z.eqb_eq in E0.
    split; [by rewrite E0|]. split; [by eapply arrived_view; [|exact Ha]|].
    split; [done|]. rewrite E0. exact Hb.
  - cbn [mgoto m_max_content_length m_parse_headers_only m_bytes_content_remaining
         with_m_bytes_content_remaining with_m_message_parse_state with_m_bytes_content_read].
    rewrite Ho. replace (m_max_content_length p <? zlen content) with false by lia.
    rewrite create_content_buffer_ok by (simpl; lia). cbn [mbind res_bind].
    eexists. split; [reflexivity|]. split; [by eapply arrived_view; [|exact Ha]|]. done.
Qed.

(** ** The content *)

(** [m'] is the message [m] with the headers [hs] and the content [content]. *)
Definition received (hs : ihash_multimap) (content : bytes) (m' m : message) : Prop :=
  arrived hs m' m /\ read_content m' = Ok content.

Lemma consume_content_of_text hs content rest p m1 m :
  m_read p = content ++ rest -> m_payload_handler p = None ->
  m_bytes_content_remaining p = zlen content -> m_bytes_content_read p = 0 ->
  zlen content <= m_max_content_length p -> 0 < zlen content < 2 ^ 64 ->
  arrived hs m1 m -> m_content_length m1 = zlen content ->
  m_content_buf m1 = replicate (Z.to_nat (zlen content)) None ->
  exists p' m', consume_content p m1 = Ok (true_value, p', m') /\ m_read p' = rest
                /\ m_is_request p' = m_is_request p /\ m_payload_handler p' = None
                /\ received hs content m' m.
Proof.
  intros Hr Hh Hrem Hread Hmax Hn Ha Hl Hb.
  assert (bytes_available p = zlen content + zlen rest) as Hav
    by (rewrite bytes_available_zlen, Hr; apply zlen_app).
  pose proof (zlen_nonneg rest). unfold consume_content. rewrite Hav, Hrem.
  replace (zlen content =? 0) with false by lia.
  replace (zlen content <=? zlen content + zlen rest) with true by lia.
  change (has_handler (with_m_bytes_content_remaining (zlen content - zlen content) p))
    with (has_handler p).
  assert (has_handler p = false) as -> by (unfold has_handler; by rewrite Hh).
  change (m_read (with_m_bytes_content_remaining (zlen content - zlen content) p))
    with (m_read p).
  assert (Z.to_nat (zlen content) = length content) as Hz by (unfold zlen; lia).
  rewrite Hr, Hz, take_app_length. unfold copy_content.
  change (m_bytes_content_read (with_m_bytes_content_remaining (zlen content - zlen content) p))
    with (m_bytes_content_read p).
  change (m_max_content_length (with_m_bytes_content_remaining (zlen content - zlen content) p))
    with (m_max_content_length p).
  rewrite Hread. replace (0 <? m_max_content_length p) with true by lia.
  rewrite u64_small by lia. replace (m_max_content_length p <? 0 + zlen content) with false by lia.
  rewrite write_content_full by (rewrite Hb; apply zlen_replicate; lia). cbn [mbind res_bind].
  eexists _, _. split; [reflexivity|].
  split; [change (drop (length content) (m_read p) = rest); by rewrite Hr, drop_app_length|].
  split; [done|]. split; [exact Hh|]. split; [by eapply arrived_view; [|exact Ha]|].
  by apply read_content_full.
Qed.

(** ** The end of the message *)

Lemma parse_form_content_received hs content m1 m :
  received hs content m1 m -> is_request m1 = true -> is_multipart m1 = false ->
  exists m', parse_form_content m1 = Ok m' /\ received hs content m' m
             /\ m_is_valid m' = m_is_valid m1 /\ m_status m' = m_status m1.
Proof.
  intros Hr Hq Hm. pose proof Hr as [Ha Hc]. unfold parse_form_content. rewrite Hc. unfold is_multipart in Hm.
  rewrite Hm. destruct (has_prefix _ CONTENT_TYPE_URLENCODED); [|exists m1; auto]. cbn [mbind res_bind].
  eexists. split; [reflexivity|]. unfold parse_queries, on_queries, on_request.
  unfold is_request in Hq. destruct (m_kind m1) eqn:Ek; [|done].
  split; [|done]. split; [|done]. destruct Ha as [A1 A2 A3 A4 A5].
  constructor; try done. unfold same_start in *. by rewrite Ek in A1.
Qed.

Lemma finish_received hs content p m1 m :
  received hs content m1 m -> is_multipart m1 = false -> is_request m1 = m_is_request p ->
  exists m', finish (mgoto PARSE_END p) m1 = Ok m' /\ received hs content m' m
             /\ m_is_valid m' = true /\ m_status m' = STATUS_OK.
Proof.
  intros [Ha Hc] Hm Hq. unfold finish. cbn [mgoto m_message_parse_state with_m_message_parse_state].
  unfold finish_tail. set (m2 := compute_msg_status _ _).
  assert (received hs content m2 m) as Hr by (split; [by eapply arrived_view; [|exact Ha] | done]).
  assert (m_status m2 = STATUS_OK) as Hok.
  { unfold m2, compute_msg_status. cbn [m_has_missing_packets set_is_valid with_m_is_valid].
    by rewrite (ar_missing _ _ _ Ha). }
  destruct (_ && _ && _) eqn:E; [|by exists m2].
  assert (is_request m2 = true) as Hreq.
  { change (is_request m1 = true). rewrite Hq. by apply andb_prop in E as [[? _]%andb_prop _]. }
  rewrite Hreq. destruct (parse_form_content_received hs content m2 m Hr Hreq Hm)
    as (m3 & E3 & Hr3 & Hv & Hs). exists m3. rewrite Hv, Hs. done.
Qed.

Lemma arrived_multipart content m' m :
  sendable content m -> arrived (sent_headers m) m' m -> is_multipart m' = is_multipart m.
Proof.
  intros Hs Ha. unfold is_multipart, get_header. rewrite !get_value_range, (ar_headers _ _ _ Ha).
  by rewrite (sent_headers_other _ _ _ Hs).
Qed.

Lemma arrived_request hs m' m : arrived hs m' m -> is_request m' = is_request m.
Proof.
  intros [H _ _ _ _]. unfold same_start, is_request in *. by destruct (m_kind m'), (m_kind m).
Qed.

(** ** The round trip *)

Lemma message_text_head content m :
  message_text content m = head_text (sent_headers m) m ++ content.
Proof. unfold message_text, head_text. by rewrite <- !app_assoc. Qed.

(** What [parse] has after its loop on the text of a message. *)
Lemma parse_loop_of_text content rest m max kind0 :
  sendable content m -> expects_content kind0 m -> zlen content <= max ->
  exists total p' m',
    parse_loop parse_fuel indeterminate_value 0
      (with_m_read (message_text content m ++ rest) (new_parser (is_request m) max))
      (new_message kind0) None = Some (Ok (true_value, total, p', m', None))
    /\ m_read p' = rest /\ m_is_request p' = is_request m
    /\ received (sent_headers m) content m' m.
Proof.
  intros Hs He Hmax. pose proof (zlen_nonneg content) as Hn.
  rewrite message_text_head, <- app_assoc.
  destruct (first_pass (sent_headers m) m (content ++ rest) max kind0 (sd_start_line _ _ Hs)
    (sent_headers_ok _ _ Hs)) as (q & P1 & [Hst Hr Hq Hh Hmx Ho _]).
  destruct (finish_headers_of_text content m q kind0 Hs He Hst) as (m2 & E2 & Ha & Hl & Hb);
    [by rewrite Hmx | done|].
  rewrite E2 in P1. unfold parse_fuel. cbn [parse_loop]. rewrite P1. clear P1 E2.
  unfold at_content. destruct (zlen content =? 0) eqn:E0.
  - assert (content = []) as -> by (apply zlen_zero_iff; lia).
    eexists _, _, _. split; [reflexivity|]. split; [exact Hr|]. split; [exact Hq|].
    split; [done|]. by apply read_content_full.
  - set (p2 := mgoto PARSE_CONTENT _).
    destruct (consume_content_of_text (sent_headers m) content rest p2 m2 m)
      as (p3 & m3 & E3 & Hr3 & Hq3 & _ & Hrec); try done.
    { change (zlen content <= m_max_content_length q). by rewrite Hmx. }
    { pose proof (sd_size _ _ Hs). lia. }
    assert (eof p2 = false) as ->.
    { apply eof_false. change (m_read q <> []). rewrite Hr. by destruct content. }
    cbn [indeterminate andb negb]. unfold parse_pass at 1. rewrite E3.
    change (m_message_parse_state p2) with PARSE_CONTENT. cbn [mbind res_bind].
    eexists _, p3, m3. split; [reflexivity|]. split; [done|]. split; [|done].
    rewrite Hq3. exact Hq.
Qed.

(** What [parse] returns when its loop has received the message. *)
Lemma parse_after_loop hs content text m max kind0 total p2 m2 :
  text <> [] ->
  parse_loop parse_fuel indeterminate_value 0
    (with_m_read text (new_parser (is_request m) max)) (new_message kind0) None
  = Some (Ok (true_value, total, p2, m2, None)) ->
  m_is_request p2 = is_request m -> received hs content m2 m -> is_multipart m2 = false ->
  exists p' m',
    parse (with_m_read text (new_parser (is_request m) max)) (new_message kind0) None
    = Some (Ok (true_value, p', m', None))
    /\ m_read p' = m_read p2 /\ m_is_valid m' = true /\ m_status m' = STATUS_OK
    /\ received hs content m' m.
Proof.
  intros Ht El Hq Hrec Hm.
  destruct (finish_received _ content p2 m2 m Hrec Hm) as (m3 & Ef & Hrec3 & Hv & Hst).
  { destruct Hrec as [Ha _]. by rewrite Hq, (arrived_request _ _ _ Ha). }
  exists (with_m_bytes_last_read total (mgoto PARSE_END p2)), m3. split; [|done].
  rewrite parse_eq by done.
  change (note_missing (new_message kind0)) with (new_message kind0). rewrite El.
  cbn [fmap option_fmap option_map parse_end]. unfold conclude.
  cbn [tri_is safe_bool tri_eq tribool_of_bool indeterminate orb tri_or tri_and tri_not andb].
  by rewrite Ef.
Qed.

(** [parse] on the text of a message, followed by other data. *)
Lemma parse_of_text content rest m max kind0 :
  sendable content m -> expects_content kind0 m -> is_multipart m = false ->
  zlen content <= max ->
  exists p' m',
    parse (with_m_read (message_text content m ++ rest) (new_parser (is_request m) max))
      (new_message kind0) None = Some (Ok (true_value, p', m', None))
    /\ m_read p' = rest /\ m_is_valid m' = true /\ m_status m' = STATUS_OK
    /\ received (sent_headers m) content m' m.
Proof.
  intros Hs He Hm Hmax.
  destruct (parse_loop_of_text content rest m max kind0 Hs He Hmax)
    as (total & p2 & m2 & El & Hr & Hq & Hrec). rewrite <- Hr.
  eapply parse_after_loop; [|rewrite Hr; exact El|done..|].
  - rewrite Hr. unfold message_text, STRING_CRLF. by destruct (start_line m).
  - destruct Hrec as [Ha _]. by rewrite (arrived_multipart _ _ _ Hs Ha).
Qed.

(** C2: what is written can be read.  [message::write] on a request or a response with
    well-formed start line and headers, a content and no chunked encoding, gives a text
    that [parse], with a new parser for that class of message, reads completely from the
    front of any data that starts with it: it returns true, leaves the data after the
    message, and the message it filled is valid with status [STATUS_OK] and has the method,
    resource and query string (or status code and status message), the version, the
    headers that were sent and the content of the message that was written. *)
Theorem write_parse_roundtrip content rest m max kind0 :
  sendable content m -> expects_content kind0 m -> is_multipart m = false ->
  zlen content <= max ->
  exists m1 text p' m',
    write false m = Ok (m1, text)
    /\ parse (with_m_read (text ++ rest) (new_parser (is_request m) max)) (new_message kind0) None
       = Some (Ok (true_value, p', m', None))
    /\ m_read p' = rest /\ m_is_valid m' = true /\ m_status m' = STATUS_OK
    /\ same_start m' m
    /\ (m_version_major m', m_version_minor m') = (m_version_major m, m_version_minor m)
    /\ m_headers m' = m_headers m1 /\ read_content m' = Ok content.
Proof.
  intros Hs He Hm Hmax. destruct (write_text content m Hs) as (m1 & Ew & Hh).
  destruct (parse_of_text content rest m max kind0 Hs He Hm Hmax)
    as (p' & m' & Ep & Hr & Hv & Hst & [[] Hc]).
  exists m1, (message_text content m), p', m'. repeat split; try done; congruence.
Qed.

(** A request with a query string, a header and a content. *)
Definition sample_request : message :=
  let m := set_query_string (str "q=1") (set_resource (str "/a") (set_method (str "POST") new_request)) in
  match set_content (str "hello") (add_header (str "Host") (str "h") m) with
  | Ok m => m
  | Fault _ => m
  end.

Lemma sample_request_sendable : sendable (str "hello") sample_request.
Proof.
  constructor; try reflexivity.
  - constructor; [split; [discriminate|]| | |split; reflexivity|split; [discriminate|reflexivity]];
    (split; [repeat constructor | discriminate]).
  - constructor; [|constructor]. split; [discriminate|].
    split; (split; [repeat constructor | discriminate]).
Qed.

Lemma write_parse_roundtrip_witness :
  exists m1 text p' m',
    write false sample_request = Ok (m1, text)
    /\ parse (with_m_read (text ++ str "rest") (new_parser true 100)) new_request None
       = Some (Ok (true_value, p', m', None))
    /\ m_read p' = str "rest" /\ read_content m' = Ok (str "hello").
Proof.
  destruct (write_parse_roundtrip (str "hello") (str "rest") sample_request 100 (m_kind new_request))
    as (m1 & text & p' & m' & H1 & H2 & H3 & _ & _ & _ & _ & _ & H4).
  - exact sample_request_sendable.
  - exact I.
  - reflexivity.
  - vm_compute. discriminate.
  - exists m1, text, p', m'. auto.
Defined.
