(* ===== verification/Connection.v ===== *)
(** * TCP connections and timers

    Models the state of [tcp::connection] (include/pion/tcp/connection.hpp) that the HTTP
    components use, and [tcp::timer] (src/tcp_timer.cpp).  The socket is asio's: what a
    read gives and how much of a write succeeds are inputs of the model. *)
From S2P Require Import Prelude CLib.

(** ** State *)

Inductive lifecycle_type := LIFECYCLE_CLOSE | LIFECYCLE_KEEPALIVE | LIFECYCLE_PIPELINED.

#[export] Instance lifecycle_type_eq_dec : EqDecision lifecycle_type.
Proof. solve_decision. Defined.

Definition READ_BUFFER_SIZE : nat := Z.to_nat 8192.

(** The read buffer is an array whose first content is arbitrary; the bookmark is a pair of
    offsets into it ([None] for the null pointers). *)
Record connection := mk_connection {
  m_lifecycle : lifecycle_type;
  m_read_buffer : bytes;
  m_read_position : option (nat * nat);
  m_is_open : bool;  (* the state of the socket *)
  m_written : bytes  (* what was handed to the socket *)
}.

(** [connection(io_service, ...)] after the socket was connected. *)
Definition new_connection (buffer : bytes) : connection :=
  mk_connection LIFECYCLE_CLOSE buffer None true [].

Definition set_lifecycle (t : lifecycle_type) (c : connection) : connection :=
  mk_connection t (m_read_buffer c) (m_read_position c) (m_is_open c) (m_written c).

Definition get_keep_alive (c : connection) : bool :=
  negb (bool_decide (m_lifecycle c = LIFECYCLE_CLOSE)).

Definition get_pipelined (c : connection) : bool :=
  bool_decide (m_lifecycle c = LIFECYCLE_PIPELINED).

Definition save_read_pos (pos : option (nat * nat)) (c : connection) : connection :=
  mk_connection (m_lifecycle c) (m_read_buffer c) pos (m_is_open c) (m_written c).

(** The bytes between two offsets of the read buffer. *)
Definition buffer_slice (c : connection) (first last : nat) : bytes :=
  take (last - first) (drop first (m_read_buffer c)).

(** [load_read_pos]: the bytes the bookmark delimits, and the offset of their end. *)
Definition load_read_pos (c : connection) : bytes * nat :=
  match m_read_position c with
  | None => ([], 0%nat)
  | Some (first, last) => (buffer_slice c first last, last)
  end.

(** A read operation of the socket that has stored [data] in the read buffer; asio never
    stores more than the buffer holds. *)
Definition store_read (data : bytes) (c : connection) : connection :=
  let data := take READ_BUFFER_SIZE data in
  mk_connection (m_lifecycle c) (data ++ drop (length data) (m_read_buffer c))
    (m_read_position c) (m_is_open c) (m_written c).

(** How a read operation ends: [data] is put into the read buffer, or it has failed. *)
Inductive read_event :=
| read_data (data : bytes)
| read_failed.

#[export] Instance read_event_eq_dec : EqDecision read_event.
Proof. solve_decision. Defined.

(** [write] and [async_write] of all the buffers. *)
Definition write_buffers (buffers : list bytes) (c : connection) : connection :=
  mk_connection (m_lifecycle c) (m_read_buffer c) (m_read_position c) (m_is_open c)
    (m_written c ++ mjoin buffers).

Definition close (c : connection) : connection :=
  mk_connection (m_lifecycle c) (m_read_buffer c) (m_read_position c) false (m_written c).

(** ** Timers *)

Record timer := mk_timer { m_timer_active : bool; m_was_cancelled : bool }.

Definition new_timer : timer := mk_timer false false.

(** The operations of a timer; each of them holds its mutex. *)
Inductive timer_op := timer_start | timer_cancel | timer_callback.

(** The new state, and whether the pending operations of the connection are cancelled. *)
Definition timer_step (op : timer_op) (t : timer) : timer * bool :=
  match op with
  | timer_start => (mk_timer true (m_was_cancelled t), false)
  | timer_cancel => (mk_timer (m_timer_active t) true, false)
  | timer_callback => (mk_timer false (m_was_cancelled t), negb (m_was_cancelled t))
  end.

(** The effects of a sequence of operations, in the order in which the threads got the
    mutex. *)
Fixpoint timer_run (ops : list timer_op) (t : timer) : list bool :=
  match ops with
  | [] => []
  | op :: ops' => let '(t', fired) := timer_step op t in fired :: timer_run ops' t'
  end.

(** ** The read buffer *)

Lemma length_store_read data c :
  length (m_read_buffer c) = READ_BUFFER_SIZE ->
  length (m_read_buffer (store_read data c)) = READ_BUFFER_SIZE.
Proof.
  intros H. cbn [m_read_buffer store_read]. rewrite length_app, length_drop, length_take. lia.
Qed.

(** The front of the buffer is what was read. *)
Lemma store_read_slice data c :
  (length data <= READ_BUFFER_SIZE)%nat -> buffer_slice (store_read data c) 0 (length data) = data.
Proof.
  intros H. unfold buffer_slice. cbn [m_read_buffer store_read].
  rewrite (take_ge data), drop_0, Nat.sub_0_r by done. apply take_app_length.
Qed.

(** The end of a slice is a slice. *)
Lemma slice_suffix c first last pre post :
  (last <= length (m_read_buffer c))%nat -> buffer_slice c first last = pre ++ post ->
  buffer_slice c (last - length post) last = post.
Proof.
  unfold buffer_slice. intros Hl H.
  assert (length (pre ++ post) = (last - first)%nat) as Hn
    by (rewrite <- H, length_take, length_drop; lia).
  rewrite length_app in Hn.
  destruct (decide (first <= last)%nat) as [Hle|Hgt].
  - replace (last - length post)%nat with (first + length pre)%nat by lia.
    rewrite <- drop_drop. rewrite take_drop_commute.
    replace (length pre + (last - (first + length pre)))%nat with (last - first)%nat by lia.
    rewrite H. apply drop_app_length.
  - assert (length post = 0%nat) by lia. destruct post; [|done].
    replace (last - (last - length []))%nat with 0%nat by (simpl; lia). done.
Qed.

(** ** Properties *)

Lemma timer_run_cancelled ops t :
  m_was_cancelled t = true -> Forall (fun fired => fired = false) (timer_run ops t).
Proof.
  revert t. induction ops as [|op ops IH]; intros t Ht; [constructor|].
  destruct op; simpl; (constructor; [by rewrite ?Ht | by apply IH]).
Qed.

(** A timer that was cancelled never cancels the operations of its connection, in
    whatever order its operations and the callback run afterwards; one whose callback runs
    before it is cancelled does. *)
Theorem timer_cancel_final before after :
  let t := foldl (fun t op => fst (timer_step op t)) new_timer before in
  Forall (fun fired => fired = false) (timer_run (timer_cancel :: after) t)
  /\ (timer_cancel ∉ before -> snd (timer_step timer_callback t) = true).
Proof.
  intros t. split.
  - constructor; [done|]. by apply timer_run_cancelled.
  - intros Hb. assert (m_was_cancelled t = false) as Ht; [|simpl; by rewrite Ht].
    unfold t. clear t. assert (m_was_cancelled new_timer = false) as H0 by done. revert H0.
    generalize new_timer. induction before as [|op before IH]; intros t0 H0; simpl; [done|].
    apply IH; [set_solver|]. destruct op; simpl; [done | set_solver | done].
Qed.

Lemma timer_cancel_final_witness :
  snd (timer_step timer_callback (fst (timer_step timer_start new_timer))) = true.
Proof.
  apply (proj2 (timer_cancel_final [timer_start] [])). intros H.
  apply list_elem_of_singleton in H. discriminate.
Defined.
