(* ===== verification/Sockets.v ===== *)
(** * The two layers of a connection

    A [tcp::connection] has a socket inside a TLS stream.  [Connection] models what the HTTP
    components see of it; this file models which of the two layers every function of
    [tcp::connection] (include/pion/tcp/connection.hpp) hands its buffers to, and
    [m_ssl_flag], which decides it.  What asio answers is an input; the calls it gets are
    recorded in their order. *)
From S2P Require Import Prelude CLib.

Inductive layer := tls_stream | next_layer.

(** Where a read puts its data, and when it is complete: after some bytes, or on a condition. *)
Inductive read_target := own_buffer | given_buffer.
Inductive read_extent := some_bytes | on_condition.

(** The functions of asio that are called. *)
Inductive asio_call :=
| call_accept (async : bool)
| call_connect (async : bool) (endpoint : bytes * Z)
| call_handshake (async client : bool)
| call_read (l : layer) (async : bool) (t : read_target) (e : read_extent)
| call_write (l : layer) (async : bool) (data : bytes)
| call_shutdown | call_close | call_cancel.

(** Whether bytes of the application go through this call without TLS. *)
Definition in_clear (c : asio_call) : bool :=
  match c with call_read next_layer _ _ _ | call_write next_layer _ _ => true | _ => false end.
Definition in_tls (c : asio_call) : bool :=
  match c with call_read tls_stream _ _ _ | call_write tls_stream _ _ | call_handshake _ _ => true | _ => false end.

(** The members that matter here, and the calls so far. *)
Record socket := mk_socket { m_ssl_flag : bool; socket_open : bool; calls : list asio_call }.

Definition calling (c : asio_call) (s : socket) : socket := mk_socket (m_ssl_flag s) (socket_open s) (calls s ++ [c]).
Definition with_open (b : bool) (s : socket) : socket := mk_socket (m_ssl_flag s) b (calls s).
Definition with_ssl_flag (b : bool) (s : socket) : socket := mk_socket b (socket_open s) (calls s).

Section Build.
(** [PION_HAVE_SSL]. *)
Context (have_ssl : bool).

(** [connection::create], the constructor that a server uses, and the one for clients. *)
Definition create_connection (ssl_flag : bool) : socket := mk_socket (have_ssl && ssl_flag) false [].
Definition client_socket : socket := mk_socket have_ssl false [].

(** [asio::ip::tcp::acceptor] opens the lowest layer. *)
Definition async_accept (s : socket) : socket := calling (call_accept true) s.
Definition accept (ok : bool) (s : socket) : socket := with_open (ok || socket_open s) (calling (call_accept false) s).

Definition async_connect (endpoint : bytes * Z) (s : socket) : socket := calling (call_connect true endpoint) s.
Definition async_connect_address (remote_addr : bytes) (remote_port : Z) (s : socket) : socket :=
  async_connect (remote_addr, remote_port) s.
(** The socket is opened to be connected, also when that fails. *)
Definition socket_connect (ok : bool) (endpoint : bytes * Z) (s : socket) : socket * bool :=
  (with_open true (calling (call_connect false endpoint) s), ok).
Definition connect_address (ok : bool) (remote_addr : bytes) (remote_port : Z) (s : socket) : socket * bool :=
  socket_connect ok (remote_addr, remote_port) s.

Definition async_handshake_client (s : socket) : socket :=
  if have_ssl then with_ssl_flag true (calling (call_handshake true true) s) else s.
Definition async_handshake_server (s : socket) : socket :=
  if have_ssl then with_ssl_flag true (calling (call_handshake true false) s) else s.
(** The result is whether there is no error; the flag is set in any case. *)
Definition handshake_client (ok : bool) (s : socket) : socket * bool :=
  if have_ssl then (with_ssl_flag true (calling (call_handshake false true) s), ok) else (s, true).
Definition handshake_server (ok : bool) (s : socket) : socket * bool :=
  if have_ssl then (with_ssl_flag true (calling (call_handshake false false) s), ok) else (s, true).

Definition get_ssl_flag (s : socket) : bool := m_ssl_flag s.

Definition async_read_some (s : socket) : socket :=
  if have_ssl && get_ssl_flag s then calling (call_read tls_stream true own_buffer some_bytes) s
  else calling (call_read next_layer true own_buffer some_bytes) s.
Definition async_read_some_into (s : socket) : socket :=
  if have_ssl && get_ssl_flag s then calling (call_read tls_stream true given_buffer some_bytes) s
  else calling (call_read next_layer true given_buffer some_bytes) s.
Definition socket_read_some (s : socket) : socket :=
  if have_ssl && get_ssl_flag s then calling (call_read tls_stream false own_buffer some_bytes) s
  else calling (call_read next_layer false own_buffer some_bytes) s.
Definition read_some_into (s : socket) : socket :=
  if have_ssl && get_ssl_flag s then calling (call_read tls_stream false given_buffer some_bytes) s
  else calling (call_read next_layer false given_buffer some_bytes) s.
Definition async_read (s : socket) : socket :=
  if have_ssl && get_ssl_flag s then calling (call_read tls_stream true own_buffer on_condition) s
  else calling (call_read next_layer true own_buffer on_condition) s.
Definition async_read_into (s : socket) : socket :=
  if have_ssl && get_ssl_flag s then calling (call_read tls_stream true given_buffer on_condition) s
  else calling (call_read next_layer true given_buffer on_condition) s.
(** [read] into the buffer of the connection calls [asio::async_read]. *)
Definition socket_read (s : socket) : socket :=
  if have_ssl && get_ssl_flag s then calling (call_read tls_stream true own_buffer on_condition) s
  else calling (call_read next_layer true own_buffer on_condition) s.
Definition read_into (s : socket) : socket :=
  if have_ssl && get_ssl_flag s then calling (call_read tls_stream false given_buffer on_condition) s
  else calling (call_read next_layer false given_buffer on_condition) s.

Definition async_write (buffers : list bytes) (s : socket) : socket :=
  if have_ssl && get_ssl_flag s then calling (call_write tls_stream true (mjoin buffers)) s
  else calling (call_write next_layer true (mjoin buffers)) s.
Definition socket_write (buffers : list bytes) (s : socket) : socket :=
  if have_ssl && get_ssl_flag s then calling (call_write tls_stream false (mjoin buffers)) s
  else calling (call_write next_layer false (mjoin buffers)) s.

(** [close] shuts the lower layer down, not the TLS stream; errors are ignored. *)
Definition close_socket (s : socket) : socket :=
  if socket_open s then with_open false (calling call_close (calling call_shutdown s)) else s.
Definition cancel (s : socket) : socket := calling call_cancel s.

(** The public functions. *)
Inductive socket_op :=
| so_async_accept | so_accept (ok : bool) | so_async_connect (e : bytes * Z) | so_async_connect_address (a : bytes) (p : Z)
| so_connect (ok : bool) (e : bytes * Z) | so_connect_address (ok : bool) (a : bytes) (p : Z)
| so_async_handshake_client | so_async_handshake_server | so_handshake_client (ok : bool) | so_handshake_server (ok : bool)
| so_async_read_some | so_async_read_some_into | so_read_some | so_read_some_into
| so_async_read | so_async_read_into | so_read | so_read_into
| so_async_write (buffers : list bytes) | so_write (buffers : list bytes) | so_close | so_cancel.

Definition socket_step (op : socket_op) (s : socket) : socket :=
  match op with
  | so_async_accept => async_accept s
  | so_accept ok => accept ok s
  | so_async_connect e => async_connect e s
  | so_async_connect_address a p => async_connect_address a p s
  | so_connect ok e => fst (socket_connect ok e s)
  | so_connect_address ok a p => fst (connect_address ok a p s)
  | so_async_handshake_client => async_handshake_client s
  | so_async_handshake_server => async_handshake_server s
  | so_handshake_client ok => fst (handshake_client ok s)
  | so_handshake_server ok => fst (handshake_server ok s)
  | so_async_read_some => async_read_some s
  | so_async_read_some_into => async_read_some_into s
  | so_read_some => socket_read_some s
  | so_read_some_into => read_some_into s
  | so_async_read => async_read s
  | so_async_read_into => async_read_into s
  | so_read => socket_read s
  | so_read_into => read_into s
  | so_async_write b => async_write b s
  | so_write b => socket_write b s
  | so_close => close_socket s
  | so_cancel => cancel s
  end.

Definition socket_run (ops : list socket_op) (s : socket) : socket := fold_left (fun s op => socket_step op s) ops s.

(** A call of one of the four handshakes. *)
Definition is_handshake (op : socket_op) : bool :=
  match op with
  | so_async_handshake_client | so_async_handshake_server | so_handshake_client _ | so_handshake_server _ => true
  | _ => false
  end.

(** ** The flag decides, and is never taken back *)

(** What one function does to the flag and to the calls. *)
Lemma socket_step_spec op s : (m_ssl_flag s = true -> have_ssl = true) ->
  m_ssl_flag (socket_step op s) = m_ssl_flag s || (have_ssl && is_handshake op)
  /\ exists l, calls (socket_step op s) = calls s ++ l
     /\ Forall (fun c => if m_ssl_flag s then in_clear c = false else in_tls c = have_ssl && is_handshake op) l.
Proof.
  intros Hs. destruct op; cbn [socket_step is_handshake]; rewrite ?andb_false_r, ?orb_false_r, ?andb_true_r;
    unfold async_accept, accept, async_connect_address, async_connect, connect_address, socket_connect, async_handshake_client,
      async_handshake_server, handshake_client, handshake_server, async_read_some, async_read_some_into, socket_read_some,
      read_some_into, async_read, async_read_into, socket_read, read_into, async_write, socket_write, close_socket, cancel, get_ssl_flag;
    destruct (m_ssl_flag s) eqn:Ef; try rewrite (Hs eq_refl); try destruct have_ssl; try destruct (socket_open s);
    cbn; rewrite ?Ef; (split; [done|]);
    first [by exists []; rewrite app_nil_r|rewrite <- ?app_assoc; eexists; (split; [reflexivity|by repeat constructor])].
Qed.

Lemma socket_run_snoc ops op s : socket_run (ops ++ [op]) s = socket_step op (socket_run ops s).
Proof. apply fold_left_app. Qed.

Lemma socket_run_flag ops s : (m_ssl_flag s = true -> have_ssl = true) ->
  m_ssl_flag (socket_run ops s) = m_ssl_flag s || (have_ssl && existsb is_handshake ops).
Proof.
  intros Hs. induction ops as [|op ops IH] using rev_ind; [by rewrite andb_false_r, orb_false_r|].
  rewrite socket_run_snoc, (proj1 (socket_step_spec op _ ltac:(rewrite IH; by destruct have_ssl, (m_ssl_flag s), (existsb _ ops)))).
  rewrite IH, existsb_app. cbn. by destruct have_ssl, (m_ssl_flag s), (existsb is_handshake ops), (is_handshake op).
Qed.

Lemma socket_run_calls ops : forall s, (m_ssl_flag s = true -> have_ssl = true) -> m_ssl_flag s = true ->
  exists l, calls (socket_run ops s) = calls s ++ l /\ Forall (fun c => in_clear c = false) l.
Proof.
  induction ops as [|op ops IH] using rev_ind; intros s Hs Hf; [by exists []; rewrite app_nil_r|].
  rewrite socket_run_snoc. destruct (IH s Hs Hf) as (l & El & Hl).
  pose proof (socket_run_flag ops s Hs) as Hf1. rewrite Hf in Hf1. cbn in Hf1.
  destruct (socket_step_spec op (socket_run ops s)) as (_ & l2 & -> & Hl2); [intros _; by apply Hs|].
  rewrite Hf1 in Hl2. exists (l ++ l2). rewrite El, app_assoc. split; [done|]. by apply Forall_app.
Qed.
End Build.

(** Nothing goes in clear through a connection that uses TLS.  Whatever functions of a
    connection are called: in a build with TLS, what follows a handshake (successful or not),
    and everything if the connection was created for TLS, is written to and read from the
    TLS stream only; a connection that was created without TLS and makes no handshake, and
    every connection of a build without TLS, never uses the TLS stream. *)
Theorem nothing_in_clear ssl_flag ops ops' :
  (existsb is_handshake ops || ssl_flag = true ->
   exists l, calls (socket_run true (ops ++ ops') (create_connection true ssl_flag)) = calls (socket_run true ops (create_connection true ssl_flag)) ++ l
             /\ Forall (fun c => in_clear c = false) l)
  /\ (ssl_flag = true -> Forall (fun c => in_clear c = false) (calls (socket_run true ops (create_connection true ssl_flag))))
  /\ (existsb is_handshake ops || ssl_flag = false -> Forall (fun c => in_tls c = false) (calls (socket_run true ops (create_connection true ssl_flag))))
  /\ Forall (fun c => in_tls c = false) (calls (socket_run false ops (create_connection false ssl_flag))).
Proof.
  assert (forall have_ssl ops s, m_ssl_flag s = false -> have_ssl && existsb is_handshake ops = false ->
            exists l, calls (socket_run have_ssl ops s) = calls s ++ l /\ Forall (fun c => in_tls c = false) l) as Hplain.
  { clear. intros have_ssl ops s Hs. induction ops as [|op ops IH] using rev_ind; [by exists []; rewrite app_nil_r|].
    rewrite existsb_app. cbn. rewrite orb_false_r. intros Hh. rewrite socket_run_snoc.
    destruct IH as (l & El & Hl); [destruct have_ssl, (existsb is_handshake ops); done|].
    pose proof (socket_run_flag have_ssl ops s ltac:(congruence)) as Hf. rewrite Hs in Hf.
    assert (m_ssl_flag (socket_run have_ssl ops s) = false) as Hf0.
    { rewrite Hf. by destruct have_ssl, (existsb is_handshake ops). }
    destruct (socket_step_spec have_ssl op (socket_run have_ssl ops s)) as (_ & l2 & -> & Hl2); [congruence|].
    rewrite Hf0 in Hl2. exists (l ++ l2). rewrite El, app_assoc. split; [done|]. apply Forall_app. split; [done|].
    eapply Forall_impl; [exact Hl2|]. cbn beta. intros c ->. by destruct have_ssl, (existsb is_handshake ops), (is_handshake op). }
  split_and!.
  - intros H. unfold socket_run. rewrite fold_left_app. apply socket_run_calls; [done|].
    pose proof (socket_run_flag true ops (create_connection true ssl_flag) ltac:(done)) as Hf. unfold socket_run in Hf. rewrite Hf. cbn.
    by destruct ssl_flag, (existsb is_handshake ops).
  - intros ->. destruct (socket_run_calls true ops (create_connection true true) ltac:(done) eq_refl) as (l & -> & Hl). exact Hl.
  - intros H. apply orb_false_iff in H as [H1 ->]. destruct (Hplain true ops (create_connection true false)) as (l & -> & Hl); [done|done|exact Hl].
  - destruct (Hplain false ops (create_connection false ssl_flag)) as (l & -> & Hl); [done|done|exact Hl].
Qed.

(** ** A handshake that fails *)

(** A handshake that fails leaves the flag set, and the connection open for writing. *)
Lemma failed_handshake_sets_flag s : snd (handshake_client true false s) = false /\ m_ssl_flag (fst (handshake_client true false s)) = true.
Proof. done. Qed.
