(* ===== verification/Reader.v ===== *)
(** * The HTTP reader

    Models [http::reader] (src/http_reader.cpp, include/pion/http/reader.hpp), which reads a
    message from a TCP connection piece by piece and decides what happens to the connection
    afterwards.  A read operation of the socket is asynchronous: the reader asks for it
    ([read_bytes]) and is called back with an event.  The calls it makes to the object that
    created it ([finished_reading]) are the actions of the model. *)
From S2P Require Import Prelude CLib StringUtils Dict Tribool HttpTypes Message ParserBase.
From S2P Require Import ParserHeaders ParserForms ParserBody Parser ParserSafety ParserStream.
From S2P Require Import ParserRoundTrip Connection.

(** ** State *)

Definition DEFAULT_READ_TIMEOUT : Z := 10.

(** [rd_end] is the offset of [m_read_end_ptr] in the connection's read buffer. *)
Record reader := mk_reader {
  rd_parser : parser;
  rd_message : message;
  rd_conn : connection;
  rd_end : nat;
  m_timer_ptr : option timer;
  m_read_timeout : Z
}.

(** [request_reader::create] and [response_reader::create]: a parser with the default
    limit. *)
Definition new_reader (m : message) (c : connection) : reader :=
  mk_reader (new_parser (is_request m) DEFAULT_CONTENT_MAX) m c 0 None DEFAULT_READ_TIMEOUT.

(** The error codes [finished_reading] gets. *)
Inductive reader_error :=
| reader_parse_error (e : error_value_t)
| reader_read_error
| reader_eof.

Inductive reader_action :=
| read_bytes
| finished_reading (ec : option reader_error).

Definition with_conn (f : connection -> connection) (r : reader) : reader :=
  mk_reader (rd_parser r) (rd_message r) (f (rd_conn r)) (rd_end r) (m_timer_ptr r)
    (m_read_timeout r).

(** ** Operations *)

(** [read_bytes_with_timeout]: a new timer that is started, if there is a time limit. *)
Definition read_bytes_with_timeout (r : reader) : reader * reader_action :=
  (mk_reader (rd_parser r) (rd_message r) (rd_conn r) (rd_end r)
     (if 0 <? m_read_timeout r then Some (fst (timer_step timer_start new_timer)) else None)
     (m_read_timeout r),
   read_bytes).

(** The offsets of the parser's pointers. *)
Definition read_pos (r : reader) : option (nat * nat) :=
  Some ((rd_end r - length (m_read (rd_parser r)))%nat, rd_end r).

(** The connection's lifecycle after a complete message. *)
Definition set_message_lifecycle (r : reader) : reader :=
  if check_keep_alive (rd_message r) then
    if eof (rd_parser r) then with_conn (set_lifecycle LIFECYCLE_KEEPALIVE) r
    else with_conn (fun c => save_read_pos (read_pos r) (set_lifecycle LIFECYCLE_PIPELINED c)) r
  else with_conn (set_lifecycle LIFECYCLE_CLOSE) r.

(** [consume_bytes()]: parse what is in the parser's read buffer. *)
Definition consume_bytes (r : reader) : option (res (reader * reader_action)) :=
  match parse (rd_parser r) (rd_message r) None with
  | None => None
  | Some (Fault f) => Some (Fault f)
  | Some (Ok (result, p, m, ec)) =>
      let r := mk_reader p m (rd_conn r) (rd_end r) (m_timer_ptr r) (m_read_timeout r) in
      let ec := reader_parse_error <$> ec in
      Some (Ok (match result with
                | true_value => (set_message_lifecycle r, finished_reading ec)
                | false_value =>
                    (mk_reader p (set_is_valid false m)
                       (set_lifecycle LIFECYCLE_CLOSE (rd_conn r)) (rd_end r) (m_timer_ptr r)
                       (m_read_timeout r), finished_reading ec)
                | indeterminate_value => read_bytes_with_timeout r
                end))
  end.

Definition handle_read_error (r : reader) : res (reader * reader_action) :=
  let c := set_lifecycle LIFECYCLE_CLOSE (rd_conn r) in
  e ← check_premature_eof (rd_parser r) (rd_message r);
  let '(premature, p, m) := e in
  let r := mk_reader p m c (rd_end r) (m_timer_ptr r) (m_read_timeout r) in
  Ok (r, finished_reading (if premature : bool then Some reader_read_error else None)).

(** [consume_bytes(read_error, bytes_read)], the callback of a read operation. *)
Definition handle_read (ev : read_event) (r : reader) : option (res (reader * reader_action)) :=
  let r := mk_reader (rd_parser r) (rd_message r) (rd_conn r) (rd_end r) None (m_read_timeout r) in
  match ev with
  | read_failed => Some (handle_read_error r)
  | read_data data =>
      let c := store_read data (rd_conn r) in
      let n := length (take READ_BUFFER_SIZE data) in
      let p := set_read_buffer (buffer_slice c 0 n) (rd_parser r) in
      let r := mk_reader p (rd_message r) c n (m_timer_ptr r) (m_read_timeout r) in
      if eof p then Some (Ok (r, finished_reading (Some reader_eof))) else consume_bytes r
  end.

(** [receive]: start reading. *)
Definition receive (r : reader) : option (res (reader * reader_action)) :=
  if get_pipelined (rd_conn r) then
    let c := set_lifecycle LIFECYCLE_CLOSE (rd_conn r) in
    let '(data, last) := load_read_pos c in
    consume_bytes (mk_reader (set_read_buffer data (rd_parser r)) (rd_message r) c last
                     (m_timer_ptr r) (m_read_timeout r))
  else Some (Ok (read_bytes_with_timeout (with_conn (set_lifecycle LIFECYCLE_CLOSE) r))).

(** The reader until it has finished, or waits for an event that does not come. *)
Fixpoint run_reader (events : list read_event) (o : option (res (reader * reader_action)))
  : option (res (reader * reader_action * list read_event)) :=
  match o with
  | None => None
  | Some (Fault f) => Some (Fault f)
  | Some (Ok (r, finished_reading ec)) => Some (Ok (r, finished_reading ec, events))
  | Some (Ok (r, read_bytes)) =>
      match events with
      | [] => Some (Ok (r, read_bytes, []))
      | ev :: events' => run_reader events' (handle_read ev r)
      end
  end.

(** Requests read one after the other from a connection, with a new reader for each, as the
    server does while the connection is kept alive: what was read (the message and the error
    code of each), the connection and the events that are left. *)
Fixpoint read_requests (n : nat) (c : connection) (events : list read_event)
  : option (res (list (message * option reader_error) * connection * list read_event)) :=
  match n with
  | O => Some (Ok ([], c, events))
  | S n' =>
      match run_reader events (receive (new_reader new_request c)) with
      | None => None
      | Some (Fault f) => Some (Fault f)
      | Some (Ok (r, read_bytes, events)) => Some (Ok ([], rd_conn r, events))
      | Some (Ok (r, finished_reading ec, events)) =>
          if get_keep_alive (rd_conn r) then
            match read_requests n' (rd_conn r) events with
            | None => None
            | Some (Fault f) => Some (Fault f)
            | Some (Ok (ms, c, events)) => Some (Ok ((rd_message r, ec) :: ms, c, events))
            end
          else Some (Ok ([(rd_message r, ec)], rd_conn r, events))
      end
  end.

(** ** What a call of [parse] uses *)

(** The bytes that are left are the end of the buffer, and the error code changes only when
    the result is false. *)
Definition uses (p : parser) (ec : error_code) (o : outcome) : Prop :=
  let '(rc, p', m', ec') := o in
  (exists pre, m_read p = pre ++ m_read p') /\ (rc <> false_value -> ec' = ec).

Lemma parse_headers_uses p m ec : uses p ec (parse_headers p m ec).
Proof.
  unfold parse_headers, uses. destruct (parse_headers_loop_suffix (m_read p) p m) as [pre E].
  pose proof (parse_headers_loop_error (m_read p) p m) as He.
  destruct (h_error _); (split; [by exists pre|]); [|done].
  intros H. exfalso. apply H, He. eauto.
Qed.

Lemma parse_chunks_uses p chunks ec rc p' chunks' ec' m :
  parse_chunks p chunks ec = (rc, p', chunks', ec') -> uses p ec (rc, p', m, ec').
Proof.
  unfold parse_chunks, uses. destruct (parse_chunks_loop_suffix 0 (m_read p) p chunks) as [pre E].
  pose proof (parse_chunks_loop_error 0 (m_read p) p chunks _ eq_refl) as He.
  destruct (c_error _) eqn:Ee; intros [= <- <- <- <-]; (split; [by exists pre|]); [|done].
  intros H. exfalso. apply H, He. eauto.
Qed.

Lemma consume_content_uses p m rc p' m' ec :
  consume_content p m = Ok (rc, p', m') -> uses p ec (rc, p', m', ec).
Proof.
  unfold consume_content, uses. intros H. split; [|done].
  case_if_in H; [simplify_eq; by exists []|].
  destruct (if _ <=? _ then _ else _) as [rc1 n]. inv_res H. destruct a as [q m2]. simplify_eq.
  exists (take (Z.to_nat n) (m_read p)). simpl.
  assert (m_read q = m_read p) as ->; [|by rewrite take_drop].
  destruct (has_handler _); [|inv_res Heqr]; simplify_eq; [|done].
  unfold call_handler. simpl. by destruct (m_payload_handler p).
Qed.

Lemma uses_suffix p p1 ec rc1 m1 ec1 o :
  uses p ec (rc1, p1, m1, ec1) -> rc1 <> false_value -> uses p1 ec1 o -> uses p ec o.
Proof.
  destruct o as [[[rc2 p2] m2] ec2]. unfold uses. intros [[pre E] H] Hrc [[pre' E'] H'].
  split; [exists (pre ++ pre'); by rewrite <- app_assoc, <- E'|]. intros Hr. by rewrite H', H.
Qed.

Lemma finish_header_parsing_uses p m ec o :
  finish_header_parsing p m ec = Ok o -> uses p ec o.
Proof.
  destruct o as [[[rc p'] m'] ec']. intros H.
  destruct (finish_header_parsing_state _ _ _ _ _ _ _ H) as [[Hr _] _]. unfold uses. rewrite Hr.
  split; [by exists []|]. revert H. unfold finish_header_parsing, finish_with_length.
  intros H. inv_res H. repeat case_if_in H; try by simplify_eq.
  destruct (update_content_length_using_header _); [|by simplify_eq].
  repeat case_if_in H; try by simplify_eq. all: inv_res H; by simplify_eq.
Qed.

Lemma headers_pass_uses p m ec o : headers_pass p m ec = Ok o -> uses p ec o.
Proof.
  unfold headers_pass. pose proof (parse_headers_uses p m ec) as Hu.
  destruct (parse_headers p m ec) as [[[rc1 p1] m1] ec1]. case_if; [|by intros [= <-]].
  intros H%finish_header_parsing_uses. apply andb_true_iff in Heqb as [Ht _].
  eapply uses_suffix; [exact Hu | by intros -> | exact H].
Qed.

Lemma parse_pass_uses rc p m ec o :
  rc <> false_value -> parse_pass rc p m ec = Ok o -> uses p ec o.
Proof.
  intros Hrc. rewrite parse_pass_eq. destruct (m_message_parse_state p) eqn:Es.
  - by apply (headers_pass_uses (mgoto PARSE_HEADERS p)).
  - apply headers_pass_uses.
  - apply headers_pass_uses.
  - destruct (consume_content p m) as [[[rc1 p1] m1]|] eqn:E; [|done]. intros [= <-].
    by eapply consume_content_uses.
  - unfold consume_content_as_next_chunk. rewrite bytes_available_zlen.
    destruct (zlen (m_read p) =? 0) eqn:E; [intros [= <-]; by split; [exists []|]|].
    destruct (has_handler p); intros [= <-];
      (split; [exists (m_read p); simpl; by rewrite app_nil_r|done]).
  - destruct (parse_chunks p (m_chunk_cache m) ec) as [[[rc1 p1] ch] ec1] eqn:E.
    unfold after_chunks. pose proof (fun m => parse_chunks_uses _ _ _ _ _ _ _ m E) as Hu.
    case_if; [|intros [= <-]; apply Hu].
    apply andb_true_iff in Heqb as [Ht _].
    destruct (concatenate_chunks _) as [m2|]; [|done]. intros [= <-].
    eapply (uses_suffix _ p1 _ rc1 m ec1); [apply Hu | by intros -> | by split; [exists []|]].
  - intros [= <-]. by split; [exists []|].
Qed.

Lemma parse_loop_uses fuel rc total p m ec rc' total' p' m' ec' :
  rc <> false_value -> parse_loop fuel rc total p m ec = Some (Ok (rc', total', p', m', ec')) ->
  uses p ec (rc', p', m', ec').
Proof.
  revert rc total p m ec. induction fuel as [|fuel IH]; intros rc total p m ec Hrc; [done|].
  cbn [parse_loop]. destruct (parse_pass rc p m ec) as [[[[rc1 p1] m1] ec1]|] eqn:E; [|done].
  apply parse_pass_uses in E; [|done]. case_if; [|by intros [= <- <- <- <- <-]].
  apply andb_true_iff in Heqb as [Hi _].
  intros H%IH; [|by intros ->]. eapply uses_suffix; [exact E | by intros -> | exact H].
Qed.

Lemma conclude_read rc p m p' m' : conclude rc p m = Ok (p', m') -> m_read p' = m_read p.
Proof.
  unfold conclude. intros H. case_if_in H; [inv_res H; by simplify_eq|].
  case_if_in H; by simplify_eq.
Qed.

Lemma parse_uses p m ec o : parse p m ec = Some (Ok o) -> uses p ec o.
Proof.
  intros H. destruct (decide (m_read p = [])) as [Hr|Hr].
  { unfold parse in H. by rewrite (proj2 (eof_true p) Hr) in H. }
  rewrite parse_eq in H by done.
  destruct (parse_loop _ _ _ _ _ _) as [[[[[[rc T] p1] m1] ec1]|]|] eqn:E; [|done..].
  apply parse_loop_uses in E; [|done]. cbn [fmap option_fmap option_map parse_end] in H.
  destruct (conclude rc p1 m1) as [[p2 m2]|] eqn:Ec; [|done]. cbn [mbind res_bind] in H.
  apply conclude_read in Ec. simplify_eq. destruct E as [[pre Hp] He].
  split; [exists pre; simpl; congruence | done].
Qed.

(** ** Reading from a stream *)

(** The bytes that were read before and wait for the next reader. *)
Definition pending (c : connection) : bytes :=
  if get_pipelined c then fst (load_read_pos c) else [].

(** A connection that can be handed to a reader. *)
Record ready (c : connection) : Prop := mk_ready {
  rdy_size : length (m_read_buffer c) = READ_BUFFER_SIZE;
  rdy_pending : get_pipelined c = true ->
                pending c <> [] /\ (snd (load_read_pos c) <= READ_BUFFER_SIZE)%nat
}.

(** What one read operation can give. *)
Definition segment (data : bytes) : Prop :=
  data <> [] /\ (length data <= READ_BUFFER_SIZE)%nat.

(** The parser's read buffer is the part of the connection's read buffer before
    [rd_end]. *)
Definition reads_buffer (r : reader) : Prop :=
  length (m_read_buffer (rd_conn r)) = READ_BUFFER_SIZE /\ (rd_end r <= READ_BUFFER_SIZE)%nat
  /\ exists first, buffer_slice (rd_conn r) first (rd_end r) = m_read (rd_parser r).

(** The reader and the connection after a message that ends before [rest]. *)
Record finished_with (m' : message) (rest : bytes) (r : reader) (datas : list bytes) : Prop :=
  mk_finished_with {
  fw_message : rd_message r = m';
  fw_ready : ready (rd_conn r);
  fw_alive : get_keep_alive (rd_conn r) = true;
  fw_rest : pending (rd_conn r) ++ mjoin datas = rest;
  fw_segments : Forall segment datas
}.

Lemma set_message_lifecycle_ready r datas :
  (exists pre first, buffer_slice (rd_conn r) first (rd_end r) = pre ++ m_read (rd_parser r)) ->
  length (m_read_buffer (rd_conn r)) = READ_BUFFER_SIZE -> (rd_end r <= READ_BUFFER_SIZE)%nat ->
  check_keep_alive (rd_message r) = true -> Forall segment datas ->
  finished_with (rd_message r) (m_read (rd_parser r) ++ mjoin datas) (set_message_lifecycle r) datas.
Proof.
  intros (pre & first & Hs) Hb He Hk Hd. unfold set_message_lifecycle. rewrite Hk.
  destruct (eof (rd_parser r)) eqn:Ee.
  - apply eof_true in Ee. rewrite Ee. by constructor.
  - apply eof_false in Ee.
    assert (buffer_slice (rd_conn r) (rd_end r - length (m_read (rd_parser r))) (rd_end r)
            = m_read (rd_parser r)) as Hp by (eapply slice_suffix; [by rewrite Hb | exact Hs]).
    constructor; try done; [constructor; try done|].
    + intros _. split; [exact (eq_ind_r (fun s => s <> []) Ee Hp) | exact He].
    + unfold pending. cbn. f_equal. exact Hp.
Qed.

Lemma with_m_read_self p : with_m_read (m_read p) p = p.
Proof. by destruct p. Qed.

(** The callback of a read operation that gave [d]. *)
Lemma handle_read_data d r :
  segment d -> length (m_read_buffer (rd_conn r)) = READ_BUFFER_SIZE ->
  exists r', handle_read (read_data d) r = consume_bytes r' /\ reads_buffer r'
             /\ rd_parser r' = with_m_read d (rd_parser r) /\ rd_message r' = rd_message r.
Proof.
  intros [Hne Hle] Hb. unfold handle_read. cbn [rd_parser rd_message rd_conn rd_end].
  rewrite (take_ge d), store_read_slice by done. unfold set_read_buffer.
  rewrite (proj2 (eof_false (with_m_read d _)) Hne).
  eexists. split; [reflexivity|]. split; [|done]. split; [by apply length_store_read|].
  split; [done|]. exists 0%nat. by apply store_read_slice.
Qed.

Lemma run_reader_finished events r ec :
  run_reader events (Some (Ok (r, finished_reading ec))) = Some (Ok (r, finished_reading ec, events)).
Proof. by destruct events. Qed.

Lemma run_reader_more ev events r :
  run_reader (ev :: events) (Some (Ok (r, read_bytes))) = run_reader events (handle_read ev r).
Proof. reflexivity. Qed.

(** The reader after a call of [parse]. *)
Definition parsed (p : parser) (m : message) (r : reader) : reader :=
  mk_reader p m (rd_conn r) (rd_end r) (m_timer_ptr r) (m_read_timeout r).

Lemma consume_bytes_true r p m :
  parse (rd_parser r) (rd_message r) None = Some (Ok (true_value, p, m, None)) ->
  consume_bytes r = Some (Ok (set_message_lifecycle (parsed p m r), finished_reading None)).
Proof. intros E. unfold consume_bytes. by rewrite E. Qed.

Lemma consume_bytes_more r p m :
  parse (rd_parser r) (rd_message r) None = Some (Ok (indeterminate_value, p, m, None)) ->
  consume_bytes r = Some (Ok (fst (read_bytes_with_timeout (parsed p m r)), read_bytes)).
Proof. intros E. unfold consume_bytes. by rewrite E. Qed.

Lemma consume_bytes_done datas r p1 m1 :
  reads_buffer r -> Forall segment datas -> check_keep_alive m1 = true ->
  parse (rd_parser r) (rd_message r) None = Some (Ok (true_value, p1, m1, None)) ->
  exists r' datas', run_reader (read_data <$> datas) (consume_bytes r)
                    = Some (Ok (r', finished_reading None, read_data <$> datas'))
                    /\ finished_with m1 (m_read p1 ++ mjoin datas) r' datas'.
Proof.
  intros (Hb & He & first & Hs) Hd Hk E. destruct (parse_uses _ _ _ _ E) as [[pre Hp] _].
  exists (set_message_lifecycle (parsed p1 m1 r)), datas.
  rewrite (consume_bytes_true _ _ _ E), run_reader_finished. split; [reflexivity|].
  apply (set_message_lifecycle_ready (parsed p1 m1 r)); try assumption.
  exists pre, first. simpl. congruence.
Qed.

Lemma feed_cons b pieces p m ec :
  feed (b :: pieces) p m ec
  = match parse (with_m_read b p) m ec with
    | Some (Ok (indeterminate_value, p', m', ec')) => feed pieces p' m' ec'
    | Some r => Some (append_unread (mjoin pieces) r)
    | None => None
    end.
Proof. reflexivity. Qed.

(** A reader that has [data] in its parser and gets the data [datas]. *)
Lemma consume_bytes_feed data datas r p p' m' ec' :
  reads_buffer r -> Forall segment datas -> check_keep_alive m' = true ->
  rd_parser r = with_m_read data p ->
  feed (data :: datas) p (rd_message r) None = Some (Ok (true_value, p', m', ec')) ->
  exists r' datas', run_reader (read_data <$> datas) (consume_bytes r)
                    = Some (Ok (r', finished_reading None, read_data <$> datas'))
                    /\ finished_with m' (m_read p') r' datas'.
Proof.
  intros Hrb Hd Hk. revert data r p Hrb Hd.
  induction datas as [|d datas IH]; intros data r p Hrb Hd Hr Hf;
    rewrite feed_cons, <- Hr in Hf;
    destruct (parse (rd_parser r) (rd_message r) None) as [[[[[rc p1] m1] ec1]|]|] eqn:E;
    try discriminate Hf; destruct (parse_uses _ _ _ _ E) as [_ Hec];
    (destruct rc; [discriminate Hf | | ]); rewrite (Hec ltac:(discriminate)) in E, Hf.
  2: discriminate Hf.
  3: { rewrite (consume_bytes_more _ _ _ E).
       destruct (handle_read_data d (fst (read_bytes_with_timeout (parsed p1 m1 r)))
         (Forall_inv Hd) (proj1 Hrb)) as (r2 & E2 & Hr2 & Hp2 & Hm2).
       change (rd_parser (fst _)) with p1 in Hp2. change (rd_message (fst _)) with m1 in Hm2.
       rewrite fmap_cons, run_reader_more, E2.
       apply (IH d r2 p1); [done | by eapply Forall_inv_tail | exact Hp2|].
       rewrite Hm2. exact Hf. }
  all: cbn [append_unread] in Hf; injection Hf as Hp' <- _; rewrite <- Hp';
    change (m_read (with_m_read ?b p1)) with b; apply consume_bytes_done; assumption.
Qed.

(** ** Whole messages *)

(** A request that can be sent over a connection that is kept alive, with a content the
    reader's limit allows. *)
Record keep_alive_request (content : bytes) (m : message) : Prop := mk_keep_alive_request {
  kr_sendable : sendable content m;
  kr_request : is_request m = true;
  kr_version : 1 < m_version_major m \/ (m_version_major m = 1 /\ 1 <= m_version_minor m);
  kr_form : is_multipart m = false;
  kr_size : zlen content <= DEFAULT_CONTENT_MAX
}.

Lemma sent_connection content m :
  sendable content m -> get_value (sent_headers m) HEADER_CONNECTION = str "Keep-Alive".
Proof.
  intros Hs. rewrite get_value_range, (sent_headers_range _ _ _ Hs).
  change (iequals HEADER_CONTENT_LENGTH HEADER_CONNECTION) with false. cbv iota.
  by rewrite equal_range_change_value, iequals_refl.
Qed.

Lemma received_keep_alive content m' m :
  keep_alive_request content m -> received (sent_headers m) content m' m -> check_keep_alive m' = true.
Proof.
  intros [Hs _ Hv _ _] [Ha _]. unfold check_keep_alive, get_header.
  rewrite (ar_headers _ _ _ Ha), (sent_connection _ _ Hs), (ar_major _ _ _ Ha), (ar_minor _ _ _ Ha).
  change (bytes_eqb (str "Keep-Alive") (str "close")) with false. cbn [negb andb]. lia.
Qed.

Lemma message_text_nonempty content m : message_text content m <> [].
Proof. unfold message_text, STRING_CRLF. by destruct (start_line m). Qed.

(** The pieces of a stream that starts with a message. *)
Lemma feed_of_text rq content rest m pieces :
  keep_alive_request content m -> Forall (fun b => b <> []) pieces ->
  mjoin pieces = message_text content m ++ rest ->
  exists p' m' ec', feed pieces (new_parser true DEFAULT_CONTENT_MAX) (new_message (KRequest rq)) None
                    = Some (Ok (true_value, p', m', ec'))
                    /\ m_read p' = rest /\ m_is_valid m' = true /\ m_status m' = STATUS_OK
                    /\ received (sent_headers m) content m' m.
Proof.
  intros [Hs Hq Hv Hm Hz] Hne Hj.
  destruct (parse_of_text content rest m DEFAULT_CONTENT_MAX (KRequest rq) Hs)
    as (p1 & m1 & Ep & Hr & Hval & Hst & Hrec); [|done..|].
  { unfold expects_content, is_request in *. by destruct (m_kind m). }
  rewrite Hq, <- Hj in Ep. 
  assert (parse_obs (feed pieces (new_parser true DEFAULT_CONTENT_MAX) (new_message (KRequest rq)) None)
          = parse_obs (Some (Ok (true_value, p1, m1, None)))) as Ho.
  { rewrite <- Ep. apply feed_whole; [done| | |done].
    - apply (new_parser_safe true DEFAULT_CONTENT_MAX (KRequest rq)); done.
    - intros ->. simpl in Hj. symmetry in Hj. apply app_eq_nil in Hj as [Hj _].
      by apply message_text_nonempty in Hj. }
  destruct (feed pieces _ _ _) as [[[[[rc p2] m2] ec2]|]|]; [|done..].
  assert (obs (Ok (true_value, p1, m1, None)) = obs (Ok (rc, p2, m2, ec2))) as Ho'
    by (apply (inj Some); exact (eq_sym Ho)).
  apply obs_Ok_inv in Ho' as (-> & Hf & -> & ->). exists p2, m1, None.
  destruct (forget_io _ _ _ Hf) as [Hread _]. by rewrite Hread.
Qed.

Lemma read_bytes_eq r :
  read_bytes_with_timeout r = (fst (read_bytes_with_timeout r), read_bytes).
Proof. reflexivity. Qed.

(** One reader reads one message. *)
Lemma read_one_request content m rest c datas :
  keep_alive_request content m -> ready c -> Forall segment datas ->
  pending c ++ mjoin datas = message_text content m ++ rest ->
  exists r datas' m', run_reader (read_data <$> datas) (receive (new_reader new_request c))
                      = Some (Ok (r, finished_reading None, read_data <$> datas'))
                      /\ finished_with m' rest r datas'
                      /\ m_is_valid m' = true /\ received (sent_headers m) content m' m.
Proof.
  intros Hm Hc Hd Hj. pose proof Hc as [Hb Hpend]. unfold receive.
  change (rd_conn (new_reader new_request c)) with c. unfold pending in Hj.
  assert (forall datas, Forall segment datas -> Forall (fun b => b <> []) datas) as Hne
    by (intros ds H; eapply Forall_impl; [exact H|]; by intros ? []).
  destruct (get_pipelined c) eqn:Ep.
  - destruct (Hpend eq_refl) as [Hp Hlast]. unfold pending in Hp. rewrite Ep in Hp.
    change (load_read_pos (set_lifecycle LIFECYCLE_CLOSE c)) with (load_read_pos c).
    destruct (feed_of_text (mk_request REQUEST_METHOD_GET [] [] [] [] None)
        content rest m (fst (load_read_pos c) :: datas) Hm)
      as (p' & m' & ec' & Ef & Hr & Hv & _ & Hrec); [by constructor; auto | exact Hj|].
    destruct (load_read_pos c) as [data last] eqn:El. cbn [fst snd] in *.
    edestruct (consume_bytes_feed data datas (mk_reader (set_read_buffer data
        (rd_parser (new_reader new_request c))) (rd_message (new_reader new_request c))
        (set_lifecycle LIFECYCLE_CLOSE c) last (m_timer_ptr (new_reader new_request c))
        (m_read_timeout (new_reader new_request c)))) as (r & ds & E & Hf);
      [ | done | by eapply received_keep_alive | reflexivity | exact Ef | ].
    + split; [done|]. split; [done|]. unfold load_read_pos in El.
      destruct (m_read_position c) as [[first l]|]; [|by simplify_eq]. simplify_eq. by exists first.
    + exists r, ds, m'. rewrite Hr in Hf. done.
  - destruct datas as [|d datas].
    { simpl in Hj. symmetry in Hj. apply app_eq_nil in Hj as [Hj _].
      by apply message_text_nonempty in Hj. }
    destruct (feed_of_text (mk_request REQUEST_METHOD_GET [] [] [] [] None)
        content rest m (d :: datas) Hm)
      as (p' & m' & ec' & Ef & Hr & Hv & _ & Hrec); [by auto | exact Hj|].
    destruct (handle_read_data d (fst (read_bytes_with_timeout
        (with_conn (set_lifecycle LIFECYCLE_CLOSE) (new_reader new_request c)))) (Forall_inv Hd) Hb)
      as (r1 & E1 & Hr1 & Hp1 & Hm1).
    change (rd_parser (fst _)) with (new_parser true DEFAULT_CONTENT_MAX) in Hp1.
    change (rd_message (fst _)) with new_request in Hm1.
    destruct (consume_bytes_feed d datas r1 (new_parser true DEFAULT_CONTENT_MAX) p' m' ec')
      as (r & ds & E & Hf); [done | by eapply Forall_inv_tail | by eapply received_keep_alive
      | done | by rewrite Hm1 |].
    exists r, ds, m'. rewrite Hr in Hf. split; [|done].
    rewrite read_bytes_eq, fmap_cons, run_reader_more, E1. exact E.
Qed.

(** What [message::write] puts on the connection. *)
Definition written (m : message) : bytes :=
  match write false m with Ok (_, text) => text | Fault _ => [] end.

Lemma written_text content m : sendable content m -> written m = message_text content m.
Proof. intros Hs. unfold written. by destruct (write_text content m Hs) as (m1 & -> & _). Qed.

(** What the handler of a request gets: the message that was sent, complete and valid, and
    no error. *)
Definition delivered (cm : bytes * message) (o : message * option reader_error) : Prop :=
  snd o = None /\ m_is_valid (fst o) = true /\ same_start (fst o) (snd cm)
  /\ m_headers (fst o) = sent_headers (snd cm) /\ read_content (fst o) = Ok (fst cm).

(** C17: pipelined requests.  Requests that were written one after the other to a connection
    that is kept alive are delivered one after the other, each complete and valid with its
    own start line, headers and content, however the stream of bytes was cut by the read
    operations: a request may arrive in many pieces, and a piece may end one request and
    contain the following ones.  The rest of the stream stays available: in the bookmark of
    the connection and in the data that was not read yet. *)
Theorem pipelined_requests ms rest c datas :
  Forall (fun cm => keep_alive_request (fst cm) (snd cm)) ms -> ready c -> Forall segment datas ->
  pending c ++ mjoin datas = mjoin ((fun cm => written (snd cm)) <$> ms) ++ rest ->
  exists outcomes c' datas',
    read_requests (length ms) c (read_data <$> datas)
    = Some (Ok (outcomes, c', read_data <$> datas'))
    /\ Forall2 delivered ms outcomes
    /\ ready c' /\ pending c' ++ mjoin datas' = rest.
Proof.
  intros Hms. revert c datas. induction Hms as [|[content m] ms Hm Hms IH]; intros c datas Hc Hd Hj.
  - exists [], c, datas. split; [done|]. split; [constructor|]. done.
  - cbn [length read_requests fst snd] in *.
    change (pending c ++ mjoin datas
            = (written m ++ mjoin ((fun cm => written (snd cm)) <$> ms)) ++ rest) in Hj.
    rewrite (written_text _ _ (kr_sendable _ _ Hm)), <- app_assoc in Hj.
    destruct (read_one_request content m _ c datas Hm Hc Hd Hj)
      as (r & ds & m' & -> & [Hmsg Hrdy Hal Hrest Hseg] & Hv & [Ha Hcont]).
    rewrite Hal. destruct (IH (rd_conn r) ds Hrdy Hseg Hrest)
      as (outcomes & c' & datas' & -> & Hdel & Hc' & Hrest').
    exists ((rd_message r, None) :: outcomes), c', datas'. split; [done|]. split; [|done].
    constructor; [|done]. rewrite Hmsg. destruct Ha. done.
Qed.

Lemma segment_small data :
  negb (bool_decide (data = [])) && (zlen data <=? 8192) = true -> segment data.
Proof.
  intros [H1 H2]%andb_true_iff. apply negb_true_iff, bool_decide_eq_false in H1. split; [done|].
  unfold READ_BUFFER_SIZE, zlen in *. lia.
Qed.

(** Two requests in two pieces; the second piece ends the first request, contains the
    second one and some data behind it. *)
Lemma pipelined_requests_witness :
  let text := written sample_request in
  let stream := text ++ text ++ str "GET /" in
  exists o1 o2 c' datas',
    read_requests 2 (new_connection (replicate READ_BUFFER_SIZE NUL))
      (read_data <$> [take 10 stream; drop 10 stream])
    = Some (Ok ([o1; o2], c', read_data <$> datas'))
    /\ read_content (fst o2) = Ok (str "hello") /\ pending c' ++ mjoin datas' = str "GET /".
Proof.
  intros text stream.
  assert (keep_alive_request (str "hello") sample_request) as Hk.
  { split; [exact sample_request_sendable | reflexivity | right; split; [reflexivity | discriminate]
           | reflexivity | discriminate]. }
  destruct (pipelined_requests [(str "hello", sample_request); (str "hello", sample_request)]
    (str "GET /") (new_connection (replicate READ_BUFFER_SIZE NUL))
    [take 10 stream; drop 10 stream])
    as (outcomes & c' & datas' & E & Hd & _ & Hrest).
  - constructor; [exact Hk|]. constructor; [exact Hk|]. constructor.
  - constructor; [apply length_replicate | discriminate].
  - repeat (apply Forall_cons; split; [apply segment_small; vm_compute; reflexivity|]). constructor.
  - vm_compute. reflexivity.
  - inversion Hd as [|? o1 ? ? H1 Hd1]; subst. inversion Hd1 as [|? o2 ? ? H2 Hd2]; subst.
    inversion Hd2; subst. exists o1, o2, c', datas'. split; [exact E|].
    split; [apply H2 | exact Hrest].
Defined.
