(* ===== verification/Writer.v ===== *)
(** * The HTTP writer

    Models [http::writer] (src/http_writer.cpp, include/pion/http/writer.hpp) with its two
    subclasses [response_writer] and [request_writer]: buffering the payload content, the
    headers that are sent once, and the framing of chunks.  The text and binary caches own
    the memory of the buffers until the writer is cleared, so a buffer is modelled by its
    bytes. *)
From S2P Require Import Prelude CLib StringUtils Dict Tribool HttpTypes Message ParserBase.
From S2P Require Import ParserHeaders ParserForms ParserBody Parser ParserSafety ParserStream.
From S2P Require Import ParserRoundTrip Connection.

(** ** State *)

Record writer := mk_writer {
  w_message : message;  (* m_http_response or m_http_request *)
  w_conn : connection;  (* m_tcp_conn *)
  w_content_buffers : list bytes;
  w_content_stream : bytes;
  w_content_length : Z;
  w_stream_is_empty : bool;
  w_client_supports_chunks : bool;
  w_sending_chunks : bool;
  w_sent_headers : bool
}.

Definition new_writer (m : message) (c : connection) : writer :=
  mk_writer m c [] [] 0 true true false false.

(** ** Buffering the content *)

Definition clear_writer (w : writer) : writer :=
  mk_writer (w_message w) (w_conn w) [] [] 0 true (w_client_supports_chunks w)
    (w_sending_chunks w) (w_sent_headers w).

(** [write(const T&)]: text, through the content stream. *)
Definition write_stream (data : bytes) (w : writer) : writer :=
  mk_writer (w_message w) (w_conn w) (w_content_buffers w) (w_content_stream w ++ data)
    (w_content_length w) false (w_client_supports_chunks w) (w_sending_chunks w)
    (w_sent_headers w).

(** A buffer with its length. *)
Definition push_buffer (data : bytes) (w : writer) : writer :=
  mk_writer (w_message w) (w_conn w) (w_content_buffers w ++ [data]) (w_content_stream w)
    (u64 (w_content_length w + zlen data)) (w_stream_is_empty w) (w_client_supports_chunks w)
    (w_sending_chunks w) (w_sent_headers w).

Definition with_stream (s : bytes) (empty : bool) (w : writer) : writer :=
  mk_writer (w_message w) (w_conn w) (w_content_buffers w) s (w_content_length w) empty
    (w_client_supports_chunks w) (w_sending_chunks w) (w_sent_headers w).

Definition flush_content_stream (w : writer) : writer :=
  if w_stream_is_empty w then w
  else
    let s := w_content_stream w in
    let w := if bool_decide (s = []) then w
             else push_buffer s (with_stream [] (w_stream_is_empty w) w) in
    with_stream (w_content_stream w) true w.

(** [write(const void *, size_t)]: binary data; also [write_no_copy], which keeps the
    caller's memory. *)
Definition write_binary (data : bytes) (w : writer) : writer :=
  if zlen data =? 0 then w else push_buffer data (flush_content_stream w).

(** The first byte of the content buffer: the terminator if the buffer is empty. *)
Definition first_content_byte (m : message) : res char :=
  match m_content_buf m with
  | [] => Ok NUL
  | Some c :: _ => Ok c
  | None :: _ => Fault undefined_behaviour
  end.

(** The content of the message becomes the content of the writer. *)
Definition use_message_content (w : writer) : res writer :=
  let m := w_message w in
  if 0 <? m_content_length m then
    c ← first_content_byte m;
    if c <>c NUL then content ← read_content m; Ok (write_binary content w) else Ok w
  else Ok w.

Definition supports_chunked_messages (b : bool) (w : writer) : writer :=
  mk_writer (w_message w) (w_conn w) (w_content_buffers w) (w_content_stream w)
    (w_content_length w) (w_stream_is_empty w) b (w_sending_chunks w) (w_sent_headers w).

(** [response_writer(tcp_conn, http_response_ptr, handler)]. *)
Definition new_response_writer (m : message) (c : connection) : res writer :=
  use_message_content (supports_chunked_messages (m_chunks_supported m) (new_writer m c)).

(** [response_writer(tcp_conn, http_request, handler)]: a new response to a request with
    this method and version. *)
Definition new_response_writer_for (method : bytes) (major minor : Z) (c : connection) : writer :=
  let m := update_request_info method major minor (new_response []) in
  supports_chunked_messages (m_chunks_supported m) (new_writer m c).

(** [request_writer(tcp_conn, http_request_ptr, handler)]. *)
Definition new_request_writer (m : message) (c : connection) : res writer :=
  use_message_content (new_writer m c).

(** ** Sending *)

(** [prepare_buffers_for_send] of the subclasses. *)
Definition prepare_message_buffers (w : writer) : writer * list bytes :=
  let m := if 0 <? w_content_length w then set_content_length (w_content_length w) (w_message w)
           else w_message w in
  let '(m, buffers) := prepare_buffers_for_send (get_keep_alive (w_conn w)) (w_sending_chunks w) m in
  (mk_writer m (w_conn w) (w_content_buffers w) (w_content_stream w) (w_content_length w)
     (w_stream_is_empty w) (w_client_supports_chunks w) (w_sending_chunks w) (w_sent_headers w),
   buffers).

Definition set_sent_headers (w : writer) : writer :=
  mk_writer (w_message w) (w_conn w) (w_content_buffers w) (w_content_stream w)
    (w_content_length w) (w_stream_is_empty w) (w_client_supports_chunks w)
    (w_sending_chunks w) true.

(** The buffers for the content that was written, and for the last chunk. *)
Definition content_buffers (send_final_chunk : bool) (w : writer) : list bytes :=
  let chunked := w_client_supports_chunks w && w_sending_chunks w in
  (if 0 <? w_content_length w then
     if chunked then
       [sprintf_lx (w_content_length w); STRING_CRLF] ++ w_content_buffers w ++ [STRING_CRLF]
     else w_content_buffers w
   else [])
  ++ (if send_final_chunk && chunked then [str "0"; STRING_CRLF; STRING_CRLF] else []).

Definition prepare_write_buffers (send_final_chunk : bool) (w : writer) : writer * list bytes :=
  let '(w, head) := if w_sent_headers w then (w, [])
                    else let '(w, head) := prepare_message_buffers w in
                         (set_sent_headers w, head) in
  (w, head ++ content_buffers send_final_chunk w).

(** [send_more_data]: [false] when the connection was lost and [finished_writing] is called
    with an error. *)
Definition send_more_data (send_final_chunk : bool) (w : writer) : writer * bool :=
  if m_is_open (w_conn w) then
    let w := flush_content_stream w in
    let '(w, buffers) := prepare_write_buffers send_final_chunk w in
    (mk_writer (w_message w) (write_buffers buffers (w_conn w)) (w_content_buffers w)
       (w_content_stream w) (w_content_length w) (w_stream_is_empty w)
       (w_client_supports_chunks w) (w_sending_chunks w) (w_sent_headers w), true)
  else (w, false).

Definition start_chunks (w : writer) : writer :=
  mk_writer (w_message w) (w_conn w) (w_content_buffers w) (w_content_stream w)
    (w_content_length w) (w_stream_is_empty w) (w_client_supports_chunks w) true
    (w_sent_headers w).

Definition close_after (w : writer) : writer :=
  mk_writer (w_message w) (set_lifecycle LIFECYCLE_CLOSE (w_conn w)) (w_content_buffers w)
    (w_content_stream w) (w_content_length w) (w_stream_is_empty w) (w_client_supports_chunks w)
    (w_sending_chunks w) (w_sent_headers w).

Definition send (w : writer) : writer * bool := send_more_data false w.

Definition send_chunk (w : writer) : writer * bool :=
  let w := start_chunks w in
  let w := if w_client_supports_chunks w then w else close_after w in
  send_more_data false w.

Definition send_final_chunk (w : writer) : writer * bool := send_more_data true (start_chunks w).

(** [handle_write] of [request_writer], when the write succeeded. *)
Definition request_handle_write (w : writer) : writer :=
  if w_sending_chunks w then clear_writer w else w.

(** A whole message in chunks: for each piece of data, write it, send it as a chunk and
    clear the writer; then send the last chunk.  This is how the writer is to be used (see
    the comments on [send_chunk] and [send_final_chunk]). *)
Fixpoint send_chunks (datas : list bytes) (w : writer) : writer * bool :=
  match datas with
  | [] => send_final_chunk w
  | data :: datas' =>
      let '(w, ok) := send_chunk (write_binary data w) in
      if ok : bool then send_chunks datas' (clear_writer w) else (w, false)
  end.

(** ** What is sent in chunks *)

(** A writer whose caches are empty and whose client supports chunks. *)
Definition clean_writer (m : message) (c : connection) (sending sent : bool) : writer :=
  mk_writer m c [] [] 0 true true sending sent.

(** The members of a writer that is given by its members. *)
Ltac writer_fields :=
  cbn [w_message w_conn w_content_buffers w_content_stream w_content_length w_stream_is_empty
       w_client_supports_chunks w_sending_chunks w_sent_headers set_sent_headers clean_writer].

(** A piece of data as a chunk; nothing is sent for an empty piece. *)
Definition chunk_of (data : bytes) : list (bytes * bytes * bytes) :=
  if bool_decide (data = []) then [] else [(sprintf_lx (zlen data), [], data)].

(** The headers of a message that is sent in chunks. *)
Definition chunked_headers (keep_alive : bool) (m : message) : ihash_multimap :=
  m_headers (prepare_headers_for_send keep_alive true m).

(** The message can be sent in chunks. *)
Record chunkable (m : message) : Prop := mk_chunkable {
  ck_first_line : m_first_line m = [];
  ck_cookies : m_cookie_params m = [];
  ck_supported : m_chunks_supported m = true;
  ck_start_line : start_line_ok m;
  ck_headers : Forall header_ok (m_headers m)
}.

Lemma chunked_headers_eq keep_alive m :
  m_chunks_supported m = true ->
  chunked_headers keep_alive m
  = change_value (change_value (m_headers m) HEADER_CONNECTION
                    (if keep_alive then str "Keep-Alive" else str "close"))
      HEADER_TRANSFER_ENCODING (str "chunked").
Proof.
  intros H. unfold chunked_headers, prepare_headers_for_send.
  change (m_chunks_supported (change_header _ _ m)) with (m_chunks_supported m). by rewrite H.
Qed.

(** The text of the headers. *)
Lemma prepared_head keep_alive chunked m :
  m_first_line m = [] -> m_cookie_params m = [] ->
  mjoin (snd (prepare_buffers_for_send keep_alive chunked m))
  = head_text (m_headers (prepare_headers_for_send keep_alive chunked m)) m.
Proof.
  intros Hf Hc. unfold prepare_buffers_for_send, get_first_line.
  set (m1 := prepare_headers_for_send keep_alive chunked m).
  assert (m1 = with_m_headers (m_headers m1) m) as Em1.
  { unfold m1, prepare_headers_for_send.
    destruct m; cbn; by repeat case_match. }
  assert (m_first_line m1 = []) as -> by (by rewrite Em1).
  rewrite bool_decide_true by done. set (m2 := update_first_line m1).
  assert (append_cookie_headers m2 = m2) as ->.
  { unfold append_cookie_headers. change (m_cookie_params m2) with (m_cookie_params m1).
    rewrite Em1. cbn [m_cookie_params with_m_headers]. by rewrite Hc. }
  assert (m_first_line m2 = start_line m) as -> by (unfold m2; rewrite update_first_line_eq, Em1; done).
  cbn [snd]. unfold append_headers, head_text. change (m_headers m2) with (m_headers m1).
  by rewrite !mjoin_app, mjoin_headers, mjoin_one, mjoin_two, <- app_assoc.
Qed.

(** The same in chunks, whatever the length of the first piece. *)
Lemma chunked_head keep_alive n m :
  chunkable m ->
  mjoin (snd (prepare_buffers_for_send keep_alive true (set_content_length n m)))
  = head_text (chunked_headers keep_alive m) m.
Proof.
  intros Hm. rewrite prepared_head by apply Hm.
  assert (m_headers (prepare_headers_for_send keep_alive true (set_content_length n m)) = chunked_headers keep_alive m)
    as ->; [|done].
  rewrite chunked_headers_eq by apply Hm. unfold prepare_headers_for_send.
  change (m_chunks_supported (change_header _ _ (set_content_length n m))) with (m_chunks_supported m).
  by rewrite (ck_supported _ Hm).
Qed.

(** Sending one piece. *)
Lemma send_piece m c sending sent data :
  m_is_open c = true -> zlen data <= LONG_MAX ->
  exists w m',
    send_chunk (write_binary data (clean_writer m c sending sent)) = (w, true)
    /\ clear_writer w
       = clean_writer m'
           (write_buffers
              ((if sent then []
                else snd (prepare_buffers_for_send (get_keep_alive c) true
                            (if 0 <? zlen data then set_content_length (zlen data) m else m)))
               ++ mjoin ((fun '(hex, ext, data) => [hex; STRING_CRLF; data; STRING_CRLF])
                           <$> chunk_of data)) c) true true.
Proof.
  intros Ho Hz. pose proof (zlen_nonneg data) as Hn. unfold chunk_of.
  assert (write_binary data (clean_writer m c sending sent)
          = mk_writer m c (if bool_decide (data = []) then [] else [data]) [] (zlen data) true true
              sending sent) as ->.
  { unfold write_binary. destruct (zlen data =? 0) eqn:E.
    - assert (data = []) as -> by (apply zlen_zero_iff; lia). done.
    - rewrite bool_decide_false by (intros ->; done). unfold push_buffer. cbn.
      rewrite u64_small by (unfold LONG_MAX in Hz; lia). done. }
  unfold send_chunk, start_chunks, send_more_data. writer_fields. rewrite Ho. cbn [flush_content_stream w_stream_is_empty].
  unfold prepare_write_buffers, prepare_message_buffers, content_buffers. writer_fields.
  assert ((0 <? zlen data) = negb (bool_decide (data = []))) as Hpos.
  { case_bool_decide as Hd; [by subst|]. rewrite <- zlen_zero_iff in Hd. simpl. lia. }
  rewrite Hpos. destruct sent.
  - eexists _, m. split; [reflexivity|]. unfold clear_writer, clean_writer.
    writer_fields. rewrite ?Hpos. by destruct (bool_decide (data = [])).
  - destruct (prepare_buffers_for_send _ true _) as [m' head].
    eexists _, m'. split; [reflexivity|]. unfold clear_writer, clean_writer.
    writer_fields. rewrite ?Hpos. by destruct (bool_decide (data = [])).
Qed.

Lemma mjoin_chunks data :
  mjoin (mjoin ((fun '(hex, ext, data) => [hex; STRING_CRLF; data; STRING_CRLF]) <$> chunk_of data))
  = chunk_of data ≫= fun '(hex, ext, data) => chunk_bytes hex ext data.
Proof.
  unfold chunk_of. case_bool_decide; [done|]. generalize (sprintf_lx (zlen data)). intros hex.
  cbn [fmap list_fmap mbind list_bind]. rewrite app_nil_r. unfold chunk_bytes. cbn [app].
  change (hex ++ STRING_CRLF ++ data ++ STRING_CRLF ++ [] = hex ++ STRING_CRLF ++ data ++ STRING_CRLF).
  by rewrite app_nil_r.
Qed.

(** All the pieces: the headers once, the chunks, and the last chunk. *)
Lemma send_chunks_written datas m c sending sent :
  m_is_open c = true -> Forall (fun data => zlen data <= LONG_MAX) datas ->
  (sent = false -> chunkable m) ->
  exists w, send_chunks datas (clean_writer m c sending sent) = (w, true)
            /\ m_written (w_conn w)
               = m_written c
                 ++ (if sent then [] else head_text (chunked_headers (get_keep_alive c) m) m)
                 ++ chunked_body (datas ≫= chunk_of) (str "0").
Proof.
  intros Ho Hd. revert m c sending sent Ho. induction Hd as [|data datas Hz Hd IH];
    intros m c sending sent Ho Hm.
  - unfold send_chunks, send_final_chunk, start_chunks, send_more_data.
    writer_fields.
    rewrite Ho. cbn [flush_content_stream w_stream_is_empty].
    unfold prepare_write_buffers. writer_fields. destruct sent.
    + eexists. split; [reflexivity|]. done.
    + unfold prepare_message_buffers. writer_fields. change (0 <? 0) with false. cbv iota.
      pose proof (chunked_head (get_keep_alive c) (m_content_length m) m (Hm eq_refl)) as Hh.
      replace (set_content_length (m_content_length m) m) with m in Hh by (by destruct m).
      destruct (prepare_buffers_for_send (get_keep_alive c) true m) as [m1 head]. cbn [snd] in Hh.
      eexists. split; [reflexivity|]. writer_fields. cbn [m_written write_buffers].
      by rewrite mjoin_app, Hh.
  - cbn [send_chunks].
    destruct (send_piece m c sending sent data Ho Hz) as (w & m' & -> & Hw). rewrite Hw.
    set (buffers := _ ++ _) in Hw |- *.
    destruct (IH m' (write_buffers buffers c) true true Ho ltac:(done)) as (w' & E & Hwr).
    exists w'. split; [exact E|]. rewrite Hwr. cbn [m_written write_buffers].
    unfold buffers. rewrite mjoin_app, mjoin_chunks. unfold chunked_body. rewrite bind_cons, bind_app, <- !app_assoc.
    destruct sent; [done|]. f_equal. cbn [app]. rewrite <- (chunked_head _ (zlen data) m (Hm eq_refl)).
    f_equal. destruct (0 <? zlen data) eqn:E0; [done|].
    replace m with (set_content_length (m_content_length m) m) at 1 by (by destruct m).
    by rewrite !chunked_head by auto.
Qed.

(** ** Parsing what was sent *)

Lemma sprintf_lx_chunk data :
  data <> [] -> zlen data <= LONG_MAX -> is_chunk (sprintf_lx (zlen data)) [] data.
Proof.
  intros Hne Hz. pose proof (zlen_nonneg data). unfold LONG_MAX in Hz.
  split; [apply to_digits_nonempty; lia|]. split; [|split; [|by auto]].
  - unfold sprintf_lx. eapply Forall_impl; [apply (to_digits_chars 16); [lia..|]|].
    { apply u64_range. }
    intros c (d & Hd & ->).
    assert (forall i, 0 <= i < Z.of_nat 16 -> is_hex_digit (digit_char i) = true) as H16
      by (apply Z_below; reflexivity).
    by apply H16.
  - apply strtol16_printed. unfold LONG_MAX. lia.
Qed.

Lemma chunks_ok datas :
  Forall (fun data => zlen data <= LONG_MAX) datas ->
  Forall (fun '(hex, ext, data) => is_chunk hex ext data) (datas ≫= chunk_of)
  /\ body_data (datas ≫= chunk_of) = mjoin datas.
Proof.
  induction 1 as [|data datas Hz Hd [IH1 IH2]]; [by split; [constructor|]|].
  rewrite bind_cons. change (mjoin (data :: datas)) with (data ++ mjoin datas).
  unfold body_data in *. rewrite bind_app, IH2. unfold chunk_of.
  case_bool_decide as Hne; [by subst|].
  split; [constructor; [by apply sprintf_lx_chunk | done]|].
  cbn [mbind list_bind]. by rewrite app_nil_r.
Qed.

Lemma chunked_headers_ok keep_alive m :
  chunkable m -> Forall header_ok (chunked_headers keep_alive m).
Proof.
  intros [_ _ Hs _ Hh]. rewrite chunked_headers_eq by done.
  apply change_value_ok; [apply change_value_ok; [done|]|].
  - split; [done|]. split; (split; [by destruct keep_alive; repeat constructor | by destruct keep_alive]).
  - split; [done|]. split; (split; [by repeat constructor | done]).
Qed.

Lemma find_change_value d k v :
  exists name, find (change_value d k v) k = Some (name, v).
Proof.
  unfold find. rewrite equal_range_change_value, iequals_refl. eexists. reflexivity.
Qed.

(** The end of the headers of a message in chunks. *)
Lemma finish_headers_chunked keep_alive m p kind0 :
  chunkable m -> expects_content kind0 m -> holds_start p m -> m_parse_headers_only p = false ->
  exists m', finish_header_parsing p
               (read_headers (chunked_headers keep_alive m) m (new_message kind0)) None
             = Ok (indeterminate_value,
                   mgoto PARSE_CHUNKS (with_m_bytes_content_read 0 (with_m_bytes_content_remaining 0 p)),
                   m', None)
             /\ arrived (chunked_headers keep_alive m) m' m /\ m_chunk_cache m' = [].
Proof.
  intros Hm He Hp Ho. destruct (start_line_versions m (ck_start_line _ Hm)) as [Hmaj Hmin].
  set (hs := chunked_headers keep_alive m).
  set (m1 := set_content_length 0 (read_headers hs m (new_message kind0))).
  assert (update_transfer_encoding_using_header m1 = with_m_is_chunked true m1) as Ete.
  { unfold update_transfer_encoding_using_header.
    change (m_headers (with_m_is_chunked false m1)) with hs. unfold hs.
    rewrite chunked_headers_eq by apply Hm.
    destruct (find_change_value (change_value (m_headers m) HEADER_CONNECTION
      (if keep_alive then str "Keep-Alive" else str "close"))
      HEADER_TRANSFER_ENCODING (str "chunked")) as [name ->]. reflexivity. }
  destruct (update_message_start
    (with_m_bytes_content_read 0 (with_m_bytes_content_remaining 0 p)) m
    (with_m_is_chunked true m1) kind0 Hp He eq_refl) as (m2 & Em & Hst & Hv & Hv1 & Hv2 & _).
  injection Hv as _ _ Hcc Hh Hch _ Hmp _.
  exists m2. unfold finish_header_parsing. fold m1. rewrite Ete, Em. cbn [mbind res_bind].
  rewrite Hch. change (m_is_chunked (with_m_is_chunked true m1)) with true. cbv iota.
  unfold headers_only_rc.
  change (m_parse_headers_only (with_m_bytes_content_read 0 _)) with (m_parse_headers_only p).
  rewrite Ho. split; [reflexivity|]. split; [|exact Hcc].
  constructor; [done| | |done|done]; [rewrite Hv1; exact Hmaj | rewrite Hv2; exact Hmin].
Qed.

(** The pass over the chunks. *)
Lemma chunks_pass_of_text cs last rest p m1 m hs :
  m_message_parse_state p = PARSE_CHUNKS -> m_chunked_content_parse_state p = PARSE_CHUNK_SIZE_START ->
  m_payload_handler p = None -> m_read p = chunked_body cs last ++ rest ->
  Forall (fun '(hex, ext, data) => is_chunk hex ext data) cs -> is_last last ->
  zlen (body_data cs) <= m_max_content_length p < 2 ^ 64 - 1 ->
  arrived hs m1 m -> m_chunk_cache m1 = [] ->
  exists p' m', parse_pass indeterminate_value p m1 None = Ok (true_value, p', m', None)
                /\ m_read p' = rest /\ m_is_request p' = m_is_request p
                /\ received hs (body_data cs) m' m.
Proof.
  intros Hst Hcs Hh Hr Hc Hl Hz Ha Hcc. unfold parse_pass. rewrite Hst, Hcc.
  assert (has_handler p = false) as Hnh by (unfold has_handler; by rewrite Hh).
  unfold parse_chunks. pose proof (chunk_at_self p) as Hp. rewrite Hcs in Hp.
  destruct (chunked_body_loop cs last rest p (m_chunk_size_str p) (m_size_of_current_chunk p)
              (m_bytes_read_in_current_chunk p) [] Hnh Hc Hl) as (s' & r' & E);
    [rewrite zlen_nil; lia | lia |].
  rewrite Hp, <- Hr in E. rewrite E. clear E. cbn [c_error c_rc c_rest c_parser c_chunks app].
  set (p' := with_m_bytes_content_read _ _).
  assert (has_handler p' = false) as -> by exact Hnh.
  assert (m_message_parse_state p' = PARSE_CHUNKS) as Hst' by exact Hst.
  cbn [tri_is safe_bool tri_eq tribool_of_bool indeterminate orb tri_or tri_and tri_not andb negb].
  rewrite concatenate_chunks_ok by (cbn [m_chunk_cache with_m_chunk_cache]; lia).
  cbn [mbind res_bind]. rewrite bool_decide_false by congruence.
  eexists p', _. split; [reflexivity|]. split; [done|]. split; [done|].
  split; [by eapply arrived_view; [|exact Ha]|]. by apply read_content_full.
Qed.

(** What [parse] has after its loop on a message that was sent in chunks. *)
Lemma parse_loop_of_chunks keep_alive cs rest m max kind0 :
  chunkable m -> expects_content kind0 m ->
  Forall (fun '(hex, ext, data) => is_chunk hex ext data) cs ->
  zlen (body_data cs) <= max < 2 ^ 64 - 1 ->
  exists total p' m',
    parse_loop parse_fuel indeterminate_value 0
      (with_m_read (head_text (chunked_headers keep_alive m) m ++ chunked_body cs (str "0") ++ rest)
         (new_parser (is_request m) max))
      (new_message kind0) None = Some (Ok (true_value, total, p', m', None))
    /\ m_read p' = rest /\ m_is_request p' = is_request m
    /\ received (chunked_headers keep_alive m) (body_data cs) m' m.
Proof.
  intros Hm He Hc Hmax.
  destruct (first_pass (chunked_headers keep_alive m) m (chunked_body cs (str "0") ++ rest) max kind0
    (ck_start_line _ Hm) (chunked_headers_ok keep_alive m Hm)) as (q & P1 & [Hst Hr Hq Hh Hmx Ho Hcs]).
  destruct (finish_headers_chunked keep_alive m q kind0 Hm He Hst Ho) as (m2 & E2 & Ha & Hcc).
  rewrite E2 in P1. unfold parse_fuel. cbn [parse_loop]. rewrite P1. clear P1 E2.
  set (p2 := mgoto PARSE_CHUNKS _).
  destruct (chunks_pass_of_text cs (str "0") rest p2 m2 m (chunked_headers keep_alive m))
    as (p3 & m3 & E3 & Hr3 & Hq3 & Hrec); try done.
  { split; [discriminate|]. split; [by repeat constructor|reflexivity]. }
  { change (zlen (body_data cs) <= m_max_content_length q < 2 ^ 64 - 1). by rewrite Hmx. }
  assert (eof p2 = false) as ->.
  { apply eof_false. change (m_read q <> []). rewrite Hr. unfold chunked_body. by destruct (cs ≫= _). }
  cbn [indeterminate andb negb]. rewrite E3.
  eexists _, p3, m3. split; [reflexivity|]. split; [done|]. split; [|done].
  rewrite Hq3. exact Hq.
Qed.

Lemma chunked_multipart keep_alive m' m :
  chunkable m -> arrived (chunked_headers keep_alive m) m' m -> is_multipart m' = is_multipart m.
Proof.
  intros Hm Ha. unfold is_multipart, get_header. rewrite !get_value_range, (ar_headers _ _ _ Ha).
  rewrite chunked_headers_eq by apply Hm. by rewrite !equal_range_change_value.
Qed.

(** C18: what is sent in chunks can be read.  A message with well-formed start line and
    headers, that is sent by the writer in any number of pieces (empty ones included) on
    an open connection, is written as one text: the headers, a chunk for each piece that
    is not empty, and the last chunk.  [parse], with a new parser for that class of
    message, reads it completely from the front of any data that starts with it: the
    message it fills is valid and has the start line and the headers that were sent and,
    as its content, the pieces one after the other. *)
Theorem chunked_send_roundtrip datas m c rest max kind0 :
  chunkable m -> expects_content kind0 m -> is_multipart m = false -> m_is_open c = true ->
  Forall (fun data => zlen data <= LONG_MAX) datas -> zlen (mjoin datas) <= max < 2 ^ 64 - 1 ->
  exists w text p' m',
    send_chunks datas (clean_writer m c false false) = (w, true)
    /\ m_written (w_conn w) = m_written c ++ text
    /\ parse (with_m_read (text ++ rest) (new_parser (is_request m) max)) (new_message kind0) None
       = Some (Ok (true_value, p', m', None))
    /\ m_read p' = rest /\ m_is_valid m' = true /\ m_status m' = STATUS_OK
    /\ same_start m' m
    /\ m_headers m' = chunked_headers (get_keep_alive c) m
    /\ read_content m' = Ok (mjoin datas).
Proof.
  intros Hm He Hmp Ho Hd Hmax. destruct (chunks_ok datas Hd) as [Hcs Hb].
  destruct (send_chunks_written datas m c false false Ho Hd (fun _ => Hm)) as (w & Ew & Hw).
  rewrite <- Hb in Hmax.
  destruct (parse_loop_of_chunks (get_keep_alive c) _ rest m max kind0 Hm He Hcs Hmax)
    as (total & p2 & m2 & El & Hr & Hq & Hrec). rewrite app_assoc in El; rewrite Hb in Hrec.
  eapply parse_after_loop in El; [|unfold head_text, STRING_CRLF; by destruct (start_line m)|done..|].
  2: { destruct Hrec as [Ha _]. by rewrite (chunked_multipart _ _ _ Hm Ha). }
  destruct El as (p' & m' & Ep & Hr' & Hv & Hst & [[] Hc]).
  eexists w, _, p', m'. split; [exact Ew|]. split; [exact Hw|].
  repeat split; try done; congruence.
Qed.

(** A response that is sent in chunks. *)
Definition sample_response : message :=
  add_header (str "Server") (str "pion") (with_m_chunks_supported true (new_response (str "GET"))).

Lemma chunked_send_roundtrip_witness :
  exists w text p' m',
    send_chunks [str "hello "; []; str "world"]
      (clean_writer sample_response (new_connection []) false false) = (w, true)
    /\ m_written (w_conn w) = text
    /\ parse (with_m_read (text ++ str "rest") (new_parser false 100)) (new_response (str "GET")) None
       = Some (Ok (true_value, p', m', None))
    /\ m_read p' = str "rest" /\ read_content m' = Ok (str "hello world").
Proof.
  destruct (chunked_send_roundtrip [str "hello "; []; str "world"] sample_response
    (new_connection []) (str "rest") 100 (m_kind (new_response (str "GET"))))
    as (w & text & p' & m' & H1 & H2 & H3 & H4 & _ & _ & _ & _ & H5).
  - constructor; try reflexivity.
    + vm_compute. repeat split; try discriminate; repeat constructor.
    + constructor; [|constructor]. split; [discriminate|].
      split; (split; [repeat constructor | discriminate]).
  - split; discriminate.
  - reflexivity.
  - reflexivity.
  - repeat constructor; vm_compute; discriminate.
  - vm_compute. split; [discriminate|reflexivity].
  - exists w, text, p', m'. auto.
Defined.

(** ** Two deviations *)

(** A content whose first byte is NUL is announced by the Content-Length header and not
    sent. *)
Lemma nul_content_not_sent data m c :
  0 < m_content_length m -> m_content_buf m = Some NUL :: data ->
  new_response_writer m c
  = Ok (supports_chunked_messages (m_chunks_supported m) (new_writer m c)).
Proof.
  intros Hl Hb. unfold new_response_writer, use_message_content, first_content_byte.
  cbn [w_message supports_chunked_messages new_writer].
  rewrite Hb. by replace (0 <? m_content_length m) with true by lia.
Qed.

(** A request writer takes it for granted that the receiver supports chunks; the request
    does not say so, and the chunks are sent without a Transfer-Encoding header and without a
    Content-Length header. *)
Lemma request_chunks_not_announced :
  exists w w' ok,
    new_request_writer (set_resource (str "/") new_request) (new_connection []) = Ok w
    /\ send_chunk (write_binary (str "hi") w) = (w', ok)
    /\ m_written (w_conn w')
       = str "GET / HTTP/1.1" ++ STRING_CRLF ++ str "Connection: close" ++ STRING_CRLF
         ++ STRING_CRLF ++ str "2" ++ STRING_CRLF ++ str "hi" ++ STRING_CRLF.
Proof. eexists _, _, _. split; [reflexivity|]. split; [reflexivity|]. vm_compute. reflexivity. Qed.

(** ** The content of the writer *)

(** What was written to the writer and not yet cleared. *)
Definition writer_content (w : writer) : bytes := mjoin (w_content_buffers w) ++ w_content_stream w.

(** The caches of the writer agree with each other. *)
Record writer_ok (w : writer) : Prop := mk_writer_ok {
  wk_length : w_content_length w = u64 (zlen (mjoin (w_content_buffers w)));
  wk_stream : w_stream_is_empty w = true -> w_content_stream w = []
}.

(** The two ways to write to it: [operator<<] and [write] or [write_no_copy] of memory. *)
Inductive write_op := op_text (data : bytes) | op_memory (data : bytes).

Definition op_data (op : write_op) : bytes :=
  match op with op_text data | op_memory data => data end.

Definition write_step (op : write_op) (w : writer) : writer :=
  match op with op_text data => write_stream data w | op_memory data => write_binary data w end.

Lemma new_writer_ok m c : writer_ok (new_writer m c).
Proof. by constructor. Qed.

Lemma push_buffer_ok data w :
  writer_ok w -> writer_ok (push_buffer data w)
  /\ mjoin (w_content_buffers (push_buffer data w)) = mjoin (w_content_buffers w) ++ data.
Proof.
  intros [Hl Hs]. assert (mjoin (w_content_buffers w ++ [data]) = mjoin (w_content_buffers w) ++ data)
    as E by (by rewrite mjoin_app, mjoin_one).
  split; [|exact E]. constructor; [|done]. cbn [push_buffer w_content_length w_content_buffers].
  rewrite E, zlen_app, Hl. unfold u64. by rewrite Zplus_mod_idemp_l.
Qed.

Lemma flush_content_stream_ok w :
  writer_ok w ->
  writer_ok (flush_content_stream w) /\ w_content_stream (flush_content_stream w) = []
  /\ mjoin (w_content_buffers (flush_content_stream w)) = writer_content w.
Proof.
  intros Hw. unfold flush_content_stream, writer_content.
  destruct (w_stream_is_empty w) eqn:E.
  { rewrite (wk_stream _ Hw E), app_nil_r. done. }
  case_bool_decide as Hs.
  - rewrite Hs, app_nil_r. destruct Hw as [Hl _]. done.
  - destruct (push_buffer_ok (w_content_stream w)
      (with_stream [] (w_stream_is_empty w) w)) as [Hk Hj].
    { destruct Hw. by constructor. }
    destruct Hk as [Hl _]. cbn [w_content_stream w_content_buffers with_stream] in *.
    split; [by constructor|]. split; [done|]. exact Hj.
Qed.

Lemma write_step_ok op w :
  writer_ok w ->
  writer_ok (write_step op w) /\ writer_content (write_step op w) = writer_content w ++ op_data op.
Proof.
  intros Hw. destruct op as [data|data]; cbn [write_step op_data].
  - split; [destruct Hw; by constructor|]. unfold writer_content. cbn. by rewrite app_assoc.
  - unfold write_binary. destruct (zlen data =? 0) eqn:E.
    + assert (data = []) as -> by (apply zlen_zero_iff; lia). by rewrite app_nil_r.
    + destruct (flush_content_stream_ok w Hw) as (Hf & Hs & Hj).
      destruct (push_buffer_ok data _ Hf) as [Hk Hp]. split; [done|].
      unfold writer_content at 1. rewrite Hp, Hj.
      change (w_content_stream (push_buffer data (flush_content_stream w)))
        with (w_content_stream (flush_content_stream w)).
      by rewrite Hs, app_nil_r.
Qed.

(** What only a write changes. *)
Definition writer_frame (w : writer) :=
  (w_message w, w_conn w, w_client_supports_chunks w, w_sending_chunks w, w_sent_headers w).

Lemma flush_content_stream_frame w : writer_frame (flush_content_stream w) = writer_frame w.
Proof. unfold flush_content_stream. destruct (w_stream_is_empty w); [done|]. by case_bool_decide. Qed.

Lemma write_step_frame op w : writer_frame (write_step op w) = writer_frame w.
Proof.
  destruct op; [done|]. cbn [write_step]. unfold write_binary. destruct (_ =? 0); [done|].
  by rewrite <- (flush_content_stream_frame w).
Qed.

Lemma write_steps_ok ops w :
  writer_ok w ->
  let w' := foldl (fun w op => write_step op w) w ops in
  writer_ok w' /\ writer_content w' = writer_content w ++ (ops ≫= op_data)
  /\ writer_frame w' = writer_frame w.
Proof.
  revert w. induction ops as [|op ops IH]; intros w Hw; cbn [foldl].
  { by rewrite app_nil_r. }
  destruct (write_step_ok op w Hw) as [Hw1 Hc]. destruct (IH _ Hw1) as (H1 & H2 & H3).
  cbn zeta. split; [done|]. rewrite H2, H3, Hc, write_step_frame, bind_cons, <- app_assoc. done.
Qed.

(** [send] on a writer that has not sent anything yet. *)
Lemma send_content w :
  writer_ok w -> m_is_open (w_conn w) = true -> w_sent_headers w = false ->
  w_sending_chunks w = false -> 0 < zlen (writer_content w) < 2 ^ 64 ->
  exists w', send w = (w', true)
             /\ m_written (w_conn w')
                = m_written (w_conn w)
                  ++ mjoin (snd (prepare_buffers_for_send (get_keep_alive (w_conn w)) false
                                   (set_content_length (zlen (writer_content w)) (w_message w))))
                  ++ writer_content w
             /\ w_sent_headers w' = true
             /\ exists buffers, w_conn w' = write_buffers buffers (w_conn w).
Proof.
  intros Hk Ho Hh Hs Hz. destruct (flush_content_stream_ok w Hk) as (Hk1 & _ & Hj).
  pose proof (flush_content_stream_frame w) as Hf1. injection Hf1 as Hm1 Hc1 Hs1 Hsc1 Hh1.
  rewrite Hh in Hh1. rewrite Hs in Hsc1.
  pose proof (wk_length _ Hk1) as Hl. rewrite Hj, u64_small in Hl by lia.
  unfold send, send_more_data. rewrite Ho. unfold prepare_write_buffers. rewrite Hh1.
  unfold prepare_message_buffers, content_buffers. rewrite Hm1, Hc1, Hsc1, Hl.
  replace (0 <? zlen (writer_content w)) with true by lia.
  destruct (prepare_buffers_for_send _ false _) as [m' head]. writer_fields.
  replace (0 <? zlen (writer_content w)) with true by lia. rewrite !andb_false_r. cbn [andb].
  rewrite app_nil_r.
  eexists. split; [reflexivity|]. cbn [w_conn m_written write_buffers w_sent_headers snd].
  split; [by rewrite mjoin_app, Hj|]. split; [done|]. by eexists.
Qed.

(** A writer sends what was written to it.  Whatever text and memory blocks are written
    to a new writer, and in whatever order, [send] on an open connection writes the start
    line and the headers of the message once, with the number of bytes written as the
    content length, and then the data in the order in which it was written. *)
Theorem writer_sends_content ops m c :
  m_is_open c = true -> 0 < zlen (ops ≫= op_data) < 2 ^ 64 ->
  exists w, send (foldl (fun w op => write_step op w) (new_writer m c) ops) = (w, true)
            /\ m_written (w_conn w)
               = m_written c
                 ++ mjoin (snd (prepare_buffers_for_send (get_keep_alive c) false
                                  (set_content_length (zlen (ops ≫= op_data)) m)))
                 ++ (ops ≫= op_data)
            /\ w_sent_headers w = true.
Proof.
  intros Ho Hz. destruct (write_steps_ok ops _ (new_writer_ok m c)) as (Hk & Hc & Hf).
  set (w := foldl _ _ _) in *. cbn [writer_content new_writer w_content_buffers w_content_stream] in Hc.
  change (writer_content w = ops ≫= op_data) in Hc. injection Hf as Hm Hcn Hs Hsc Hh.
  rewrite <- Hc in *. rewrite <- Hm, <- Hcn in *.
  destruct (send_content w Hk Ho Hh Hsc Hz) as (w' & E & Hw & Hsent & _). by exists w'.
Qed.

Lemma writer_sends_content_witness :
  exists w, send (write_stream (str "c") (write_binary (str "b")
              (write_stream (str "a") (new_writer sample_response (new_connection []))))) = (w, true)
            /\ w_sent_headers w = true.
Proof.
  destruct (writer_sends_content [op_text (str "a"); op_memory (str "b"); op_text (str "c")]
    sample_response (new_connection [])) as (w & H1 & _ & H2); [reflexivity| |].
  - vm_compute. split; reflexivity.
  - exists w. split; [exact H1 | exact H2].
Defined.
