(* ===== verification/MessageIO.v ===== *)
(** * Messages on a connection

    Models [message::send] and [message::receive] (src/http_message.cpp), the blocking
    operations on a TCP connection.  What the read operations of the socket give is a list
    of events; when it is exhausted, the call waits. *)
From S2P Require Import Prelude CLib StringUtils Dict Tribool HttpTypes Message ParserBase.
From S2P Require Import ParserHeaders ParserForms ParserBody Parser ParserSafety ParserStream.
From S2P Require Import ParserRoundTrip Connection Reader.

(** ** Sending *)

(** [message::send] on a socket that takes everything. *)
Definition message_send (headers_only : bool) (m : message) (c : connection)
  : res (message * connection) :=
  let '(m, buffers) := prepare_buffers_for_send (get_keep_alive c) false m in
  if negb headers_only && (0 <? m_content_length m) then
    content ← read_content m;
    Ok (m, write_buffers (buffers ++ [content]) c)
  else Ok (m, write_buffers buffers c).

(** ** Receiving *)

(** The error code of the caller: the parser's, that of the read operation, or
    [std::errc::io_error]. *)
Inductive receive_error := rx_parse (e : error_value_t) | rx_read | rx_io.

Inductive receive_status :=
| receive_waiting  (* in a read operation *)
| receive_failed  (* returned with an error, or with an invalid message *)
| receive_done.

(** [rr_end] is the offset of the parser's end pointer in the connection's read buffer. *)
Record receive_result := mk_receive_result {
  rr_status : receive_status;
  rr_parser : parser;
  rr_message : message;
  rr_conn : connection;
  rr_end : nat;
  rr_error : option receive_error;
  rr_closed : bool;  (* force_connection_closed *)
  rr_events : list read_event  (* the events that were not used *)
}.

(** [read_some]: the data it stores, [None] for an error. *)
Definition read_some (ev : read_event) (c : connection) : option (connection * nat) :=
  match ev with
  | read_failed => None
  | read_data data => Some (store_read data c, length (take READ_BUFFER_SIZE data))
  end.

(** The end of the data, with or without an error of the read operation. *)
Definition receive_eof (read_error : bool) (p : parser) (m : message) (c : connection) (last : nat)
  (events : list read_event) : res receive_result :=
  e ← check_premature_eof p m;
  let '(premature, p, m) := e in
  Ok (if premature : bool then
        mk_receive_result receive_failed p m c last
          (Some (if read_error then rx_read else rx_io)) false events
      else mk_receive_result receive_done p m c last None true events).

(** The [while] loop; the parser has bytes to parse. *)
Fixpoint receive_loop (events : list read_event) (p : parser) (m : message) (c : connection)
  (last : nat) (ec : error_code) : option (res receive_result) :=
  match parse p m ec with
  | None => None
  | Some (Fault f) => Some (Fault f)
  | Some (Ok (rc, p, m, ec)) =>
      match rc with
      | false_value =>
          Some (Ok (mk_receive_result receive_failed p m c last (rx_parse <$> ec) false events))
      | true_value =>
          Some (Ok (mk_receive_result receive_done p m c last (rx_parse <$> ec) false events))
      | indeterminate_value =>
          match events with
          | [] => Some (Ok (mk_receive_result receive_waiting p m c last (rx_parse <$> ec) false []))
          | ev :: events =>
              match read_some ev c with
              | None => Some (receive_eof true p m c last events)
              | Some (c, n) =>
                  if (n =? 0)%nat then Some (receive_eof false p m c last events)
                  else receive_loop events (set_read_buffer (buffer_slice c 0 n) p) m c n ec
              end
          end
      end
  end.

(** The connection's lifecycle after a complete message. *)
Definition receive_lifecycle (r : receive_result) : connection :=
  let p := rr_parser r in
  let c := rr_conn r in
  let pos := Some ((rr_end r - length (m_read p))%nat, rr_end r) in
  if negb (rr_closed r) && check_keep_alive (rr_message r) then
    if eof p then set_lifecycle LIFECYCLE_KEEPALIVE c
    else save_read_pos pos (set_lifecycle LIFECYCLE_PIPELINED c)
  else
    let c := set_lifecycle LIFECYCLE_CLOSE c in
    if m_parse_headers_only p then save_read_pos pos c else c.

Definition finish_receive (r : receive_result) : receive_result :=
  match rr_status r with
  | receive_done =>
      mk_receive_result receive_done (rr_parser r) (rr_message r) (receive_lifecycle r) (rr_end r)
        (rr_error r) (rr_closed r) (rr_events r)
  | _ => r
  end.

Definition finish_started (o : option (res receive_result)) : option (res receive_result) :=
  match o with
  | Some (Ok r) => Some (Ok (finish_receive r))
  | Some (Fault f) => Some (Fault f)
  | None => None
  end.

(** [message::receive(tcp_conn, ec, http_parser)], with a clear error code; the size it
    returns is [m_bytes_total_read]. *)
Definition message_receive (events : list read_event) (p : parser) (m : message) (c : connection)
  : option (res receive_result) :=
  let m := clear m in
  finish_started
    (if get_pipelined c then
      let '(data, last) := load_read_pos c in
      receive_loop events (set_read_buffer data p) m c last None
    else
      match events with
      | [] => Some (Ok (mk_receive_result receive_waiting p m c 0 None false []))
      | ev :: events =>
          match read_some ev c with
          | None => Some (Ok (mk_receive_result receive_failed p m c 0 (Some rx_read) false events))
          | Some (c, n) =>
              if (n =? 0)%nat then Some (Fault assertion_failed)
              else receive_loop events (set_read_buffer (buffer_slice c 0 n) p) m c n None
          end
      end).

(** [message::receive(tcp_conn, ec, headers_only, max_content_length)]. *)
Definition message_receive_new (events : list read_event) (headers_only : bool)
  (max_content_length : Z) (m : message) (c : connection) : option (res receive_result) :=
  message_receive events
    (set_max_content_length max_content_length
       (parse_headers_only headers_only (new_parser (is_request m) DEFAULT_CONTENT_MAX))) m c.

(** ** A receive always ends *)

(** A read operation gives data or fails. *)
Definition read_ok (ev : read_event) : Prop :=
  match ev with read_data data => data <> [] | read_failed => True end.

(** What a call may give when its data ends: it returns, or a failure of the form parser, for
    contents of at most [max] bytes, leaves it. *)
Definition returns (max : Z) (o : option (res receive_result)) : Prop :=
  match o with
  | Some (Ok r) => rr_status r <> receive_waiting
  | Some (Fault f) => form_fault max f
  | None => False
  end.

Lemma receive_eof_returns e p m c last events :
  parser_inv p m -> returns (m_max_content_length p) (Some (receive_eof e p m c last events)).
Proof.
  intros Hinv. unfold receive_eof. pose proof (check_premature_eof_safe p m Hinv) as H.
  destruct (check_premature_eof p m) as [[[[] p1] m1]|f]; [done..|exact H].
Qed.

Lemma read_some_data data c :
  data <> [] ->
  exists n, read_some (read_data data) c = Some (store_read data c, S n)
            /\ buffer_slice (store_read data c) 0 (S n) <> [].
Proof.
  intros Hd. cbn [read_some]. destruct data as [|a data]; [done|].
  assert (exists n, READ_BUFFER_SIZE = S n) as [k Hk] by (exists (pred READ_BUFFER_SIZE); reflexivity).
  exists (length (take k data)). unfold store_read, buffer_slice. rewrite Hk. split; [done|].
  cbn [m_read_buffer take]. rewrite Nat.sub_0_r, drop_0. done.
Qed.

Lemma receive_loop_returns events p m c last ec :
  parser_inv p m -> m_read p <> [] -> Forall read_ok events -> read_failed ∈ events ->
  returns (m_max_content_length p) (receive_loop events p m c last ec).
Proof.
  revert p m c last ec. induction events as [|ev events IH]; intros p m c last ec Hinv Hr He Hf.
  { by apply elem_of_nil in Hf. }
  cbn [receive_loop]. pose proof (parse_keeps_inv p m ec Hinv Hr) as Hp.
  destruct (parse p m ec) as [[[[[rc p1] m1] ec1]|f]|] eqn:Ep; [|exact Hp|done].
  apply parse_max in Ep. rewrite <- Ep.
  destruct rc; [done..|]. inversion He as [|? ? Hev He']; subst.
  destruct ev as [data|]; [|by apply receive_eof_returns].
  destruct (read_some_data data c Hev) as (n & -> & Hne). cbn [Nat.eqb].
  match goal with |- returns _ (receive_loop _ ?q _ _ _ _) => change (m_max_content_length p1) with (m_max_content_length q) end.
  apply IH; [|exact Hne|done|].
  - by eapply parser_inv_counters; [| | |exact Hp].
  - by apply elem_of_cons in Hf as [?|Hf].
Qed.

(** [message::receive] always comes back.  Whatever data the socket gives and however
    it is cut, once a read operation fails, or meets the end of the stream, the call has
    returned with a message or an error, or a failure of the multipart parser has left
    it; it never goes on waiting and never fails an assertion. *)
Theorem receive_returns events p m c :
  parser_inv p (clear m) -> (get_pipelined c = true -> fst (load_read_pos c) <> []) ->
  Forall read_ok events -> read_failed ∈ events ->
  returns (m_max_content_length p) (message_receive events p m c).
Proof.
  intros Hinv Hp He Hf. unfold message_receive.
  assert (forall o, returns (m_max_content_length p) o -> returns (m_max_content_length p) (finish_started o)) as Hfin.
  { intros [[r|f]|] H; [|done..]. unfold finish_started, finish_receive. simpl in *. by destruct (rr_status r) eqn:E; rewrite ?E. }
  apply Hfin. destruct (get_pipelined c).
  - destruct (load_read_pos c) as [data last].
    change (m_max_content_length p) with (m_max_content_length (set_read_buffer data p)). apply receive_loop_returns; [|by apply Hp|done..].
    by eapply parser_inv_counters; [| | |exact Hinv].
  - destruct events as [|ev events]; [by apply elem_of_nil in Hf|].
    inversion He as [|? ? Hev He']; subst. destruct ev as [data|]; [|done].
    destruct (read_some_data data c Hev) as (n & -> & Hne). cbn [Nat.eqb].
    match goal with |- returns _ (receive_loop _ ?q _ _ _ _) => change (m_max_content_length p) with (m_max_content_length q) end.
    apply receive_loop_returns; [|exact Hne|done|by apply elem_of_cons in Hf as [?|Hf]].
    by eapply parser_inv_counters; [| | |exact Hinv].
Qed.

Lemma receive_returns_witness :
  returns 100 (message_receive [read_data (str "GET / HT"); read_failed] (new_parser true 100) new_request
             (new_connection (replicate READ_BUFFER_SIZE NUL))).
Proof.
  apply receive_returns.
  - apply (new_parser_safe true 100 (m_kind (clear new_request))); [lia|reflexivity].
  - discriminate.
  - repeat constructor; discriminate.
  - apply elem_of_cons. right. by apply elem_of_cons; left.
Defined.

(** ** Receiving what was sent *)

(** The parser's bytes are the end of the read part of the connection's buffer. *)
Definition in_buffer (c : connection) (last : nat) (s : bytes) : Prop :=
  length (m_read_buffer c) = READ_BUFFER_SIZE /\ (last <= READ_BUFFER_SIZE)%nat
  /\ exists pre first, buffer_slice c first last = pre ++ s.

Lemma in_buffer_suffix c last pre s : in_buffer c last (pre ++ s) -> in_buffer c last s.
Proof.
  intros (Hb & Hl & pre' & first & E). split; [done|]. split; [done|].
  exists (pre' ++ pre), first. by rewrite E, app_assoc.
Qed.

Lemma in_buffer_store c data :
  length (m_read_buffer c) = READ_BUFFER_SIZE -> segment data ->
  read_some (read_data data) c = Some (store_read data c, length data)
  /\ buffer_slice (store_read data c) 0 (length data) = data
  /\ in_buffer (store_read data c) (length data) data.
Proof.
  intros Hb [Hne Hle]. assert (buffer_slice (store_read data c) 0 (length data) = data) as Hs
    by (by apply store_read_slice).
  split; [cbn [read_some]; by rewrite take_ge|]. split; [exact Hs|].
  split; [by apply length_store_read|]. split; [done|]. by exists [], 0%nat.
Qed.

Lemma receive_loop_done events p m c last p1 m1 :
  parse p m None = Some (Ok (true_value, p1, m1, None)) ->
  receive_loop events p m c last None
  = Some (Ok (mk_receive_result receive_done p1 m1 c last None false events)).
Proof. intros E. destruct events; cbn [receive_loop]; by rewrite E. Qed.

(** The loop has the outcome of the parser on the pieces of the stream. *)
Lemma receive_loop_feed datas p m c last p' m' ec :
  in_buffer c last (m_read p) -> Forall segment datas ->
  feed (m_read p :: datas) p m None = Some (Ok (true_value, p', m', ec)) ->
  exists p1 c1 last1 datas1,
    receive_loop (read_data <$> datas) p m c last None
    = Some (Ok (mk_receive_result receive_done p1 m' c1 last1 None false (read_data <$> datas1)))
    /\ in_buffer c1 last1 (m_read p1) /\ m_read p1 ++ mjoin datas1 = m_read p'
    /\ Forall segment datas1 /\ m_parse_headers_only p1 = m_parse_headers_only p'.
Proof.
  revert p m c last. induction datas as [|d datas IH]; intros p m c last Hb Hd Hf;
    rewrite feed_cons, with_m_read_self in Hf;
    destruct (parse p m None) as [[[[[rc p1] m1] ec1]|]|] eqn:E; try discriminate Hf;
    destruct (parse_uses _ _ _ _ E) as [[pre Hpre] Hec]; rewrite Hpre in Hb;
    apply in_buffer_suffix in Hb;
    (destruct rc; [discriminate Hf | | ]); rewrite (Hec ltac:(discriminate)) in E, Hf.
  2: discriminate Hf.
  3: { inversion Hd as [|? ? Hd1 Hd']; subst.
       destruct (in_buffer_store c d (proj1 Hb) Hd1) as (Hrs & Hsl & Hb').
       rewrite fmap_cons. cbn [receive_loop]. rewrite E, Hrs, Hsl.
       assert ((length d =? 0)%nat = false) as -> by (destruct Hd1 as [Hne _]; by destruct d).
       apply (IH (set_read_buffer d p1)); [exact Hb'|done|].
       change (m_read (set_read_buffer d p1)) with d. rewrite <- Hf. symmetry.
       rewrite feed_cons. reflexivity. }
  all: cbn [append_unread] in Hf; injection Hf as Hp' <- _; eexists p1, c, last, _;
    (split; [by apply receive_loop_done|]); subst p'; done.
Qed.

(** Two parsers that read the same stream leave the same connection. *)
Lemma finish_receive_ready p m c last datas :
  in_buffer c last (m_read p) -> check_keep_alive m = true -> Forall segment datas ->
  let r := finish_receive (mk_receive_result receive_done p m c last None false (read_data <$> datas)) in
  ready (rr_conn r) /\ get_keep_alive (rr_conn r) = true
  /\ pending (rr_conn r) ++ mjoin datas = m_read p ++ mjoin datas.
Proof.
  intros (Hb & Hl & pre & first & Hs) Hk Hd r.
  pose proof (set_message_lifecycle_ready (mk_reader p m c last None 0) datas) as H.
  destruct H as [_ Hr Ha Hp _]; [by exists pre, first|done..|].
  assert (rr_conn r = rd_conn (set_message_lifecycle (mk_reader p m c last None 0))) as ->; [|done].
  unfold r, finish_receive, receive_lifecycle, set_message_lifecycle. cbn. rewrite Hk. cbn.
  by destruct (eof p).
Qed.

(** A connection on which a message was received, with what follows it in the stream. *)
Record received_on (content : bytes) (m : message) (rest : bytes) (r : receive_result)
  (datas : list bytes) : Prop := mk_received_on {
  ro_status : rr_status r = receive_done;
  ro_error : rr_error r = None;
  ro_valid : m_is_valid (rr_message r) = true;
  ro_start : same_start (rr_message r) m;
  ro_headers : m_headers (rr_message r) = sent_headers m;
  ro_content : read_content (rr_message r) = Ok content;
  ro_ready : ready (rr_conn r);
  ro_alive : get_keep_alive (rr_conn r) = true;
  ro_events : rr_events r = read_data <$> datas;
  ro_rest : pending (rr_conn r) ++ mjoin datas = rest
}.

Lemma receive_of_text content m rest c datas :
  keep_alive_request content m -> ready c -> Forall segment datas ->
  pending c ++ mjoin datas = message_text content m ++ rest ->
  exists r datas', message_receive (read_data <$> datas) (new_parser true DEFAULT_CONTENT_MAX) new_request c
                   = Some (Ok r) /\ received_on content m rest r datas'.
Proof.
  intros Hm [Hb Hpend] Hd Hj. unfold message_receive.
  assert (forall datas, Forall segment datas -> Forall (fun b => b <> []) datas) as Hne
    by (intros ds H; eapply Forall_impl; [exact H|]; by intros ? []).
  assert (forall data datas c last, Forall segment datas -> data <> [] -> in_buffer c last data ->
    data ++ mjoin datas = message_text content m ++ rest ->
    exists r datas', finish_started
                       (receive_loop (read_data <$> datas)
                          (set_read_buffer data (new_parser true DEFAULT_CONTENT_MAX))
                          (clear new_request) c last None) = Some (Ok r)
                     /\ received_on content m rest r datas') as Hloop.
  { clear datas c Hb Hpend Hd Hj. intros data datas c last Hd Hdne Hbuf Hj.
    destruct (feed_of_text (mk_request [] [] [] [] [] None) content rest m (data :: datas) Hm) as (p' & m' & ec' & Ef & Hr & Hv & _ & Hrec);
      [by constructor; auto | exact Hj|].
    destruct (receive_loop_feed datas (set_read_buffer data (new_parser true DEFAULT_CONTENT_MAX))
      (clear new_request) c last p' m' ec') as (p1 & c1 & last1 & datas1 & El & Hb1 & Hj1 & Hd1 & _);
      [exact Hbuf | done | exact Ef|].
    rewrite El. eexists _, datas1. split; [reflexivity|].
    destruct (finish_receive_ready p1 m' c1 last1 datas1 Hb1 (received_keep_alive _ _ _ Hm Hrec) Hd1)
      as (Hr1 & Ha1 & Hp1).
    destruct Hrec as [Ha Hc]. destruct Ha as [Hst _ _ Hh _].
    constructor; try done. by rewrite Hp1, Hj1. }
  unfold pending in Hj, Hpend. destruct (get_pipelined c) eqn:Ep.
  - destruct (Hpend eq_refl) as [Hp Hlast]. clear Hpend.
    unfold load_read_pos in *. destruct (m_read_position c) as [[first last]|] eqn:Epos; [|done].
    cbn [fst snd] in *.
    destruct (Hloop (buffer_slice c first last) datas c last Hd Hp) as (r & ds & E & Hr);
      [|exact Hj|exists r, ds; split; [exact E|exact Hr]].
    split; [done|]. split; [done|]. by exists [], first.
  - destruct datas as [|d datas].
    { simpl in Hj. symmetry in Hj. apply app_eq_nil in Hj as [Hj _].
      by apply message_text_nonempty in Hj. }
    inversion Hd as [|? ? Hd1 Hd']; subst.
    destruct (in_buffer_store c d Hb Hd1) as (Hrs & Hsl & Hb'). rewrite fmap_cons, Hrs, Hsl.
    destruct Hd1 as [Hdne _]. assert ((length d =? 0)%nat = false) as -> by (by destruct d).
    by apply Hloop.
Qed.

(** [message::send] on a connection that is kept alive writes the text of the message. *)
Lemma message_send_text content m c :
  sendable content m -> get_keep_alive c = true ->
  exists m1 c', message_send false m c = Ok (m1, c')
                /\ m_written c' = m_written c ++ message_text content m.
Proof.
  intros Hs Hk. destruct (write_text content m Hs) as (m1 & Ew & _).
  unfold write in Ew. unfold message_send. rewrite Hk.
  destruct (prepare_buffers_for_send true false m) as [m2 buffers].
  destruct (negb false && (0 <? m_content_length m2)).
  - destruct (read_content m2) as [s|]; [|discriminate Ew]. cbn [mbind res_bind] in *.
    injection Ew as <- Et. eexists _, _. split; [reflexivity|]. by rewrite <- Et.
  - injection Ew as <- Et. eexists _, _. split; [reflexivity|]. by rewrite <- Et.
Qed.

(** C36: a request that is sent on a connection is received on the other end.  When
    [message::send] has written a request with a content to a connection that is kept
    alive, and the bytes arrive, cut in any way and followed by any others, behind what the
    receiving connection still has in its buffer, [message::receive] returns without error
    with the start line, the headers and the content that were sent; the receiving
    connection is kept alive and the bytes behind the request are the next to be received. *)
Theorem message_exchange content m cs c rest datas :
  keep_alive_request content m -> get_keep_alive cs = true -> m_written cs = [] ->
  ready c -> Forall segment datas ->
  exists m1 cs', message_send false m cs = Ok (m1, cs')
    /\ (pending c ++ mjoin datas = m_written cs' ++ rest ->
        exists r datas',
          message_receive (read_data <$> datas) (new_parser true DEFAULT_CONTENT_MAX) new_request c
          = Some (Ok r) /\ received_on content m rest r datas').
Proof.
  intros Hm Hk Hw Hc Hd. destruct (message_send_text content m cs (kr_sendable _ _ Hm) Hk)
    as (m1 & cs' & Es & Ht). rewrite Hw in Ht. exists m1, cs'. split; [exact Es|]. rewrite Ht.
  by apply receive_of_text.
Qed.

Lemma message_exchange_witness :
  let text := written sample_request in
  exists r datas',
    message_receive (read_data <$> [take 10 text; drop 10 text ++ str "GET /"])
      (new_parser true DEFAULT_CONTENT_MAX) new_request
      (new_connection (replicate READ_BUFFER_SIZE NUL)) = Some (Ok r)
    /\ rr_error r = None /\ read_content (rr_message r) = Ok (str "hello")
    /\ pending (rr_conn r) ++ mjoin datas' = str "GET /".
Proof.
  intros text.
  destruct (message_exchange (str "hello") sample_request
    (set_lifecycle LIFECYCLE_KEEPALIVE (new_connection []))
    (new_connection (replicate READ_BUFFER_SIZE NUL)) (str "GET /")
    [take 10 text; drop 10 text ++ str "GET /"]) as (m1 & cs' & Es & H).
  - split; [exact sample_request_sendable | reflexivity | right; split; [reflexivity | discriminate]
           | reflexivity | discriminate].
  - reflexivity.
  - reflexivity.
  - constructor; [apply length_replicate | discriminate].
  - repeat (apply Forall_cons; split; [apply segment_small; vm_compute; reflexivity|]). constructor.
  - destruct H as (r & datas' & E & H).
    + assert (m_written cs' = text) as ->; [|vm_compute; reflexivity].
      vm_compute in Es. injection Es as _ <-. vm_compute. reflexivity.
    + exists r, datas'. destruct H. auto.
Defined.

(** ** A deviation *)

(** When a pipelined message is invalid, [message::receive] leaves the connection pipelined
    with the old bookmark, unlike the reader: the next call parses the same bytes again. *)
Lemma failed_message_stays_pipelined p m c data last p' m' ec events :
  get_pipelined c = true -> load_read_pos c = (data, last) ->
  parse (set_read_buffer data p) (clear m) None = Some (Ok (false_value, p', m', ec)) ->
  exists r, message_receive events p m c = Some (Ok r) /\ rr_status r = receive_failed
            /\ rr_conn r = c.
Proof.
  intros Hp Hl E. unfold message_receive. rewrite Hp, Hl.
  eexists. split; [|split]; [destruct events; cbn [receive_loop]; rewrite E; reflexivity|done|done].
Qed.
