(* ===== verification/Users.v ===== *)
(** * Users

    Models [pion::user] and [pion::user_manager] (include/pion/user.hpp), in the
    configuration with SSL, where a user keeps the hash of the password, and in the one
    without.  The hash functions are OpenSSL's and parameters.  A [user_ptr] is an index in
    the heap of user objects: a cache may hold on to a user that was removed. *)
From S2P Require Import Prelude CLib StdMap.

(** ** Configuration *)

Class UserConfig := {
  have_ssl : bool;  (* PION_HAVE_SSL *)
  sha256 : bytes -> bytes;
  sha1 : bytes -> bytes
}.

Definition SHA256_DIGEST_LENGTH : nat := 32.
Definition SHA_DIGEST_LENGTH : nat := 20.

(** What OpenSSL documents: the length of a digest. *)
Class DigestLaws (cfg : UserConfig) := {
  length_sha256 s : length (sha256 s) = SHA256_DIGEST_LENGTH;
  length_sha1 s : length (sha1 s) = SHA_DIGEST_LENGTH
}.

(** ** A user *)

Inductive password_hash_type_t := EMPTY | SHA_1 | SHA_256.

#[export] Instance password_hash_type_eq_dec : EqDecision password_hash_type_t.
Proof. solve_decision. Defined.

(** [m_password_hash] is an array that is not initialised. *)
Record user := mk_user {
  m_username : bytes;
  m_password : bytes;
  m_password_hash_type : password_hash_type_t;
  m_password_hash : list (option char)
}.

(** [sprintf("%.2x", c)]. *)
Definition hex2_lower (c : char) : bytes := [digit_char (uchar c / 16); digit_char (uchar c mod 16)].

Section User.
Context `{cfg : UserConfig}.

(** [user(username)]. *)
Definition new_user (username : bytes) : user :=
  mk_user username [] EMPTY (replicate SHA256_DIGEST_LENGTH None).

(** [memcmp] of a digest with the front of the array. *)
Definition same_hash (digest : bytes) (u : user) : bool :=
  bool_decide ((Some <$> digest) = take (length digest) (m_password_hash u)).

Definition match_password (password : bytes) (u : user) : bool :=
  if have_ssl then
    match m_password_hash_type u with
    | SHA_256 => same_hash (sha256 password) u
    | SHA_1 => same_hash (sha1 password) u
    | EMPTY => false
    end
  else bytes_eqb (m_password u) password.

Definition set_password (password : bytes) (u : user) : user :=
  if have_ssl then
    let hash := sha256 password in
    mk_user (m_username u) (hash ≫= hex2_lower) SHA_256 (Some <$> hash)
  else mk_user (m_username u) password (m_password_hash_type u) (m_password_hash u).

(** The loop that converts the hexadecimal text; a text of odd length is read, and the
    iterator moved, behind its end, and the array has [SHA256_DIGEST_LENGTH] bytes. *)
Fixpoint hex_to_hash (s : bytes) (hash_pos : nat) (hash : list (option char))
  : res (list (option char)) :=
  match s with
  | [] => Ok hash
  | [_] => Fault undefined_behaviour
  | a :: b :: s' =>
      if (hash_pos <? length hash)%nat then
        hex_to_hash s' (S hash_pos) (<[hash_pos := Some (char_of_Z (strtol16 [a; b]))]> hash)
      else Fault undefined_behaviour
  end.

(** [set_password_hash], in the configuration with SSL. *)
Definition set_password_hash (password_hash : bytes) (u : user) : res user :=
  let type := if (length password_hash =? SHA256_DIGEST_LENGTH * 2)%nat then SHA_256
              else if (length password_hash =? SHA_DIGEST_LENGTH * 2)%nat then SHA_1
              else m_password_hash_type u in
  hash ← hex_to_hash password_hash 0 (m_password_hash u);
  Ok (mk_user (m_username u) password_hash type hash).

(** [user(username, password)]. *)
Definition new_user_with (username password : bytes) : user :=
  set_password password (new_user username).

End User.

(** ** The user manager *)

Abbreviation user_ptr := nat.

(** [m_users], and the heap of the user objects that were ever created. *)
Record user_manager := mk_user_manager {
  m_users : smap user_ptr;
  um_objects : list user
}.

Definition new_user_manager : user_manager := mk_user_manager [] [].

Definition um_empty (um : user_manager) : bool := bool_decide (m_users um = []).

Section Manager.
Context `{cfg : UserConfig}.

(** A new object in the heap, under a name. *)
Definition um_insert (username : bytes) (u : user) (um : user_manager) : user_manager :=
  mk_user_manager (map_insert username (length (um_objects um)) (m_users um)) (um_objects um ++ [u]).

Definition add_user (username password : bytes) (um : user_manager) : bool * user_manager :=
  match map_find username (m_users um) with
  | Some _ => (false, um)
  | None => (true, um_insert username (new_user_with username password) um)
  end.

Definition update_user (username password : bytes) (um : user_manager) : bool * user_manager :=
  match map_find username (m_users um) with
  | None => (false, um)
  | Some p => (true, mk_user_manager (m_users um) (alter (set_password password) p (um_objects um)))
  end.

Definition add_user_hash (username hash : bytes) (um : user_manager) : res (bool * user_manager) :=
  match map_find username (m_users um) with
  | Some _ => Ok (false, um)
  | None =>
      u ← set_password_hash hash (new_user username);
      Ok (true, um_insert username u um)
  end.

Definition update_user_hash (username hash : bytes) (um : user_manager) : res (bool * user_manager) :=
  match map_find username (m_users um) with
  | None => Ok (false, um)
  | Some p =>
      match um_objects um !! p with
      | None => Fault undefined_behaviour
      | Some u =>
          u ← set_password_hash hash u;
          Ok (true, mk_user_manager (m_users um) (<[p := u]> (um_objects um)))
      end
  end.

Definition remove_user (username : bytes) (um : user_manager) : bool * user_manager :=
  match map_find username (m_users um) with
  | None => (false, um)
  | Some _ => (true, mk_user_manager (map_erase username (m_users um)) (um_objects um))
  end.

(** [get_user(username)]. *)
Definition get_user (username : bytes) (um : user_manager) : option user_ptr :=
  map_find username (m_users um).

(** [get_user(username, password)]. *)
Definition get_user_with (username password : bytes) (um : user_manager) : option user_ptr :=
  match map_find username (m_users um) with
  | None => None
  | Some p =>
      match um_objects um !! p with
      | Some u => if match_password password u then Some p else None
      | None => None
      end
  end.

(** The manager's map is ordered, its pointers lead to objects with their names, and two
    names do not share an object. *)
Record users_ok (um : user_manager) : Prop := mk_users_ok {
  uo_map : map_ok (m_users um);
  uo_objects : forall name p, map_find name (m_users um) = Some p ->
    exists u, um_objects um !! p = Some u /\ m_username u = name
}.

(** What the caller sees of the manager: a user of that name with that password. *)
Definition accepts (um : user_manager) (username password : bytes) : bool :=
  bool_decide (get_user_with username password um <> None).

Definition known (um : user_manager) (username : bytes) : bool :=
  bool_decide (get_user username um <> None).

Context `{laws : !DigestLaws cfg}.

(** Two passwords a user cannot tell apart: equal, or with the same digest. *)
Definition same_secret (p q : bytes) : bool :=
  if have_ssl then bytes_eqb (sha256 p) (sha256 q) else bytes_eqb p q.

Lemma same_secret_refl p : same_secret p p = true.
Proof. unfold same_secret. destruct have_ssl; by apply bool_decide_eq_true. Qed.

Lemma match_set_password p q u : match_password q (set_password p u) = same_secret p q.
Proof.
  unfold match_password, set_password, same_secret, bytes_eqb. destruct have_ssl; [|done]. cbn.
  unfold same_hash. cbn [m_password_hash].
  rewrite take_ge by (rewrite length_fmap, !length_sha256; lia).
  apply bool_decide_ext. split; [|by intros ->]. intros H. apply (inj (fmap Some)) in H. done.
Qed.

Lemma set_password_name p u : m_username (set_password p u) = m_username u.
Proof. unfold set_password. by destruct have_ssl. Qed.

Lemma get_user_with_accepts um name p u q :
  map_find name (m_users um) = Some p -> um_objects um !! p = Some u ->
  accepts um name q = match_password q u.
Proof.
  intros Hf Hu. unfold accepts, get_user_with. rewrite Hf, Hu.
  destruct (match_password q u); by case_bool_decide.
Qed.

Lemma unknown_accepts um name q : map_find name (m_users um) = None -> accepts um name q = false.
Proof. intros Hf. unfold accepts, get_user_with. rewrite Hf. by case_bool_decide. Qed.

Lemma um_insert_ok name u um :
  users_ok um -> map_find name (m_users um) = None -> m_username u = name ->
  users_ok (um_insert name u um)
  /\ (forall name', map_find name' (m_users (um_insert name u um))
                    = if decide (name = name') then Some (length (um_objects um))
                      else map_find name' (m_users um))
  /\ (forall name' p, map_find name' (m_users um) = Some p ->
        um_objects (um_insert name u um) !! p = um_objects um !! p)
  /\ um_objects (um_insert name u um) !! length (um_objects um) = Some u.
Proof.
  intros [Hm Ho] Hf Hn.
  assert (forall name', map_find name' (m_users (um_insert name u um))
                    = if decide (name = name') then Some (length (um_objects um))
                      else map_find name' (m_users um)) as Hfind.
  { intros name'. cbn [um_insert m_users]. by rewrite map_find_insert, Hf. }
  assert (forall name' p, map_find name' (m_users um) = Some p ->
            um_objects (um_insert name u um) !! p = um_objects um !! p) as Hold.
  { intros name' p H. destruct (Ho _ _ H) as (v & Hv & _). cbn [um_insert um_objects].
    rewrite lookup_app_l; [done|]. by apply lookup_lt_Some in Hv. }
  assert (um_objects (um_insert name u um) !! length (um_objects um) = Some u) as Hnew.
  { cbn [um_insert um_objects]. by rewrite lookup_app_r, Nat.sub_diag by lia. }
  split; [|done]. split; [by apply map_insert_ok|]. intros name' p. rewrite Hfind. case_decide as E.
  - intros [= <-]. exists u. by subst.
  - intros H. rewrite (Hold _ _ H). by apply Ho.
Qed.

Lemma alter_user_ok name p f um :
  users_ok um -> map_find name (m_users um) = Some p -> (forall u, m_username (f u) = m_username u) ->
  let um' := mk_user_manager (m_users um) (alter f p (um_objects um)) in
  users_ok um'
  /\ (forall name' p', map_find name' (m_users um) = Some p' -> name' <> name ->
        um_objects um' !! p' = um_objects um !! p').
Proof.
  intros [Hm Ho] Hf Hn um'.
  assert (forall name' p', map_find name' (m_users um) = Some p' -> name' <> name -> p' <> p) as Hp.
  { intros name' p' H Hne ->. destruct (Ho _ _ H) as (u1 & H1 & E1), (Ho _ _ Hf) as (u2 & H2 & E2).
    congruence. }
  split.
  - split; [done|]. intros name' p' H. destruct (Ho _ _ H) as (u & Hu & E). cbn [um' um_objects].
    destruct (decide (p' = p)) as [->|Hne].
    + exists (f u). rewrite list_lookup_alter_eq, Hu. cbn. by rewrite Hn.
    + exists u. by rewrite list_lookup_alter_ne.
  - intros name' p' H Hne. cbn [um' um_objects]. rewrite list_lookup_alter_ne; [done|].
    intros ->. by eapply Hp.
Qed.

(** What an operation keeps: the invariant, and the names of the objects. *)
Definition users_step (um um' : user_manager) : Prop :=
  users_ok um -> users_ok um'
  /\ forall p u, um_objects um !! p = Some u ->
       exists u', um_objects um' !! p = Some u' /\ m_username u' = m_username u.

Lemma users_step_refl um : users_step um um.
Proof. intros Hum. split; [done|]. intros p u Hu. by exists u. Qed.

Lemma add_user_step name pw um : users_step um (snd (add_user name pw um)).
Proof.
  unfold add_user. destruct (map_find name (m_users um)) as [p|] eqn:Ef; [apply users_step_refl|].
  intros Hum. destruct (um_insert_ok name (new_user_with name pw) um Hum Ef
    ltac:(unfold new_user_with; by rewrite set_password_name)) as (Hok & _).
  split; [exact Hok|]. intros p u Hu. exists u. split; [|done]. cbn [snd um_insert um_objects].
  rewrite lookup_app_l; [done|]. by apply lookup_lt_Some in Hu.
Qed.

Lemma update_user_step name pw um : users_step um (snd (update_user name pw um)).
Proof.
  unfold update_user. destruct (map_find name (m_users um)) as [p|] eqn:Ef; [|apply users_step_refl].
  intros Hum. destruct (alter_user_ok name p (set_password pw) um Hum Ef (set_password_name pw)) as [Hok _].
  split; [exact Hok|]. intros p' u Hu. cbn [snd um_objects]. destruct (decide (p' = p)) as [->|Hne].
  - exists (set_password pw u). rewrite list_lookup_alter_eq, Hu. split; [done|]. apply set_password_name.
  - exists u. by rewrite list_lookup_alter_ne.
Qed.

Lemma remove_user_step name um : users_step um (snd (remove_user name um)).
Proof.
  unfold remove_user. destruct (map_find name (m_users um)) as [p|] eqn:Ef; [|apply users_step_refl].
  intros [Hm Ho]. split.
  - split; [by apply map_erase_ok|]. intros name' p'. cbn [snd m_users um_objects].
    rewrite map_find_erase. case_decide; [done|]. apply Ho.
  - intros p' u Hu. by exists u.
Qed.

(** The object behind a pointer that [get_user] gives has the name that was asked for. *)
Lemma get_user_with_name name pw um p :
  users_ok um -> get_user_with name pw um = Some p ->
  accepts um name pw = true /\ m_username <$> um_objects um !! p = Some name.
Proof.
  intros [_ Ho] H. split; [unfold accepts; rewrite H; by apply bool_decide_eq_true|].
  unfold get_user_with in H. destruct (map_find name (m_users um)) as [p'|] eqn:Ef; [|done].
  destruct (Ho _ _ Ef) as (u & Hu & Hn). rewrite Hu in H. destruct (match_password pw u); [|done].
  injection H as <-. rewrite Hu. simpl. by rewrite Hn.
Qed.

(** C38: the user manager implements a table of passwords.  Adding a user succeeds exactly
    when the name is free, updating and removing one when the name is taken; an operation
    that fails changes nothing; one that succeeds makes the name accept exactly the new
    password (or one with the same digest), or nothing at all, and does not touch any other
    name, and the manager's invariant is kept. *)
Theorem user_manager_table um name pw :
  users_ok um ->
  (let '(ok, um') := add_user name pw um in
   ok = negb (known um name) /\ users_ok um'
   /\ forall name' q, accepts um' name' q
        = if ok && bool_decide (name' = name) then same_secret pw q else accepts um name' q)
  /\ (let '(ok, um') := update_user name pw um in
      ok = known um name /\ users_ok um'
      /\ forall name' q, accepts um' name' q
           = if ok && bool_decide (name' = name) then same_secret pw q else accepts um name' q)
  /\ (let '(ok, um') := remove_user name um in
      ok = known um name /\ users_ok um'
      /\ forall name' q, accepts um' name' q
           = if ok && bool_decide (name' = name) then false else accepts um name' q).
Proof.
  intros Hum. pose proof Hum as [Hm Ho]. unfold add_user, update_user, remove_user, known, get_user.
  destruct (map_find name (m_users um)) as [p|] eqn:Ef.
  - rewrite bool_decide_true by done. cbn [negb andb]. split; [done|].
    split.
    + destruct (Ho _ _ Ef) as (u & Hu & _).
      destruct (alter_user_ok name p (set_password pw) um Hum Ef (set_password_name pw)) as [Hok Hne].
      split; [done|]. split; [exact Hok|]. intros name' q. case_bool_decide as E.
      * subst. rewrite (get_user_with_accepts _ name p (set_password pw u));
          [apply match_set_password|exact Ef|]. cbn [um_objects]. by rewrite list_lookup_alter_eq, Hu.
      * destruct (map_find name' (m_users um)) as [p'|] eqn:Ef';
          [|by rewrite !unknown_accepts].
        destruct (Ho _ _ Ef') as (u' & Hu' & _).
        rewrite (get_user_with_accepts um name' p' u') by done.
        apply (get_user_with_accepts _ name' p' u'); [exact Ef'|].
        rewrite <- Hu'. by apply (Hne name').
    + split; [done|].
      assert (forall name', map_find name' (map_erase name (m_users um))
                = if decide (name = name') then None else map_find name' (m_users um)) as Hfe
        by (intros; apply map_find_erase).
      split.
      * split; [by apply map_erase_ok|]. intros name' p'. cbn [m_users um_objects]. rewrite Hfe.
        case_decide; [done|]. apply Ho.
      * intros name' q. unfold accepts, get_user_with. cbn [m_users um_objects]. rewrite Hfe.
        repeat case_decide; repeat case_bool_decide; congruence.
  - rewrite bool_decide_false by congruence. cbn [negb andb]. split; [|done].
    destruct (um_insert_ok name (new_user_with name pw) um Hum Ef
      ltac:(unfold new_user_with; by rewrite set_password_name)) as (Hok & Hfind & Hold & Hnew).
    split; [done|]. split; [exact Hok|]. intros name' q. specialize (Hfind name'). case_bool_decide as E.
    + subst. rewrite decide_True in Hfind by done.
      rewrite (get_user_with_accepts _ _ _ _ q Hfind Hnew). apply match_set_password.
    + rewrite decide_False in Hfind by congruence.
      destruct (map_find name' (m_users um)) as [p'|] eqn:Ef'; [|by rewrite !unknown_accepts].
      destruct (Ho _ _ Ef') as (u' & Hu' & _).
      rewrite (get_user_with_accepts um name' p' u') by done.
      apply (get_user_with_accepts _ name' p' u'); [exact Hfind|]. rewrite <- Hu'. by apply (Hold name').
Qed.


(** ** Encrypted passwords *)

Lemma hex_byte c : char_of_Z (strtol16 (hex2_lower c)) = c.
Proof. by_all_chars c. Qed.

Lemma hex_to_hash_print h pos buffer :
  (pos + length h <= length buffer)%nat ->
  hex_to_hash (h ≫= hex2_lower) pos buffer
  = Ok (take pos buffer ++ (Some <$> h) ++ drop (pos + length h) buffer).
Proof.
  revert pos buffer. induction h as [|c h IH]; intros pos buffer Hl.
  { cbn. by rewrite Nat.add_0_r, take_drop. }
  rewrite bind_cons. cbn [length] in Hl.
  change (hex2_lower c ++ (h ≫= hex2_lower))
    with (digit_char (uchar c / 16) :: digit_char (uchar c mod 16) :: (h ≫= hex2_lower)).
  cbn [hex_to_hash].
  replace (pos <? length buffer)%nat with true by (symmetry; apply Nat.ltb_lt; lia).
  change [digit_char (uchar c / 16); digit_char (uchar c mod 16)] with (hex2_lower c). rewrite hex_byte.
  rewrite IH by (rewrite length_insert; lia). f_equal.
  rewrite (take_S_r _ _ (Some c)) by (apply list_lookup_insert_eq; lia).
  rewrite take_insert_ge, drop_insert_lt by lia. cbn [fmap list_fmap length].
  rewrite <- app_assoc. cbn [app]. do 3 f_equal. f_equal. lia.
Qed.


Lemma hex_to_hash_length n s pos buffer :
  length s = (2 * n)%nat -> (pos + n <= length buffer)%nat ->
  exists buffer', hex_to_hash s pos buffer = Ok buffer' /\ length buffer' = length buffer.
Proof.
  revert s pos buffer. induction n as [|n IH]; intros s pos buffer Hs Hl.
  - destruct s; [|simpl in Hs; lia]. by exists buffer.
  - destruct s as [|a [|b s]]; simpl in Hs; [lia..|]. cbn [hex_to_hash].
    replace (pos <? length buffer)%nat with true by (symmetry; apply Nat.ltb_lt; lia).
    destruct (IH s (S pos) (<[pos := Some (char_of_Z (strtol16 [a; b]))]> buffer)) as (b' & E & Hb');
      [lia|rewrite length_insert; lia|]. exists b'. by rewrite Hb', length_insert.
Qed.


(** The encrypted form of a password stands for it.  The text that a user keeps for a
    password ([get_password]), given to [add_user_hash] under a free name, makes that name
    accept the password, and nothing but it and what has the same digest. *)
Theorem password_hash_roundtrip um name name0 pw :
  have_ssl = true -> users_ok um -> known um name = false ->
  exists um', add_user_hash name (m_password (new_user_with name0 pw)) um = Ok (true, um')
              /\ users_ok um' /\ forall q, accepts um' name q = same_secret pw q.
Proof.
  intros Hssl Hum Hk. unfold known, get_user in Hk. apply bool_decide_eq_false, dec_stable in Hk.
  assert (m_password (new_user_with name0 pw) = sha256 pw ≫= hex2_lower) as Ep.
  { unfold new_user_with, set_password. by rewrite Hssl. }
  unfold add_user_hash. rewrite Hk, Ep. unfold set_password_hash.
  assert (length (sha256 pw ≫= hex2_lower) = SHA256_DIGEST_LENGTH * 2)%nat as Hlen.
  { rewrite <- (length_sha256 pw). clear. induction (sha256 pw) as [|c s IH]; [done|].
    rewrite bind_cons, length_app, IH. cbn [length hex2_lower]. lia. }
  rewrite Hlen, Nat.eqb_refl.
  rewrite hex_to_hash_print by (rewrite length_sha256; cbn [m_password_hash new_user]; by rewrite length_replicate).
  cbn [mbind res_bind]. set (u := mk_user _ _ _ _).
  assert (m_password_hash u = Some <$> sha256 pw) as Eh.
  { cbn [u m_password_hash take new_user]. rewrite drop_ge; [by rewrite app_nil_r|].
    by rewrite length_replicate, length_sha256. }
  eexists. split; [reflexivity|].
  destruct (um_insert_ok name u um Hum Hk eq_refl) as (Hok & Hfind & _ & Hnew).
  split; [exact Hok|]. intros q. specialize (Hfind name). rewrite decide_True in Hfind by done.
  rewrite (get_user_with_accepts _ _ _ _ q Hfind Hnew). unfold match_password, same_secret, bytes_eqb, same_hash.
  rewrite Hssl, Eh. cbn [u m_password_hash_type].
  rewrite take_ge by (rewrite length_fmap, !length_sha256; lia).
  apply bool_decide_ext. split; [|by intros ->]. intros H. by apply (inj (fmap Some)) in H.
Qed.

End Manager.

(** ** Examples and deviations *)

(** Digests of the right length, for the examples. *)
#[local] Instance padding_config : UserConfig := {|
  have_ssl := true;
  sha256 s := take SHA256_DIGEST_LENGTH (s ++ replicate SHA256_DIGEST_LENGTH NUL);
  sha1 s := take SHA_DIGEST_LENGTH (s ++ replicate SHA_DIGEST_LENGTH NUL)
|}.

#[local] Instance padding_laws : DigestLaws padding_config.
Proof. split; intros s; cbn [sha256 sha1 padding_config]; rewrite length_take, length_app, length_replicate; lia. Qed.

Lemma new_user_manager_ok : users_ok new_user_manager.
Proof. split; [constructor|done]. Qed.

Lemma user_manager_table_witness :
  let um := snd (add_user (str "ann") (str "secret") new_user_manager) in
  accepts um (str "ann") (str "secret") = true /\ accepts um (str "ann") (str "other") = false.
Proof.
  pose proof (proj1 (user_manager_table new_user_manager (str "ann") (str "secret") new_user_manager_ok))
    as (_ & _ & H).
  intros um. split; [refine (eq_trans (H (str "ann") (str "secret")) _)
    |refine (eq_trans (H (str "ann") (str "other")) _)]; vm_compute; reflexivity.
Defined.

Lemma password_hash_roundtrip_witness :
  exists um', add_user_hash (str "bob") (m_password (new_user_with (str "ann") (str "secret")))
                new_user_manager = Ok (true, um')
              /\ accepts um' (str "bob") (str "secret") = true.
Proof.
  destruct (password_hash_roundtrip (cfg := padding_config) new_user_manager (str "bob") (str "ann") (str "secret") eq_refl
    new_user_manager_ok eq_refl) as (um' & H1 & _ & H2).
  exists um'. split; [exact H1|]. rewrite H2. vm_compute. reflexivity.
Defined.

(** A hash of more than 64 characters is written behind the array, and one of odd length is
    read behind its end. *)
Lemma long_hash_written_outside :
  set_password_hash (replicate 66 "0"%byte) (new_user (str "ann")) = Fault undefined_behaviour
  /\ set_password_hash (replicate 63 "0"%byte) (new_user (str "ann")) = Fault undefined_behaviour.
Proof. split; vm_compute; reflexivity. Qed.
