(* ===== verification/Replies.v ===== *)
(** * Replies to a request

    How the server, the authentication and the services answer a request: a
    [response_writer] for the request, the status and the headers of its response, the text
    of the page, and [send]; [connection::finish] is bound to the end of the writing, so it
    is called once when the answer is on its way (or the connection was lost). *)
From S2P Require Import Prelude CLib StringUtils Dict Tribool HttpTypes Message ParserBase.
From S2P Require Import ParserHeaders ParserForms ParserBody Parser ParserSafety ParserStream.
From S2P Require Import ParserRoundTrip Connection Writer.

(** The members of a request that the other components read. *)
Definition get_method (m : message) : bytes :=
  match m_kind m with KRequest r => rq_method r | KResponse _ => [] end.
Definition get_resource (m : message) : bytes :=
  match m_kind m with KRequest r => rq_resource r | KResponse _ => [] end.
Definition get_original_resource (m : message) : bytes :=
  match m_kind m with KRequest r => rq_original_resource r | KResponse _ => [] end.
Definition get_query (m : message) (key : bytes) : bytes :=
  match m_kind m with KRequest r => get_value (rq_query_params r) key | KResponse _ => [] end.
Definition get_user_record (m : message) : option bytes :=
  match m_kind m with KRequest r => rq_user_record r | KResponse _ => None end.

(** [request::set_user], with the name of the user. *)
Definition set_user (name : bytes) (m : message) : message :=
  on_request (with_rq_user_record (Some name)) m.

(** [writer->get_response()], changed. *)
Definition edit_response (f : message -> message) (w : writer) : writer :=
  mk_writer (f (w_message w)) (w_conn w) (w_content_buffers w) (w_content_stream w)
    (w_content_length w) (w_stream_is_empty w) (w_client_supports_chunks w) (w_sending_chunks w)
    (w_sent_headers w).

(** [response_writer::create(tcp_conn, request, finish)]. *)
Definition create_response_writer (request : message) (c : connection) : writer :=
  new_response_writer_for (get_method request) (m_version_major request) (m_version_minor request) c.

(** An answer: the changes to the response and the parts of the page. *)
Definition reply (request : message) (c : connection) (edit : message -> message)
  (parts : list write_op) : connection :=
  let w := edit_response edit (create_response_writer request c) in
  w_conn (fst (send (foldl (fun w op => write_step op w) w parts))).

(** The status line of an answer. *)
Definition with_status (code : Z) (text : bytes) (m : message) : message :=
  set_status_message text (set_status_code code m).

(** The response of an answer to [request]. *)
Definition reply_response (request : message) (edit : message -> message) : message :=
  edit (update_request_info (get_method request) (m_version_major request)
          (m_version_minor request) (new_response [])).

(** Every answer with a page writes one response: the head, with the length of the page, and
    the page. *)
Lemma reply_written request c edit parts :
  m_is_open c = true -> 0 < zlen (parts ≫= op_data) < 2 ^ 64 ->
  m_written (reply request c edit parts)
  = m_written c
    ++ mjoin (snd (prepare_buffers_for_send (get_keep_alive c) false
                     (set_content_length (zlen (parts ≫= op_data)) (reply_response request edit))))
    ++ (parts ≫= op_data)
  /\ exists buffers, reply request c edit parts = write_buffers buffers c.
Proof.
  intros Ho Hz. unfold reply. set (w := edit_response edit (create_response_writer request c)).
  assert (writer_ok w) as Hw by (by constructor).
  destruct (write_steps_ok parts w Hw) as (Hk & Hc & Hf). set (w1 := foldl _ _ _) in *.
  change (writer_content w1 = parts ≫= op_data) in Hc. injection Hf as Hm Hcn Hs Hsc Hh.
  change (w_conn w1 = c) in Hcn. change (w_message w1 = reply_response request edit) in Hm.
  rewrite <- Hc in *. rewrite <- Hm, <- Hcn in *.
  destruct (send_content w1 Hk Ho Hh Hsc Hz) as (w' & -> & Hw' & _ & Hl). split; [done|exact Hl].
Qed.
