(* ===== verification/Auth.v ===== *)
(** * HTTP authentication

    Models [http::auth] (src/http_auth.cpp), [http::basic_auth] (src/http_basic_auth.cpp)
    and [http::cookie_auth] (src/http_cookie_auth.cpp).  The time of a request (in seconds
    of [system_clock]) and the random bytes of a new cookie are inputs. *)
From S2P Require Import Prelude CLib StringUtils Algorithm StdMap Resources Dict HttpTypes Message.
From S2P Require Import Connection Writer Users Replies.

(** ** The base class *)

Record auth := mk_auth {
  m_user_manager : user_manager;
  m_restrict_list : smap unit;
  m_white_list : smap unit
}.

Definition new_auth (um : user_manager) : auth := mk_auth um [] [].

Definition add_restrict (resource : bytes) (a : auth) : auth :=
  mk_auth (m_user_manager a) (map_insert (strip_trailing_slash resource) tt (m_restrict_list a))
    (m_white_list a).

Definition add_permit (resource : bytes) (a : auth) : auth :=
  mk_auth (m_user_manager a) (m_restrict_list a)
    (map_insert (strip_trailing_slash resource) tt (m_white_list a)).

Definition with_users (um : user_manager) (a : auth) : auth :=
  mk_auth um (m_restrict_list a) (m_white_list a).

(** [auth::find_resource]. *)
Definition auth_find_resource (resource_set : smap unit) (resource : bytes) : bool :=
  bool_decide (find_resource resource resource_set <> None).

Definition need_authentication (request : message) (a : auth) : bool :=
  if um_empty (m_user_manager a) then false
  else
    let resource := strip_trailing_slash (get_resource request) in
    if bool_decide (m_restrict_list a = []) then false
    else if auth_find_resource (m_restrict_list a) resource then
      if bool_decide (m_white_list a = []) then true
      else negb (auth_find_resource (m_white_list a) resource)
    else false.

(** The name of the user that a pointer leads to. *)
Definition user_name (p : user_ptr) (a : auth) : option bytes :=
  m_username <$> um_objects (m_user_manager a) !! p.

(** [http_request_ptr->set_user(user)]. *)
Definition set_user_ptr (p : user_ptr) (a : auth) (m : message) : message :=
  match user_name p a with Some name => set_user name m | None => m end.

(** [user_cache_type]: the time of the last use, and the user. *)
Abbreviation user_cache := (smap (Z * user_ptr)).

(** The loop that erases the entries that were not used for [expiration] seconds. *)
Definition expire_entries (expiration now : Z) (cache : user_cache) : user_cache :=
  filter (fun kv => negb (fst (snd kv) + expiration <? now) = true) cache.

(** The page of the class for status 401, and for 302. *)
Definition PAGE_START : bytes :=
  str " <!DOCTYPE HTML PUBLIC " ++ [x22] ++ str "-//W3C//DTD HTML 4.01 Transitional//EN" ++ [x22; x22]
  ++ str "http://www.w3.org/TR/1999/REC-html401-19991224/loose.dtd" ++ [x22] ++ str "><HTML><HEAD><TITLE>".
Definition PAGE_META : bytes :=
  str "</TITLE><META HTTP-EQUIV=" ++ [x22] ++ str "Content-Type" ++ [x22] ++ str " CONTENT=" ++ [x22]
  ++ str "text/html; charset=ISO-8859-1" ++ [x22] ++ str "></HEAD><BODY><H1>".
Definition UNAUTHORIZED_HTML : bytes :=
  PAGE_START ++ str "Error" ++ PAGE_META ++ str "401 Unauthorized.</H1></BODY></HTML> ".
Definition REDIRECT_HTML : bytes :=
  PAGE_START ++ str "Redirect" ++ PAGE_META ++ str "302 Found.</H1></BODY></HTML> ".

Section Auth.
Context `{cfg : UserConfig}.

(** The administration of users, through the manager. *)
Definition auth_add_user (username password : bytes) (a : auth) : bool * auth :=
  let '(ok, um) := add_user username password (m_user_manager a) in (ok, with_users um a).
Definition auth_update_user (username password : bytes) (a : auth) : bool * auth :=
  let '(ok, um) := update_user username password (m_user_manager a) in (ok, with_users um a).
Definition auth_remove_user (username : bytes) (a : auth) : bool * auth :=
  let '(ok, um) := remove_user username (m_user_manager a) in (ok, with_users um a).

(** ** Basic authentication *)

Definition BASIC_CACHE_EXPIRATION : Z := 300.

Record basic_auth := mk_basic_auth {
  ba_auth : auth;
  m_realm : bytes;
  ba_cleanup_time : Z;  (* m_cache_cleanup_time *)
  ba_user_cache : user_cache  (* m_user_cache *)
}.

Definition new_basic_auth (um : user_manager) (realm : bytes) (now : Z) : basic_auth :=
  mk_basic_auth (new_auth um) realm now [].

Definition ba_with_cache (now : Z) (cache : user_cache) (a : basic_auth) : basic_auth :=
  mk_basic_auth (ba_auth a) (m_realm a) now cache.

(** [parse_authorization]: the credentials of a header value. *)
Definition parse_authorization (authorization : bytes) : option bytes :=
  if starts_with authorization (str "Basic ") then
    let credentials := drop 6 authorization in
    if bool_decide (credentials = []) then None else Some credentials
  else None.

(** [parse_credentials]: the name and the password. *)
Definition parse_credentials (credentials : bytes) : res (option (bytes * bytes)) :=
  r ← base64_decode credentials;
  let '(ok, user_password) := r in
  if negb ok then Ok None
  else
    match find_char ":"%byte user_password with
    | None => Ok None
    | Some O => Ok None
    | Some i => Ok (Some (take i user_password, drop (i + 1) user_password))
    end.

Definition ba_handle_unauthorized (request : message) (c : connection) (a : basic_auth)
  : connection :=
  reply request c
    (fun m => add_header (str "WWW-Authenticate") (str "Basic realm=" ++ [x22] ++ m_realm a ++ [x22])
                (with_status RESPONSE_CODE_UNAUTHORIZED RESPONSE_MESSAGE_UNAUTHORIZED m))
    [op_memory UNAUTHORIZED_HTML].

(** The expiration of the cache, at most once in [CACHE_EXPIRATION] seconds. *)
Definition ba_expire (now : Z) (a : basic_auth) : basic_auth :=
  if ba_cleanup_time a + BASIC_CACHE_EXPIRATION <? now then
    ba_with_cache now (expire_entries BASIC_CACHE_EXPIRATION now (ba_user_cache a)) a
  else a.

(** What the credentials of a request give: the cache and the user. *)
Definition ba_authorize (now : Z) (credentials : bytes) (a : basic_auth)
  : res (basic_auth * option user_ptr) :=
  match map_find credentials (ba_user_cache a) with
  | Some (_, p) =>
      Ok (ba_with_cache (ba_cleanup_time a) (map_set credentials (now, p) (ba_user_cache a)) a, Some p)
  | None =>
      up ← parse_credentials credentials;
      match up with
      | None => Ok (a, None)
      | Some (username, password) =>
          match get_user_with username password (m_user_manager (ba_auth a)) with
          | None => Ok (a, None)
          | Some p =>
              Ok (ba_with_cache (ba_cleanup_time a)
                    (map_insert credentials (now, p) (ba_user_cache a)) a, Some p)
          end
      end
  end.

(** [basic_auth::handle_request]. *)
Definition ba_handle_request (now : Z) (request : message) (c : connection) (a : basic_auth)
  : res (bool * basic_auth * message * connection) :=
  if negb (need_authentication request (ba_auth a)) then Ok (true, a, request, c)
  else
    let a := ba_expire now a in
    let authorization := get_header request HEADER_AUTHORIZATION in
    r ← (match (if bool_decide (authorization = []) then None else parse_authorization authorization) with
         | None => Ok (a, None)
         | Some credentials => ba_authorize now credentials a
         end);
    match r with
    | (a, Some p) => Ok (true, a, set_user_ptr p (ba_auth a) request, c)
    | (a, None) => Ok (false, a, request, ba_handle_unauthorized request c a)
    end.

(** [set_option]. *)
Definition ba_set_option (name value : bytes) (a : basic_auth) : basic_auth :=
  if bytes_eqb name (str "realm") then
    mk_basic_auth (ba_auth a) value (ba_cleanup_time a) (ba_user_cache a)
  else a.

(** ** Authentication with cookies *)

Definition COOKIE_CACHE_EXPIRATION : Z := 3600.
Definition RANDOM_COOKIE_BYTES : nat := 20.
Definition AUTH_COOKIE_NAME : bytes := str "pion_session_id".

Record cookie_auth := mk_cookie_auth {
  ca_auth : auth;
  m_login : bytes;
  m_logout : bytes;
  m_redirect : bytes;
  ca_cleanup_time : Z;
  ca_user_cache : user_cache
}.

Definition new_cookie_auth (um : user_manager) (login logout redirect : bytes) (now : Z) : cookie_auth :=
  mk_cookie_auth (new_auth um) login logout redirect now [].

Definition ca_with_cache (now : Z) (cache : user_cache) (a : cookie_auth) : cookie_auth :=
  mk_cookie_auth (ca_auth a) (m_login a) (m_logout a) (m_redirect a) now cache.

(** The cookie of an answer. *)
Definition edit_cookie (new_cookie : bytes) (delete : bool) (m : message) : message :=
  if delete then delete_set_cookie AUTH_COOKIE_NAME [] m
  else if bool_decide (new_cookie = []) then m
  else set_cookie AUTH_COOKIE_NAME new_cookie [] None m.

Definition handle_redirection (request : message) (c : connection)
  (redirection_url new_cookie : bytes) (delete : bool) : connection :=
  reply request c
    (fun m => edit_cookie new_cookie delete
                (add_header HEADER_LOCATION redirection_url
                   (with_status RESPONSE_CODE_FOUND RESPONSE_MESSAGE_FOUND m)))
    [op_memory REDIRECT_HTML].

Definition handle_ok (request : message) (c : connection) (new_cookie : bytes) (delete : bool)
  : connection :=
  reply request c
    (fun m => edit_cookie new_cookie delete
                (with_status RESPONSE_CODE_NO_CONTENT RESPONSE_MESSAGE_NO_CONTENT m)) [].

Definition ca_handle_unauthorized (request : message) (c : connection) (a : cookie_auth) : connection :=
  if bool_decide (m_redirect a = []) then
    reply request c (with_status RESPONSE_CODE_UNAUTHORIZED RESPONSE_MESSAGE_UNAUTHORIZED)
      [op_memory UNAUTHORIZED_HTML]
  else handle_redirection request c (m_redirect a) [] false.

(** [expire_cache]. *)
Definition ca_expire (now : Z) (a : cookie_auth) : cookie_auth :=
  if ca_cleanup_time a + COOKIE_CACHE_EXPIRATION <? now then
    ca_with_cache now (expire_entries COOKIE_CACHE_EXPIRATION now (ca_user_cache a)) a
  else a.

(** [process_login]: [None] when the request is neither a login nor a logout. *)
Definition process_login (now : Z) (rand_binary : bytes) (request : message) (c : connection)
  (a : cookie_auth) : option (cookie_auth * connection) :=
  let resource := strip_trailing_slash (get_resource request) in
  if negb (bytes_eqb resource (m_login a)) && negb (bytes_eqb resource (m_logout a)) then None
  else
    let redirect_url := get_query request (str "url") in
    let answer new_cookie delete :=
      if bool_decide (redirect_url = []) then handle_ok request c new_cookie delete
      else handle_redirection request c redirect_url new_cookie delete in
    if bytes_eqb resource (m_login a) then
      match get_user_with (get_query request (str "user")) (get_query request (str "pass"))
              (m_user_manager (ca_auth a)) with
      | None => Some (a, ca_handle_unauthorized request c a)
      | Some p =>
          let new_cookie := snd (base64_encode rand_binary) in
          Some (ca_with_cache (ca_cleanup_time a)
                  (map_insert new_cookie (now, p) (ca_user_cache a)) a, answer new_cookie false)
      end
    else
      let auth_cookie := get_cookie request AUTH_COOKIE_NAME in
      let a := if bool_decide (auth_cookie = []) then a
               else ca_with_cache (ca_cleanup_time a) (map_erase auth_cookie (ca_user_cache a)) a in
      Some (a, answer [] true).

(** [cookie_auth::handle_request]. *)
Definition ca_handle_request (now : Z) (rand_binary : bytes) (request : message) (c : connection)
  (a : cookie_auth) : bool * cookie_auth * message * connection :=
  match process_login now rand_binary request c a with
  | Some (a, c) => (false, a, request, c)
  | None =>
      if negb (need_authentication request (ca_auth a)) then (true, a, request, c)
      else if negb (bool_decide (m_redirect a = [])) && bytes_eqb (m_redirect a) (get_resource request)
      then (true, a, request, c)
      else
        let a := ca_expire now a in
        let auth_cookie := get_cookie request AUTH_COOKIE_NAME in
        match (if bool_decide (auth_cookie = []) then None
               else map_find auth_cookie (ca_user_cache a)) with
        | Some (_, p) =>
            (true,
             ca_with_cache (ca_cleanup_time a) (map_set auth_cookie (now, p) (ca_user_cache a)) a,
             set_user_ptr p (ca_auth a) request, c)
        | None => (false, a, request, ca_handle_unauthorized request c a)
        end
  end.

(** [set_option]. *)
Definition ca_set_option (name value : bytes) (a : cookie_auth) : cookie_auth :=
  if bytes_eqb name (str "login") then
    mk_cookie_auth (ca_auth a) value (m_logout a) (m_redirect a) (ca_cleanup_time a) (ca_user_cache a)
  else if bytes_eqb name (str "logout") then
    mk_cookie_auth (ca_auth a) (m_login a) value (m_redirect a) (ca_cleanup_time a) (ca_user_cache a)
  else if bytes_eqb name (str "redirect") then
    mk_cookie_auth (ca_auth a) (m_login a) (m_logout a) value (ca_cleanup_time a) (ca_user_cache a)
  else a.

End Auth.
(** ** Sessions *)

(** What the log of an authentication object tells: the token was handed out (or shown) when
    the password of the user was accepted, it was used for a request that was let through, it
    was given back. *)
Inductive event :=
| logged_in (time : Z) (token name : bytes)
| used (time : Z) (token : bytes)
| logged_out (token : bytes).

(** A session of a token for a user, last used at a time: it starts with a login, goes on
    with uses, between which at most [2 * expiration] seconds pass, and ends with a logout.
    The log has its newest event first. *)
Section Sessions.
Variable expiration : Z.

Inductive session (token name : bytes) : list event -> Z -> Prop :=
| session_login t log : session token name (logged_in t token name :: log) t
| session_use t t' log : session token name log t -> t <= t' <= t + 2 * expiration ->
    session token name (used t' token :: log) t'
| session_skip t e log : session token name log t -> e <> logged_out token ->
    session token name (e :: log) t.

(** The cache at time [now]: its entries are sessions, and none of them has survived a
    cleanup that it should not have. *)
Record cache_ok (name_of : user_ptr -> option bytes) (log : list event) (now cleanup : Z)
  (cache : user_cache) : Prop := mk_cache_ok {
  co_map : map_ok cache;
  co_cleanup : cleanup <= now;
  co_entries : forall token t p, map_find token cache = Some (t, p) ->
    t <= now /\ cleanup <= t + expiration
    /\ exists name, name_of p = Some name /\ session token name log t
}.

(** Time passes, and users stay. *)
Lemma cache_ok_more f f' log now now' cleanup cache :
  now <= now' -> (forall p n, f p = Some n -> f' p = Some n) ->
  cache_ok f log now cleanup cache -> cache_ok f' log now' cleanup cache.
Proof.
  intros Hn Hf [Hm Hc He]. split; [done|lia|]. intros token t p H.
  destruct (He _ _ _ H) as (Ht & Hcl & name & Hp & Hs). split; [lia|]. split; [done|].
  exists name. split; [by apply Hf|done].
Qed.

(** Events that log nobody out. *)
Lemma cache_ok_skip f log now cleanup cache es :
  (forall token, logged_out token ∉ es) ->
  cache_ok f log now cleanup cache -> cache_ok f (es ++ log) now cleanup cache.
Proof.
  intros Hes [Hm Hc He]. split; [done|done|]. intros token t p H.
  destruct (He _ _ _ H) as (Ht & Hcl & name & Hp & Hs). split; [done|]. split; [done|].
  exists name. split; [done|]. clear He H. induction es as [|e es IH]; [done|].
  apply session_skip; [|intros ->; apply (Hes token); set_solver].
  apply IH. intros token' Hin. apply (Hes token'). set_solver.
Qed.

Lemma cache_ok_new f log now : cache_ok f log now now [].
Proof. split; [constructor|lia|done]. Qed.

(** The expiration, when it is due. *)
Lemma cache_ok_expire f log now cleanup cache :
  cache_ok f log now cleanup cache -> cache_ok f log now now (expire_entries expiration now cache).
Proof.
  intros [Hm Hc He]. split; [by apply map_filter_ok|lia|]. intros token t p H.
  apply map_find_filter in H as [H Ht]; [|done].
  destruct (He _ _ _ H) as (Ht1 & _ & Hn). split; [done|]. split; [|done]. simpl in Ht. lia.
Qed.

Hypothesis expiration_pos : 0 <= expiration.

(** An entry that is found is used again. *)
Lemma cache_ok_touch f log now cleanup cache token t p :
  cache_ok f log now cleanup cache -> now <= cleanup + expiration ->
  map_find token cache = Some (t, p) ->
  cache_ok f (used now token :: log) now cleanup (map_set token (now, p) cache)
  /\ exists name, f p = Some name /\ session token name (used now token :: log) now.
Proof.
  intros Hok Hn H. destruct Hok as [Hm Hc He] eqn:Eok. clear Eok.
  destruct (He _ _ _ H) as (Ht & Hcl & name & Hp & Hs).
  assert (session token name (used now token :: log) now) as Hs' by (eapply session_use; [exact Hs|lia]).
  split; [|by exists name]. split; [by apply map_set_ok|done|]. intros token' t' p' H'.
  rewrite map_find_set in H' by done. case_decide as Et.
  - simplify_eq. split; [lia|]. split; [lia|]. by exists name.
  - apply (co_entries _ _ _ _ _ (cache_ok_skip f log now cleanup cache [used now token]
      ltac:(set_solver) Hok) _ _ _ H').
Qed.

(** A token whose user has logged in. *)
Lemma cache_ok_login f log now cleanup cache token name p :
  cache_ok f log now cleanup cache -> f p = Some name ->
  cache_ok f (logged_in now token name :: log) now cleanup (map_insert token (now, p) cache).
Proof.
  intros Hok Hp. apply (cache_ok_skip _ _ _ _ _ [logged_in now token name]) in Hok as [Hm Hc He];
    [|set_solver].
  split; [by apply map_insert_ok|done|]. intros token' t' p' H'.
  rewrite map_find_insert in H' by done. case_decide as Et; [|by apply He].
  subst token'. destruct (map_find token cache) as [[t0 p0]|] eqn:E; simpl in H'; simplify_eq;
    [by apply He|]. split; [lia|]. split; [lia|]. exists name. split; [done|]. apply session_login.
Qed.

(** A token that was given back. *)
Lemma cache_ok_logout f log now cleanup cache token :
  cache_ok f log now cleanup cache ->
  cache_ok f (logged_out token :: log) now cleanup (map_erase token cache).
Proof.
  intros [Hm Hc He]. split; [by apply map_erase_ok|done|]. intros token' t' p' H'.
  rewrite map_find_erase in H'. case_decide as Et; [done|].
  destruct (He _ _ _ H') as (Ht & Hcl & name & Hp & Hs). split; [done|]. split; [done|].
  exists name. split; [done|]. apply session_skip; [done|]. intros [= ->]. done.
Qed.

End Sessions.

(** The administration: the lists of resources and the users. *)
Inductive admin_op :=
| admin_restrict (resource : bytes)
| admin_permit (resource : bytes)
| admin_add (username password : bytes)
| admin_update (username password : bytes)
| admin_remove (username : bytes).

Section Runs.
Context `{cfg : UserConfig}.

Definition admin (op : admin_op) (a : auth) : auth :=
  match op with
  | admin_restrict r => add_restrict r a
  | admin_permit r => add_permit r a
  | admin_add n p => snd (auth_add_user n p a)
  | admin_update n p => snd (auth_update_user n p a)
  | admin_remove n => snd (auth_remove_user n a)
  end.

Lemma admin_users op a : users_step (m_user_manager a) (m_user_manager (admin op a)).
Proof.
  destruct op as [r|r|n p|n p|n]; cbn [admin]; [apply users_step_refl..| | |].
  - unfold auth_add_user. pose proof (add_user_step n p (m_user_manager a)) as H.
    by destruct (add_user n p (m_user_manager a)).
  - unfold auth_update_user. pose proof (update_user_step n p (m_user_manager a)) as H.
    by destruct (update_user n p (m_user_manager a)).
  - unfold auth_remove_user. pose proof (remove_user_step n (m_user_manager a)) as H.
    by destruct (remove_user n (m_user_manager a)).
Qed.

Lemma admin_names op a p name :
  users_ok (m_user_manager a) -> user_name p a = Some name -> user_name p (admin op a) = Some name.
Proof.
  intros Hum. unfold user_name. destruct (um_objects (m_user_manager a) !! p) as [u|] eqn:E; [|done].
  intros [= <-]. destruct (proj2 (admin_users op a Hum) p u E) as (u' & -> & Hn). simpl. by rewrite Hn.
Qed.

(** *** Basic authentication *)

(** The credentials of a request. *)
Definition request_credentials (m : message) : option bytes :=
  let authorization := get_header m HEADER_AUTHORIZATION in
  if bool_decide (authorization = []) then None else parse_authorization authorization.

(** The credentials stand for a user and a password that the manager accepts now. *)
Definition ba_login (now : Z) (m : message) (a : basic_auth) : list event :=
  match request_credentials m with
  | None => []
  | Some credentials =>
      match parse_credentials credentials with
      | Ok (Some (username, password)) =>
          if accepts (m_user_manager (ba_auth a)) username password
          then [logged_in now credentials username] else []
      | _ => []
      end
  end.

(** The events of a request; [ok] when it was let through. *)
Definition ba_events (now : Z) (m : message) (a : basic_auth) (ok : bool) : list event :=
  match request_credentials m with
  | Some credentials => if ok then [used now credentials] else []
  | None => []
  end ++ ba_login now m a.

(** What happens to a [basic_auth] object, and its log; time does not go back. *)
Inductive ba_run : Z -> basic_auth -> list event -> Prop :=
| ba_run_new um realm now : users_ok um -> ba_run now (new_basic_auth um realm now) []
| ba_run_request now now' a log m c ok a' m' c' :
    ba_run now a log -> now <= now' -> ba_handle_request now' m c a = Ok (ok, a', m', c') ->
    ba_run now' a' (ba_events now' m a ok ++ log)
| ba_run_admin now a log op :
    ba_run now a log ->
    ba_run now (mk_basic_auth (admin op (ba_auth a)) (m_realm a) (ba_cleanup_time a) (ba_user_cache a)) log
| ba_run_option now a log name value : ba_run now a log -> ba_run now (ba_set_option name value a) log.

Record ba_ok (now : Z) (a : basic_auth) (log : list event) : Prop := mk_ba_ok {
  bo_users : users_ok (m_user_manager (ba_auth a));
  bo_cache : cache_ok BASIC_CACHE_EXPIRATION (fun p => user_name p (ba_auth a)) log now
               (ba_cleanup_time a) (ba_user_cache a)
}.

Lemma ba_login_no_logout now m a token : logged_out token ∉ ba_login now m a.
Proof.
  unfold ba_login. destruct (request_credentials m) as [cred|]; [|set_solver].
  destruct (parse_credentials cred) as [[[u pw]|]|]; [|set_solver..]. case_match; set_solver.
Qed.

Lemma ba_events_no_logout now m a ok token : logged_out token ∉ ba_events now m a ok.
Proof.
  unfold ba_events. pose proof (ba_login_no_logout now m a token) as H.
  destruct (request_credentials m) as [cred|]; [destruct ok|]; set_solver.
Qed.

Lemma ba_ok_later now now' a log : ba_ok now a log -> now <= now' -> ba_ok now' a log.
Proof. intros [Hu Hc] Hn. split; [done|]. eapply cache_ok_more; [exact Hn| |exact Hc]. by intros. Qed.

Lemma ba_ok_events now a log m a0 ok : ba_ok now a log -> ba_ok now a (ba_events now m a0 ok ++ log).
Proof. intros [Hu Hc]. split; [done|]. apply cache_ok_skip; [intros token; apply ba_events_no_logout|done]. Qed.

Lemma ba_expire_ok now a log :
  ba_ok now a log ->
  ba_ok now (ba_expire now a) log /\ ba_auth (ba_expire now a) = ba_auth a
  /\ now <= ba_cleanup_time (ba_expire now a) + BASIC_CACHE_EXPIRATION.
Proof.
  intros [Hu Hc]. unfold ba_expire. destruct (_ <? now) eqn:E.
  - split; [|split; [done|unfold BASIC_CACHE_EXPIRATION; simpl; lia]].
    split; [done|]. by eapply cache_ok_expire.
  - split; [by split|]. split; [done|lia].
Qed.

Lemma ba_authorize_ok now cred m a log a' p :
  ba_ok now a log -> now <= ba_cleanup_time a + BASIC_CACHE_EXPIRATION ->
  request_credentials m = Some cred -> ba_authorize now cred a = Ok (a', Some p) ->
  ba_ok now a' (ba_events now m a true ++ log) /\ ba_auth a' = ba_auth a
  /\ exists name, user_name p (ba_auth a) = Some name
       /\ session BASIC_CACHE_EXPIRATION cred name (ba_events now m a true ++ log) now.
Proof.
  intros [Hu Hc] Hn Hm H. unfold ba_authorize in H. unfold ba_events. rewrite Hm.
  destruct (map_find cred (ba_user_cache a)) as [[t p']|] eqn:Ef.
  - injection H as <- <-.
    apply (cache_ok_skip _ _ _ _ _ _ (ba_login now m a) (fun token => ba_login_no_logout now m a token)) in Hc.
    destruct (cache_ok_touch BASIC_CACHE_EXPIRATION ltac:(done) _ _ _ _ _ _ _ _ Hc Hn Ef)
      as [Hok (name & Hp & Hs)]. split; [by split|]. split; [done|]. by exists name.
  - destruct (parse_credentials cred) as [[[u pw]|]|] eqn:Ep; try done. cbn [mbind res_bind] in H.
    destruct (get_user_with u pw _) as [p'|] eqn:Eg; [|done]. injection H as <- <-.
    destruct (get_user_with_name _ _ _ _ Hu Eg) as [Hacc Hname].
    unfold ba_login. rewrite Hm, Ep, Hacc.
    split; [|split; [done|exists u; split; [exact Hname|
      eapply session_use; [apply session_login|unfold BASIC_CACHE_EXPIRATION; lia]]]].
    split; [done|]. apply (cache_ok_skip _ _ _ _ _ _ [used now cred]); [set_solver|].
    by eapply cache_ok_login.
Qed.

Lemma ba_authorize_none now cred a a' : ba_authorize now cred a = Ok (a', None) -> a' = a.
Proof.
  unfold ba_authorize. destruct (map_find _ _) as [[t p]|]; [done|]. intros H. inv_res H.
  destruct a0 as [[u pw]|]; [|by injection H as <-]. destruct (get_user_with _ _ _); [done|].
  by injection H as <-.
Qed.

Lemma ba_handle_ok now now' a log m c ok a' m' c' :
  ba_ok now a log -> now <= now' -> ba_handle_request now' m c a = Ok (ok, a', m', c') ->
  ba_ok now' a' (ba_events now' m a ok ++ log)
  /\ (ok = true -> need_authentication m (ba_auth a) = true ->
      exists cred name,
        request_credentials m = Some cred /\ m' = set_user name m /\ c' = c
        /\ session BASIC_CACHE_EXPIRATION cred name (ba_events now' m a ok ++ log) now').
Proof.
  intros Hok Hn H. apply (ba_ok_later _ now') in Hok; [|done]. unfold ba_handle_request in H.
  destruct (need_authentication m (ba_auth a)) eqn:En; cbn [negb] in H.
  2: { injection H as <- <- <- <-. split; [|done]. by apply ba_ok_events. }
  destruct (ba_expire_ok now' a log Hok) as (Hok1 & Ha1 & Hcl).
  assert (forall ok, ba_events now' m (ba_expire now' a) ok = ba_events now' m a ok) as Hlog
    by (intros; unfold ba_events, ba_login; by rewrite Ha1).
  fold (request_credentials m) in H. destruct (request_credentials m) as [cred|] eqn:Ec.
  - destruct (ba_authorize now' cred (ba_expire now' a)) as [[a1 [p|]]|] eqn:Ea; [| |done];
      cbn [mbind res_bind] in H; injection H as <- <- <- <-.
    + destruct (ba_authorize_ok _ _ m _ _ _ _ Hok1 Hcl Ec Ea) as (Hok2 & Ha2 & name & Hp & Hs).
      rewrite Hlog in *. split; [exact Hok2|]. intros _ _. exists cred, name. split; [done|].
      split; [|done]. unfold set_user_ptr. by rewrite Ha2, Hp.
    + apply ba_authorize_none in Ea as ->. split; [|done]. by apply ba_ok_events.
  - cbn [mbind res_bind] in H. injection H as <- <- <- <-. split; [|done]. by apply ba_ok_events.
Qed.

Lemma ba_run_ok now a log : ba_run now a log -> ba_ok now a log.
Proof.
  induction 1 as [um realm now Hum|now now' a log m c ok a' m' c' _ IH Hn H|now a log op _ IH
    |now a log name value _ IH].
  - split; [done|]. apply cache_ok_new.
  - by eapply ba_handle_ok.
  - destruct IH as [Hu Hc]. split; cbn [ba_auth ba_cleanup_time ba_user_cache].
    + by apply (admin_users op).
    + eapply cache_ok_more; [reflexivity| |exact Hc]. intros p n. by apply admin_names.
  - unfold ba_set_option. destruct (bytes_eqb _ _); [|done]. by destruct IH.
Qed.

(** C8: basic authentication lets nobody in without a password.  Whatever requests the
    object has handled and whatever its administrator has done, a request for a resource
    that needs authentication is let through only with credentials whose user name and
    password the user manager accepted at the beginning of a session; in the session the
    same credentials were used again and again, never more than ten minutes apart, and the
    request gets the user of that name. *)
Theorem basic_auth_sessions now now' a log m c a' m' c' :
  ba_run now a log -> now <= now' -> need_authentication m (ba_auth a) = true ->
  ba_handle_request now' m c a = Ok (true, a', m', c') ->
  exists cred name,
    request_credentials m = Some cred /\ m' = set_user name m /\ c' = c
    /\ session BASIC_CACHE_EXPIRATION cred name (ba_events now' m a true ++ log) now'.
Proof.
  intros Hr Hn Hneed H. apply ba_run_ok in Hr.
  by apply (ba_handle_ok _ _ _ _ _ _ _ _ _ _ Hr Hn H).
Qed.

End Runs.

(** *** Authentication with cookies *)

Section CookieRuns.
Context `{cfg : UserConfig}.

Definition is_login (m : message) (a : cookie_auth) : bool :=
  bytes_eqb (strip_trailing_slash (get_resource m)) (m_login a).
Definition is_logout (m : message) (a : cookie_auth) : bool :=
  bytes_eqb (strip_trailing_slash (get_resource m)) (m_logout a).

(** The page that is shown to those who are not logged in. *)
Definition is_redirect_page (m : message) (a : cookie_auth) : bool :=
  negb (bool_decide (m_redirect a = [])) && bytes_eqb (m_redirect a) (get_resource m).

(** The cookie of a request, if it has one. *)
Definition session_cookie (m : message) : option bytes :=
  let cookie := get_cookie m AUTH_COOKIE_NAME in
  if bool_decide (cookie = []) then None else Some cookie.

(** The events of a request; [ok] when it was let through. *)
Definition ca_events (now : Z) (rand_binary : bytes) (m : message) (a : cookie_auth) (ok : bool)
  : list event :=
  if is_login m a then
    if accepts (m_user_manager (ca_auth a)) (get_query m (str "user")) (get_query m (str "pass"))
    then [logged_in now (snd (base64_encode rand_binary)) (get_query m (str "user"))] else []
  else
    match session_cookie m with
    | None => []
    | Some cookie =>
        if is_logout m a then [logged_out cookie]
        else if ok && need_authentication m (ca_auth a) && negb (is_redirect_page m a)
        then [used now cookie] else []
    end.

Inductive ca_run : Z -> cookie_auth -> list event -> Prop :=
| ca_run_new um login logout redirect now :
    users_ok um -> ca_run now (new_cookie_auth um login logout redirect now) []
| ca_run_request now now' a log rand_binary m c ok a' m' c' :
    ca_run now a log -> now <= now' -> ca_handle_request now' rand_binary m c a = (ok, a', m', c') ->
    ca_run now' a' (ca_events now' rand_binary m a ok ++ log)
| ca_run_admin now a log op :
    ca_run now a log ->
    ca_run now (mk_cookie_auth (admin op (ca_auth a)) (m_login a) (m_logout a) (m_redirect a)
                  (ca_cleanup_time a) (ca_user_cache a)) log
| ca_run_option now a log name value : ca_run now a log -> ca_run now (ca_set_option name value a) log.

Record ca_ok (now : Z) (a : cookie_auth) (log : list event) : Prop := mk_ca_ok {
  cao_users : users_ok (m_user_manager (ca_auth a));
  cao_cache : cache_ok COOKIE_CACHE_EXPIRATION (fun p => user_name p (ca_auth a)) log now
                (ca_cleanup_time a) (ca_user_cache a)
}.

Lemma ca_ok_later now now' a log : ca_ok now a log -> now <= now' -> ca_ok now' a log.
Proof. intros [Hu Hc] Hn. split; [done|]. eapply cache_ok_more; [exact Hn| |exact Hc]. by intros. Qed.

Lemma ca_expire_ok now a log :
  ca_ok now a log ->
  ca_ok now (ca_expire now a) log /\ ca_auth (ca_expire now a) = ca_auth a
  /\ now <= ca_cleanup_time (ca_expire now a) + COOKIE_CACHE_EXPIRATION.
Proof.
  intros [Hu Hc]. unfold ca_expire. destruct (_ <? now) eqn:E.
  - split; [|split; [done|unfold COOKIE_CACHE_EXPIRATION; simpl; lia]].
    split; [done|]. by eapply cache_ok_expire.
  - split; [by split|]. split; [done|lia].
Qed.

(** A login or a logout. *)
Lemma process_login_ok now rand_binary m c a log a' c' ok :
  ca_ok now a log -> process_login now rand_binary m c a = Some (a', c') ->
  ca_ok now a' (ca_events now rand_binary m a ok ++ log).
Proof.
  intros [Hu Hc] H. unfold process_login in H. unfold ca_events, session_cookie.
  change (bytes_eqb _ (m_login a)) with (is_login m a) in H.
  change (bytes_eqb _ (m_logout a)) with (is_logout m a) in H.
  destruct (is_login m a); cbn [negb andb] in H.
  - unfold accepts. destruct (get_user_with _ _ _) as [p|] eqn:Eg; injection H as <- _.
    + rewrite bool_decide_true by done. split; [done|].
      apply get_user_with_name in Eg as [_ Hname]; [|done]. by eapply cache_ok_login.
    + rewrite bool_decide_false by (intros H; by apply H). by split.
  - destruct (is_logout m a); [|done]. cbn [negb] in H. injection H as <- _.
    destruct (bool_decide (get_cookie m AUTH_COOKIE_NAME = [])); [by split|].
    split; [done|]. by apply cache_ok_logout.
Qed.

Lemma process_login_none now rand_binary m c a :
  process_login now rand_binary m c a = None -> is_login m a = false /\ is_logout m a = false.
Proof.
  unfold process_login, is_login, is_logout. destruct (bytes_eqb _ (m_login a)).
  - cbn [negb andb]. by case_match.
  - destruct (bytes_eqb _ (m_logout a)); [done|]. done.
Qed.

Lemma ca_handle_ok now now' a log rand_binary m c ok a' m' c' :
  ca_ok now a log -> now <= now' -> ca_handle_request now' rand_binary m c a = (ok, a', m', c') ->
  ca_ok now' a' (ca_events now' rand_binary m a ok ++ log)
  /\ (ok = true -> need_authentication m (ca_auth a) = true -> is_redirect_page m a = false ->
      exists cookie name,
        session_cookie m = Some cookie /\ m' = set_user name m /\ c' = c
        /\ session COOKIE_CACHE_EXPIRATION cookie name (ca_events now' rand_binary m a ok ++ log) now').
Proof.
  intros Hok Hn H. apply (ca_ok_later _ now') in Hok; [|done]. unfold ca_handle_request in H.
  destruct (process_login now' rand_binary m c a) as [[a1 c1]|] eqn:Ep.
  { injection H as <- <- <- <-. split; [|done]. by eapply process_login_ok. }
  apply process_login_none in Ep as [Hli Hlo]. unfold ca_events. rewrite Hli, Hlo.
  change (negb (bool_decide (m_redirect a = [])) && bytes_eqb (m_redirect a) (get_resource m))
    with (is_redirect_page m a) in H.
  destruct (need_authentication m (ca_auth a)); cbn [negb] in H.
  2: { injection H as <- <- <- <-. split; [|done]. rewrite andb_false_r. by destruct (session_cookie m). }
  destruct (is_redirect_page m a) eqn:Er.
  { injection H as <- <- <- <-. split; [|done]. cbn [negb andb]. by destruct (session_cookie m). }
  destruct (ca_expire_ok now' a log Hok) as ([Hu Hc] & Ha & Hcl).
  unfold session_cookie. destruct (bool_decide _).
  { injection H as <- <- <- <-. split; [by split|done]. }
  destruct (map_find _ _) as [[t p]|] eqn:Ef; injection H as <- <- <- <-; [|by split].
  destruct (cache_ok_touch COOKIE_CACHE_EXPIRATION ltac:(done) _ _ _ _ _ _ _ _ Hc Hcl Ef)
    as [Hok' (name & Hp & Hs)]. cbn [negb andb app].
  split; [by split|]. intros _ _ _. exists (get_cookie m AUTH_COOKIE_NAME), name.
  split; [done|]. split; [|done]. unfold set_user_ptr.
  change (ca_auth (ca_with_cache _ _ ?x)) with (ca_auth x). by rewrite Hp.
Qed.

Lemma ca_run_ok now a log : ca_run now a log -> ca_ok now a log.
Proof.
  induction 1 as [um login logout redirect now Hum|now now' a log rand_binary m c ok a' m' c' _ IH Hn H
    |now a log op _ IH|now a log name value _ IH].
  - split; [done|]. apply cache_ok_new.
  - by eapply ca_handle_ok.
  - destruct IH as [Hu Hc]. split; cbn [ca_auth ca_cleanup_time ca_user_cache].
    + by apply (admin_users op).
    + eapply cache_ok_more; [reflexivity| |exact Hc]. intros p n. by apply admin_names.
  - destruct IH as [Hu Hc]. unfold ca_set_option. by repeat (destruct (bytes_eqb _ _)).
Qed.

(** C9: cookies let nobody in without a password.  Whatever requests the object has handled
    and whatever its administrator has done, a request for a resource that needs
    authentication, other than the page for those who have to log in, is let through only
    with a cookie that was made when the user manager accepted the user's password, that was
    not given back by a logout since then, and that was used at least once in two hours; the
    request gets the user of that login.  A request to log in or out is never let through. *)
Theorem cookie_auth_sessions now now' a log rand_binary m c a' m' c' :
  ca_run now a log -> now <= now' -> need_authentication m (ca_auth a) = true ->
  is_redirect_page m a = false ->
  ca_handle_request now' rand_binary m c a = (true, a', m', c') ->
  is_login m a = false /\ is_logout m a = false
  /\ exists cookie name,
       session_cookie m = Some cookie /\ m' = set_user name m /\ c' = c
       /\ session COOKIE_CACHE_EXPIRATION cookie name (used now' cookie :: log) now'.
Proof.
  intros Hr Hn Hneed Hp H. apply ca_run_ok in Hr.
  destruct (process_login now' rand_binary m c a) as [[a1 c1]|] eqn:Ep;
    [unfold ca_handle_request in H; rewrite Ep in H; done|].
  apply process_login_none in Ep as [Hli Hlo]. split; [done|]. split; [done|].
  destruct (ca_handle_ok _ _ _ _ _ _ _ _ _ _ _ Hr Hn H) as [_ Hs].
  destruct (Hs eq_refl Hneed Hp) as (cookie & name & Hc & Hm & Hcc & Hses).
  exists cookie, name. split; [done|]. split; [done|]. split; [done|].
  unfold ca_events in Hses. by rewrite Hli, Hlo, Hc, Hneed, Hp in Hses.
Qed.

End CookieRuns.

(** ** Examples and deviations *)

#[local] Existing Instance padding_config.

Definition sample_users : user_manager :=
  snd (add_user (str "bob") (str "hidden") (snd (add_user (str "ann") (str "secret") new_user_manager))).

Lemma sample_users_ok : users_ok sample_users.
Proof. apply add_user_step, add_user_step, new_user_manager_ok. Qed.

(** A request with the credentials of ann. *)
Definition basic_request : message :=
  add_header HEADER_AUTHORIZATION (str "Basic " ++ snd (base64_encode (str "ann:secret")))
    (set_resource (str "/private/a") new_request).

Definition sample_basic : basic_auth :=
  let a := new_basic_auth sample_users (str "realm") 0 in
  mk_basic_auth (admin (admin_restrict (str "/private/")) (ba_auth a)) (m_realm a)
    (ba_cleanup_time a) (ba_user_cache a).

Lemma sample_basic_run : ba_run 0 sample_basic [].
Proof. apply (ba_run_admin _ _ _ (admin_restrict _)), ba_run_new, sample_users_ok. Qed.

Lemma basic_auth_sessions_witness :
  exists a' m' c' cred name,
    ba_handle_request 100 basic_request (new_connection []) sample_basic = Ok (true, a', m', c')
    /\ request_credentials basic_request = Some cred /\ m' = set_user name basic_request
    /\ c' = new_connection []
    /\ session BASIC_CACHE_EXPIRATION cred name (ba_events 100 basic_request sample_basic true ++ []) 100.
Proof.
  eassert (ba_handle_request 100 basic_request (new_connection []) sample_basic = Ok (true, _, _, _)) as E
    by (vm_compute; reflexivity).
  assert (need_authentication basic_request (ba_auth sample_basic) = true) as Hn by (vm_compute; reflexivity).
  destruct (basic_auth_sessions 0 100 _ _ _ _ _ _ _ sample_basic_run ltac:(lia) Hn E) as (cred & name & H).
  do 3 eexists. exists cred, name. split; [exact E|exact H].
Defined.

(** A user who was removed gets on with the credentials that are still in the cache, as long
    as there is another user and he comes back in time. *)
Lemma removed_user_still_accepted :
  exists a' m' c' m'' a'' c'',
    ba_handle_request 100 basic_request (new_connection []) sample_basic = Ok (true, a', m', c')
    /\ get_user (str "ann") (m_user_manager (admin (admin_remove (str "ann")) (ba_auth a'))) = None
    /\ ba_handle_request 200 basic_request (new_connection [])
         (mk_basic_auth (admin (admin_remove (str "ann")) (ba_auth a')) (m_realm a')
            (ba_cleanup_time a') (ba_user_cache a')) = Ok (true, a'', m'', c'')
    /\ get_user_record m'' = Some (str "ann").
Proof.
  do 6 eexists. split; [vm_compute; reflexivity|]. split; [vm_compute; reflexivity|].
  split; vm_compute; reflexivity.
Qed.

(** Credentials with a byte that is not ASCII, or whose padding is not at a multiple of four,
    make the decoder read outside of its table, or fail. *)
Lemma basic_credentials_fault :
  ba_authorize 100 [x41; xff; x41; x41] sample_basic = Fault undefined_behaviour
  /\ ba_authorize 100 (str "QR=") sample_basic = Fault assertion_failed.
Proof. split; vm_compute; reflexivity. Qed.

Definition sample_cookie : cookie_auth :=
  let a := new_cookie_auth sample_users (str "/login") (str "/logout") (str "/welcome") 0 in
  mk_cookie_auth (admin (admin_restrict (str "/private")) (ca_auth a)) (m_login a) (m_logout a)
    (m_redirect a) (ca_cleanup_time a) (ca_user_cache a).

Lemma sample_cookie_run : ca_run 0 sample_cookie [].
Proof. apply (ca_run_admin _ _ _ (admin_restrict _)), ca_run_new, sample_users_ok. Qed.

Definition login_request : message :=
  add_query (str "user") (str "ann") (add_query (str "pass") (str "secret")
    (set_resource (str "/login") new_request)).

(** A request with the cookie that the random bytes [r] gave. *)
Definition cookie_request (r : bytes) : message :=
  add_cookie AUTH_COOKIE_NAME (snd (base64_encode r)) (set_resource (str "/private/a") new_request).

Lemma cookie_auth_sessions_witness :
  let r := replicate RANDOM_COOKIE_BYTES x2a in
  let '(_, a, _, _) := ca_handle_request 10 r login_request (new_connection []) sample_cookie in
  exists a' m' c' cookie name,
    ca_handle_request 100 r (cookie_request r) (new_connection []) a = (true, a', m', c')
    /\ session_cookie (cookie_request r) = Some cookie /\ m' = set_user name (cookie_request r)
    /\ session COOKIE_CACHE_EXPIRATION cookie name
         (used 100 cookie :: ca_events 10 r login_request sample_cookie false ++ []) 100.
Proof.
  intros r. destruct (ca_handle_request 10 r _ _ _) as [[[ok a] m1] c1] eqn:E1.
  assert (ok = false) as -> by (apply (f_equal (fun x => fst (fst (fst x)))) in E1; vm_compute in E1; done).
  pose proof (ca_run_request _ 10 _ _ _ _ _ _ _ _ _ sample_cookie_run ltac:(lia) E1) as Hr.
  assert (a = snd (fst (fst (ca_handle_request 10 r login_request (new_connection []) sample_cookie)))) as Ea
    by (by rewrite E1).
  eassert (ca_handle_request 100 r (cookie_request r) (new_connection []) a = (true, _, _, _)) as E2
    by (rewrite Ea; vm_compute; reflexivity).
  assert (need_authentication (cookie_request r) (ca_auth a) = true) as Hn by (rewrite Ea; vm_compute; reflexivity).
  assert (is_redirect_page (cookie_request r) a = false) as Hp by (rewrite Ea; vm_compute; reflexivity).
  destruct (cookie_auth_sessions 10 100 _ _ _ _ _ _ _ _ Hr ltac:(lia) Hn Hp E2)
    as (_ & _ & cookie & name & H1 & H2 & _ & H3).
  do 3 eexists. exists cookie, name. split; [exact E2|]. by split.
Defined.

(** The redirection after a login takes the [url] of the request as it is: line ends in it
    (they were escaped in the query string) start new headers of the response. *)
Lemma login_redirect_splits_response :
  let r := replicate RANDOM_COOKIE_BYTES x2a in
  let m := add_query (str "url") (str "/" ++ [x0d; x0a] ++ str "X-Injected: 1") login_request in
  let '(_, _, _, c) := ca_handle_request 10 r m (new_connection []) sample_cookie in
  exists before after, m_written c = before ++ [x0d; x0a] ++ str "X-Injected: 1" ++ [x0d; x0a] ++ after.
Proof.
  intros r m. destruct (ca_handle_request 10 r m _ _) as [[[ok a] m1] c1] eqn:E.
  apply (f_equal (fun x => m_written (snd x))) in E. cbn [snd] in E. rewrite <- E. clear E.
  exists (take 31 (m_written (snd (ca_handle_request 10 r m (new_connection []) sample_cookie)))),
    (drop 48 (m_written (snd (ca_handle_request 10 r m (new_connection []) sample_cookie)))).
  vm_compute; reflexivity.
Qed.
