(* ===== verification/Scheduler.v ===== *)
(** * The scheduler

    Models [pion::scheduler] and its two subclasses (src/scheduler.cpp,
    include/pion/scheduler.hpp): the threads, the services that work is given to, and the
    users that keep the scheduler from shutting down.  The services are asio's and are
    numbers; the threads are numbers, and 0 is the identity of a [std::thread] object that
    has no thread. *)
From S2P Require Import Prelude CLib.

Definition DEFAULT_NUM_THREADS : Z := 8.
Definition NSEC_IN_SECOND : Z := 1000000000.
Definition MICROSEC_IN_SECOND : Z := 1000000.
Definition KEEP_RUNNING_TIMER_SECONDS : Z := 5.

Definition thread_id := nat.
Definition no_thread : thread_id := 0%nat.

(** [m_service_pool] is the number of the services of a [one_to_one_scheduler]. *)
Record scheduler := mk_scheduler {
  m_num_threads : Z;
  m_active_users : Z;
  m_is_running : bool;
  m_thread_pool : list thread_id;
  m_service_pool : Z;
  m_next_service : Z;
  next_thread : thread_id  (* threads that were started *)
}.

Definition new_scheduler : scheduler := mk_scheduler DEFAULT_NUM_THREADS 0 false [] 0 0 1%nat.

Definition set_num_threads (n : Z) (s : scheduler) : scheduler :=
  mk_scheduler (u32 n) (m_active_users s) (m_is_running s) (m_thread_pool s) (m_service_pool s)
    (m_next_service s) (next_thread s).

Definition with_users (n : Z) (s : scheduler) : scheduler :=
  mk_scheduler (m_num_threads s) n (m_is_running s) (m_thread_pool s) (m_service_pool s)
    (m_next_service s) (next_thread s).

Definition with_services (services next : Z) (s : scheduler) : scheduler :=
  mk_scheduler (m_num_threads s) (m_active_users s) (m_is_running s) (m_thread_pool s) services next
    (next_thread s).

(** The threads that [startup] adds to the pool. *)
Definition start_threads (s : scheduler) : scheduler :=
  let n := Z.to_nat (m_num_threads s) in
  mk_scheduler (m_num_threads s) (m_active_users s) true (m_thread_pool s ++ seq (next_thread s) n)
    (m_service_pool s) (m_next_service s) (next_thread s + n)%nat.

(** [single_service_scheduler::startup] and [one_to_one_scheduler::startup]. *)
Definition startup_single (s : scheduler) : scheduler :=
  if m_is_running s then s else start_threads s.
Definition startup_one_to_one (s : scheduler) : scheduler :=
  if m_is_running s then s
  else start_threads (with_services (m_service_pool s `max` m_num_threads s) (m_next_service s) s).

(** [one_to_one_scheduler::get_io_service]: the number of the service that is returned. *)
Definition get_io_service (s : scheduler) : res (scheduler * Z) :=
  let services := m_service_pool s `max` m_num_threads s in
  let next := if m_num_threads s <=? u32 (m_next_service s + 1) then 0 else u32 (m_next_service s + 1) in
  if negb (next <? m_num_threads s) then Fault assertion_failed
  else Ok (with_services services next s, next).

(** [stop_threads], called by the thread [self]: the threads that are joined.  The object
    [current_thread] they are compared with has just been made and has no thread. *)
Definition stop_threads (self : thread_id) (s : scheduler) : list thread_id :=
  let current_thread := no_thread in
  filter (fun t => t <> current_thread) (m_thread_pool s).

(** [finish_services] and [finish_threads]. *)
Definition finish (one_to_one : bool) (s : scheduler) : scheduler :=
  mk_scheduler (m_num_threads s) (m_active_users s) false []
    (if one_to_one then 0 else m_service_pool s) (m_next_service s) (next_thread s).

(** [shutdown]: [None] while it waits for the users, else the threads that are joined. *)
Definition shutdown (one_to_one : bool) (self : thread_id) (s : scheduler)
  : option (scheduler * list thread_id) :=
  if m_is_running s && (0 <? m_active_users s) then None
  else Some (finish one_to_one s, stop_threads self s).

(** The two parts of [add_active_user], between which the mutex is not held. *)
Definition add_active_user_startup (startup : scheduler -> scheduler) (s : scheduler) : scheduler :=
  if m_is_running s then s else startup s.
Definition add_active_user_count (s : scheduler) : scheduler :=
  with_users (u32 (m_active_users s + 1)) s.

(** [remove_active_user]: whether the waiting shutdown is notified. *)
Definition remove_active_user (s : scheduler) : scheduler * bool :=
  let n := u32 (m_active_users s - 1) in (with_users n s, n =? 0).

(** [sleep]: the time in nanoseconds; the sum is computed in [uint32_t]. *)
Definition sleep_time (sleep_sec sleep_nsec : Z) : Z := u32 (u32 (sleep_sec * 1000000000) + sleep_nsec).

(** ** Properties *)

(** The services that a number of calls return. *)
Fixpoint service_calls (n : nat) (s : scheduler) : res (scheduler * list Z) :=
  match n with
  | O => Ok (s, [])
  | S n' =>
      r ← get_io_service s;
      let '(s, i) := r in
      r ← service_calls n' s;
      let '(s, l) := r in Ok (s, i :: l)
  end.

(** The threads are 32 bits, and the last service is one of the first [m_num_threads]. *)
Definition in_turn (s : scheduler) : Prop := 0 <= m_next_service s < m_num_threads s /\ m_num_threads s < 2 ^ 32.

Lemma get_io_service_ok s :
  0 < m_num_threads s < 2 ^ 32 -> 0 <= m_next_service s < 2 ^ 32 ->
  exists n, get_io_service s = Ok (with_services (m_service_pool s `max` m_num_threads s) n s, n)
            /\ 0 <= n < m_num_threads s
            /\ (m_next_service s + 1 < m_num_threads s -> n = m_next_service s + 1)
            /\ (m_num_threads s = m_next_service s + 1 -> n = 0).
Proof.
  intros Hn Hs. unfold get_io_service.
  assert (m_next_service s + 1 < m_num_threads s -> u32 (m_next_service s + 1) = m_next_service s + 1) as Hu1
    by (intros; apply u32_small; lia).
  assert (m_num_threads s = m_next_service s + 1 -> u32 (m_next_service s + 1) = m_next_service s + 1) as Hu2
    by (intros; apply u32_small; lia).
  pose proof (Z.mod_pos_bound (m_next_service s + 1) (2 ^ 32) ltac:(lia)) as Hb.
  change ((m_next_service s + 1) mod 2 ^ 32) with (u32 (m_next_service s + 1)) in Hb.
  set (n := u32 (m_next_service s + 1)) in *.
  destruct (m_num_threads s <=? n) eqn:E.
  - replace (0 <? m_num_threads s) with true by lia. exists 0. split; [done|]. lia.
  - replace (n <? m_num_threads s) with true by lia. exists n. split; [done|]. lia.
Qed.

Lemma service_calls_app n k s :
  service_calls (n + k) s
  = (r ← service_calls n s; let '(s1, l1) := r in
     r ← service_calls k s1; let '(s2, l2) := r in Ok (s2, l1 ++ l2)).
Proof.
  revert s. induction n as [|n IH]; intros s; cbn [service_calls plus].
  - cbn. by destruct (service_calls k s) as [[s1 l1]|].
  - destruct (get_io_service s) as [[s1 i]|]; [|done]. cbn [mbind res_bind]. rewrite IH.
    destruct (service_calls n s1) as [[s2 l2]|]; [|done]. cbn [mbind res_bind].
    by destruct (service_calls k s2) as [[s3 l3]|].
Qed.

(** Calls that do not wrap around. *)
Lemma service_calls_run n s :
  in_turn s -> m_next_service s + Z.of_nat n < m_num_threads s ->
  exists s', service_calls n s = Ok (s', seqZ (m_next_service s + 1) (Z.of_nat n))
             /\ m_num_threads s' = m_num_threads s /\ m_next_service s' = m_next_service s + Z.of_nat n.
Proof.
  revert s. induction n as [|n IH]; intros s [Hs Hm] Hn.
  { exists s. split; [done|]. split; [done|lia]. }
  destruct (get_io_service_ok s) as (i & E & _ & Hi & _); [lia..|]. cbn [service_calls].
  rewrite E. cbn [mbind res_bind]. rewrite Hi by lia.
  set (s1 := with_services _ _ _). destruct (IH s1) as (s2 & -> & Hm2 & Hn2).
  { unfold in_turn, s1. cbn [m_next_service m_num_threads with_services]. lia. }
  { unfold s1. cbn [m_next_service m_num_threads with_services]. lia. }
  cbn [mbind res_bind]. exists s2. unfold s1 in *. cbn [m_next_service m_num_threads with_services] in *.
  split; [|split; [done|lia]]. f_equal. f_equal.
  rewrite (seqZ_cons (m_next_service s + 1)) by lia. f_equal. unfold Z.succ, Z.pred. f_equal; lia.
Qed.

(** The services are used in turn.  [get_io_service] of a scheduler with threads always
    returns a service of the pool, whatever the number of threads was set to before; and when
    the number stays the same, that many calls in a row return every service once. *)
Theorem services_in_turn s :
  0 < m_num_threads s < 2 ^ 32 ->
  (0 <= m_next_service s < 2 ^ 32 ->
   exists s' n, get_io_service s = Ok (s', n) /\ 0 <= n < m_service_pool s' /\ m_next_service s' = n)
  /\ (in_turn s -> exists s' l, service_calls (Z.to_nat (m_num_threads s)) s = Ok (s', l)
                             /\ l ≡ₚ seqZ 0 (m_num_threads s)).
Proof.
  intros Hn. split.
  - intros Hs. destruct (get_io_service_ok s Hn Hs) as (n & -> & Hi & _). do 2 eexists.
    split; [done|]. cbn [m_service_pool m_next_service with_services]. lia.
  - intros [Hs Hm]. set (n := m_num_threads s) in *. set (k := m_next_service s) in *.
    replace (Z.to_nat n) with (Z.to_nat (n - k - 1) + (1 + Z.to_nat k))%nat by lia.
    destruct (service_calls_run (Z.to_nat (n - k - 1)) s) as (s1 & E1 & Hm1 & Hn1); [by split|fold n k; lia|].
    rewrite service_calls_app, E1. cbn [mbind res_bind]. rewrite service_calls_app. cbn [service_calls].
    fold n in Hm1. fold k in Hn1.
    destruct (get_io_service_ok s1) as (i & E2 & _ & _ & Hi); [lia..|].
    rewrite E2. cbn [mbind res_bind]. rewrite Hi by lia. set (s2 := with_services _ _ s1).
    destruct (service_calls_run (Z.to_nat k) s2) as (s3 & E3 & _).
    { split; cbn [s2 m_next_service m_num_threads with_services]; lia. }
    { cbn [s2 m_next_service m_num_threads with_services]. lia. }
    rewrite E3. cbn [mbind res_bind]. do 2 eexists. split; [reflexivity|]. fold k.
    cbn [s2 m_next_service with_services app]. rewrite !Z2Nat.id by lia.
    rewrite Permutation_app_comm. change (0 :: seqZ (0 + 1) k ++ ?l) with ((0 :: seqZ (0 + 1) k) ++ l).
    assert (0 :: seqZ (0 + 1) k = seqZ 0 (k + 1)) as ->
      by (rewrite (seqZ_cons 0 (k + 1)) by lia; unfold Z.succ, Z.pred; f_equal; f_equal; lia).
    pose proof (seqZ_app 0 (k + 1) (n - k - 1) ltac:(lia) ltac:(lia)) as E.
    replace (k + 1 + (n - k - 1)) with n in E by lia. by rewrite E.
Qed.

Lemma services_in_turn_witness :
  exists s' l, service_calls 8 (with_services 0 3 new_scheduler) = Ok (s', l) /\ l ≡ₚ seqZ 0 8.
Proof.
  destruct (services_in_turn (with_services 0 3 new_scheduler)) as [_ H]; [vm_compute; done|].
  apply H. vm_compute. repeat split; discriminate.
Defined.

(** ** Deviations *)

(** A scheduler whose number of threads was set to zero has no service to give. *)
Lemma no_threads_no_service s : get_io_service (set_num_threads 0 s) = Fault assertion_failed.
Proof.
  unfold get_io_service. cbn [m_num_threads set_num_threads]. change (u32 0) with 0.
  assert (0 <= u32 (m_next_service (set_num_threads 0 s) + 1)) by (apply Z.mod_pos_bound; lia).
  by replace (0 <=? u32 (m_next_service (set_num_threads 0 s) + 1)) with true by lia.
Qed.

(** A worker thread that shuts the scheduler down joins itself. *)
Lemma shutdown_joins_itself one_to_one self s :
  self ∈ m_thread_pool s -> self <> no_thread -> m_active_users s = 0 ->
  exists s' joined, shutdown one_to_one self s = Some (s', joined) /\ self ∈ joined.
Proof.
  intros Hs Hn Hu. unfold shutdown. rewrite Hu, andb_false_r. do 2 eexists. split; [done|].
  by apply list_elem_of_filter.
Qed.

(** A shutdown between the two parts of [add_active_user] leaves a user without a running
    scheduler. *)
Lemma user_of_stopped_scheduler :
  exists s joined,
    shutdown false 100%nat (add_active_user_startup startup_single new_scheduler) = Some (s, joined)
    /\ m_is_running (add_active_user_count s) = false /\ m_active_users (add_active_user_count s) = 1.
Proof. do 2 eexists. split; [reflexivity|]. split; vm_compute; reflexivity. Qed.

(** Five seconds are less than one. *)
Lemma sleep_wraps : sleep_time 5 0 = 705032704.
Proof. reflexivity. Qed.
