(* ===== verification/EventLoops.v ===== *)
(** * The threads of the scheduler

    [Scheduler] models what the scheduler's functions do; this file models the threads that
    run them: the event loops of the workers, the threads that call [startup], [shutdown],
    [join], [post] and count users, the mutex they share, and asio's services with their
    queues and timers.  Steps of different threads interleave; what happens under the mutex is
    one step, but a shutdown, which keeps the mutex, is many. *)
From S2P Require Import Prelude CLib Scheduler.

(** ** asio's services *)

(** What a handler does that the scheduler notices: it posts more work, gives up a user of
    the scheduler, and at the end returns or throws. *)
Inductive task := returns | throws | posts (t k : task) | removes_user (k : task).

Inductive handler := h_keep_running | h_task (t : task).

(** An [io_service] and its timer: whether it is stopped, the handlers that are ready, whether
    an [async_wait] is pending, and the number of handlers that are being executed. *)
Record io_service := mk_io_service {
  stopped : bool;
  ready : list handler;
  waiting : bool;
  executing : nat
}.

Definition new_service : io_service := mk_io_service false [] false 0.

Definition stop_service (v : io_service) : io_service := mk_io_service true (ready v) (waiting v) (executing v).
Definition reset_service (v : io_service) : io_service := mk_io_service false (ready v) (waiting v) (executing v).
Definition post_handler (h : handler) (v : io_service) : io_service :=
  mk_io_service (stopped v) (ready v ++ [h]) (waiting v) (executing v).

(** A service without work stops. *)
Definition out_of_work (v : io_service) : bool :=
  bool_decide (ready v = []) && negb (waiting v) && (executing v =? 0)%nat.
Definition stop_without_work (v : io_service) : io_service := if out_of_work v then stop_service v else v.

(** A thread takes a handler; a handler has been executed. *)
Definition take_handler (l : list handler) (v : io_service) : io_service :=
  mk_io_service (stopped v) l (waiting v) (S (executing v)).
Definition work_finished (v : io_service) : io_service :=
  stop_without_work (mk_io_service (stopped v) (ready v) (waiting v) (pred (executing v))).

(** [expires_from_now] and [async_wait]: a wait that is pending is cancelled, which makes its
    handler ready; the handler does not look at the error code. *)
Definition rearm (v : io_service) : io_service :=
  mk_io_service (stopped v) (ready v ++ if waiting v then [h_keep_running] else []) true (executing v).

(** The time of the timer has come. *)
Definition expire (v : io_service) : io_service :=
  mk_io_service (stopped v) (ready v ++ [h_keep_running]) false (executing v).

(** ** Threads *)

(** Where a worker is in [process_service_work]: about to test [m_is_running], in [run]
    between two handlers, in a handler, in [keep_running] before and after its test, or at the end. *)
Inductive place := at_test | in_run | in_task (t : task) | in_keep_running | in_rearm | exited.

Record worker := mk_worker { on : nat; at_place : place }.

(** Another thread: it is about to take the mutex for [shutdown], about to test the number of
    users there, is asleep, stops the services, joins the threads; is about to take the mutex for [join], is asleep there; is about to test
    [m_is_running] in [add_active_user], to count the user, or to call [remove_active_user]; or has
    returned. *)
Inductive client :=
| c_shutdown | c_users | c_shutdown_asleep | c_stopping (i : nat) | c_joining (l : list thread_id)
| c_join | c_join_asleep
| c_add_user | c_count_user | c_remove_user
| c_done.

Record system := mk_system {
  sched : scheduler;
  services : list io_service;
  workers : list worker;  (* number [k] is the thread [k + 1] *)
  clients : list client
}.

(** Between two steps the mutex is held by a thread that shuts down, if there is one. *)
Definition holding (c : client) : bool := match c with c_stopping _ | c_joining _ => true | _ => false end.
(** How a call of a function of the scheduler begins. *)
Definition starts (c : client) : bool :=
  match c with c_shutdown | c_join | c_add_user | c_remove_user => true | _ => false end.

Definition mutex_free (st : system) : bool := forallb (fun c => negb (holding c)) (clients st).

(** [notify_all] on [m_no_more_active_users] and on [m_scheduler_has_stopped]. *)
Definition wake_shutdown (c : client) : client := match c with c_shutdown_asleep => c_users | c => c end.
Definition wake_join (c : client) : client := match c with c_join_asleep => c_join | c => c end.

Definition with_sched (s : scheduler) (st : system) : system := mk_system s (services st) (workers st) (clients st).
Definition set_running (b : bool) (s : scheduler) : scheduler :=
  mk_scheduler (m_num_threads s) (m_active_users s) b (m_thread_pool s) (m_service_pool s) (m_next_service s)
    (next_thread s).
Definition on_service (i : nat) (f : io_service -> io_service) (st : system) : system :=
  mk_system (sched st) (alter f i (services st)) (workers st) (clients st).
Definition worker_at (k i : nat) (p : place) (st : system) : system :=
  mk_system (sched st) (services st) (<[k := mk_worker i p]> (workers st)) (clients st).
Definition client_at (j : nat) (c : client) (st : system) : system :=
  mk_system (sched st) (services st) (workers st) (<[j := c]> (clients st)).
Definition map_clients (f : client -> client) (st : system) : system :=
  mk_system (sched st) (services st) (workers st) (f <$> clients st).

(** ** The steps *)

Section Kind.
(** A [one_to_one_scheduler] or a [single_service_scheduler]. *)
Context (one_to_one : bool).

Definition initial : system := mk_system new_scheduler (if one_to_one then [] else [new_service]) [] [].

(** [startup], under the mutex. *)
Definition startup_locked (st : system) : system :=
  let s := sched st in
  if m_is_running s then st
  else
    let n := Z.to_nat (m_num_threads s) in
    if one_to_one then
      mk_system (startup_one_to_one s)
        (rearm <$> services st ++ replicate (n - length (services st)) new_service)
        (workers st ++ ((fun i => mk_worker i at_test) <$> seq 0 n)) (clients st)
    else
      mk_system (startup_single s) ((rearm ∘ reset_service) <$> services st)
        (workers st ++ replicate n (mk_worker 0 at_test)) (clients st).

(** [scheduler::post]: the service is asked for first. *)
Definition post (t : task) (st : system) : option system :=
  if one_to_one then
    if negb (mutex_free st) then None else
    match get_io_service (sched st) with
    | Ok (s, i) =>
        Some (on_service (Z.to_nat i) (post_handler (h_task t))
               (mk_system s (services st ++ replicate (Z.to_nat (m_service_pool s) - length (services st)) new_service)
                  (workers st) (clients st)))
    | Fault _ => None
    end
  else Some (on_service 0 (post_handler (h_task t)) st).

Definition remove_user_locked (st : system) : system :=
  let '(s, notify) := remove_active_user (sched st) in
  (if notify : bool then map_clients wake_shutdown else id) (with_sched s st).

(** A worker goes on; [None] when it has to wait or has exited. *)
Definition worker_step (k : nat) (st : system) : option system :=
  w ← workers st !! k;
  let i := on w in
  match at_place w with
  | at_test => Some (worker_at k i (if m_is_running (sched st) then in_run else exited) st)
  | in_run =>
      v ← services st !! i;
      if stopped v then Some (worker_at k i at_test st)
      else match ready v with
           | h :: l =>
               Some (worker_at k i (match h with h_keep_running => in_keep_running | h_task t => in_task t end)
                      (on_service i (take_handler l) st))
           | [] => if out_of_work v then Some (worker_at k i at_test (on_service i stop_service st)) else None
           end
  | in_task returns => Some (worker_at k i in_run (on_service i work_finished st))
  | in_task throws => Some (worker_at k i at_test (on_service i work_finished st))
  | in_task (posts t t') => worker_at k i (in_task t') <$> post t st
  | in_task (removes_user t) =>
      if mutex_free st then Some (worker_at k i (in_task t) (remove_user_locked st)) else None
  | in_keep_running =>
      Some (if m_is_running (sched st) then worker_at k i in_rearm st
            else worker_at k i in_run (on_service i work_finished st))
  | in_rearm => Some (worker_at k i in_run (on_service i (work_finished ∘ rearm) st))
  | exited => None
  end.

(** [shutdown] with the mutex: the loop that waits for the users, and the other branch. *)
Definition wait_for_users (j : nat) (st : system) : system :=
  let s := sched st in
  if 0 <? m_active_users s then client_at j c_shutdown_asleep st
  else client_at j (c_stopping 0) (with_sched (set_running false s) st).
Definition begin_shutdown (j : nat) (st : system) : system :=
  if m_is_running (sched st) then wait_for_users j st else client_at j (c_stopping 0) st.

Definition has_exited (st : system) (t : thread_id) : bool :=
  match workers st !! pred t with Some w => match at_place w with exited => true | _ => false end | None => true end.

(** [finish_services], [finish_threads] and the notification. *)
Definition finish_locked (st : system) : system :=
  mk_system (finish one_to_one (sched st)) (if one_to_one then [] else reset_service <$> services st)
    (workers st) (wake_join <$> clients st).

(** Another thread goes on. *)
Definition client_step (j : nat) (st : system) : option system :=
  c ← clients st !! j;
  match c with
  | c_shutdown => if mutex_free st then Some (begin_shutdown j st) else None
  | c_users => if mutex_free st then Some (wait_for_users j st) else None
  | c_stopping i =>
      Some (if (i <? length (services st))%nat then client_at j (c_stopping (S i)) (on_service i stop_service st)
            else client_at j (c_joining (stop_threads no_thread (sched st))) st)
  | c_joining (t :: l) => if has_exited st t then Some (client_at j (c_joining l) st) else None
  | c_joining [] => Some (client_at j c_done (finish_locked st))
  | c_join =>
      if mutex_free st
      then Some (client_at j (if m_is_running (sched st) then c_join_asleep else c_done) st) else None
  | c_add_user =>
      if m_is_running (sched st) then Some (client_at j c_count_user st)
      else if mutex_free st then Some (client_at j c_count_user (startup_locked st)) else None
  | c_count_user =>
      if mutex_free st then Some (client_at j c_done (with_sched (add_active_user_count (sched st)) st)) else None
  | c_remove_user => if mutex_free st then Some (client_at j c_done (remove_user_locked st)) else None
  | c_shutdown_asleep | c_join_asleep | c_done => None
  end.

(** What can happen next: a worker or another thread goes on; a timer's time comes; a new
    thread calls a function of the scheduler; a thread wakes up without a reason;
    [startup], [post] and [set_num_threads] are called. *)
Inductive label :=
| l_worker (k : nat) | l_client (j : nat) | l_expire (i : nat) | l_call (c : client) | l_wake (j : nat)
| l_startup | l_post (t : task) | l_set_threads (n : Z).

Definition system_step (l : label) (st : system) : option system :=
  match l with
  | l_worker k => worker_step k st
  | l_client j => client_step j st
  | l_expire i => v ← services st !! i; if waiting v then Some (on_service i expire st) else None
  | l_call c =>
      if starts c then Some (mk_system (sched st) (services st) (workers st) (clients st ++ [c])) else None
  | l_wake j =>
      c ← clients st !! j;
      match c with
      | c_shutdown_asleep | c_join_asleep => Some (client_at j (wake_join (wake_shutdown c)) st)
      | _ => None
      end
  | l_startup => if mutex_free st then Some (startup_locked st) else None
  | l_post t => post t st
  | l_set_threads n => Some (with_sched (set_num_threads n (sched st)) st)
  end.

(** A run. *)
Fixpoint system_run (ls : list label) (st : system) : option system :=
  match ls with [] => Some st | l :: ls' => st' ← system_step l st; system_run ls' st' end.
End Kind.

(** ** Invariants *)

Definition in_handler (p : place) : bool :=
  match p with in_task _ | in_keep_running | in_rearm => true | _ => false end.
Definition in_tick (p : place) : bool := match p with in_keep_running | in_rearm => true | _ => false end.

(** The handlers that a worker executes for a service, and those of them that are [keep_running]. *)
Definition busy (i : nat) (w : worker) : nat := if (on w =? i)%nat && in_handler (at_place w) then 1 else 0.
Definition ticking (i : nat) (w : worker) : nat := if (on w =? i)%nat && in_tick (at_place w) then 1 else 0.

(** The calls of [keep_running] that a service has in store, and with those that are executed. *)
Definition is_tick (h : handler) : nat := match h with h_keep_running => 1 | _ => 0 end.
Definition stored_ticks (v : io_service) : nat := (if waiting v then 1 else 0) + sum_list_with is_tick (ready v).
Definition ticks (st : system) (i : nat) (v : io_service) : nat :=
  stored_ticks v + sum_list_with (ticking i) (workers st).

Definition idle (st : system) : Prop := m_is_running (sched st) = false /\ mutex_free st = true.
Definition alive_on (st : system) (i : nat) : Prop :=
  exists k w, workers st !! k = Some w /\ on w = i /\ at_place w <> exited.

(** The pool has the threads that have not exited; while the scheduler runs none of its
    threads exits; and when a shutdown has joined them, they have all exited. *)
Record threads_ok (st : system) : Prop := mk_threads_ok {
  to_next : next_thread (sched st) = S (length (workers st));
  to_alive : forall k w, workers st !! k = Some w -> at_place w <> exited ->
             S k ∈ m_thread_pool (sched st) /\ (on w < length (services st))%nat;
  to_pool : Forall (fun t => t <> no_thread) (m_thread_pool (sched st));
  to_running : m_is_running (sched st) = true ->
               mutex_free st = true /\ Forall (fun t => has_exited st t = false) (m_thread_pool (sched st));
  to_idle : idle st -> m_thread_pool (sched st) = [];
  to_holder : forall j j' c c', clients st !! j = Some c -> clients st !! j' = Some c' ->
              holding c = true -> holding c' = true -> j = j';
  to_joining : forall j l, clients st !! j = Some (c_joining l) ->
               Forall (fun t => t ∈ l \/ has_exited st t = true) (m_thread_pool (sched st));
  to_stopped : forall j c i v, clients st !! j = Some c -> services st !! i = Some v ->
               match c with c_stopping n => (i < n)%nat | c_joining _ => True | _ => False end -> stopped v = true
}.

Section Invariant.
Context (one_to_one : bool).

(** asio's count of handlers is right; every service of a running scheduler has a call of
    [keep_running] in store and is not stopped; a [one_to_one_scheduler] has just one. *)
Record services_ok (st : system) : Prop := mk_services_ok {
  so_single : one_to_one = false -> length (services st) = 1%nat;
  so_pool : one_to_one = true -> m_service_pool (sched st) = zlen (services st);
  so_executing : forall i v, services st !! i = Some v -> executing v = sum_list_with (busy i) (workers st);
  so_running : forall i v, m_is_running (sched st) = true -> services st !! i = Some v ->
               stopped v = false /\ (alive_on st i -> (1 <= ticks st i v)%nat);
  so_once : forall i v, one_to_one = true -> services st !! i = Some v -> (ticks st i v <= 1)%nat;
  so_idle : forall i v, one_to_one = true -> idle st -> services st !! i = Some v ->
            stopped v = false /\ ticks st i v = 0%nat
}.

Record ok (st : system) : Prop := mk_ok {
  ok_threads : threads_ok st;
  ok_services : services_ok st;
  ok_numbers : 0 <= m_num_threads (sched st) < 2 ^ 32 /\ 0 <= m_next_service (sched st) < 2 ^ 32
               /\ 0 <= m_active_users (sched st) < 2 ^ 32
}.
End Invariant.

(** ** Workers that move *)

Lemma has_exited_lookup st k w :
  workers st !! k = Some w -> has_exited st (S k) = match at_place w with exited => true | _ => false end.
Proof. unfold has_exited. cbn [pred]. by intros ->. Qed.

Lemma on_service_id i st : on_service i id st = st.
Proof. unfold on_service. rewrite list_alter_id by done. by destruct st. Qed.

(** A worker that goes from one place to another, while its service changes. *)
Section Move.
Context (st : system) (k : nat) (w : worker) (p : place) (f : io_service -> io_service).
Context (Hk : workers st !! k = Some w) (Halive : at_place w <> exited).
Let st' := worker_at k (on w) p (on_service (on w) f st).

Lemma move_lookup k' : workers st' !! k' = if decide (k = k') then Some (mk_worker (on w) p) else workers st !! k'.
Proof.
  unfold st'. cbn. case_decide as E; [subst k'|by apply list_lookup_insert_ne].
  apply list_lookup_insert_eq. by eapply lookup_lt_Some.
Qed.

Lemma move_exited t :
  has_exited st' t = true -> has_exited st t = true \/ (p = exited /\ pred t = k).
Proof.
  unfold has_exited. rewrite move_lookup. case_decide as E; [|by left].
  subst k. rewrite Hk. cbn. destruct p; try discriminate; auto.
Qed.

Lemma move_still_exited t : has_exited st t = true -> has_exited st' t = true.
Proof.
  unfold has_exited. rewrite move_lookup. case_decide as E; [|done]. subst k. rewrite Hk.
  by destruct (at_place w).
Qed.

Lemma move_threads_ok :
  (p <> exited \/ m_is_running (sched st) = false) -> (forall v, stopped v = true -> stopped (f v) = true) ->
  threads_ok st -> threads_ok st'.
Proof using Hk Halive.
  intros Hp Hf [Hn Ha Hpool Hr Hi Hh Hj Hs]. split.
  - unfold st'. cbn. by rewrite length_insert.
  - intros k' w'. rewrite move_lookup. unfold st'. cbn. rewrite length_alter.
    case_decide as E; [subst k'|by apply Ha]. intros [= <-] _. by apply (Ha k w).
  - done.
  - intros Hrun. destruct (Hr Hrun) as [Hm Hex]. split; [done|]. eapply Forall_impl; [exact Hex|].
    cbn beta. intros t Ht. destruct (has_exited st' t) eqn:E; [|done].
    destruct (move_exited t E) as [?|[Ep _]]; [congruence|]. destruct Hp as [?|Hp]; [done|]. cbn in Hrun. congruence.
  - done.
  - done.
  - intros j l Hl. eapply Forall_impl; [by apply (Hj j l)|]. cbn beta. intros t [?|?]; [by left|right].
    by apply move_still_exited.
  - intros j c i v Hc. unfold st'. cbn. rewrite list_lookup_alter. case_decide as E; [|by apply (Hs j c i v)].
    subst i. intros Hv Hcase. apply fmap_Some in Hv as (v0 & Hv & ->). by apply Hf, (Hs j c (on w) v0).
Qed.

Lemma move_busy i : (sum_list_with (busy i) (workers st') + busy i w
  = sum_list_with (busy i) (workers st) + busy i (mk_worker (on w) p))%nat.
Proof using Hk. unfold st'. cbn. by apply sum_list_with_insert. Qed.
Lemma move_ticking i : (sum_list_with (ticking i) (workers st') + ticking i w
  = sum_list_with (ticking i) (workers st) + ticking i (mk_worker (on w) p))%nat.
Proof using Hk. unfold st'. cbn. by apply sum_list_with_insert. Qed.

Lemma move_alive_on i : alive_on st' i -> alive_on st i.
Proof using Hk Halive.
  intros (k' & w' & Hw' & Hon & Hp). rewrite move_lookup in Hw'. case_decide as E.
  - injection Hw' as <-. by exists k, w.
  - by exists k', w'.
Qed.

Lemma move_services_ok one_to_one v :
  services st !! on w = Some v -> threads_ok st -> services_ok one_to_one st ->
  (executing (f v) + Nat.b2n (in_handler (at_place w)) = executing v + Nat.b2n (in_handler p))%nat ->
  (stored_ticks (f v) + Nat.b2n (in_tick p) <= stored_ticks v + Nat.b2n (in_tick (at_place w)))%nat ->
  (m_is_running (sched st) = true -> stopped v = false -> (1 <= ticks st (on w) v)%nat ->
   stopped (f v) = false
   /\ (stored_ticks (f v) + Nat.b2n (in_tick p) = stored_ticks v + Nat.b2n (in_tick (at_place w)))%nat) ->
  services_ok one_to_one st'.
Proof using Hk Halive.
  intros Hv Hto [Hs Hp He Hr Ho Hi] Hex Hle Heq.
  assert (forall i v', services st' !! i = Some v' ->
            if decide (on w = i) then v' = f v else services st !! i = Some v') as Hlook.
  { intros i v'. unfold st'. cbn. rewrite list_lookup_alter. case_decide as E; [|done]. subst i. rewrite Hv. by intros [= <-]. }
  assert (forall i, i <> on w -> busy i w = 0%nat /\ busy i (mk_worker (on w) p) = 0%nat
                    /\ ticking i w = 0%nat /\ ticking i (mk_worker (on w) p) = 0%nat) as Hother.
  { intros i Hne. unfold busy, ticking. cbn [on]. by rewrite (proj2 (Nat.eqb_neq (on w) i)). }
  assert (busy (on w) w = Nat.b2n (in_handler (at_place w)) /\ busy (on w) (mk_worker (on w) p) = Nat.b2n (in_handler p)
          /\ ticking (on w) w = Nat.b2n (in_tick (at_place w)) /\ ticking (on w) (mk_worker (on w) p) = Nat.b2n (in_tick p))
    as (Hb1 & Hb2 & Ht1 & Ht2).
  { unfold busy, ticking. cbn [on at_place]. rewrite Nat.eqb_refl. by destruct (in_handler _), (in_handler p), (in_tick _), (in_tick p). }
  split.
  - intros. unfold st'. cbn. rewrite length_alter. by apply Hs.
  - intros. unfold st', zlen. cbn. rewrite length_alter. by apply Hp.
  - intros i v' Hv'. apply Hlook in Hv'. pose proof (move_busy i) as Hm. case_decide as E.
    + subst i v'. rewrite Hb1, Hb2, <- (He _ _ Hv) in Hm. lia.
    + destruct (Hother i ltac:(done)) as (H1 & H2 & _). rewrite (He _ _ Hv'). lia.
  - intros i v' Hrun Hv'. apply Hlook in Hv'. pose proof (move_ticking i) as Hm. unfold ticks. case_decide as E.
    + subst i v'. destruct (Hr _ _ Hrun Hv) as [Hst Htk].
      assert (alive_on st (on w)) as Ha by (by exists k, w).
      destruct (Heq Hrun Hst (Htk Ha)) as [H1 H2]. split; [done|]. intros _. specialize (Htk Ha). unfold ticks in Htk. lia.
    + destruct (Hr _ _ Hrun Hv') as [Hst Htk]. destruct (Hother i ltac:(done)) as (_ & _ & H3 & H4).
      split; [done|]. intros Hal. specialize (Htk (move_alive_on i Hal)). unfold ticks in Htk. lia.
  - intros i v' H1 Hv'. apply Hlook in Hv'. pose proof (move_ticking i) as Hm. unfold ticks. case_decide as E.
    + subst i v'. specialize (Ho _ _ H1 Hv). unfold ticks in Ho. lia.
    + destruct (Hother i ltac:(done)) as (_ & _ & H3 & H4). specialize (Ho _ _ H1 Hv'). unfold ticks in Ho. lia.
  - intros i v' H1 Hid. assert (m_thread_pool (sched st) = []) as Hnil by (apply (to_idle st Hto); exact Hid).
    destruct (to_alive st Hto k w Hk Halive) as [Hin _]. rewrite Hnil in Hin. by apply not_elem_of_nil in Hin.
Qed.
End Move.

(** ** Other threads *)

Lemma mutex_free_spec st : mutex_free st = true <-> forall j c, clients st !! j = Some c -> holding c = false.
Proof.
  unfold mutex_free. rewrite forallb_forall. split.
  - intros H j c Hc. apply negb_true_iff, H. apply list_elem_of_In. by eapply list_elem_of_lookup_2.
  - intros H c Hc%list_elem_of_In. apply list_elem_of_lookup in Hc as [j Hj]. by apply negb_true_iff, (H j).
Qed.

Lemma holder_not_free st j c : clients st !! j = Some c -> holding c = true -> mutex_free st = false.
Proof.
  intros Hj Hc. destruct (mutex_free st) eqn:E; [|done]. apply mutex_free_spec with (j := j) (c := c) in E; congruence.
Qed.

(** Other threads move, but no shutdown. *)
Definition same_holders (l l' : list client) : Prop :=
  forall j c, holding c = true -> l !! j = Some c <-> l' !! j = Some c.

Lemma same_holders_free st l :
  same_holders (clients st) l -> mutex_free (mk_system (sched st) (services st) (workers st) l) = mutex_free st.
Proof.
  intros H. apply eq_bool_prop_intro. rewrite !Is_true_true, !mutex_free_spec. cbn.
  split; intros Hf j c Hc; destruct (holding c) eqn:E; try done; rewrite <- E; apply (Hf j); by apply H.
Qed.

Lemma same_holders_insert l j c c' :
  l !! j = Some c -> holding c = false -> holding c' = false -> same_holders l (<[j := c']> l).
Proof.
  intros Hj Hc Hc' i d Hd. destruct (decide (j = i)) as [->|Hne].
  - rewrite list_lookup_insert_eq by (by eapply lookup_lt_Some). split; congruence.
  - by rewrite list_lookup_insert_ne.
Qed.

Lemma same_holders_fmap l (f : client -> client) :
  (forall c, holding (f c) = holding c) -> (forall c, holding c = true -> f c = c) -> same_holders l (f <$> l).
Proof.
  intros Hf1 Hf2 i d Hd. rewrite list_lookup_fmap. destruct (l !! i) as [c|]; cbn; [|done]. split.
  - intros [= ->]. by rewrite Hf2.
  - intros [= <-]. rewrite Hf1 in Hd. by rewrite Hf2.
Qed.

Lemma same_holders_snoc l c : holding c = false -> same_holders l (l ++ [c]).
Proof.
  intros Hc i d Hd. rewrite lookup_app. destruct (l !! i) as [e|] eqn:E; [done|].
  split; [done|]. destruct (i - length l)%nat; cbn; [congruence|done].
Qed.

Lemma clients_ok one_to_one st l :
  same_holders (clients st) l -> ok one_to_one st -> ok one_to_one (mk_system (sched st) (services st) (workers st) l).
Proof.
  intros H [[Hn Ha Hp Hr Hi Hh Hj Hs] [S1 S2 S3 S4 S5 S6] N]. pose proof (same_holders_free st l H) as Hf. split; [split|split|done].
  all: try done.
  - cbn [sched]. rewrite Hf. intros Hrun. by destruct (Hr Hrun).
  - unfold idle. rewrite Hf. done.
  - cbn. intros j j' c c' Hc Hc' Hd Hd'. apply (Hh j j' c c'); try done; by apply H.
  - cbn. intros j t Ht. apply (Hj j t). by apply H.
  - cbn. intros j c i v Hc Hv Hcase. apply (Hs j c i v); try done. apply H; [|done]. by destruct c.
  - unfold idle. rewrite Hf. done.
Qed.

(** The numbers of the scheduler change. *)
Lemma sched_ok one_to_one st s :
  next_thread s = next_thread (sched st) -> m_thread_pool s = m_thread_pool (sched st) ->
  m_is_running s = m_is_running (sched st) -> m_service_pool s = m_service_pool (sched st) ->
  0 <= m_num_threads s < 2 ^ 32 /\ 0 <= m_next_service s < 2 ^ 32 /\ 0 <= m_active_users s < 2 ^ 32 ->
  ok one_to_one st -> ok one_to_one (with_sched s st).
Proof.
  intros E1 E2 E3 E4 N [[Hn Ha Hp Hr Hi Hh Hj Hs] [S1 S2 S3 S4 S5 S6] _].
  split; [split|split|done]; unfold idle in *; cbn [with_sched sched services workers clients];
    rewrite ?E1, ?E2, ?E3, ?E4; done.
Qed.

Lemma remove_user_ok one_to_one st : ok one_to_one st -> ok one_to_one (remove_user_locked st).
Proof.
  intros Hok. unfold remove_user_locked, remove_active_user.
  assert (ok one_to_one (with_sched (with_users (u32 (m_active_users (sched st) - 1)) (sched st)) st)) as Hok1.
  { apply sched_ok; try done. destruct (ok_numbers _ _ Hok) as (? & ? & _). pose proof (u32_range (m_active_users (sched st) - 1)).
    cbn. done. }
  destruct (_ =? 0); [|exact Hok1]. apply clients_ok; [|exact Hok1]. apply same_holders_fmap; by intros [].
Qed.

(** ** Work that is posted *)

(** Services are added, and handlers that are not [keep_running]. *)
Lemma more_services_ok one_to_one st s n :
  ok one_to_one st -> one_to_one = true -> mutex_free st = true ->
  s = with_services (m_service_pool (sched st) + Z.of_nat n) (m_next_service s) (sched st) -> 0 <= m_next_service s < 2 ^ 32 ->
  ok one_to_one (mk_system s (services st ++ replicate n new_service) (workers st) (clients st)).
Proof.
  intros [[Hn Ha Hp Hr Hi Hh Hj Hs] [S1 S2 S3 S4 S5 S6] N] Hk Hm -> Hns.
  set (st' := mk_system _ _ _ _).
  assert (forall i v, services st' !! i = Some v ->
            services st !! i = Some v \/ (v = new_service /\ (length (services st) <= i)%nat)) as Hlook.
  { intros i v. unfold st'. cbn. rewrite lookup_app. destruct (services st !! i) eqn:E; [by left|].
    intros [-> _]%lookup_replicate. right. split; [done|]. by apply lookup_ge_None. }
  assert (forall i, (length (services st) <= i)%nat -> Forall (fun w => busy i w = 0%nat /\ ticking i w = 0%nat) (workers st)) as Hnone.
  { intros i Hge. apply Forall_lookup. intros k w Hw. unfold busy, ticking. destruct (on w =? i)%nat eqn:E; [|done].
    apply Nat.eqb_eq in E. specialize (Ha k w Hw). destruct (at_place w); cbn; try done; destruct Ha; try done; lia. }
  split; [split|split|split_and!; cbn; tauto].
  all: try done.
  - cbn. intros k w Hw Hx. destruct (Ha k w Hw Hx). rewrite length_app. split; [done|lia].
  - intros j c i v Hc _. cbn in Hc. apply mutex_free_spec with (j := j) (c := c) in Hm; [|done]. by destruct c.
  - congruence.
  - intros _. cbn. rewrite S2 by done. unfold zlen. rewrite length_app, length_replicate. lia.
  - intros i v [Hv|[-> Hge]]%Hlook; [by apply S3|]. symmetry. apply sum_list_with_zero.
    eapply Forall_impl; [by apply Hnone|]. by intros w [].
  - intros i v Hrun [Hv|[-> Hge]]%Hlook; [by apply S4|]. split; [done|]. intros (k & w & Hw & Ho & Hx).
    destruct (Ha k w Hw Hx). lia.
  - intros i v _ [Hv|[-> Hge]]%Hlook; [by apply S5|]. unfold ticks. cbn.
    rewrite sum_list_with_zero; [lia|]. eapply Forall_impl; [by apply Hnone|]. by intros w [].
  - intros i v _ Hid [Hv|[-> Hge]]%Hlook; [by apply S6|]. split; [done|]. unfold ticks. cbn.
    apply sum_list_with_zero. eapply Forall_impl; [by apply Hnone|]. by intros w [].
Qed.

(** A service changes while no worker moves: a handler is posted, or the timer expires. *)
Lemma service_ok one_to_one st i f :
  (forall v, stopped (f v) = stopped v /\ executing (f v) = executing v) ->
  (forall v, services st !! i = Some v -> stored_ticks (f v) = stored_ticks v) ->
  ok one_to_one st -> ok one_to_one (on_service i f st).
Proof.
  intros Hf Ht [[Hn Ha Hp Hr Hi Hh Hj Hs] [S1 S2 S3 S4 S5 S6] N].
  assert (forall j v, services (on_service i f st) !! j = Some v ->
            exists v0, services st !! j = Some v0 /\ stopped v = stopped v0 /\ executing v = executing v0
                       /\ stored_ticks v = stored_ticks v0) as Hlook.
  { intros j v. cbn. rewrite list_lookup_alter. case_decide as E; [|by exists v]. subst j.
    intros Hv. apply fmap_Some in Hv as (v0 & Hv & ->). exists v0. destruct (Hf v0). auto. }
  split; [split|split|done]; cbn [on_service sched workers clients services]; rewrite ?length_alter; try done.
  - intros j c l v Hc (v0 & Hv & Es & _)%Hlook Hcase. rewrite Es. by apply (Hs j c l v0).
  - intros Hk. unfold zlen. rewrite length_alter. by apply S2.
  - intros j v (v0 & Hv & _ & Ee & _)%Hlook. rewrite Ee. by apply S3.
  - intros j v Hrun (v0 & Hv & Es & _ & Et)%Hlook. destruct (S4 j v0 Hrun Hv) as [H1 H2]. rewrite Es.
    split; [done|]. intros Hal. specialize (H2 Hal). unfold ticks in *. cbn. lia.
  - intros j v Hk (v0 & Hv & _ & _ & Et)%Hlook. specialize (S5 j v0 Hk Hv). unfold ticks in *. cbn. lia.
  - intros j v Hk Hid (v0 & Hv & Es & _ & Et)%Hlook. destruct (S6 j v0 Hk Hid Hv) as [H1 H2]. rewrite Es.
    split; [done|]. unfold ticks in *. cbn. lia.
Qed.

(** ** Starting *)

Lemma idle_exited st k w : threads_ok st -> idle st -> workers st !! k = Some w -> at_place w = exited.
Proof.
  intros Hto Hid Hw. destruct (at_place w) eqn:E; try done;
    destruct (to_alive st Hto k w Hw) as [Hin _]; [congruence| |congruence| |congruence| |congruence| |congruence|];
    rewrite (to_idle st Hto Hid) in Hin; by apply not_elem_of_nil in Hin.
Qed.

Lemma stored_ticks_rearm v : stored_ticks (rearm v) = S (stored_ticks v).
Proof. unfold stored_ticks, rearm. destruct (waiting v); cbn; rewrite sum_list_with_app; cbn; lia. Qed.

(** The threads of an idle scheduler are started. *)
Lemma started_ok one_to_one st s vs ws :
  ok one_to_one st -> idle st ->
  m_is_running s = true -> m_thread_pool s = seq (S (length (workers st))) (length ws) ->
  next_thread s = S (length (workers st ++ ws)) ->
  0 <= m_num_threads s < 2 ^ 32 /\ 0 <= m_next_service s < 2 ^ 32 /\ 0 <= m_active_users s < 2 ^ 32 ->
  Forall (fun w => at_place w = at_test /\ (on w < length vs)%nat) ws ->
  (if one_to_one then m_service_pool s = zlen vs else length vs = 1%nat) ->
  Forall (fun v => stopped v = false /\ executing v = 0%nat /\ (1 <= stored_ticks v)%nat
                   /\ (one_to_one = true -> stored_ticks v = 1%nat)) vs ->
  ok one_to_one (mk_system s vs (workers st ++ ws) (clients st)).
Proof.
  intros [Hto _ _] Hid Hrun Hpool Hnext Hnum Hws Hlen Hvs. set (st' := mk_system _ _ _ _).
  assert (forall k w, (workers st ++ ws) !! k = Some w ->
            at_place w = exited \/ (length (workers st) <= k < length (workers st) + length ws)%nat
                                   /\ at_place w = at_test /\ (on w < length vs)%nat) as Hlook.
  { intros k w [Hw|[Hge Hw]]%lookup_app_Some; [left; by apply (idle_exited st k)|right].
    split; [apply lookup_lt_Some in Hw; lia|]. rewrite Forall_lookup in Hws. by apply (Hws _ _ Hw). }
  assert (forall g, (forall w, in_handler (at_place w) = false -> g w = 0%nat) -> sum_list_with g (workers st ++ ws) = 0%nat) as Hsum.
  { intros g Hg. apply sum_list_with_zero, Forall_lookup. intros k w Hw. apply Hg.
    destruct (Hlook k w Hw) as [->|(_ & -> & _)]; done. }
  assert (forall i, sum_list_with (busy i) (workers st ++ ws) = 0%nat /\ sum_list_with (ticking i) (workers st ++ ws) = 0%nat) as Hsums.
  { intros i. split; apply Hsum; intros w Hw; unfold busy, ticking; destruct (at_place w); try done; by rewrite andb_false_r. }
  rewrite Forall_lookup in Hvs.
  split; [split|split|exact Hnum]; unfold st'; cbn [sched services workers clients].
  - exact Hnext.
  - intros k w Hw Hx. destruct (Hlook k w Hw) as [?|(Hk & _ & Ho)]; [done|]. split; [|exact Ho].
    rewrite Hpool. apply elem_of_seq. lia.
  - rewrite Hpool. apply Forall_forall. intros t [Ht _]%elem_of_seq. unfold no_thread. lia.
  - intros _. split; [apply Hid|]. rewrite Hpool. apply Forall_forall. intros t Ht%elem_of_seq.
    unfold has_exited. cbn [workers]. rewrite lookup_app_r by lia.
    destruct (ws !! (pred t - length (workers st))%nat) as [w|] eqn:E; [|apply lookup_ge_None in E; lia].
    rewrite Forall_lookup in Hws. by destruct (Hws _ _ E) as [-> _].
  - intros [H _]. cbn in H. congruence.
  - apply (to_holder st Hto).
  - intros j l Hj. destruct Hid as [_ Hm]. by rewrite (holder_not_free st j _ Hj) in Hm.
  - intros j c i v Hj _. destruct Hid as [_ Hm]. rewrite mutex_free_spec in Hm. specialize (Hm j c Hj). by destruct c.
  - intros ->. exact Hlen.
  - intros ->. exact Hlen.
  - intros i v Hv. destruct (Hvs i v Hv) as (_ & -> & _). symmetry. apply Hsums.
  - intros i v _ Hv. destruct (Hvs i v Hv) as (H1 & _ & H2 & _). split; [done|]. intros _. unfold ticks. lia.
  - intros i v Hk Hv. destruct (Hvs i v Hv) as (_ & _ & _ & H). unfold ticks. cbn [workers].
    rewrite (proj2 (Hsums i)), (H Hk). lia.
  - intros i v _ [H _]. cbn in H. congruence.
Qed.

Lemma startup_ok one_to_one st : mutex_free st = true -> ok one_to_one st -> ok one_to_one (startup_locked one_to_one st).
Proof.
  intros Hm Hok. unfold startup_locked. destruct (m_is_running (sched st)) eqn:Hr; [done|].
  assert (idle st) as Hid by done. destruct (ok_numbers _ _ Hok) as (Hn & Hs & Hu).
  pose proof (ok_threads _ _ Hok) as Hto. pose proof (ok_services _ _ Hok) as Hso.
  assert (forall i v, services st !! i = Some v -> executing v = 0%nat) as Hex.
  { intros i v Hv. rewrite (so_executing _ _ Hso i v Hv). apply sum_list_with_zero, Forall_lookup. intros k w Hw.
    unfold busy. by rewrite (idle_exited st k w Hto Hid Hw), andb_false_r. }
  set (n := Z.to_nat (m_num_threads (sched st))).
  assert (forall s, m_is_running s = false -> m_thread_pool s = [] -> next_thread s = S (length (workers st)) ->
            m_num_threads s = m_num_threads (sched st) ->
            m_is_running (start_threads s) = true
            /\ m_thread_pool (start_threads s) = seq (S (length (workers st))) n
            /\ next_thread (start_threads s) = S (length (workers st) + n)) as Hst.
  { intros s _ Ep En Em. unfold start_threads. cbn. rewrite Ep, En, Em. done. }
  destruct one_to_one.
  - unfold startup_one_to_one. rewrite Hr.
    destruct (Hst (with_services (m_service_pool (sched st) `max` m_num_threads (sched st)) (m_next_service (sched st)) (sched st)))
      as (E1 & E2 & E3); [done|by apply (to_idle st Hto)|apply (to_next st Hto)|done|].
    apply started_ok; try done.
    + by rewrite length_fmap, length_seq.
    + rewrite E3, length_app, length_fmap, length_seq. done.
    + apply Forall_fmap, Forall_forall. intros i Hi%elem_of_seq. cbn. split; [done|].
      rewrite length_fmap, length_app, length_replicate. lia.
    + cbn. rewrite (so_pool _ _ Hso) by done. unfold zlen. rewrite length_fmap, length_app, length_replicate. lia.
    + apply Forall_fmap, Forall_app. split.
      * apply Forall_lookup. intros i v Hv. cbn [compose]. rewrite stored_ticks_rearm.
        destruct (so_idle _ _ Hso i v eq_refl Hid Hv) as [H1 H2]. unfold ticks in H2.
        split_and!; [exact H1|exact (Hex i v Hv)|lia|lia].
      * by apply Forall_replicate.
  - unfold startup_single. rewrite Hr.
    destruct (Hst (sched st)) as (E1 & E2 & E3); [done|by apply (to_idle st Hto)|apply (to_next st Hto)|done|].
    apply started_ok; try done.
    + by rewrite length_replicate.
    + by rewrite E3, length_app, length_replicate.
    + apply Forall_replicate. cbn. split; [done|]. rewrite length_fmap, (so_single _ _ Hso) by done. lia.
    + rewrite length_fmap. by apply (so_single _ _ Hso).
    + apply Forall_fmap, Forall_lookup. intros i v Hv. cbn [compose]. rewrite stored_ticks_rearm.
      split_and!; [done|exact (Hex i v Hv)|lia|done].
Qed.

Lemma get_io_service_result s s' i :
  get_io_service s = Ok (s', i) ->
  s' = with_services (m_service_pool s `max` m_num_threads s) i s /\ 0 <= i < m_num_threads s.
Proof.
  unfold get_io_service. set (n := if _ <=? _ then 0 else _).
  assert (0 <= n) by (pose proof (u32_range (m_next_service s + 1)); unfold n; case_match; lia).
  destruct (Z.ltb_spec n (m_num_threads s)); cbn; [|done]. by intros [= <- <-].
Qed.

Lemma post_ok one_to_one t st st' : ok one_to_one st -> post one_to_one t st = Some st' ->
  ok one_to_one st' /\ workers st' = workers st /\ m_is_running (sched st') = m_is_running (sched st)
  /\ (length (services st) <= length (services st'))%nat.
Proof.
  intros Hok. unfold post. destruct one_to_one.
  - destruct (mutex_free st) eqn:Hm; [|done]. cbn [negb]. destruct (get_io_service (sched st)) as [[s i]|] eqn:E; [|done].
    apply get_io_service_result in E as [-> Hi]. intros [= <-]. destruct (ok_numbers _ _ Hok) as (Hn & _).
    pose proof (so_pool _ _ (ok_services _ _ Hok) eq_refl) as Hp. unfold zlen in Hp. split_and!; [|done..|].
    + apply service_ok; [done| |].
      { intros v _. unfold stored_ticks. cbn. rewrite sum_list_with_app. cbn. lia. }
      eapply more_services_ok; try done; [|cbn; lia]. cbn [m_next_service with_services m_service_pool].
      f_equal. lia.
    + cbn. rewrite length_alter, length_app. lia.
  - intros [= <-]. split_and!; [|done..|cbn; by rewrite length_alter].
    apply service_ok; [done| |done]. intros v _. unfold stored_ticks. cbn. rewrite sum_list_with_app. cbn. lia.
Qed.

(** ** The workers go on *)

Lemma worker_move_ok one_to_one st k w p f v :
  ok one_to_one st -> workers st !! k = Some w -> at_place w <> exited -> services st !! on w = Some v ->
  (p <> exited \/ m_is_running (sched st) = false) -> (forall v, stopped v = true -> stopped (f v) = true) ->
  (executing (f v) + Nat.b2n (in_handler (at_place w)) = executing v + Nat.b2n (in_handler p))%nat ->
  (stored_ticks (f v) + Nat.b2n (in_tick p) <= stored_ticks v + Nat.b2n (in_tick (at_place w)))%nat ->
  (m_is_running (sched st) = true -> stopped v = false -> (1 <= ticks st (on w) v)%nat ->
   stopped (f v) = false
   /\ (stored_ticks (f v) + Nat.b2n (in_tick p) = stored_ticks v + Nat.b2n (in_tick (at_place w)))%nat) ->
  ok one_to_one (worker_at k (on w) p (on_service (on w) f st)).
Proof.
  intros [Hto Hso Hn] Hk Hx Hv Hp Hf H1 H2 H3. split; [by apply move_threads_ok|by eapply move_services_ok|done].
Qed.

(** Only the place changes. *)
Lemma place_ok one_to_one st k w p :
  ok one_to_one st -> workers st !! k = Some w -> at_place w <> exited ->
  (p <> exited \/ m_is_running (sched st) = false) ->
  in_handler p = in_handler (at_place w) -> in_tick p = in_tick (at_place w) ->
  ok one_to_one (worker_at k (on w) p st).
Proof.
  intros Hok Hk Hx Hp E1 E2. rewrite <- (on_service_id (on w) st).
  destruct (to_alive _ (ok_threads _ _ Hok) k w Hk Hx) as [_ [v Hv]%lookup_lt_is_Some_2].
  eapply worker_move_ok; try done; unfold id; rewrite ?E1, ?E2; done.
Qed.

Lemma sum_list_with_le_at {A} (f g : A -> nat) l : (forall x, f x <= g x)%nat -> forall k x, l !! k = Some x ->
  (sum_list_with f l + g x <= sum_list_with g l + f x)%nat.
Proof.
  intros Hle. induction l as [|y l IH]; intros [|k] x; cbn; [done..| |].
  - intros [= ->]. enough (sum_list_with f l <= sum_list_with g l)%nat by lia. clear IH. induction l as [|z l IH]; cbn; [done|].
    specialize (Hle z). lia.
  - intros Hk. specialize (IH k x Hk). specialize (Hle y). lia.
Qed.

Lemma ticking_le_busy i w : (ticking i w <= busy i w)%nat.
Proof. unfold ticking, busy. destruct (on w =? i)%nat; [|done]. destruct (at_place w); cbn; lia. Qed.

Lemma out_of_work_spec v : out_of_work v = true <-> ready v = [] /\ waiting v = false /\ executing v = 0%nat.
Proof.
  unfold out_of_work. rewrite !andb_true_iff, bool_decide_eq_true, negb_true_iff, Nat.eqb_eq. tauto.
Qed.

(** While [keep_running] is in store, a service has work, also when a handler of another kind ends. *)
Lemma stays_running one_to_one st k w v :
  services_ok one_to_one st -> workers st !! k = Some w -> services st !! on w = Some v -> (1 <= ticks st (on w) v)%nat ->
  in_tick (at_place w) = false -> stopped v = false ->
  out_of_work v = false /\ (in_handler (at_place w) = true -> stopped (work_finished v) = false).
Proof.
  intros Hso Hk Hv Ht Hnt Hs. pose proof (so_executing _ _ Hso _ _ Hv) as He.
  pose proof (sum_list_with_le_at (ticking (on w)) (busy (on w)) (workers st) (ticking_le_busy (on w)) k w Hk) as Hle.
  rewrite <- He in Hle. unfold ticking at 2, busy at 1 in Hle. rewrite Nat.eqb_refl, Hnt in Hle. cbn [andb] in Hle.
  unfold ticks, stored_ticks in Ht. split.
  - destruct (out_of_work v) eqn:E; [|done]. apply out_of_work_spec in E as (Er & Ew & Ee).
    rewrite Er, Ew in Ht. cbn in Ht. destruct (in_handler (at_place w)); lia.
  - intros Hh. rewrite Hh in Hle. unfold work_finished, stop_without_work.
    destruct (out_of_work _) eqn:E; [|exact Hs]. apply out_of_work_spec in E as (Er & Ew & Ee). cbn in Er, Ew, Ee.
    rewrite Er, Ew in Ht. cbn in Ht. lia.
Qed.

Lemma work_finished_fields v :
  executing (work_finished v) = pred (executing v) /\ stored_ticks (work_finished v) = stored_ticks v
  /\ (stopped v = true -> stopped (work_finished v) = true).
Proof. unfold work_finished, stop_without_work. by destruct (out_of_work _). Qed.

Lemma executing_positive one_to_one st k w v :
  services_ok one_to_one st -> workers st !! k = Some w -> services st !! on w = Some v ->
  in_handler (at_place w) = true -> (1 <= executing v)%nat.
Proof.
  intros Hso Hk Hv Hh. rewrite (so_executing _ _ Hso _ _ Hv).
  pose proof (sum_list_with_lookup (busy (on w)) (workers st) k w Hk) as H. unfold busy in H at 1.
  by rewrite Nat.eqb_refl, Hh in H.
Qed.

(** A handler of another kind ends. *)
Lemma task_ends_ok one_to_one st k w p :
  ok one_to_one st -> workers st !! k = Some w -> in_handler (at_place w) = true -> in_tick (at_place w) = false ->
  p <> exited -> in_handler p = false ->
  ok one_to_one (worker_at k (on w) p (on_service (on w) work_finished st)).
Proof.
  intros Hok Hk Hh Ht Hp Hph. assert (at_place w <> exited) as Hx by (by destruct (at_place w)).
  assert (in_tick p = false) as Hpt by (by destruct p).
  destruct (to_alive _ (ok_threads _ _ Hok) k w Hk Hx) as [_ [v Hv]%lookup_lt_is_Some_2].
  pose proof (ok_services _ _ Hok) as Hso. destruct (work_finished_fields v) as (We & Wt & _).
  pose proof (executing_positive _ _ _ _ _ Hso Hk Hv Hh) as Hpos.
  eapply worker_move_ok; rewrite ?Hh, ?Ht, ?Hph, ?Hpt; try done;
    [by left|intros v0; apply work_finished_fields|rewrite We; cbn; lia|by rewrite Wt|].
  intros Hr Hs Hone. rewrite Wt. split; [|done]. by apply (stays_running _ _ _ _ _ Hso Hk Hv Hone).
Qed.

Lemma worker_step_ok one_to_one k st st' :
  ok one_to_one st -> worker_step one_to_one k st = Some st' -> ok one_to_one st'.
Proof.
  intros Hok. unfold worker_step. destruct (workers st !! k) as [w|] eqn:Hk; [|done]. cbn [mbind option_bind].
  assert (at_place w = exited \/ at_place w <> exited) as [E|Hx] by (destruct (at_place w); auto); [by rewrite E|].
  destruct (to_alive _ (ok_threads _ _ Hok) k w Hk Hx) as [_ [v Hv]%lookup_lt_is_Some_2].
  pose proof (ok_services _ _ Hok) as Hso. destruct (work_finished_fields v) as (We & Wt & _).
  destruct (at_place w) as [| |[| |t t'|t]| | |] eqn:Ep; try done.
  - intros [= <-]. destruct (m_is_running (sched st)) eqn:Er; apply place_ok; rewrite ?Ep; auto.
  - rewrite Hv. cbn [mbind option_bind]. destruct (stopped v) eqn:Es.
    { intros [= <-]. apply place_ok; rewrite ?Ep; auto. }
    destruct (ready v) as [|h l] eqn:El.
    + destruct (out_of_work v) eqn:Eo; [|done]. intros [= <-]. eapply worker_move_ok; rewrite ?Ep; try done; [by left|].
      intros Hr _ Ht. destruct (stays_running _ _ _ _ _ Hso Hk Hv Ht) as [Ho _]; rewrite ?Ep; [done..|]. congruence.
    + intros [= <-]. assert (stored_ticks v = (is_tick h + stored_ticks (take_handler l v))%nat) as Et.
      { unfold stored_ticks. rewrite El. cbn. lia. }
      eapply worker_move_ok; rewrite ?Ep; try done; destruct h; cbn in *; try (by left); try lia; intros; split; done || lia.
  - intros [= <-]. apply task_ends_ok; by rewrite ?Ep.
  - intros [= <-]. apply task_ends_ok; by rewrite ?Ep.
  - intros (st1 & E & ->)%fmap_Some. destruct (post_ok _ _ _ _ Hok E) as (Hok1 & Ew & _ & _).
    apply place_ok; rewrite ?Ew, ?Ep; auto.
  - destruct (mutex_free st) eqn:Hm; [|done]. intros [= <-].
    assert (workers (remove_user_locked st) = workers st) as Ew.
    { unfold remove_user_locked. destruct (remove_active_user (sched st)) as [s []]; done. }
    apply place_ok; rewrite ?Ew, ?Ep; auto. by apply remove_user_ok.
  - intros [= <-]. destruct (m_is_running (sched st)) eqn:Er; [apply place_ok; rewrite ?Ep; auto|].
    pose proof (executing_positive _ _ _ _ _ Hso Hk Hv) as Hpos. rewrite Ep in Hpos. specialize (Hpos eq_refl).
    eapply worker_move_ok; rewrite ?Ep; try done; [by left|apply work_finished_fields|rewrite We; cbn; lia|rewrite Wt; cbn; lia|congruence].
  - intros [= <-]. pose proof (executing_positive _ _ _ _ _ Hso Hk Hv) as Hpos. rewrite Ep in Hpos. specialize (Hpos eq_refl).
    pose proof (stored_ticks_rearm v) as Hra. destruct (work_finished_fields (rearm v)) as (Re & Rt & _).
    assert (forall v, stopped (work_finished (rearm v)) = stopped v) as Rs.
    { intros v0. unfold work_finished, stop_without_work. destruct (out_of_work _) eqn:E; [|done].
      apply out_of_work_spec in E as (_ & E & _). done. }
    eapply worker_move_ok; rewrite ?Ep; try done; cbn [compose];
      [by left|intros v0; by rewrite Rs|rewrite Re; cbn; lia|rewrite Rt, Hra; cbn; lia|].
    intros _ Hs _. rewrite Rs, Rt, Hra. cbn. split; [done|lia].
Qed.

(** ** Shutting down *)

Lemma holder_stopped st j c : threads_ok st -> clients st !! j = Some c -> holding c = true -> m_is_running (sched st) = false.
Proof.
  intros Hto Hj Hc. destruct (m_is_running (sched st)) eqn:E; [|done].
  destruct (to_running st Hto E) as [Hm _]. by rewrite (holder_not_free st j c Hj Hc) in Hm.
Qed.

(** The thread that holds the mutex, or that takes it, goes on. *)
Lemma holder_ok one_to_one st j c c' s :
  ok one_to_one st -> clients st !! j = Some c -> mutex_free st = true \/ holding c = true -> holding c' = true ->
  s = set_running false (sched st) ->
  (forall l, c' = c_joining l -> Forall (fun t => t ∈ l \/ has_exited st t = true) (m_thread_pool s)) ->
  (forall i v, services st !! i = Some v ->
     match c' with c_stopping n => (i < n)%nat | c_joining _ => True | _ => False end -> stopped v = true) ->
  ok one_to_one (client_at j c' (with_sched s st)).
Proof.
  intros [[Hn Ha Hp Hr Hi Hh Hj Hs] [S1 S2 S3 S4 S5 S6] N] Hc Hm Hc' -> Hjoin Hstop.
  assert (forall i d, <[j:=c']> (clients st) !! i = Some d -> holding d = true -> i = j /\ d = c') as Honly.
  { intros i d Hd Hhold. destruct (decide (j = i)) as [<-|Hne].
    - rewrite list_lookup_insert_eq in Hd by (by eapply lookup_lt_Some). by injection Hd as <-.
    - rewrite list_lookup_insert_ne in Hd by done. exfalso. destruct Hm as [Hm|Hm].
      + rewrite mutex_free_spec in Hm. specialize (Hm i d Hd). congruence.
      + by apply Hne, (Hh j i c d). }
  assert (mutex_free (client_at j c' (with_sched (set_running false (sched st)) st)) = false) as Hnf.
  { eapply (holder_not_free _ j c'); [|done]. cbn. apply list_lookup_insert_eq. by eapply lookup_lt_Some. }
  split; [split|split|exact N]; unfold idle; rewrite ?Hnf; try done.
  - intros [_ H]. congruence.
  - cbn. intros i i' d d' Hd Hd' H H'. destruct (Honly i d Hd H), (Honly i' d' Hd' H'). congruence.
  - cbn. intros i l Hd. destruct (Honly i _ Hd eq_refl) as [_ <-]. by apply Hjoin.
  - cbn. intros i d n v Hd Hv Hcase. destruct (Honly i d Hd) as [_ ->]; [by destruct d|]. by apply (Hstop n v).
  - intros i v _ [_ H]. congruence.
Qed.

(** A service is stopped by the thread that holds the mutex. *)
Lemma stop_ok one_to_one st j c i :
  ok one_to_one st -> clients st !! j = Some c -> holding c = true -> ok one_to_one (on_service i stop_service st).
Proof.
  intros [Hto [S1 S2 S3 S4 S5 S6] N] Hc Hh. pose proof (holder_stopped st j c Hto Hc Hh) as Hr.
  pose proof (holder_not_free st j c Hc Hh) as Hm. destruct Hto as [Hn Ha Hp Hrun Hi Hho Hj Hs].
  assert (forall n v, services (on_service i stop_service st) !! n = Some v ->
            exists v0, services st !! n = Some v0 /\ (stopped v0 = true -> stopped v = true)
                       /\ executing v = executing v0 /\ stored_ticks v = stored_ticks v0) as Hlook.
  { intros n v. cbn. rewrite list_lookup_alter. case_decide as E; [|by exists v]. subst n.
    intros Hv. apply fmap_Some in Hv as (v0 & Hv & ->). by exists v0. }
  split; [split|split|done]; cbn [on_service sched workers clients services]; rewrite ?length_alter; try done.
  - intros j' d n v Hd (v0 & Hv & Es & _)%Hlook Hcase. by apply Es, (Hs j' d n v0).
  - intros Hk. unfold zlen. rewrite length_alter. by apply S2.
  - intros n v (v0 & Hv & _ & Ee & _)%Hlook. rewrite Ee. by apply S3.
  - intros n v H. cbn in H. congruence.
  - intros n v Hk (v0 & Hv & _ & _ & Et)%Hlook. specialize (S5 n v0 Hk Hv). unfold ticks in *. cbn. lia.
  - intros n v _ [_ H]. unfold mutex_free in *. cbn in H. congruence.
Qed.

(** When all threads of the pool are joined, no thread is left. *)
Lemma all_joined st j : threads_ok st -> clients st !! j = Some (c_joining []) ->
  forall k w, workers st !! k = Some w -> at_place w = exited.
Proof.
  intros Hto Hj k w Hw. pose proof (to_joining st Hto j [] Hj) as H.
  assert (at_place w = exited \/ at_place w <> exited) as [?|Hx] by (destruct (at_place w); auto); [done|].
  destruct (to_alive st Hto k w Hw Hx) as [Hin _]. rewrite Forall_forall in H.
  destruct (H _ Hin) as [Hnil|He]; [by apply not_elem_of_nil in Hnil|].
  rewrite (has_exited_lookup st k w Hw) in He. by destruct (at_place w).
Qed.

Lemma finish_locked_ok one_to_one st j :
  ok one_to_one st -> clients st !! j = Some (c_joining []) ->
  ok one_to_one (client_at j c_done (finish_locked one_to_one st)).
Proof.
  intros [Hto [S1 S2 S3 S4 S5 S6] N] Hj. pose proof (all_joined st j Hto Hj) as Hall.
  destruct Hto as [Hn Ha Hp Hrun Hi Hho Hjo Hs].
  assert (forall i d, <[j:=c_done]> (wake_join <$> clients st) !! i = Some d -> holding d = false) as Hnone.
  { intros i d Hd. destruct (decide (j = i)) as [<-|Hne].
    - rewrite list_lookup_insert_eq in Hd by (rewrite length_fmap; by eapply lookup_lt_Some). by injection Hd as <-.
    - rewrite list_lookup_insert_ne, list_lookup_fmap in Hd by done.
      destruct (clients st !! i) as [e|] eqn:Ee; [|done]. injection Hd as <-.
      destruct (holding e) eqn:Eh; [|by destruct e]. destruct Hne. by apply (Hho j i (c_joining []) e). }
  split; [split|split|exact N]; cbn [client_at finish_locked sched services workers clients]; try done.
  - intros k w Hw Hx. by rewrite (Hall k w Hw) in Hx.
  - intros i i' d d' Hd _ H _. rewrite (Hnone i d Hd) in H. done.
  - intros i d n v Hd _ Hcase. specialize (Hnone i _ Hd). by destruct d.
  - intros ->. rewrite length_fmap. by apply S1.
  - by intros ->.
  - intros i v. destruct one_to_one; [done|]. rewrite list_lookup_fmap. intros (v0 & Hv & ->)%fmap_Some. by apply (S3 i v0).
  - by intros i v ->.
  - by intros i v ->.
Qed.

Lemma set_running_same s : m_is_running s = false -> set_running false s = s.
Proof. destruct s. cbn. by intros ->. Qed.
Lemma with_sched_same st : with_sched (sched st) st = st.
Proof. by destruct st. Qed.

Lemma begin_ok one_to_one st j c :
  ok one_to_one st -> clients st !! j = Some c -> mutex_free st = true ->
  ok one_to_one (client_at j (c_stopping 0) (with_sched (set_running false (sched st)) st)).
Proof. intros Hok Hj Hm. eapply holder_ok; eauto; [done|]. intros i v _ H. lia. Qed.

Lemma wait_for_users_ok one_to_one st j c :
  ok one_to_one st -> clients st !! j = Some c -> holding c = false -> mutex_free st = true ->
  ok one_to_one (wait_for_users j st).
Proof.
  intros Hok Hj Hc Hm. unfold wait_for_users. destruct (0 <? _); [|by eapply begin_ok].
  apply clients_ok; [|done]. by eapply same_holders_insert.
Qed.

(** The thread that holds the mutex, with the scheduler as it is. *)
Lemma holder_step_ok one_to_one st j c c' :
  ok one_to_one st -> clients st !! j = Some c -> holding c = true -> holding c' = true ->
  (forall l, c' = c_joining l -> Forall (fun t => t ∈ l \/ has_exited st t = true) (m_thread_pool (sched st))) ->
  (forall i v, services st !! i = Some v ->
     match c' with c_stopping n => (i < n)%nat | c_joining _ => True | _ => False end -> stopped v = true) ->
  ok one_to_one (client_at j c' st).
Proof.
  intros Hok Hj Hc Hc' H1 H2. pose proof (holder_stopped st j c (ok_threads _ _ Hok) Hj Hc) as Hr.
  rewrite <- (with_sched_same st), <- (set_running_same _ Hr). eapply holder_ok; eauto.
Qed.

Lemma stopping_step_ok one_to_one st j i :
  ok one_to_one st -> clients st !! j = Some (c_stopping i) -> (i < length (services st))%nat ->
  ok one_to_one (client_at j (c_stopping (S i)) (on_service i stop_service st)).
Proof.
  intros Hok Hj Hi. assert (ok one_to_one (on_service i stop_service st)) as Hok1 by (by eapply stop_ok).
  eapply holder_step_ok; [exact Hok1|exact Hj|done..|]. intros n v Hv Hn.
  cbn in Hv. rewrite list_lookup_alter in Hv. case_decide as E.
  - apply fmap_Some in Hv as (v0 & _ & ->). done.
  - apply (to_stopped st (ok_threads _ _ Hok) j (c_stopping i) n v); [done..|lia].
Qed.

Lemma client_step_ok one_to_one j st st' :
  ok one_to_one st -> client_step one_to_one j st = Some st' -> ok one_to_one st'.
Proof.
  intros Hok. unfold client_step. destruct (clients st !! j) as [c|] eqn:Hj; [|done]. cbn [mbind option_bind].
  assert (forall c', holding c = false -> holding c' = false -> ok one_to_one (client_at j c' st)) as Hmove.
  { intros c' H H'. apply clients_ok; [|done]. by eapply same_holders_insert. }
  destruct c as [| | |i|[|t l]| | | | | |]; try done.
  - destruct (mutex_free st) eqn:Hm; [|done]. intros [= <-]. unfold begin_shutdown.
    destruct (m_is_running (sched st)) eqn:Hr; [by eapply wait_for_users_ok|].
    rewrite <- (with_sched_same st), <- (set_running_same _ Hr) at 1. by eapply begin_ok.
  - destruct (mutex_free st) eqn:Hm; [|done]. intros [= <-]. by eapply wait_for_users_ok.
  - intros [= <-]. destruct (Nat.ltb_spec i (length (services st))) as [Hi|Hi]; [by apply stopping_step_ok|].
    eapply holder_step_ok; [done..| |].
    + intros l [= <-]. unfold stop_threads. pose proof (to_pool _ (ok_threads _ _ Hok)) as Hp.
      rewrite Forall_forall in Hp |- *. intros t Ht. left. apply list_elem_of_filter. auto.
    + intros n v Hv _. apply (to_stopped st (ok_threads _ _ Hok) j _ n v Hj Hv). apply lookup_lt_Some in Hv. lia.
  - intros [= <-]. by apply finish_locked_ok.
  - destruct (has_exited st t) eqn:Et; [|done]. intros [= <-]. eapply holder_step_ok; [done..| |].
    + intros l' [= <-]. pose proof (to_joining _ (ok_threads _ _ Hok) j _ Hj) as H. eapply Forall_impl; [exact H|].
      cbn beta. intros t' [Hin|?]; [|by right]. apply elem_of_cons in Hin as [->|?]; auto.
    + intros n v Hv _. by apply (to_stopped st (ok_threads _ _ Hok) j _ n v Hj Hv).
  - destruct (mutex_free st); [|done]. intros [= <-]. apply Hmove; [done|]. by destruct (m_is_running _).
  - destruct (m_is_running (sched st)) eqn:Hr; [intros [= <-]; by apply Hmove|].
    destruct (mutex_free st) eqn:Hm; [|done]. intros [= <-]. apply clients_ok; [|by apply startup_ok].
    assert (clients (startup_locked one_to_one st) = clients st) as ->.
    { unfold startup_locked. rewrite Hr. by destruct one_to_one. }
    by eapply same_holders_insert.
  - destruct (mutex_free st); [|done]. intros [= <-]. apply clients_ok; [by eapply same_holders_insert|].
    apply sched_ok; try done. destruct (ok_numbers _ _ Hok) as (? & ? & _).
    pose proof (u32_range (m_active_users (sched st) + 1)). done.
  - destruct (mutex_free st); [|done]. intros [= <-]. apply clients_ok; [|by apply remove_user_ok].
    apply (same_holders_insert _ j c_remove_user); [|done..].
    unfold remove_user_locked. destruct (remove_active_user (sched st)) as [s []]; cbn; [|done].
    by rewrite list_lookup_fmap, Hj.
Qed.

Lemma stored_ticks_expire v : waiting v = true -> stored_ticks (expire v) = stored_ticks v.
Proof. unfold stored_ticks, expire. intros ->. cbn. rewrite sum_list_with_app. cbn. lia. Qed.

Lemma system_step_ok one_to_one l st st' :
  ok one_to_one st -> system_step one_to_one l st = Some st' -> ok one_to_one st'.
Proof.
  intros Hok. destruct l as [k|j|i|c|j| |t|n]; cbn [system_step].
  - by apply worker_step_ok.
  - by apply client_step_ok.
  - destruct (services st !! i) as [v|] eqn:Hv; [|done]. cbn [mbind option_bind]. destruct (waiting v) eqn:Ew; [|done].
    intros [= <-]. apply service_ok; [done| |done]. intros v'. rewrite Hv. intros [= <-]. by apply stored_ticks_expire.
  - destruct (starts c) eqn:Hc; [|done]. intros [= <-]. apply clients_ok; [|done]. apply same_holders_snoc. by destruct c.
  - destruct (clients st !! j) as [c|] eqn:Hj; [|done]. cbn [mbind option_bind].
    destruct c; try done; intros [= <-]; apply clients_ok; try done; by eapply same_holders_insert.
  - destruct (mutex_free st) eqn:Hm; [|done]. intros [= <-]. by apply startup_ok.
  - intros H. by apply (post_ok _ _ _ _ Hok H).
  - intros [= <-]. apply sched_ok; try done. destruct (ok_numbers _ _ Hok) as (_ & ? & ?).
    pose proof (u32_range n). done.
Qed.

Lemma initial_ok one_to_one : ok one_to_one (initial one_to_one).
Proof.
  split; [split|split|]; unfold initial; cbn [sched services workers clients]; try done.
  - by destruct one_to_one.
  - by intros ->.
  - intros i v. destruct one_to_one; [done|]. destruct i; [|done]. by intros [= <-].
  - by intros i v ->.
  - by intros i v ->.
Qed.

Lemma system_run_ok one_to_one ls : forall st st',
  ok one_to_one st -> system_run one_to_one ls st = Some st' -> ok one_to_one st'.
Proof.
  induction ls as [|l ls IH]; intros st st' Hok; cbn [system_run]; [by intros [= <-]|].
  destruct (system_step one_to_one l st) as [st1|] eqn:E; [|done]. cbn [mbind option_bind].
  apply IH. by eapply system_step_ok.
Qed.

(** ** A running scheduler works *)

(** C24: a running scheduler works.  Whatever the threads do, in whatever order: while the
    scheduler is running none of its threads has exited and none of its services is stopped; a
    thread that is between two handlers never returns from [run]: it takes the next handler
    as soon as there is one, and while there is none a call of [keep_running] is on its way;
    and in a [one_to_one_scheduler] no [keep_running] cancels another. *)
Theorem running_scheduler_works one_to_one ls st :
  system_run one_to_one ls (initial one_to_one) = Some st -> m_is_running (sched st) = true ->
  Forall (fun t => has_exited st t = false) (m_thread_pool (sched st))
  /\ Forall (fun v => stopped v = false) (services st)
  /\ (forall k w, workers st !! k = Some w -> at_place w = in_run ->
      exists v, services st !! on w = Some v
        /\ match ready v with
           | h :: l => exists p, worker_step one_to_one k st = Some (worker_at k (on w) p (on_service (on w) (take_handler l) st))
                                 /\ in_handler p = true
           | [] => worker_step one_to_one k st = None /\ (waiting v = true \/ exists k' w', workers st !! k' = Some w'
                     /\ on w' = on w /\ in_tick (at_place w') = true)
           end)
  /\ (forall k w v, workers st !! k = Some w -> at_place w = in_rearm -> services st !! on w = Some v ->
      one_to_one = true -> waiting v = false /\ h_keep_running ∉ ready v).
Proof.
  intros Hrun Hr. pose proof (system_run_ok _ ls _ _ (initial_ok one_to_one) Hrun) as Hok.
  destruct (to_running _ (ok_threads _ _ Hok) Hr) as [_ Hex]. pose proof (ok_services _ _ Hok) as Hso.
  split_and!; [done| | |].
  - apply Forall_lookup. intros i v Hv. by apply (so_running _ _ Hso i v Hr Hv).
  - intros k w Hk Hp. destruct (to_alive _ (ok_threads _ _ Hok) k w Hk) as [_ [v Hv]%lookup_lt_is_Some_2]; [by rewrite Hp|].
    destruct (so_running _ _ Hso _ v Hr Hv) as [Hs Ht]. exists v. split; [done|].
    assert (1 <= ticks st (on w) v)%nat as H1 by (apply Ht; exists k, w; by rewrite Hp).
    unfold worker_step. rewrite Hk. cbn [mbind option_bind]. rewrite Hp, Hv. cbn [mbind option_bind]. rewrite Hs.
    destruct (ready v) as [|h l] eqn:El; [|by eexists; split; [reflexivity|destruct h]].
    destruct (stays_running _ _ _ _ _ Hso Hk Hv H1) as [-> _]; [by rewrite Hp|done|]. split; [done|].
    unfold ticks, stored_ticks in H1. rewrite El in H1. destruct (waiting v); [by left|right]. cbn in H1.
    destruct (decide (Exists (fun w' => ticking (on w) w' = 1%nat) (workers st))) as [He|Hne].
    + apply Exists_exists in He as (w' & (k' & Hk')%list_elem_of_lookup & Hw'). exists k', w'. split; [done|].
      unfold ticking in Hw'. destruct (Nat.eqb_spec (on w') (on w)) as [E|]; [|done]. split; [done|].
      by destruct (in_tick (at_place w')).
    + rewrite sum_list_with_zero in H1; [lia|]. apply Forall_Exists_neg in Hne. eapply Forall_impl; [exact Hne|].
      intros w' Hw'. unfold ticking in *. by destruct (_ && _).
  - intros k w v Hk Hp Hv Hone. pose proof (so_once _ _ Hso _ v Hone Hv) as H.
    pose proof (sum_list_with_lookup (ticking (on w)) _ _ _ Hk) as H1. unfold ticking in H1 at 1.
    rewrite Nat.eqb_refl, Hp in H1. cbn in H1. unfold ticks, stored_ticks in H. split; [destruct (waiting v); [lia|done]|].
    intros (n & Hn)%list_elem_of_lookup. pose proof (sum_list_with_lookup is_tick _ _ _ Hn) as H2. cbn in H2. lia.
Qed.

Abbreviation worked := [l_set_threads 2; l_startup; l_post returns; l_worker 1; l_worker 1; l_worker 0; l_expire 0; l_worker 0].
Lemma running_scheduler_works_witness :
  exists st, system_run true worked (initial true) = Some st /\ Forall (fun v => stopped v = false) (services st).
Proof.
  eexists. split; [vm_compute; reflexivity|].
  by apply (running_scheduler_works true worked).
Defined.
