(* ===== verification/SchedulerShutdown.v ===== *)
(** * Shutting the scheduler down

    The theorems on [scheduler::shutdown] and [scheduler::join] with the threads of
    [EventLoops]: a shutdown ends and leaves no thread, nobody sleeps in [join] for ever; and
    the runs in which the scheduler deadlocks, spins, or leaves work undone. *)
From S2P Require Import Prelude CLib Scheduler EventLoops.

(** ** A shutdown ends *)

(** The steps a task, a handler, a service, a thread and the thread that shuts down have left. *)
Fixpoint task_cost (t : task) : nat :=
  match t with
  | returns | throws => 1
  | posts t k => 2 + task_cost t + task_cost k
  | removes_user k => 1 + task_cost k
  end.
Definition handler_cost (h : handler) : nat := match h with h_keep_running => 2 | h_task t => 1 + task_cost t end.
Definition service_cost (v : io_service) : nat := sum_list_with handler_cost (ready v) + (if waiting v then 3 else 0).
Definition worker_cost (w : worker) : nat :=
  match at_place w with
  | at_test => 1 | in_run => 2 | in_task t => 2 + task_cost t | in_keep_running => 3 | in_rearm => 6 | exited => 0
  end.
Definition client_cost (j : nat) (st : system) : nat :=
  match clients st !! j with
  | Some (c_stopping i) => (length (services st) - i) + 2 + length (m_thread_pool (sched st))
  | Some (c_joining l) => 1 + length l
  | _ => 0
  end.
Definition system_cost (j : nat) (st : system) : nat :=
  sum_list_with worker_cost (workers st) + sum_list_with service_cost (services st) + client_cost j st.

(** Handlers that take the mutex of the scheduler: [post] of a [one_to_one_scheduler] does. *)
Fixpoint lock_free_task (one_to_one : bool) (t : task) : bool :=
  match t with
  | returns | throws => true
  | posts t k => negb one_to_one && lock_free_task one_to_one t && lock_free_task one_to_one k
  | removes_user _ => false
  end.
Definition lock_free_handler (one_to_one : bool) (h : handler) : bool :=
  match h with h_keep_running => true | h_task t => lock_free_task one_to_one t end.
Definition lock_free_worker (one_to_one : bool) (w : worker) : bool :=
  match at_place w with in_task t => lock_free_task one_to_one t | _ => true end.
Definition lock_free (one_to_one : bool) (st : system) : Prop :=
  Forall (fun w => lock_free_worker one_to_one w = true) (workers st)
  /\ Forall (fun v => Forall (fun h => lock_free_handler one_to_one h = true) (ready v)) (services st).

(** The steps of the thread that shuts down, of the workers and of the timers. *)
Definition of_shutdown (j : nat) (l : label) : bool :=
  match l with l_worker _ | l_expire _ => true | l_client j' => (j =? j')%nat | _ => false end.

(** While [shutdown] has the mutex, and when it has returned. *)
Definition shutting_down (j : nat) (st : system) : Prop :=
  m_is_running (sched st) = false
  /\ ((exists c, clients st !! j = Some c /\ holding c = true)
      \/ clients st !! j = Some c_done /\ Forall (fun w => at_place w = exited) (workers st) /\ m_thread_pool (sched st) = []).

Lemma on_service_insert i f st v : services st !! i = Some v ->
  on_service i f st = mk_system (sched st) (<[i := f v]> (services st)) (workers st) (clients st).
Proof.
  intros Hv. unfold on_service. f_equal. apply list_eq. intros n. rewrite list_lookup_alter, list_lookup_insert.
  pose proof (lookup_lt_Some _ _ _ Hv). repeat case_decide; subst; try tauto. by rewrite Hv.
Qed.

(** A worker and its service change: what that costs, and that no mutex is needed later. *)
Section MoveCost.
Context (one_to_one : bool) (j k : nat) (w : worker) (p : place) (f : io_service -> io_service) (v : io_service) (st : system).
Context (Hk : workers st !! k = Some w) (Hv : services st !! on w = Some v).
Let st' := worker_at k (on w) p (on_service (on w) f st).

Lemma move_cost :
  (worker_cost (mk_worker (on w) p) + service_cost (f v) < worker_cost w + service_cost v)%nat ->
  (system_cost j st' < system_cost j st)%nat.
Proof using Hk Hv.
  intros H. unfold st', system_cost, client_cost. rewrite (on_service_insert _ _ _ v Hv).
  cbn [worker_at sched services workers clients]. rewrite length_insert.
  pose proof (sum_list_with_insert worker_cost _ k w (mk_worker (on w) p) Hk).
  pose proof (sum_list_with_insert service_cost _ (on w) v (f v) Hv). lia.
Qed.

Lemma move_lock_free :
  lock_free_worker one_to_one (mk_worker (on w) p) = true ->
  Forall (fun h => lock_free_handler one_to_one h = true) (ready (f v)) ->
  lock_free one_to_one st -> lock_free one_to_one st'.
Proof using Hv.
  intros H1 H2 [Hw Hs]. unfold st'. rewrite (on_service_insert _ _ _ v Hv). split; cbn; by apply Forall_insert.
Qed.
End MoveCost.

Lemma work_finished_same v : ready (work_finished v) = ready v /\ waiting (work_finished v) = waiting v.
Proof. unfold work_finished, stop_without_work. by destruct (out_of_work _). Qed.

Lemma service_cost_finished v : service_cost (work_finished v) = service_cost v.
Proof. unfold service_cost. by destruct (work_finished_same v) as [-> ->]. Qed.

Lemma service_cost_rearm v : (service_cost (rearm v) <= service_cost v + 3)%nat.
Proof. unfold service_cost, rearm. cbn. rewrite sum_list_with_app. destruct (waiting v); cbn; lia. Qed.

(** A step of a worker while the mutex is held. *)
Lemma worker_step_cost one_to_one j k st st' :
  ok one_to_one st -> m_is_running (sched st) = false -> mutex_free st = false -> lock_free one_to_one st ->
  worker_step one_to_one k st = Some st' ->
  (system_cost j st' < system_cost j st)%nat /\ lock_free one_to_one st'
  /\ sched st' = sched st /\ clients st' = clients st.
Proof.
  intros Hok Hr Hm Hlf. unfold worker_step. destruct (workers st !! k) as [w|] eqn:Hk; [|done]. cbn [mbind option_bind].
  assert (at_place w = exited \/ at_place w <> exited) as [E|Hx] by (destruct (at_place w); auto); [by rewrite E|].
  destruct (to_alive _ (ok_threads _ _ Hok) k w Hk Hx) as [_ [v Hv]%lookup_lt_is_Some_2].
  assert (lock_free_worker one_to_one w = true) as Hlw by (destruct Hlf as [H _]; rewrite Forall_lookup in H; by apply (H k w)).
  assert (Forall (fun h => lock_free_handler one_to_one h = true) (ready v)) as Hlv
    by (destruct Hlf as [_ H]; rewrite Forall_lookup in H; by apply (H (on w) v)).
  assert (forall p f, (worker_cost (mk_worker (on w) p) + service_cost (f v) < worker_cost w + service_cost v)%nat ->
            lock_free_worker one_to_one (mk_worker (on w) p) = true ->
            Forall (fun h => lock_free_handler one_to_one h = true) (ready (f v)) ->
            let st' := worker_at k (on w) p (on_service (on w) f st) in
            (system_cost j st' < system_cost j st)%nat /\ lock_free one_to_one st'
            /\ sched st' = sched st /\ clients st' = clients st) as Hmove.
  { intros p f H1 H2 H3. split_and!; [by eapply move_cost|by eapply move_lock_free|done..]. }
  assert (forall p, (worker_cost (mk_worker (on w) p) < worker_cost w)%nat -> lock_free_worker one_to_one (mk_worker (on w) p) = true ->
            let st' := worker_at k (on w) p st in
            (system_cost j st' < system_cost j st)%nat /\ lock_free one_to_one st'
            /\ sched st' = sched st /\ clients st' = clients st) as Hplace.
  { intros p H1 H2. specialize (Hmove p id). rewrite on_service_id in Hmove. apply Hmove; unfold id; [lia|done..]. }
  unfold lock_free_worker in Hlw. unfold worker_cost in Hmove, Hplace.
  destruct (work_finished_same v) as [Efr _]. pose proof (service_cost_finished v) as Efc.
  destruct (at_place w) as [| |[| |t t'|t]| | |] eqn:Ep; try done; cbn [task_cost] in *.
  - intros [= <-]. rewrite Hr. apply Hplace; cbn; [lia|done].
  - rewrite Hv. cbn [mbind option_bind]. destruct (stopped v); [intros [= <-]; apply Hplace; cbn; [lia|done]|].
    destruct (ready v) as [|h l] eqn:El.
    + destruct (out_of_work v); [|done]. intros [= <-]. apply Hmove; cbn; [unfold service_cost; cbn; lia|done|by rewrite El].
    + intros [= <-]. inversion_clear Hlv as [|? ? H1 H2]. apply Hmove; [|by destruct h|done].
      unfold service_cost. rewrite El. destruct h; cbn; lia.
  - intros [= <-]. apply Hmove; cbn [at_place lock_free_worker]; rewrite ?Efr; try done. lia.
  - intros [= <-]. apply Hmove; cbn [at_place lock_free_worker]; rewrite ?Efr; try done. lia.
  - cbn in Hlw. apply andb_true_iff in Hlw as [[Ho Ht]%andb_true_iff Ht']. destruct one_to_one; [done|].
    unfold post. cbn. intros [= <-]. destruct (services st !! 0%nat) as [v0|] eqn:Hv0.
    2: { apply lookup_ge_None in Hv0. rewrite (so_single _ _ (ok_services _ _ Hok)) in Hv0 by done. lia. }
    rewrite (on_service_insert 0 _ st v0 Hv0). split_and!; [| |done..].
    + unfold system_cost, client_cost. cbn [worker_at sched services workers clients]. rewrite length_insert.
      pose proof (sum_list_with_insert worker_cost _ k w (mk_worker (on w) (in_task t')) Hk) as H1.
      pose proof (sum_list_with_insert service_cost _ 0 v0 (post_handler (h_task t) v0) Hv0) as H2.
      assert (service_cost (post_handler (h_task t) v0) = (service_cost v0 + (1 + task_cost t))%nat) as Ec.
      { unfold service_cost, post_handler. cbn. rewrite sum_list_with_app. cbn. lia. }
      unfold worker_cost at 2 4 in H1. rewrite Ep in H1. cbn [at_place task_cost] in H1. lia.
    + destruct Hlf as [H1 H2]. split; cbn; apply Forall_insert; try done. apply Forall_app. split; [|by constructor].
      rewrite Forall_lookup in H2. by apply (H2 0%nat v0).
  - intros [= <-]. rewrite Hr. apply Hmove; cbn [at_place lock_free_worker]; rewrite ?Efr; try done. lia.
  - intros [= <-]. destruct (work_finished_same (rearm v)) as [Er _]. apply Hmove; cbn [at_place lock_free_worker compose]; [|done|].
    + rewrite service_cost_finished. pose proof (service_cost_rearm v). lia.
    + rewrite Er. cbn. apply Forall_app. split; [done|]. destruct (waiting v); by repeat constructor.
Qed.

(** ** [join] *)

(** What a step does to the other threads. *)
Lemma post_frame one_to_one t st st' : post one_to_one t st = Some st' ->
  m_is_running (sched st') = m_is_running (sched st) /\ clients st' = clients st.
Proof.
  unfold post. destruct one_to_one; [|by intros [= <-]]. destruct (mutex_free st); [|done]. cbn [negb].
  destruct (get_io_service (sched st)) as [[s i]|] eqn:E; [|done]. apply get_io_service_result in E as [-> _].
  by intros [= <-].
Qed.

Lemma remove_user_frame st : m_is_running (sched (remove_user_locked st)) = m_is_running (sched st)
  /\ (clients (remove_user_locked st) = clients st \/ clients (remove_user_locked st) = wake_shutdown <$> clients st).
Proof. unfold remove_user_locked. destruct (remove_active_user (sched st)) as [s b] eqn:E. injection E as <- _. destruct b; cbn; auto. Qed.

Lemma worker_step_frame one_to_one k st st' : worker_step one_to_one k st = Some st' ->
  m_is_running (sched st') = m_is_running (sched st)
  /\ (clients st' = clients st \/ clients st' = wake_shutdown <$> clients st).
Proof.
  unfold worker_step. destruct (workers st !! k) as [w|]; [|done]. cbn [mbind option_bind].
  destruct (at_place w) as [| |[| |t1 t2|t1]| | |]; try done; try (intros [= <-]; cbn; auto; fail).
  - destruct (services st !! on w) as [v|]; [|done]. cbn [mbind option_bind].
    destruct (stopped v); [intros [= <-]; cbn; auto|]. destruct (ready v); [destruct (out_of_work v); [|done]|];
      intros [= <-]; cbn; auto.
  - intros (st1 & E & ->)%fmap_Some. destruct (post_frame _ _ _ _ E). cbn. auto.
  - destruct (mutex_free st); [|done]. intros [= <-]. apply remove_user_frame.
  - intros [= <-]. destruct (m_is_running (sched st)) eqn:E; cbn; rewrite ?E; auto.
Qed.

(** A thread sleeps in [join] only while the scheduler runs or is being shut down. *)
Definition joiners_ok (st : system) : Prop :=
  forall i, clients st !! i = Some c_join_asleep -> m_is_running (sched st) = true \/ mutex_free st = false.

(** The other threads move as they were, or are woken; the mutex stays with who has it. *)
Lemma joiners_move st st' :
  m_is_running (sched st') = m_is_running (sched st) \/ m_is_running (sched st') = true -> same_holders (clients st) (clients st') ->
  (forall i, clients st' !! i = Some c_join_asleep -> clients st !! i = Some c_join_asleep \/ m_is_running (sched st') = true) ->
  joiners_ok st -> joiners_ok st'.
Proof.
  intros Hr Hh Hc Hj i Hi. destruct (Hc i Hi) as [Hi'|]; [|by left].
  assert (mutex_free st' = mutex_free st) as Hm by (rewrite <- (same_holders_free st (clients st') Hh); done).
  rewrite Hm. destruct (Hj i Hi') as [H|]; [left; destruct Hr; congruence|by right].
Qed.

Lemma joiners_insert st st' j c c' :
  clients st !! j = Some c -> holding c = false -> holding c' = false -> clients st' = <[j := c']> (clients st) ->
  m_is_running (sched st') = m_is_running (sched st) \/ m_is_running (sched st') = true ->
  (c' = c_join_asleep -> m_is_running (sched st') = true) ->
  joiners_ok st -> joiners_ok st'.
Proof.
  intros Hj Hc Hc' E Hr Ha. apply joiners_move; [done|rewrite E; by eapply same_holders_insert|].
  intros i. rewrite E, list_lookup_insert. case_decide as Ei; [|by left]. intros [= H]. right. by apply Ha.
Qed.

Lemma joiners_holder (st' : system) j c : clients st' !! j = Some c -> holding c = true -> joiners_ok st'.
Proof. intros Hj Hc i _. right. by eapply holder_not_free. Qed.

Lemma same_holders_wake l : same_holders l (wake_shutdown <$> l).
Proof. apply same_holders_fmap; by intros []. Qed.

Lemma joiners_wake (l : list client) (i : nat) : (wake_shutdown <$> l) !! i = Some c_join_asleep -> l !! i = Some c_join_asleep.
Proof. rewrite list_lookup_fmap. destruct (l !! i) as [[]|]; cbn; congruence. Qed.

Lemma client_step_joiners one_to_one j st st' :
  joiners_ok st -> client_step one_to_one j st = Some st' -> joiners_ok st'.
Proof.
  intros Hok. unfold client_step. destruct (clients st !! j) as [c|] eqn:Hj; [|done]. cbn [mbind option_bind].
  pose proof (lookup_lt_Some _ _ _ Hj) as Hlt.
  assert (joiners_ok (wait_for_users j st) \/ holding c = true) as Hwait.
  { destruct (holding c) eqn:Hc; [by right|left]. unfold wait_for_users. destruct (0 <? _).
    - eapply (joiners_insert st _ j c c_shutdown_asleep); auto; done.
    - eapply (joiners_holder _ j (c_stopping 0)); [|done]. cbn. by apply list_lookup_insert_eq. }
  destruct c as [| | |n|[|t l]| | | | | |]; try done.
  - destruct (mutex_free st); [|done]. intros [= <-]. unfold begin_shutdown. destruct (m_is_running (sched st)); [by destruct Hwait|].
    eapply (joiners_holder _ j (c_stopping 0)); [|done]. cbn. by apply list_lookup_insert_eq.
  - destruct (mutex_free st); [|done]. intros [= <-]. by destruct Hwait.
  - intros [= <-]. destruct (n <? _)%nat; (eapply (joiners_holder _ j); [cbn; by apply list_lookup_insert_eq|done]).
  - intros [= <-] i. cbn. destruct (decide (j = i)) as [<-|Hne].
    + by rewrite list_lookup_insert_eq by (by rewrite length_fmap).
    + rewrite list_lookup_insert_ne, list_lookup_fmap by done. by destruct (clients st !! i) as [[]|].
  - destruct (has_exited st t); [|done]. intros [= <-].
    eapply (joiners_holder _ j (c_joining l)); [|done]. cbn. by apply list_lookup_insert_eq.
  - destruct (mutex_free st); [|done]. intros [= <-]. destruct (m_is_running (sched st)) eqn:Er; eapply joiners_insert; eauto; done.
  - destruct (m_is_running (sched st)) eqn:Er; [intros [= <-]; eapply (joiners_insert st _ j _ c_count_user); eauto; by left|].
    destruct (mutex_free st); [|done]. intros [= <-].
    eapply (joiners_insert st _ j _ c_count_user); try done; unfold startup_locked, startup_one_to_one, startup_single;
      rewrite Er; destruct one_to_one; cbn; auto.
  - destruct (mutex_free st); [|done]. intros [= <-]. eapply (joiners_insert st _ j _ c_done); eauto; done.
  - destruct (mutex_free st); [|done]. intros [= <-].
    assert (joiners_ok (remove_user_locked st)) as H1.
    { destruct (remove_user_frame st) as [H1 [H2|H2]]; apply (joiners_move st); auto; rewrite H2; auto.
      - done.
      - apply same_holders_wake.
      - intros i Hi. left. by apply joiners_wake. }
    eapply (joiners_insert (remove_user_locked st) _ j c_remove_user c_done); try done; [|by left].
    destruct (remove_user_frame st) as [_ [->| ->]]; [done|]. by rewrite list_lookup_fmap, Hj.
Qed.

Lemma system_step_joiners one_to_one l st st' :
  joiners_ok st -> system_step one_to_one l st = Some st' -> joiners_ok st'.
Proof.
  intros Hok. destruct l as [k|j|i|c|j| |t|n]; cbn [system_step].
  - intros E. destruct (worker_step_frame _ _ _ _ E) as [Hr [Hc|Hc]]; apply (joiners_move st); auto; rewrite Hc; auto.
    + done.
    + apply same_holders_wake.
    + intros i Hi. left. by apply joiners_wake.
  - by apply client_step_joiners.
  - destruct (services st !! i) as [v|]; [|done]. cbn [mbind option_bind]. destruct (waiting v); [|done].
    intros [= <-]. exact Hok.
  - destruct (starts c) eqn:Hc; [|done]. intros [= <-]. apply (joiners_move st); auto; cbn.
    + apply same_holders_snoc. by destruct c.
    + intros i [Hi|[_ Hi]]%lookup_app_Some; [by left|]. destruct (i - length (clients st))%nat; [|done].
      injection Hi as ->. done.
  - destruct (clients st !! j) as [c|] eqn:Hj; [|done]. cbn [mbind option_bind].
    destruct c; try done; intros [= <-]; eapply joiners_insert; eauto; done.
  - destruct (mutex_free st) eqn:Hm; [|done]. intros [= <-]. unfold startup_locked.
    destruct (m_is_running (sched st)) eqn:Er; [done|]. intros i Hi. left.
    unfold startup_one_to_one, startup_single. rewrite Er. by destruct one_to_one.
  - intros E. destruct (post_frame _ _ _ _ E) as [Hr Hc]. apply (joiners_move st); auto; rewrite Hc; auto. done.
  - intros [= <-]. exact Hok.
Qed.

(** A thread that sleeps in [join] sleeps only while the scheduler runs or is being shut down. *)
Lemma joiners_awake one_to_one ls st :
  system_run one_to_one ls (initial one_to_one) = Some st -> joiners_ok st.
Proof.
  assert (forall ls st st', joiners_ok st -> system_run one_to_one ls st = Some st' -> joiners_ok st') as H.
  { clear. induction ls as [|l ls IH]; intros st st' Hok; cbn [system_run]; [by intros [= <-]|].
    destruct (system_step one_to_one l st) as [st1|] eqn:E; [|done]. apply IH. by eapply system_step_joiners. }
  apply H. done.
Qed.

Lemma reset_cost vs : sum_list_with service_cost (reset_service <$> vs) = sum_list_with service_cost vs.
Proof. induction vs as [|v vs IH]; [done|]. rewrite fmap_cons. cbn [sum_list_with]. by rewrite IH. Qed.

Lemma of_shutdown_step one_to_one j l st st' :
  ok one_to_one st -> shutting_down j st -> lock_free one_to_one st -> of_shutdown j l = true ->
  system_step one_to_one l st = Some st' ->
  (system_cost j st' < system_cost j st)%nat /\ shutting_down j st' /\ lock_free one_to_one st'.
Proof.
  intros Hok [Hr Hsd] Hlf Hl. destruct l as [k|j'|i|c|j'| |t|n]; cbn [of_shutdown system_step] in *; try done.
  - destruct Hsd as [(c & Hj & Hc)|(Hj & Hall & _)].
    + intros E. destruct (worker_step_cost _ j k st st' Hok Hr (holder_not_free st j c Hj Hc) Hlf E) as (H1 & H2 & E1 & E2).
      split_and!; [done| |done]. split; [congruence|]. left. exists c. by rewrite E2.
    + unfold worker_step. destruct (workers st !! k) as [w|] eqn:Hk; [|done]. cbn [mbind option_bind].
      rewrite Forall_lookup in Hall. by rewrite (Hall k w Hk).
  - apply Nat.eqb_eq in Hl as <-. unfold client_step. destruct Hsd as [(c & Hj & Hc)|[-> _]]; [|done].
    rewrite Hj. cbn [mbind option_bind]. pose proof (lookup_lt_Some _ _ _ Hj) as Hlt.
    destruct c as [| | |i|[|t l]| | | | | |]; try done.
    + intros [= <-]. destruct (Nat.ltb_spec i (length (services st))) as [Hi|Hi].
      * destruct (lookup_lt_is_Some_2 _ _ Hi) as [v Hv]. rewrite (on_service_insert i _ st v Hv). split_and!.
        -- unfold system_cost, client_cost. cbn [client_at sched services workers clients].
           rewrite Hj, list_lookup_insert_eq, length_insert by done.
           pose proof (sum_list_with_insert service_cost _ i v (stop_service v) Hv) as H. unfold service_cost at 2 4 in H. cbn in H. lia.
        -- split; [done|]. left. eexists. cbn. rewrite list_lookup_insert_eq by done. done.
        -- destruct Hlf as [H1 H2]. split; [done|]. cbn. apply Forall_insert; [done|]. rewrite Forall_lookup in H2. by apply (H2 i v).
      * split_and!; [| |done].
        -- unfold system_cost, client_cost. cbn [client_at sched services workers clients].
           rewrite Hj, list_lookup_insert_eq by done. unfold stop_threads.
           pose proof (length_filter (fun t => t <> no_thread) (m_thread_pool (sched st))). lia.
        -- split; [done|]. left. eexists. cbn. rewrite list_lookup_insert_eq by done. done.
    + intros [= <-]. assert (sum_list_with service_cost (if one_to_one then [] else reset_service <$> services st)
                             <= sum_list_with service_cost (services st))%nat as Hle.
      { destruct one_to_one; [cbn; lia|by rewrite reset_cost]. }
      split_and!.
      * unfold system_cost, client_cost. cbn [client_at finish_locked sched services workers clients].
        rewrite Hj, list_lookup_insert_eq by (by rewrite length_fmap). cbn [length]. lia.
      * split; [done|]. right. cbn. rewrite list_lookup_insert_eq by (by rewrite length_fmap). split_and!; [done| |done].
        apply Forall_lookup. by apply (all_joined st j (ok_threads _ _ Hok)).
      * destruct Hlf as [H1 H2]. split; [done|]. cbn. destruct one_to_one; [by constructor|]. by apply Forall_fmap.
    + destruct (has_exited st t); [|done]. intros [= <-]. split_and!; [| |done].
      * unfold system_cost, client_cost. cbn [client_at sched services workers clients].
        rewrite Hj, list_lookup_insert_eq by done. cbn [length]. lia.
      * split; [done|]. left. eexists. cbn. rewrite list_lookup_insert_eq by done. done.
  - destruct (services st !! i) as [v|] eqn:Hv; [|done]. cbn [mbind option_bind]. destruct (waiting v) eqn:Ew; [|done].
    intros [= <-]. rewrite (on_service_insert i _ st v Hv). split_and!.
    + unfold system_cost, client_cost. cbn [sched services workers clients]. rewrite length_insert.
      pose proof (sum_list_with_insert service_cost _ i v (expire v) Hv) as H. unfold service_cost at 2 4 in H.
      cbn [expire ready waiting] in H. rewrite Ew, sum_list_with_app in H. cbn in H. lia.
    + split; done.
    + destruct Hlf as [H1 H2]. split; [done|]. cbn. apply Forall_insert; [done|]. apply Forall_app.
      split; [|by repeat constructor]. rewrite Forall_lookup in H2. by apply (H2 i v).
Qed.

(** While the mutex is held, someone can go on. *)
Lemma shutdown_goes_on one_to_one j c st :
  ok one_to_one st -> clients st !! j = Some c -> holding c = true -> lock_free one_to_one st ->
  exists l st', of_shutdown j l = true /\ system_step one_to_one l st = Some st'.
Proof.
  intros Hok Hj Hc [Hlf _]. assert (forall st', client_step one_to_one j st = Some st' ->
    exists l st', of_shutdown j l = true /\ system_step one_to_one l st = Some st') as Hclient.
  { intros st' E. exists (l_client j), st'. cbn. by rewrite Nat.eqb_refl. }
  unfold client_step in Hclient. rewrite Hj in Hclient. cbn [mbind option_bind] in Hclient.
  destruct c as [| | |i|[|t l]| | | | | |]; try done; try by eapply Hclient.
  destruct (has_exited st t) eqn:Et; [by eapply Hclient|]. clear Hclient. unfold has_exited in Et.
  destruct (workers st !! pred t) as [w|] eqn:Hk; [|done].
  assert (exists st', worker_step one_to_one (pred t) st = Some st') as [st' E].
  { destruct (to_alive _ (ok_threads _ _ Hok) _ w Hk) as [_ [v Hv]%lookup_lt_is_Some_2]; [by intros E; rewrite E in Et|].
    pose proof (to_stopped _ (ok_threads _ _ Hok) j _ _ v Hj Hv I) as Hs.
    rewrite Forall_lookup in Hlf. specialize (Hlf _ _ Hk). unfold lock_free_worker in Hlf.
    unfold worker_step. rewrite Hk. cbn [mbind option_bind]. rewrite Hv. cbn [mbind option_bind].
    destruct (at_place w) as [| |[| |t1 t2|t1]| | |]; try done; try (by eexists).
    - rewrite Hs. by eexists.
    - cbn in Hlf. destruct one_to_one; [done|]. by eexists. }
  exists (l_worker (pred t)), st'. done.
Qed.

Lemma of_shutdown_run one_to_one j ls : forall st st',
  ok one_to_one st -> shutting_down j st -> lock_free one_to_one st -> Forall (fun l => of_shutdown j l = true) ls ->
  system_run one_to_one ls st = Some st' ->
  (length ls + system_cost j st' <= system_cost j st)%nat
  /\ ok one_to_one st' /\ shutting_down j st' /\ lock_free one_to_one st'.
Proof.
  induction ls as [|l ls IH]; intros st st' Hok Hsd Hlf Hls; cbn [system_run]; [by intros [= <-]|].
  inversion_clear Hls as [|? ? Hl Hls'].
  destruct (system_step one_to_one l st) as [st1|] eqn:E; [|done]. cbn [mbind option_bind]. intros E2.
  destruct (of_shutdown_step _ _ _ _ _ Hok Hsd Hlf Hl E) as (H1 & Hsd1 & Hlf1).
  destruct (IH st1 st' (system_step_ok _ _ _ _ Hok E) Hsd1 Hlf1 Hls' E2) as (H2 & H3). cbn [length]. split; [lia|done].
Qed.

(** C23: a shutdown ends, and no thread is left.  Take any state that the threads can reach in
    which a thread has taken the mutex for [shutdown], and in which no handler takes the
    mutex.  However the threads and the timers go on, there are at most [system_cost] steps;
    until [shutdown] has returned one of them can go on, so no order of steps is a deadlock; and when
    it has returned every thread that was ever started has exited and the pool is empty. *)
Theorem shutdown_finishes one_to_one ls st j c ls' st' :
  system_run one_to_one ls (initial one_to_one) = Some st ->
  clients st !! j = Some c -> holding c = true -> lock_free one_to_one st ->
  Forall (fun l => of_shutdown j l = true) ls' -> system_run one_to_one ls' st = Some st' ->
  (length ls' <= system_cost j st)%nat
  /\ match clients st' !! j with
     | Some c_done => Forall (fun w => at_place w = exited) (workers st') /\ m_thread_pool (sched st') = []
     | _ => exists l st'', of_shutdown j l = true /\ system_step one_to_one l st' = Some st''
     end.
Proof.
  intros Hrun Hj Hc Hlf Hls Hrun'. pose proof (system_run_ok _ ls _ _ (initial_ok one_to_one) Hrun) as Hok.
  assert (shutting_down j st) as Hsd.
  { split; [by apply (holder_stopped st j c (ok_threads _ _ Hok))|]. left. by exists c. }
  destruct (of_shutdown_run _ _ _ _ _ Hok Hsd Hlf Hls Hrun') as (H1 & Hok' & [Hr Hsd'] & Hlf'). split; [lia|].
  destruct Hsd' as [(c' & Hj' & Hc')|(Hj' & Hall & Hpool)]; rewrite Hj'; [|done].
  destruct c'; try done; by eapply shutdown_goes_on.
Qed.

Abbreviation stopping := ([l_set_threads 2; l_startup; l_post returns; l_worker 1; l_worker 1; l_call c_shutdown; l_client 0]).
Abbreviation stops := ([l_client 0; l_worker 0; l_client 0; l_worker 1; l_client 0; l_worker 1; l_client 0; l_worker 1; l_client 0; l_client 0]).
Lemma shutdown_finishes_witness :
  exists st st', system_run true stopping (initial true) = Some st /\ system_run true stops st = Some st'
    /\ Forall (fun w => at_place w = exited) (workers st').
Proof.
  do 2 eexists. split; [vm_compute; reflexivity|]. split; [vm_compute; reflexivity|].
  match goal with |- Forall _ (workers ?s) =>
    refine (proj1 (proj2 (shutdown_finishes true stopping _ 0 (c_stopping 0) stops s _ _ _ _ _ _))) end;
    [vm_compute; reflexivity|reflexivity|reflexivity|by repeat constructor|by repeat constructor|vm_compute; reflexivity].
Defined.

(** ** Deviations *)

(** A handler that posts work while the scheduler is shut down waits for the mutex, which the
    thread keeps that waits for the handler. *)
Lemma post_in_shutdown_deadlocks :
  exists ls st, system_run true ls (initial true) = Some st /\ clients st !! 0%nat = Some (c_joining [1%nat])
    /\ forall k, worker_step true k st = None /\ client_step true k st = None.
Proof.
  exists [l_set_threads 1; l_startup; l_worker 0; l_post (posts returns returns); l_worker 0; l_call c_shutdown;
          l_client 0; l_client 0; l_client 0].
  eexists. split; [vm_compute; reflexivity|]. split; [reflexivity|]. by intros [|[|k]].
Qed.

(** A [single_service_scheduler] that is started again has two calls of [keep_running], each of
    which cancels the wait of the other: a thread executes them all the time. *)
Lemma restarted_scheduler_spins :
  exists ls st, system_run false ls (initial false) = Some st /\ m_is_running (sched st) = true
    /\ system_run false [l_worker 1; l_worker 1; l_worker 1] st = Some st.
Proof.
  exists [l_set_threads 1; l_startup; l_call c_shutdown; l_client 0; l_client 0; l_client 0; l_worker 0; l_client 0; l_client 0;
          l_startup; l_worker 1].
  eexists. split; [vm_compute; reflexivity|]. split; reflexivity.
Qed.

(** When the number of threads is raised while the scheduler runs, a service gets work that no
    thread executes. *)
Lemma service_without_thread :
  exists ls st v, system_run true ls (initial true) = Some st /\ services st !! 1%nat = Some v
    /\ ready v = [h_task returns] /\ waiting v = false /\ Forall (fun w => on w <> 1%nat) (workers st).
Proof.
  exists [l_set_threads 1; l_startup; l_set_threads 2; l_post returns].
  do 2 eexists. split; [vm_compute; reflexivity|]. split; [reflexivity|]. split; [reflexivity|]. split; [reflexivity|].
  by repeat constructor.
Qed.
