(* ===== verification/TcpServer.v ===== *)
(** * The TCP server

    Models [tcp::server] (src/tcp_server.cpp, include/pion/tcp/server.hpp): the pool of
    connections and the operations on it by the threads of the scheduler.  What happens while
    the mutex is held is one step; what a thread does next is part of the state, so the steps
    of several threads interleave.  A connection object is a number.  asio's acceptor is an
    input: it decides when it has accepted a connection or failed.  Closing the socket of a
    connection and the conditions that wake up waiting threads only shorten the waiting and
    are not part of the state. *)
From stdpp Require Import gmap.
From S2P Require Import Prelude CLib.

(** ** State *)

Definition conn_id := nat.

(** Who holds a reference to a connection, apart from the pool: the acceptor, the thread in
    [handle_accept] (which has read [m_is_listening], or has called [listen] after that), the
    handshake of SSL, or the handler of the protocol. *)
Inductive holder :=
| held_by_acceptor
| held_accepted (error relisten : bool)
| held_handle (error : bool)
| held_handshake
| held_by_handler.

(** What a thread in [start] or [stop] still has to do. *)
Inductive thread :=
| thread_start_listen  (* [start], after it has released the mutex *)
| thread_start_user
| thread_stopping.  (* [stop], in the loop that waits *)

Record tcp_server := mk_tcp_server {
  m_is_listening : bool;
  m_conn_pool : gset conn_id;
  m_ssl_flag : bool;
  holders : gmap conn_id holder;
  threads : list thread;
  created : conn_id;  (* the number of connection objects so far *)
  active_users : Z  (* what the server added to the scheduler *)
}.

Definition new_tcp_server (ssl : bool) : tcp_server := mk_tcp_server false ∅ ssl ∅ [] 0%nat 0.

Definition with_pool (pool : gset conn_id) (s : tcp_server) : tcp_server :=
  mk_tcp_server (m_is_listening s) pool (m_ssl_flag s) (holders s) (threads s) (created s)
    (active_users s).
Definition with_holders (h : gmap conn_id holder) (s : tcp_server) : tcp_server :=
  mk_tcp_server (m_is_listening s) (m_conn_pool s) (m_ssl_flag s) h (threads s) (created s)
    (active_users s).
Definition with_threads (l : list thread) (s : tcp_server) : tcp_server :=
  mk_tcp_server (m_is_listening s) (m_conn_pool s) (m_ssl_flag s) (holders s) l (created s)
    (active_users s).
Definition with_listening (b : bool) (s : tcp_server) : tcp_server :=
  mk_tcp_server b (m_conn_pool s) (m_ssl_flag s) (holders s) (threads s) (created s)
    (active_users s).
Definition with_users (n : Z) (s : tcp_server) : tcp_server :=
  mk_tcp_server (m_is_listening s) (m_conn_pool s) (m_ssl_flag s) (holders s) (threads s)
    (created s) n.

(** The connection is held by [h] from now on, or by nobody. *)
Definition hold (c : conn_id) (h : holder) (s : tcp_server) : tcp_server :=
  with_holders (<[c := h]> (holders s)) s.
Definition release (c : conn_id) (s : tcp_server) : tcp_server :=
  with_holders (base.delete c (holders s)) s.

(** A connection of the pool that nobody else holds is [unique()]. *)
Definition held (s : tcp_server) : gset conn_id := dom (holders s).

(** ** Operations *)

(** [prune_connections]. *)
Definition prune_connections (s : tcp_server) : tcp_server * nat :=
  let pool := m_conn_pool s ∩ held s in (with_pool pool s, size pool).

(** [listen]: the new connection is inserted after the pool was pruned. *)
Definition listen (s : tcp_server) : tcp_server :=
  if m_is_listening s then
    let s := fst (prune_connections s) in
    let c := created s in
    mk_tcp_server true ({[c]} ∪ m_conn_pool s) (m_ssl_flag s) (<[c := held_by_acceptor]> (holders s))
      (threads s) (S c) (active_users s)
  else s.

(** [finish_connection]; it goes on with [handle_connection] when the connection is kept
    alive. *)
Definition finish_connection (c : conn_id) (keep_alive : bool) (s : tcp_server) : tcp_server :=
  if m_is_listening s && keep_alive then hold c held_by_handler s
  else with_pool (m_conn_pool s ∖ {[c]}) (release c s).

(** [get_connections]; the subtraction is that of [size_t]. *)
Definition get_connections (s : tcp_server) : Z :=
  if m_is_listening s then u64 (Z.of_nat (size (m_conn_pool s)) - 1)
  else Z.of_nat (size (m_conn_pool s)).

(** [handle_accept]: first [m_is_listening] is read, and [listen] is called. *)
Definition handle_accept (c : conn_id) (error : bool) (s : tcp_server) : tcp_server :=
  hold c (held_accepted error (m_is_listening s)) s.
Definition handle_accept_listen (c : conn_id) (error relisten : bool) (s : tcp_server) : tcp_server :=
  let s := hold c (held_handle error) s in
  if relisten then listen s else s.

(** Then the connection is finished, or handled, after the handshake if there is one; a new
    connection is not kept alive. *)
Definition handle_accept_connection (c : conn_id) (error : bool) (s : tcp_server) : tcp_server :=
  if error then finish_connection c false s
  else hold c (if m_ssl_flag s then held_handshake else held_by_handler) s.

Definition handle_ssl_handshake (c : conn_id) (error : bool) (s : tcp_server) : tcp_server :=
  if error then finish_connection c false s else hold c held_by_handler s.

(** *** Steps *)

Inductive server_step : tcp_server -> tcp_server -> Prop :=
(* start: the first part; when the acceptor fails nothing has changed *)
| step_start s :
    m_is_listening s = false ->
    server_step s (with_threads (thread_start_listen :: threads s) (with_listening true s))
| step_start_listen s l1 l2 :
    threads s = l1 ++ thread_start_listen :: l2 ->
    server_step s (listen (with_threads (l1 ++ thread_start_user :: l2) s))
| step_start_user s l1 l2 :
    threads s = l1 ++ thread_start_user :: l2 ->
    server_step s (with_users (active_users s + 1) (with_threads (l1 ++ l2) s))
(* the acceptor calls [handle_accept] *)
| step_accept s c error :
    holders s !! c = Some held_by_acceptor -> server_step s (handle_accept c error s)
| step_accepted s c error relisten :
    holders s !! c = Some (held_accepted error relisten) ->
    server_step s (handle_accept_listen c error relisten s)
| step_handle s c error :
    holders s !! c = Some (held_handle error) -> server_step s (handle_accept_connection c error s)
| step_handshake s c error :
    holders s !! c = Some held_handshake -> server_step s (handle_ssl_handshake c error s)
(* the protocol's handler calls [connection::finish] *)
| step_finish s c keep_alive :
    holders s !! c = Some held_by_handler -> server_step s (finish_connection c keep_alive s)
(* the protocol's handler drops the connection without finishing it *)
| step_orphan s c :
    holders s !! c = Some held_by_handler -> server_step s (release c s)
(* stop: the first part, a round of the loop that waits, and the end *)
| step_stop s :
    m_is_listening s = true ->
    server_step s (with_threads (thread_stopping :: threads s) (with_listening false s))
| step_stop_wait s :
    thread_stopping ∈ threads s -> m_conn_pool s <> ∅ -> snd (prune_connections s) <> 0%nat ->
    server_step s (fst (prune_connections s))
| step_stopped s l1 l2 :
    threads s = l1 ++ thread_stopping :: l2 ->
    (m_conn_pool s = ∅ \/ snd (prune_connections s) = 0%nat) ->
    server_step s (with_users (active_users s - 1)
                     (with_threads (l1 ++ l2) (with_pool ∅ s))).

Inductive server_run (ssl : bool) : tcp_server -> Prop :=
| run_new : server_run ssl (new_tcp_server ssl)
| run_step s s' : server_run ssl s -> server_step s s' -> server_run ssl s'.

(** ** The invariant *)

(** What the threads will still add to the users of the scheduler. *)
Definition user_due (t : thread) : Z :=
  match t with thread_start_listen | thread_start_user => 1 | thread_stopping => -1 end.
Definition users_due (l : list thread) : Z := foldr (fun t n => user_due t + n) 0 l.

Record pool_ok (s : tcp_server) : Prop := mk_pool_ok {
  po_held : held s ⊆ m_conn_pool s;
  po_created : forall c, c ∈ m_conn_pool s -> (c < created s)%nat;
  po_users : active_users s + users_due (threads s) = if m_is_listening s then 1 else 0
}.

Lemma users_due_cons t l : users_due (t :: l) = user_due t + users_due l.
Proof. done. Qed.

Lemma users_due_middle l1 t l2 : users_due (l1 ++ t :: l2) = user_due t + users_due (l1 ++ l2).
Proof. induction l1 as [|t1 l1 IH]; [done|]. rewrite <- !app_comm_cons, !users_due_cons, IH. lia. Qed.

Lemma prune_ok s : pool_ok s -> pool_ok (fst (prune_connections s)).
Proof.
  intros [Hh Hc Hu]. split; [|intros c [Hin _]%elem_of_intersection; by apply Hc|done].
  change (held s ⊆ m_conn_pool s ∩ held s). set_solver.
Qed.

Lemma hold_ok c h s : c ∈ held s -> pool_ok s -> pool_ok (hold c h s).
Proof.
  intros Hin [Hh Hc Hu]. split; [|done|done]. unfold held, hold in *.
  cbn [holders with_holders m_conn_pool]. rewrite dom_insert. set_solver.
Qed.

Lemma release_ok c s : pool_ok s -> pool_ok (release c s).
Proof.
  intros [Hh Hc Hu]. split; [|done|done]. unfold held, release in *.
  cbn [holders with_holders m_conn_pool]. rewrite dom_delete. set_solver.
Qed.

Lemma listen_ok s : pool_ok s -> pool_ok (listen s).
Proof.
  intros Hok. unfold listen. destruct (m_is_listening s) eqn:El; [|done].
  apply prune_ok in Hok as [Hh Hc Hu]. set (s1 := fst (prune_connections s)) in *.
  assert (m_is_listening s1 = true) as El1 by done. rewrite El1 in Hu.
  split; cbn [m_conn_pool created active_users threads m_is_listening]; [|intros c|done].
  - unfold held in *. cbn [holders]. rewrite dom_insert. set_solver.
  - rewrite elem_of_union, elem_of_singleton. intros [->|Hin]; [lia|]. specialize (Hc c Hin). lia.
Qed.

Lemma finish_ok c keep_alive s : c ∈ held s -> pool_ok s -> pool_ok (finish_connection c keep_alive s).
Proof.
  intros Hin Hok. unfold finish_connection. destruct (_ && _); [by apply hold_ok|].
  destruct Hok as [Hh Hc Hu]. split; [|set_solver|done].
  unfold held, release in *. cbn [holders with_holders with_pool m_conn_pool]. rewrite dom_delete. set_solver.
Qed.

Lemma held_lookup c h s : holders s !! c = Some h -> c ∈ held s.
Proof. intros H. by apply elem_of_dom_2 in H. Qed.

Lemma threads_ok l n s :
  pool_ok s -> n + users_due l = active_users s + users_due (threads s) ->
  pool_ok (with_users n (with_threads l s)).
Proof. intros [Hh Hc Hu] H. split; [done|done|]. cbn [active_users with_users threads with_threads m_is_listening]. lia. Qed.

Lemma server_step_ok s s' : pool_ok s -> server_step s s' -> pool_ok s'.
Proof.
  intros Hok Hs. destruct Hs as [s Hl|s l1 l2 Ht|s l1 l2 Ht|s c e Hc|s c e r Hc|s c e Hc|s c e Hc
    |s c k Hc|s c Hc|s Hl|s Ht Hne Hp|s l1 l2 Ht Hp]; try apply held_lookup in Hc.
  - destruct Hok as [Hh Hcr Hu]. rewrite Hl in Hu. split; [done|done|].
    cbn [active_users threads m_is_listening with_threads with_listening].
    rewrite users_due_cons. cbn [user_due]. lia.
  - apply listen_ok. apply (threads_ok _ (active_users s) s Hok). rewrite Ht, !users_due_middle. done.
  - apply threads_ok; [done|]. rewrite Ht, users_due_middle. cbn [user_due]. lia.
  - by apply hold_ok.
  - unfold handle_accept_listen. destruct r; [apply listen_ok|]; by apply hold_ok.
  - unfold handle_accept_connection. destruct e; [by apply finish_ok|by apply hold_ok].
  - unfold handle_ssl_handshake. destruct e; [by apply finish_ok|by apply hold_ok].
  - by apply finish_ok.
  - by apply release_ok.
  - destruct Hok as [Hh Hcr Hu]. rewrite Hl in Hu. split; [done|done|].
    cbn [active_users threads m_is_listening with_threads with_listening].
    rewrite users_due_cons. cbn [user_due]. lia.
  - by apply prune_ok.
  - assert (held s = ∅) as He.
    { destruct Hok as [Hh _ _]. destruct Hp as [Hp|Hp]; [set_solver|].
      apply size_empty_inv in Hp. cbn [m_conn_pool with_pool] in *. set_solver. }
    destruct Hok as [Hh Hcr Hu]. rewrite Ht, users_due_middle in Hu. split; [set_solver|set_solver|].
    cbn [active_users with_users threads with_threads m_is_listening with_pool]. cbn [user_due] in Hu. lia.
Qed.

Lemma server_run_ok ssl s : server_run ssl s -> pool_ok s.
Proof.
  induction 1 as [|s s' _ IH Hs]; [|by eapply server_step_ok].
  split; [set_solver|set_solver|done].
Qed.

(** ** Stopping *)

(** How many steps a connection still takes in a server that is not listening. *)
Definition rank (h : holder) : nat :=
  match h with
  | held_by_acceptor => 5
  | held_accepted _ _ => 4
  | held_handle _ => 3
  | held_handshake => 2
  | held_by_handler => 1
  end.

Definition work (s : tcp_server) : nat := map_fold (fun _ h n => rank h + n)%nat 0%nat (holders s).

Lemma work_delete c h s :
  holders s !! c = Some h -> work s = (rank h + work (release c s))%nat.
Proof. intros H. unfold work. rewrite (map_fold_delete_L _ _ c h); [done|intros; lia|done]. Qed.

Lemma work_hold c h s : work (hold c h s) = (rank h + work (release c s))%nat.
Proof.
  unfold work, hold, release. cbn [holders with_holders].
  rewrite <- insert_delete_eq. rewrite map_fold_insert_L; [done|intros; lia|apply lookup_delete_eq].
Qed.

Lemma work_hold_less c h h' s :
  holders s !! c = Some h -> (rank h' < rank h)%nat -> (work (hold c h' s) < work s)%nat.
Proof. intros Hc Hr. rewrite work_hold, (work_delete _ _ _ Hc). lia. Qed.

Lemma work_release_less c h s : holders s !! c = Some h -> (work (release c s) < work s)%nat.
Proof. intros Hc. rewrite (work_delete _ _ _ Hc). destruct h; simpl; lia. Qed.

Lemma finish_not_listening c keep_alive s :
  m_is_listening s = false -> finish_connection c keep_alive s = with_pool (m_conn_pool s ∖ {[c]}) (release c s).
Proof. intros H. unfold finish_connection. by rewrite H. Qed.

Lemma work_zero s : work s = 0%nat -> holders s = ∅.
Proof.
  intros H. apply map_empty. intros c. destruct (holders s !! c) as [h|] eqn:E; [|done].
  rewrite (work_delete _ _ _ E) in H. destruct h; simpl in H; lia.
Qed.

Lemma server_step_work s s' :
  server_step s s' -> m_is_listening s = false -> m_is_listening s' = false ->
  (work s' < work s)%nat \/ holders s' = holders s.
Proof.
  intros Hs. destruct Hs as [s Hl|s l1 l2 Ht|s l1 l2 Ht|s c e Hc|s c e r Hc|s c e Hc|s c e Hc
    |s c k Hc|s c Hc|s Hl|s Ht Hne Hp|s l1 l2 Ht Hp]; intros Hn Hn'; try (by right).
  - right. unfold listen in *. change (m_is_listening (with_threads _ s)) with (m_is_listening s) in *.
    by rewrite Hn.
  - left. eapply work_hold_less; [done|simpl; lia].
  - left. unfold handle_accept_listen, listen. change (m_is_listening (hold _ _ s)) with (m_is_listening s).
    rewrite Hn. destruct r; (eapply work_hold_less; [done|simpl; lia]).
  - left. unfold handle_accept_connection. destruct e; [rewrite finish_not_listening by done; by eapply work_release_less|].
    eapply work_hold_less; [done|]. destruct (m_ssl_flag s); simpl; lia.
  - left. unfold handle_ssl_handshake. destruct e; [rewrite finish_not_listening by done; by eapply work_release_less|].
    eapply work_hold_less; [done|simpl; lia].
  - left. rewrite finish_not_listening by done. by eapply work_release_less.
  - left. by eapply work_release_less.
Qed.

(** In a server that is not listening, a connection that is held can go on. *)
Lemma held_goes_on s c h :
  holders s !! c = Some h -> m_is_listening s = false ->
  exists s', server_step s s' /\ m_is_listening s' = false /\ threads s' = threads s
             /\ (work s' < work s)%nat.
Proof.
  intros Hc Hl.
  assert (exists s', server_step s s' /\ m_is_listening s' = false /\ threads s' = threads s
                     /\ holders s' !! c <> Some h) as (s' & Hs & Hl' & Ht & Hne).
  { destruct h as [|e r|e| |].
    - eexists. split; [by apply (step_accept s c false)|]. split; [done|]. split; [done|].
      unfold handle_accept, hold. cbn [holders with_holders]. by rewrite lookup_insert_eq.
    - eexists. split; [by eapply step_accepted|]. unfold handle_accept_listen, listen.
      change (m_is_listening (hold _ _ s)) with (m_is_listening s). rewrite Hl.
      destruct r; (split; [done|]); (split; [done|]); unfold hold; cbn [holders with_holders];
        by rewrite lookup_insert_eq.
    - eexists. split; [by eapply step_handle|]. unfold handle_accept_connection.
      destruct e; [rewrite finish_not_listening by done|]; (split; [done|]); (split; [done|]);
        unfold hold, release; cbn [holders with_holders with_pool].
      + by rewrite lookup_delete_eq.
      + rewrite lookup_insert_eq. by destruct (m_ssl_flag s).
    - eexists. split; [by apply (step_handshake s c true)|]. unfold handle_ssl_handshake.
      rewrite finish_not_listening by done. split; [done|]. split; [done|].
      unfold release; cbn [holders with_holders with_pool]. by rewrite lookup_delete_eq.
    - eexists. split; [by apply (step_finish s c false)|].
      rewrite finish_not_listening by done. split; [done|]. split; [done|].
      unfold release; cbn [holders with_holders with_pool]. by rewrite lookup_delete_eq. }
  exists s'. split; [done|]. split; [done|]. split; [done|].
  destruct (server_step_work s s' Hs Hl Hl') as [|E]; [done|]. by rewrite E in Hne.
Qed.

(** The loop of [stop] ends when nobody holds a connection. *)
Lemma stop_ends s l1 l2 :
  threads s = l1 ++ thread_stopping :: l2 -> holders s = ∅ ->
  exists s', server_step s s' /\ threads s' = l1 ++ l2 /\ m_conn_pool s' = ∅ /\ holders s' = ∅
             /\ m_is_listening s' = m_is_listening s.
Proof.
  intros Ht Hh. eexists. split; [apply (step_stopped s l1 l2 Ht)|done].
  right. unfold prune_connections, held. cbn [snd]. rewrite Hh, dom_empty_L.
  by rewrite (right_id_L ∅ (∩) ∅) || by rewrite intersection_empty_r_L.
Qed.

(** A server whose connections have all ended, and that is not listening. *)
Definition quiet (s : tcp_server) : Prop :=
  m_is_listening s = false /\ m_conn_pool s = ∅ /\ held s = ∅.

Lemma quiet_step s s' : quiet s -> server_step s s' -> m_is_listening s' = false -> quiet s'.
Proof.
  intros (Hl & Hp & Hh) Hs Hl'.
  assert (forall c, holders s !! c = None) as Hno by (intros c; apply not_elem_of_dom; set_solver).
  destruct Hs as [s Hls|s l1 l2 Ht|s l1 l2 Ht|s c e Hc|s c e r Hc|s c e Hc|s c e Hc
    |s c k Hc|s c Hc|s Hls|s Ht Hne Hpr|s l1 l2 Ht Hpr]; try (by rewrite Hno in Hc); try done.
  - unfold listen in *. change (m_is_listening (with_threads _ s)) with (m_is_listening s) in *.
    by rewrite Hl.
Qed.

(** The last step of [stop] is the only one that ends its thread. *)
Lemma stopped_pool s s' l1 l2 :
  threads s = l1 ++ thread_stopping :: l2 -> server_step s s' -> threads s' = l1 ++ l2 ->
  m_conn_pool s' = ∅ /\ m_is_listening s' = m_is_listening s.
Proof.
  intros Ht Hs Ht'. assert (users_due (threads s') = users_due (threads s) + 1) as Hd
    by (rewrite Ht, Ht', users_due_middle; cbn [user_due]; lia).
  assert (length (threads s) = S (length (threads s'))) as Hlen
    by (rewrite Ht, Ht', !length_app; simpl; lia). clear Ht Ht'.
  destruct Hs as [s Hls|s k1 k2 Ht|s k1 k2 Ht|s c e Hc|s c e r Hc|s c e Hc|s c e Hc
    |s c k Hc|s c Hc|s Hls|s Ht Hne Hpr|s k1 k2 Ht Hpr]; try (by cbn in Hlen; lia).
  - exfalso. revert Hlen. unfold listen. case_match; cbn [threads fst prune_connections with_pool with_threads];
      rewrite Ht, !length_app; simpl; lia.
  - exfalso. revert Hd. cbn [threads with_users with_threads]. rewrite Ht, users_due_middle.
    cbn [user_due]. lia.
  - exfalso. revert Hlen. unfold handle_accept_listen, listen. destruct r; [case_match|]; simpl; lia.
  - exfalso. revert Hlen. unfold handle_accept_connection, finish_connection. rewrite andb_false_r.
    destruct e; simpl; lia.
  - exfalso. revert Hlen. unfold handle_ssl_handshake, finish_connection. rewrite andb_false_r.
    destruct e; simpl; lia.
  - exfalso. revert Hlen. unfold finish_connection. case_match; simpl; lia.
  - done.
Qed.

(** C30: every connection in use is known to the server.  In whatever order the threads run,
    a connection that the acceptor, an accept or handshake handler or the protocol holds is
    in the pool; and when no thread is in [start] or [stop], the server is a user of the
    scheduler, once, exactly when it is listening. *)
Theorem connections_in_pool ssl s :
  server_run ssl s ->
  held s ⊆ m_conn_pool s
  /\ (threads s = [] -> active_users s = if m_is_listening s then 1 else 0).
Proof.
  intros [Hh _ Hu]%server_run_ok. split; [done|]. intros Ht. rewrite Ht in Hu. cbn in Hu. lia.
Qed.

(** C28: [stop] finishes.  Once a server is not listening, every step its connections make
    brings them nearer to their end, a kept-alive connection too, and as long as there is a
    connection one of them can make a step; so [stop] can always return, and when it does
    nothing is accepted or handled any more, until the server is started again. *)
Theorem stop_finishes ssl s l1 l2 :
  server_run ssl s -> m_is_listening s = false -> threads s = l1 ++ thread_stopping :: l2 ->
  (forall s', server_step s s' -> m_is_listening s' = false ->
     (work s' < work s)%nat \/ holders s' = holders s)
  /\ (exists s', rtc server_step s s' /\ threads s' = l1 ++ l2)
  /\ (forall s', server_step s s' -> threads s' = l1 ++ l2 ->
      m_conn_pool s' = ∅ /\ held s' = ∅
      /\ forall s'', server_step s' s'' -> m_is_listening s'' = false ->
           m_conn_pool s'' = ∅ /\ held s'' = ∅).
Proof.
  intros Hrun Hl Ht. split; [|split].
  - intros s' Hs Hl'. by apply server_step_work.
  - clear Hrun. remember (work s) as n eqn:En. revert s Hl Ht En.
    induction (lt_wf n) as [n _ IH]. intros s Hl Ht En.
    destruct (decide (holders s = ∅)) as [Hh|Hh].
    + destruct (stop_ends s l1 l2 Ht Hh) as (s' & Hs & Ht' & _). exists s'. split; [by apply rtc_once|done].
    + apply map_choose in Hh as (c & h & Hc).
      destruct (held_goes_on s c h Hc Hl) as (s' & Hs & Hl' & Ht' & Hw).
      destruct (IH (work s') ltac:(lia) s' Hl' ltac:(congruence) eq_refl) as (s'' & Hr & Ht'').
      exists s''. split; [by eapply rtc_l|done].
  - intros s' Hs Ht'. destruct (stopped_pool s s' l1 l2 Ht Hs Ht') as [Hp Hls].
    assert (quiet s') as Hq.
    { split; [congruence|]. split; [done|].
      assert (server_run ssl s') as [Hh _ _]%server_run_ok by (by eapply run_step). set_solver. }
    split; [done|]. split; [apply Hq|]. intros s'' Hs'' Hl''. by apply (quiet_step s').
Qed.

(** The server while the first connection is being handled. *)
Definition sample_tcp_server : tcp_server :=
  mk_tcp_server false {[0%nat; 1%nat]} false {[0%nat := held_by_handler; 1%nat := held_by_acceptor]}
    [thread_stopping] 2%nat 1.

Lemma sample_run : server_run false sample_tcp_server.
Proof.
  assert (exists s, server_run false s /\ s = sample_tcp_server) as (s & H & <-); [|exact H].
  eexists. split.
  - eapply run_step; [|apply step_stop]. 1: eapply run_step; [|apply (step_handle _ 0%nat false)].
    1: eapply run_step; [|apply (step_accepted _ 0%nat false true)].
    1: eapply run_step; [|apply (step_accept _ 0%nat false)].
    1: eapply run_step; [|apply (step_start_user _ [] [])].
    1: eapply run_step; [|apply (step_start_listen _ [] [])].
    1: eapply run_step; [apply run_new|apply step_start].
    all: vm_compute; reflexivity.
  - vm_compute. reflexivity.
Qed.

Lemma connections_in_pool_witness : held sample_tcp_server ⊆ m_conn_pool sample_tcp_server.
Proof. exact (proj1 (connections_in_pool false sample_tcp_server sample_run)). Defined.

Lemma stop_finishes_witness : exists s', rtc server_step sample_tcp_server s' /\ threads s' = [].
Proof. exact (proj1 (proj2 (stop_finishes false sample_tcp_server [] [] sample_run eq_refl eq_refl))). Defined.

(** Between the two parts of [start], [get_connections] counts the connections of an empty
    pool without the one that is accepting. *)
Lemma get_connections_wraps :
  exists s, server_run false s /\ get_connections s = 18446744073709551615.
Proof.
  eexists. split; [eapply run_step; [apply run_new|by apply step_start]|]. vm_compute. reflexivity.
Qed.
