(* ===== verification/HttpServer.v ===== *)
(** * The HTTP server

    Models [http::server] (src/http_server.cpp, include/pion/http/server.hpp): the table of
    resources and their handlers, redirections, the check of the authentication object, and
    the pages for errors.  The functions that handle requests are the application's: a
    handler maps the request and the connection to what it makes of them, and says whether it
    throws.  The authentication object is any that keeps the promises of the interface
    [Authenticator]; the two classes of Auth.v do. *)
From S2P Require Import Prelude CLib StringUtils Algorithm StdMap Resources Dict HttpTypes Message.
From S2P Require Import ParserBase Connection Reader Writer Users Replies Auth.

(** ** The interface of authentication *)

(** The virtual functions of [http::auth]; the time and the random bytes are inputs. *)
Class Authenticator (A : Type) := {
  auth_of : A -> auth;
  authenticate : Z -> bytes -> message -> connection -> A -> res (bool * A * message * connection)
}.

(** What the server relies on.  [auth_ok] is the invariant of the object, [exempt] are the
    requests it lets through as they are. *)
Class AuthenticatorLaws (A : Type) `{Authenticator A} := {
  auth_ok : Z -> A -> Prop;
  exempt : message -> A -> Prop;
  auth_preserved now now' rnd m c a ok a' m' c' :
    auth_ok now a -> now <= now' -> authenticate now' rnd m c a = Ok (ok, a', m', c') ->
    auth_ok now' a' /\ auth_of a' = auth_of a;
  auth_granted now now' rnd m c a a' m' c' :
    auth_ok now a -> now <= now' -> authenticate now' rnd m c a = Ok (true, a', m', c') ->
    c' = c /\ ((m' = m /\ (need_authentication m (auth_of a) = false \/ exempt m a))
               \/ exists name, m' = set_user name m);
  auth_refused now rnd m c a a' m' c' :
    authenticate now rnd m c a = Ok (false, a', m', c') ->
    m' = m /\ exists edit parts, c' = reply m c edit parts
}.

(** ** State *)

(** What a handler throws: memory errors are passed on. *)
Inductive exception := bad_alloc | std_exception (what : bytes).

Definition request_handler_t : Type := message -> connection -> message * connection * option exception.
Definition error_handler_t : Type := message -> connection -> bytes -> message * connection * option exception.

Definition MAX_REDIRECTS : nat := 10.

Record http_server (A : Type) := mk_http_server {
  m_resources : smap request_handler_t;
  m_redirects : smap bytes;
  m_bad_request_handler : request_handler_t;
  m_not_found_handler : request_handler_t;
  m_server_error_handler : error_handler_t;
  m_auth_ptr : option A;
  m_max_content_length : Z
}.
Arguments mk_http_server {A}.
Arguments m_resources {A}.
Arguments m_redirects {A}.
Arguments m_bad_request_handler {A}.
Arguments m_not_found_handler {A}.
Arguments m_server_error_handler {A}.
Arguments m_auth_ptr {A}.
Arguments m_max_content_length {A}.

(** ** The pages for errors *)

Definition line (s : bytes) : bytes := s ++ [LF].

(** A page that is answered through a response writer. *)
Definition page (request : message) (c : connection) (edit : message -> message)
  (parts : list write_op) : message * connection * option exception :=
  (request, reply request c edit parts, None).

Definition BAD_REQUEST_HTML : bytes :=
  line (str "<html><head>") ++ line (str "<title>400 Bad Request</title>")
  ++ line (str "</head><body>") ++ line (str "<h1>Bad Request</h1>")
  ++ line (str "<p>Your browser sent a request that this server could not understand.</p>")
  ++ line (str "</body></html>").

Definition handle_bad_request : request_handler_t := fun request c =>
  page request c (with_status RESPONSE_CODE_BAD_REQUEST RESPONSE_MESSAGE_BAD_REQUEST)
    [op_memory BAD_REQUEST_HTML].

Definition NOT_FOUND_HTML_START : bytes :=
  line (str "<html><head>") ++ line (str "<title>404 Not Found</title>")
  ++ line (str "</head><body>") ++ line (str "<h1>Not Found</h1>") ++ str "<p>The requested URL ".
Definition NOT_FOUND_HTML_FINISH : bytes :=
  line (str " was not found on this server.</p>") ++ line (str "</body></html>").

Definition handle_not_found_request : request_handler_t := fun request c =>
  page request c (with_status RESPONSE_CODE_NOT_FOUND RESPONSE_MESSAGE_NOT_FOUND)
    [op_memory NOT_FOUND_HTML_START; op_text (xml_encode (get_resource request));
     op_memory NOT_FOUND_HTML_FINISH].

Definition SERVER_ERROR_HTML_START : bytes :=
  line (str "<html><head>") ++ line (str "<title>500 Server Error</title>")
  ++ line (str "</head><body>") ++ line (str "<h1>Internal Server Error</h1>")
  ++ str "<p>The server encountered an internal error: <strong>".
Definition SERVER_ERROR_HTML_FINISH : bytes :=
  line (str "</strong></p>") ++ line (str "</body></html>").

Definition handle_server_error : error_handler_t := fun request c error_msg =>
  page request c (with_status RESPONSE_CODE_SERVER_ERROR RESPONSE_MESSAGE_SERVER_ERROR)
    [op_memory SERVER_ERROR_HTML_START; op_text (xml_encode error_msg);
     op_memory SERVER_ERROR_HTML_FINISH].

Definition FORBIDDEN_HTML_START : bytes :=
  line (str "<html><head>") ++ line (str "<title>403 Forbidden</title>")
  ++ line (str "</head><body>") ++ line (str "<h1>Forbidden</h1>")
  ++ str "<p>User not authorized to access the requested URL ".
Definition FORBIDDEN_HTML_MIDDLE : bytes := line (str "</p><p><strong>").
Definition FORBIDDEN_HTML_FINISH : bytes := line (str "</strong></p>") ++ line (str "</body></html>").

Definition handle_forbidden_request : error_handler_t := fun request c error_msg =>
  page request c (with_status RESPONSE_CODE_FORBIDDEN RESPONSE_MESSAGE_FORBIDDEN)
    [op_memory FORBIDDEN_HTML_START; op_text (xml_encode (get_resource request));
     op_memory FORBIDDEN_HTML_MIDDLE; op_text error_msg; op_memory FORBIDDEN_HTML_FINISH].

Definition NOT_ALLOWED_HTML_START : bytes :=
  line (str "<html><head>") ++ line (str "<title>405 Method Not Allowed</title>")
  ++ line (str "</head><body>") ++ line (str "<h1>Not Allowed</h1>") ++ str "<p>The requested method ".
Definition NOT_ALLOWED_HTML_FINISH : bytes :=
  line (str " is not allowed on this server.</p>") ++ line (str "</body></html>").

Definition handle_method_not_allowed (request : message) (c : connection) (allowed_methods : bytes)
  : message * connection * option exception :=
  page request c
    (fun m =>
       let m := with_status RESPONSE_CODE_METHOD_NOT_ALLOWED RESPONSE_MESSAGE_METHOD_NOT_ALLOWED m in
       if bool_decide (allowed_methods = []) then m else add_header (str "Allow") allowed_methods m)
    [op_memory NOT_ALLOWED_HTML_START; op_text (xml_encode (get_method request));
     op_memory NOT_ALLOWED_HTML_FINISH].

(** ** Operations *)

Section Server.
Context {A : Type}.
Implicit Types (s : http_server A).

Definition new_http_server : http_server A :=
  mk_http_server [] [] handle_bad_request handle_not_found_request handle_server_error None
    DEFAULT_CONTENT_MAX.

Definition with_resources (resources : smap request_handler_t) s : http_server A :=
  mk_http_server resources (m_redirects s) (m_bad_request_handler s) (m_not_found_handler s)
    (m_server_error_handler s) (m_auth_ptr s) (m_max_content_length s).

Definition add_resource (resource : bytes) (request_handler : request_handler_t) s : http_server A :=
  with_resources (map_insert (strip_trailing_slash resource) request_handler (m_resources s)) s.

Definition remove_resource (resource : bytes) s : http_server A :=
  with_resources (map_erase (strip_trailing_slash resource) (m_resources s)) s.

Definition add_redirect (requested_resource new_resource : bytes) s : http_server A :=
  mk_http_server (m_resources s)
    (map_insert (strip_trailing_slash requested_resource) (strip_trailing_slash new_resource)
       (m_redirects s))
    (m_bad_request_handler s) (m_not_found_handler s) (m_server_error_handler s) (m_auth_ptr s)
    (m_max_content_length s).

Definition set_bad_request_handler (h : request_handler_t) s : http_server A :=
  mk_http_server (m_resources s) (m_redirects s) h (m_not_found_handler s)
    (m_server_error_handler s) (m_auth_ptr s) (m_max_content_length s).
Definition set_not_found_handler (h : request_handler_t) s : http_server A :=
  mk_http_server (m_resources s) (m_redirects s) (m_bad_request_handler s) h
    (m_server_error_handler s) (m_auth_ptr s) (m_max_content_length s).
Definition set_error_handler (h : error_handler_t) s : http_server A :=
  mk_http_server (m_resources s) (m_redirects s) (m_bad_request_handler s) (m_not_found_handler s)
    h (m_auth_ptr s) (m_max_content_length s).
Definition set_authentication (auth : option A) s : http_server A :=
  mk_http_server (m_resources s) (m_redirects s) (m_bad_request_handler s) (m_not_found_handler s)
    (m_server_error_handler s) auth (m_max_content_length s).
Definition set_max_content_length (n : Z) s : http_server A :=
  mk_http_server (m_resources s) (m_redirects s) (m_bad_request_handler s) (m_not_found_handler s)
    (m_server_error_handler s) (m_auth_ptr s) n.

(** [clear], for a server that is not listening. *)
Definition clear_resources s : http_server A := with_resources [] s.

Definition find_request_handler (resource : bytes) s : option (bytes * request_handler_t) :=
  find_resource resource (m_resources s).

(** [handle_connection]: the reader of the next request. *)
Definition handle_connection (c : connection) s : reader :=
  let r := new_reader new_request c in
  mk_reader (with_m_max_content_length (m_max_content_length s) (rd_parser r)) (rd_message r)
    (rd_conn r) (rd_end r) (m_timer_ptr r) (m_read_timeout r).

(** The redirections of a resource, at most [left] more of them: the resource and the request
    where they end, and whether there were too many. *)
Fixpoint follow_redirects (redirects : smap bytes) (left : nat) (resource : bytes) (m : message)
  : bool * bytes * message :=
  match map_find resource redirects with
  | None => (true, resource, m)
  | Some new_resource =>
      match left with
      | O => (false, resource, m)
      | S left' => follow_redirects redirects left' new_resource (change_resource new_resource m)
      end
  end.

Definition TOO_MANY_REDIRECTS : bytes :=
  str "Maximum number of redirects (server::MAX_REDIRECTS) exceeded for requested resource".

(** The calls the server makes for a request. *)
Inductive server_call :=
| call_bad_request (m : message)
| call_finish
| call_server_error (m : message) (error_msg : bytes)
| call_refused
| call_handler (resource : bytes) (m : message)
| call_not_found (m : message).

Record handled := mk_handled {
  hd_server : http_server A;
  hd_message : message;
  hd_conn : connection;
  hd_calls : list server_call;
  hd_exception : option exception  (* what leaves [handle_request] *)
}.

Definition called s (calls : list server_call) (r : message * connection * option exception) : handled :=
  let '(m, c, e) := r in mk_handled s m c calls e.

(** The handler of the resource, and the page for what it throws. *)
Definition run_handler (resource : bytes) (m : message) (c : connection) s : handled :=
  match find_request_handler resource s with
  | Some (key, request_handler) =>
      let '(m1, c1, e) := request_handler m c in
      match e with
      | Some (std_exception what) =>
          called s [call_handler key m; call_server_error m1 what] (m_server_error_handler s m1 c1 what)
      | _ => mk_handled s m1 c1 [call_handler key m] e
      end
  | None => called s [call_not_found m] (m_not_found_handler s m c)
  end.

(** The category of the error code. *)
Definition is_parser_error (ec : option reader_error) : bool :=
  match ec with Some (reader_parse_error _) => true | _ => false end.

Context `{Authenticator A}.

(** [handle_request]. *)
Definition handle_request (now : Z) (rnd : bytes) (m : message) (c : connection)
  (ec : option reader_error) s : res handled :=
  if bool_decide (is_Some ec) || negb (m_is_valid m) then
    let c := set_lifecycle LIFECYCLE_CLOSE c in
    if m_is_open c && is_parser_error ec then
      Ok (called s [call_bad_request m] (m_bad_request_handler s m c))
    else Ok (mk_handled s m c [call_finish] None)
  else
    match follow_redirects (m_redirects s) MAX_REDIRECTS (strip_trailing_slash (get_resource m)) m with
    | (false, _, m) =>
        Ok (called s [call_server_error m TOO_MANY_REDIRECTS]
              (m_server_error_handler s m c TOO_MANY_REDIRECTS))
    | (true, resource, m) =>
        match m_auth_ptr s with
        | None => Ok (run_handler resource m c s)
        | Some a =>
            r ← authenticate now rnd m c a;
            let '(ok, a, m, c) := r in
            let s := set_authentication (Some a) s in
            if ok : bool then Ok (run_handler resource m c s)
            else Ok (mk_handled s m c [call_refused] None)
        end
    end.

End Server.

(** ** The tables *)

Section Tables.
Context {A : Type}.
Implicit Types (s : http_server A).

(** What an application does with a server before and while it runs. *)
Inductive configured : http_server A -> Prop :=
| configured_new : configured new_http_server
| configured_resource resource h s : configured s -> configured (add_resource resource h s)
| configured_remove resource s : configured s -> configured (remove_resource resource s)
| configured_redirect requested new s : configured s -> configured (add_redirect requested new s)
| configured_bad_request h s : configured s -> configured (set_bad_request_handler h s)
| configured_not_found h s : configured s -> configured (set_not_found_handler h s)
| configured_error h s : configured s -> configured (set_error_handler h s)
| configured_auth a s : configured s -> configured (set_authentication a s)
| configured_max n s : configured s -> configured (set_max_content_length n s)
| configured_clear s : configured s -> configured (clear_resources s).

Lemma configured_ok s : configured s -> map_ok (m_resources s) /\ map_ok (m_redirects s).
Proof.
  induction 1 as [|r h s _ [H1 H2]|r s _ [H1 H2]|r n s _ [H1 H2]|h s _ [H1 H2]|h s _ [H1 H2]
    |h s _ [H1 H2]|a s _ [H1 H2]|n s _ [H1 H2]|s _ [H1 H2]];
    split; cbn [m_resources m_redirects new_http_server with_resources add_resource remove_resource
      add_redirect set_bad_request_handler set_not_found_handler set_error_handler
      set_authentication set_max_content_length clear_resources];
    try done; first [by apply map_ok_nil | by apply map_insert_ok | by apply map_erase_ok].
Qed.

(** ** Redirections *)

(** [n] redirections lead from one resource to another. *)
Inductive redirected (redirects : smap bytes) : nat -> bytes -> bytes -> Prop :=
| redirected_0 r : redirected redirects 0 r r
| redirected_S n r r' r'' :
    map_find r redirects = Some r' -> redirected redirects n r' r'' -> redirected redirects (S n) r r''.

(** The request at the end of the redirections. *)
Definition redirect_request (n : nat) (resource : bytes) (m : message) : message :=
  if decide (n = 0%nat) then m else change_resource resource m.

Lemma change_resource_twice r r' m : change_resource r (change_resource r' m) = change_resource r m.
Proof. unfold change_resource, on_request. by destruct m as [? ? ? ? ? ? ? ? ? ? ? ? ? ? ? [[]|]]. Qed.

Lemma redirect_request_S redirects n r r' m :
  redirected redirects n r' r ->
  redirect_request n r (change_resource r' m) = redirect_request (S n) r m.
Proof.
  intros H. unfold redirect_request. rewrite (decide_False (P := S n = 0%nat)) by done.
  case_decide; [|apply change_resource_twice]. subst n. by inversion H.
Qed.

Lemma redirected_unique redirects n n' r r1 r2 :
  redirected redirects n r r1 -> redirected redirects n' r r2 ->
  map_find r1 redirects = None -> map_find r2 redirects = None -> n = n' /\ r1 = r2.
Proof.
  intros H. revert n'. induction H as [r|n r r' r'' Hf H IH]; intros n' H' Hn1 Hn2;
    destruct H' as [r0|n' r0 r0' r0'' Hf' H']; try congruence.
  - done.
  - rewrite Hf in Hf'. injection Hf' as <-. destruct (IH _ H' Hn1 Hn2) as [-> ->]. done.
Qed.

(** Either the redirections end within the limit, or there is one more. *)
Lemma follow_redirects_spec redirects left r m :
  (exists n r', (n <= left)%nat /\ redirected redirects n r r' /\ map_find r' redirects = None
                /\ follow_redirects redirects left r m = (true, r', redirect_request n r' m))
  \/ (exists r' r'', redirected redirects left r r' /\ map_find r' redirects = Some r''
                 /\ follow_redirects redirects left r m = (false, r', redirect_request left r' m)).
Proof.
  revert r m. induction left as [|left IH]; intros r m; cbn [follow_redirects];
    destruct (map_find r redirects) as [r1|] eqn:E;
    try (left; exists 0%nat, r; split; [lia|]; split; [constructor|done]).
  - right. exists r, r1. split; [constructor|done].
  - destruct (IH r1 (change_resource r1 m)) as [(n & r' & Hn & Hr & Hf & ->)|(r' & r'' & Hr & Hf & ->)].
    + left. exists (S n), r'. split; [lia|]. split; [by eapply redirected_S|]. split; [done|].
      by erewrite redirect_request_S.
    + right. exists r', r''. split; [by eapply redirected_S|]. split; [done|].
      by erewrite redirect_request_S.
Qed.

Lemma redirected_longer redirects left n r r' r'' r1 :
  redirected redirects left r r' -> map_find r' redirects = Some r'' ->
  redirected redirects n r r1 -> map_find r1 redirects = None -> (left < n)%nat.
Proof.
  intros H. revert n. induction H as [r|left r r0 r' Hf H IH]; intros n Hf' H' Hn;
    destruct H' as [|n' r2 r3 r4 Hf2 H']; try congruence; [lia|].
  rewrite Hf in Hf2. injection Hf2 as <-. specialize (IH n' Hf' H' Hn). lia.
Qed.

(** C16: redirections end.  A request whose resource leads, in at most ten redirections, to
    one that is not redirected is handled as a request for that resource, its original
    resource unchanged; any other request (the redirections go on longer, or in a circle)
    gets the server error page, and no handler runs. *)
Theorem redirects_end `{Authenticator A} now rnd m c s :
  m_is_valid m = true ->
  let resource := strip_trailing_slash (get_resource m) in
  (forall n resource',
     (n <= MAX_REDIRECTS)%nat -> redirected (m_redirects s) n resource resource' ->
     map_find resource' (m_redirects s) = None ->
     let m' := redirect_request n resource' m in
     get_original_resource m' = get_original_resource m
     /\ (m_auth_ptr s = None -> handle_request now rnd m c None s = Ok (run_handler resource' m' c s)))
  /\ ((forall n resource', redirected (m_redirects s) n resource resource' ->
        map_find resource' (m_redirects s) = None -> (MAX_REDIRECTS < n)%nat) ->
     exists r m', handle_request now rnd m c None s = Ok r
       /\ hd_calls r = [call_server_error m' TOO_MANY_REDIRECTS]
       /\ get_original_resource m' = get_original_resource m).
Proof.
  intros Hv. set (resource := strip_trailing_slash (get_resource m)). cbv zeta.
  assert (forall n r, get_original_resource (redirect_request n r m) = get_original_resource m) as Horig.
  { intros n r. unfold redirect_request, change_resource, on_request. case_decide; [done|].
    by destruct m as [? ? ? ? ? ? ? ? ? ? ? ? ? ? ? [[]|]]. }
  unfold handle_request. rewrite Hv. fold resource. change (bool_decide _ || negb true) with false.
  cbv iota. split.
  - intros n r' Hn Hr Hf. split; [apply Horig|]. intros ->.
    destruct (follow_redirects_spec (m_redirects s) MAX_REDIRECTS resource m)
      as [(n' & r1 & Hn' & Hr' & Hf' & ->)|(r1 & r2 & Hr1 & Hf1 & ->)].
    + destruct (redirected_unique _ _ _ _ _ _ Hr Hr' Hf Hf') as [-> ->]. done.
    + pose proof (redirected_longer _ _ _ _ _ _ _ Hr1 Hf1 Hr Hf). lia.
  - intros Hlong.
    destruct (follow_redirects_spec (m_redirects s) MAX_REDIRECTS resource m)
      as [(n' & r1 & Hn' & Hr' & Hf' & _)|(r1 & r2 & Hr1 & Hf1 & ->)].
    + specialize (Hlong _ _ Hr' Hf'). lia.
    + unfold called. destruct (m_server_error_handler s _ c _) as [[m1 c1] e].
      do 2 eexists. split; [reflexivity|]. split; [reflexivity|]. apply Horig.
Qed.

(** ** Routing *)

(** C15: requests go to the longest resource they belong to.  For every way in which the
    server was configured, the handler that runs is the one registered for a resource that
    the request is for or below, the longest of them, and it runs first, with the request
    and the connection as they came; a request that belongs to no registered resource gets
    the not-found page. *)
Theorem longest_resource_handles resource m c s :
  configured s ->
  match hd_calls (run_handler resource m c s) with
  | call_handler key m' :: _ =>
      exists h, m' = m /\ map_find key (m_resources s) = Some h /\ under key resource
        /\ (forall key' h', map_find key' (m_resources s) = Some h' -> under key' resource ->
             (length key' <= length key)%nat)
        /\ (snd (h m c) = None ->
             hd_message (run_handler resource m c s) = fst (fst (h m c))
             /\ hd_conn (run_handler resource m c s) = snd (fst (h m c)))
  | [call_not_found m'] =>
      m' = m /\ forall key h, map_find key (m_resources s) = Some h -> ~ under key resource
  | _ => False
  end.
Proof.
  intros [Hok _]%configured_ok. pose proof (find_resource_longest resource (m_resources s) Hok) as H.
  unfold run_handler, find_request_handler.
  destruct (find_resource resource (m_resources s)) as [[key h]|].
  - destruct H as (Hf & Hu & Hl). destruct (h m c) as [[m1 c1] [[|what]|]] eqn:Eh.
    + exists h. rewrite Eh. by repeat (split; [done|]).
    + unfold called. destruct (m_server_error_handler s m1 c1 what) as [[m2 c2] e2]. cbn [hd_calls].
      exists h. rewrite Eh. by repeat (split; [done|]).
    + exists h. rewrite Eh. by repeat (split; [done|]).
  - unfold called. by destruct (m_not_found_handler s m c) as [[m2 c2] e2].
Qed.

End Tables.

(** ** Protection *)

(** Both searches use the same relation: what is below a restricted resource needs
    authentication, with or without a slash at the end. *)
Lemma under_strip k resource :
  last k <> Some SLASH -> under k resource -> under k (strip_trailing_slash resource).
Proof.
  intros Hk Hu. unfold strip_trailing_slash. destruct (last resource) as [c|] eqn:El; [|done].
  destruct (c =c SLASH) eqn:Ec; [|done]. apply Byte.byte_dec_bl in Ec as ->.
  apply last_Some in El as [l ->]. rewrite length_app. cbn [length].
  replace (length l + 1 - 1)%nat with (length l) by lia. rewrite take_app_length.
  destruct Hu as [E|[rest E]].
  - exfalso. apply Hk. rewrite <- E. by rewrite last_snoc.
  - destruct (decide (rest = [])) as [->|Hne].
    + apply app_inj_tail in E as [-> _]; apply under_refl.
    + right. apply exists_last in Hne as (rest' & c & ->).
      change (k ++ SLASH :: rest' ++ [c]) with (k ++ ([SLASH] ++ rest') ++ [c]) in E.
      rewrite app_assoc in E. apply app_inj_tail in E as [-> _]. by exists rest'.
Qed.

Lemma under_trans k key resource : under k key -> under key resource -> under k resource.
Proof.
  intros [->|[rest ->]] [->|[rest' ->]]; [by left|right; by exists rest'|right; by exists rest|].
  right. exists (rest ++ SLASH :: rest'). by rewrite <- app_assoc.
Qed.

Lemma auth_find_resource_under (set : smap unit) k resource :
  map_ok set -> map_find k set = Some tt -> under k resource -> auth_find_resource set resource = true.
Proof.
  intros Hok Hk Hu. unfold auth_find_resource. apply bool_decide_eq_true.
  pose proof (find_resource_longest resource set Hok) as H.
  destruct (find_resource resource set); [done|]. by destruct (H _ _ Hk).
Qed.

Lemma need_authentication_under a m k :
  um_empty (m_user_manager a) = false -> map_ok (m_restrict_list a) ->
  map_find k (m_restrict_list a) = Some tt -> under k (strip_trailing_slash (get_resource m)) ->
  auth_find_resource (m_white_list a) (strip_trailing_slash (get_resource m)) = false ->
  need_authentication m a = true.
Proof.
  intros He Hok Hk Hu Hw. unfold need_authentication. rewrite He.
  rewrite bool_decide_false by (intros E; by rewrite E in Hk).
  rewrite (auth_find_resource_under _ k) by done. rewrite Hw. by case_bool_decide.
Qed.

Lemma run_handler_calls {A} resource m c (s : http_server A) key m' :
  map_ok (m_resources s) -> call_handler key m' ∈ hd_calls (run_handler resource m c s) ->
  m' = m /\ under key resource.
Proof.
  intros Hok. pose proof (find_resource_longest resource (m_resources s) Hok) as H.
  unfold run_handler, find_request_handler, called.
  destruct (find_resource resource (m_resources s)) as [[k h]|].
  - destruct H as (_ & Hu & _). destruct (h m c) as [[m1 c1] [[|what]|]].
    2: destruct (m_server_error_handler s m1 c1 what) as [[m2 c2] e2].
    all: cbn [hd_calls]; intros Hin; repeat (apply elem_of_cons in Hin as [Hin|Hin];
      [first [discriminate Hin | by injection Hin as -> ->]|]);
      by apply elem_of_nil in Hin.
  - destruct (m_not_found_handler s m c) as [[m2 c2] e2]. cbn [hd_calls].
    intros Hin%list_elem_of_singleton. done.
Qed.

Lemma redirect_request_resource n r m :
  is_request m = true ->
  get_resource (redirect_request n r m) = if decide (n = 0%nat) then get_resource m else r.
Proof.
  unfold redirect_request, is_request. case_decide; [done|].
  unfold change_resource, on_request, get_resource. by destruct m as [? ? ? ? ? ? ? ? ? ? ? ? ? ? ? [r0|r0]].
Qed.

(** The resource the request ends with, as the server and the authentication see it. *)
Lemma redirected_under redirects n m r k :
  is_request m = true -> redirected redirects n (strip_trailing_slash (get_resource m)) r ->
  last k <> Some SLASH -> under k r ->
  under k (strip_trailing_slash (get_resource (redirect_request n r m))).
Proof.
  intros Hm Hr Hk Hu. rewrite redirect_request_resource by done. case_decide as Hn; [|by apply under_strip].
  subst n. by inversion Hr; subst.
Qed.


(** ** The two authentication classes *)

Section Instances.
Context `{cfg : UserConfig}.

#[export] Instance basic_authenticator : Authenticator basic_auth := {|
  auth_of := ba_auth;
  authenticate now _ m c a := ba_handle_request now m c a
|}.

#[export] Instance cookie_authenticator : Authenticator cookie_auth := {|
  auth_of := ca_auth;
  authenticate now rnd m c a := Ok (ca_handle_request now rnd m c a)
|}.

Lemma ba_authorize_auth now cred a a' p : ba_authorize now cred a = Ok (a', p) -> ba_auth a' = ba_auth a.
Proof.
  unfold ba_authorize. destruct (map_find _ _) as [[t q]|]; [by intros [= <- _]|]. intros H. inv_res H.
  destruct a0 as [[u pw]|]; [|by simplify_eq]. destruct (get_user_with _ _ _); by simplify_eq.
Qed.

Lemma ba_handle_auth now m c a ok a' m' c' :
  ba_handle_request now m c a = Ok (ok, a', m', c') ->
  ba_auth a' = ba_auth a
  /\ (need_authentication m (ba_auth a) = false -> ok = true -> m' = m /\ c' = c)
  /\ (ok = false -> m' = m /\ exists edit parts, c' = reply m c edit parts).
Proof.
  unfold ba_handle_request. destruct (need_authentication m (ba_auth a)); cbn [negb]; intros H.
  - assert (ba_auth (ba_expire now a) = ba_auth a) as He by (unfold ba_expire; by destruct (_ <? now)).
    inv_res H. destruct a0 as [a1 [p|]]; simplify_eq.
    + split; [|done]. revert Heqr. case_match; [|by intros [=]].
      intros E%ba_authorize_auth. congruence.
    + split; [|split; [done|split; [done|by do 2 eexists]]]. revert Heqr. case_match; [|by intros [= <-]].
      intros E%ba_authorize_auth. congruence.
  - by simplify_eq.
Qed.

#[export] Program Instance basic_laws : AuthenticatorLaws basic_auth := {|
  auth_ok now a := exists log, ba_ok now a log;
  exempt _ _ := False
|}.
Next Obligation.
  intros now now' rnd m c a ok a' m' c' [log Hok] Hn H. split; [|by apply (ba_handle_auth _ _ _ _ _ _ _ _ H)].
  eexists. apply (ba_handle_ok _ _ _ _ _ _ _ _ _ _ Hok Hn H).
Qed.
Next Obligation.
  intros now now' rnd m c a a' m' c' [log Hok] Hn H. cbn [auth_of basic_authenticator].
  destruct (need_authentication m (ba_auth a)) eqn:En.
  - destruct (ba_handle_ok _ _ _ _ _ _ _ _ _ _ Hok Hn H) as [_ Hs].
    destruct (Hs eq_refl En) as (cred & name & _ & Hm & Hc & _). split; [done|]. right. by exists name.
  - destruct (ba_handle_auth _ _ _ _ _ _ _ _ H) as (_ & Hf & _).
    destruct (Hf En eq_refl) as [-> ->]. split; [done|]. left. split; [done|by left].
Qed.
Next Obligation. intros now rnd m c a a' m' c' H. by apply (ba_handle_auth _ _ _ _ _ _ _ _ H). Qed.

Lemma process_login_auth now rnd m c a a' c' :
  process_login now rnd m c a = Some (a', c') ->
  ca_auth a' = ca_auth a /\ exists edit parts, c' = reply m c edit parts.
Proof.
  unfold process_login. destruct (_ && _); [done|].
  destruct (bytes_eqb _ (m_login a)).
  - destruct (get_user_with _ _ _); intros [= <- <-]; (split; [done|]).
    + case_bool_decide; by do 2 eexists.
    + unfold ca_handle_unauthorized. case_bool_decide; by do 2 eexists.
  - intros [= <- <-]. split; [by case_bool_decide|]. case_bool_decide; by do 2 eexists.
Qed.

Lemma ca_handle_auth now rnd m c a ok a' m' c' :
  ca_handle_request now rnd m c a = (ok, a', m', c') ->
  ca_auth a' = ca_auth a
  /\ (need_authentication m (ca_auth a) = false \/ is_redirect_page m a = true ->
      ok = true -> m' = m /\ c' = c)
  /\ (ok = false -> m' = m /\ exists edit parts, c' = reply m c edit parts).
Proof.
  unfold ca_handle_request. destruct (process_login now rnd m c a) as [[a1 c1]|] eqn:Ep.
  { intros [= <- <- <- <-]. apply process_login_auth in Ep as [Ha Hc]. split; [done|].
    split; [done|]. done. }
  fold (is_redirect_page m a). destruct (need_authentication m (ca_auth a)); cbn [negb].
  2: { by intros [= <- <- <- <-]. }
  destruct (is_redirect_page m a); [by intros [= <- <- <- <-]|].
  assert (ca_auth (ca_expire now a) = ca_auth a) as He by (unfold ca_expire; by destruct (_ <? now)).
  destruct (if bool_decide _ then _ else _) as [[t p]|]; intros [= <- <- <- <-]; (split; [done|]).
  - split; [by intros [?|?]|done].
  - split; [done|]. intros _. split; [done|]. unfold ca_handle_unauthorized.
    case_bool_decide; by do 2 eexists.
Qed.

#[export] Program Instance cookie_laws : AuthenticatorLaws cookie_auth := {|
  auth_ok now a := exists log, ca_ok now a log;
  exempt m a := is_redirect_page m a = true
|}.
Next Obligation.
  intros now now' rnd m c a ok a' m' c' [log Hok] Hn [= H]. split; [|by apply (ca_handle_auth _ _ _ _ _ _ _ _ _ H)].
  eexists. apply (ca_handle_ok _ _ _ _ _ _ _ _ _ _ _ Hok Hn H).
Qed.
Next Obligation.
  intros now now' rnd m c a a' m' c' [log Hok] Hn [= H]. cbn [auth_of cookie_authenticator].
  destruct (ca_handle_auth _ _ _ _ _ _ _ _ _ H) as (_ & Hf & _).
  destruct (need_authentication m (ca_auth a)) eqn:En; [destruct (is_redirect_page m a) eqn:Er|].
  - destruct (Hf (or_intror eq_refl) eq_refl) as [-> ->]. split; [done|]. left. split; [done|by right].
  - destruct (ca_handle_ok _ _ _ _ _ _ _ _ _ _ _ Hok Hn H) as [_ Hs].
    destruct (Hs eq_refl En Er) as (cookie & name & _ & Hm & Hc & _). split; [done|]. right. by exists name.
  - destruct (Hf (or_introl eq_refl) eq_refl) as [-> ->]. split; [done|]. left. split; [done|by left].
Qed.
Next Obligation. intros now rnd m c a a' m' c' [= H]. by apply (ca_handle_auth _ _ _ _ _ _ _ _ _ H). Qed.

End Instances.

(** ** Examples and a deviation *)

#[local] Existing Instance padding_config.

(** A handler that answers with a text. *)
Definition say (text : bytes) : request_handler_t := fun m c =>
  page m c (fun r => r) [op_text text].

Definition sample_server : http_server basic_auth :=
  set_authentication (Some sample_basic)
    (add_redirect (str "/old") (str "/private/a")
       (add_redirect (str "/loop/") (str "/loop")
          (add_resource (str "/private/a") (say (str "a"))
             (add_resource (str "/private/") (say (str "all")) new_http_server)))).

Lemma sample_server_configured : configured sample_server.
Proof. repeat constructor. Qed.

Definition get_of (resource : bytes) : message :=
  set_is_valid true (set_resource resource new_request).

Lemma redirects_end_witness :
  exists r m', handle_request 0 [] (get_of (str "/loop")) (new_connection []) None sample_server = Ok r
               /\ hd_calls r = [call_server_error m' TOO_MANY_REDIRECTS].
Proof.
  destruct (redirects_end 0 [] (get_of (str "/loop")) (new_connection []) sample_server eq_refl) as [_ H].
  assert (forall n r, redirected (m_redirects sample_server) n (str "/loop") r -> r = str "/loop") as Hloop.
  { intros n r H'. remember (str "/loop") as r0 eqn:E0. induction H' as [r|n r r' r'' Hf H' IH]; [done|].
    subst r. vm_compute in Hf. injection Hf as <-. by apply IH. }
  destruct H as (r & m' & Hr & Hc & _).
  - intros n r Hr Hf. apply Hloop in Hr as ->. by vm_compute in Hf.
  - exists r, m'. split; [exact Hr|exact Hc].
Defined.

Lemma longest_resource_handles_witness :
  (exists h, map_find (str "/private/a") (m_resources sample_server) = Some h
             /\ under (str "/private/a") (str "/private/a/b"))
  /\ forall key h, map_find key (m_resources sample_server) = Some h -> ~ under key (str "/privateer").
Proof.
  pose proof (longest_resource_handles (str "/private/a/b") new_request (new_connection []) sample_server
    sample_server_configured) as H1.
  pose proof (longest_resource_handles (str "/privateer") new_request (new_connection []) sample_server
    sample_server_configured) as H2.
  assert (hd_calls (run_handler (str "/private/a/b") new_request (new_connection []) sample_server)
          = [call_handler (str "/private/a") new_request]) as E1 by (vm_compute; reflexivity).
  assert (hd_calls (run_handler (str "/privateer") new_request (new_connection []) sample_server)
          = [call_not_found new_request]) as E2 by (vm_compute; reflexivity).
  rewrite E1 in H1. rewrite E2 in H2. destruct H1 as (h & _ & Hf & Hu & _). destruct H2 as [_ H2].
  split; [exists h; split; [exact Hf|exact Hu]|exact H2].
Defined.

(** The request of ann, for a resource that is redirected to a protected one. *)
Definition redirected_request : message :=
  set_is_valid true (set_resource (str "/old/") basic_request).

(** The calls of a result, for evaluation. *)
Definition calls_of (o : res (handled (A := basic_auth))) : list server_call :=
  match o with Ok r => hd_calls r | Fault _ => [] end.


(** Unlike the other pages, the one for forbidden requests shows its message as it is. *)
Definition page_text (h : error_handler_t) (error_msg : bytes) : bytes :=
  m_written (snd (fst (h (get_of (str "/")) (new_connection []) error_msg))).

Lemma forbidden_message_not_encoded :
  (exists before after, page_text handle_forbidden_request (str "<b>")
                        = before ++ str "<b>" ++ FORBIDDEN_HTML_FINISH ++ after)
  /\ (exists before after, page_text handle_server_error (str "<b>")
                           = before ++ str "&lt;b&gt;" ++ SERVER_ERROR_HTML_FINISH ++ after).
Proof.
  split.
  - exists (take (length (page_text handle_forbidden_request (str "<b>")) - 32)
              (page_text handle_forbidden_request (str "<b>"))), []. vm_compute. reflexivity.
  - exists (take (length (page_text handle_server_error (str "<b>")) - 38)
              (page_text handle_server_error (str "<b>"))), []. vm_compute. reflexivity.
Qed.
