(* ===== verification/Serving.v ===== *)
(** * A server and its clients

    The parts together: the reader of a connection (Reader.v) hands each request to the HTTP
    server (HttpServer.v), whose answer goes through the response writer (Writer.v) to the
    connection; [connection::finish] at the end of the writing gives the connection back to
    the TCP server (TcpServer.v), which calls [handle_connection] again while the connection
    is kept alive. *)
From S2P Require Import Prelude CLib StringUtils Algorithm StdMap Resources Dict HttpTypes Message.
From S2P Require Import ParserBase ParserHeaders ParserForms ParserBody Parser ParserSafety.
From S2P Require Import ParserStream ParserRoundTrip Connection Reader Writer Users Replies Auth.
From S2P Require Import HttpServer.

(** ** The life of a connection *)

Section Serving.
Context {A : Type} `{Authenticator A}.
Implicit Types (s : http_server A).

(** The connection from [handle_connection] on, for as many requests as there are inputs (the
    time, and the random bytes of a cookie); the server is listening, and an answer is on
    its way before the next request is read.  The result has the requests as their handlers
    got them. *)
Fixpoint serve (inputs : list (Z * bytes)) (c : connection) (events : list read_event) s
  : option (res (list (message * option reader_error) * http_server A * connection * list read_event)) :=
  match inputs with
  | [] => Some (Ok ([], s, c, events))
  | (now, rnd) :: inputs' =>
      match run_reader events (receive (handle_connection c s)) with
      | None => None
      | Some (Fault f) => Some (Fault f)
      | Some (Ok (r, read_bytes, events)) => Some (Ok ([], s, rd_conn r, events))
      | Some (Ok (r, finished_reading ec, events)) =>
          match handle_request now rnd (rd_message r) (rd_conn r) ec s with
          | Fault f => Some (Fault f)
          | Ok hd =>
              if get_keep_alive (hd_conn hd) then
                match serve inputs' (hd_conn hd) events (hd_server hd) with
                | None => None
                | Some (Fault f) => Some (Fault f)
                | Some (Ok (ms, s, c, events)) =>
                    Some (Ok ((rd_message r, ec) :: ms, s, c, events))
                end
              else Some (Ok ([(rd_message r, ec)], hd_server hd, hd_conn hd, events))
          end
      end
  end.

End Serving.

(** ** The reader and the socket *)

(** A reader does not write, and does not close the socket. *)
Definition socket_of (c : connection) : bool * bytes := (m_is_open c, m_written c).

Definition keeps_socket (c : connection) (o : option (res (reader * reader_action))) : Prop :=
  forall r act, o = Some (Ok (r, act)) -> socket_of (rd_conn r) = socket_of c.

Lemma consume_bytes_socket r : keeps_socket (rd_conn r) (consume_bytes r).
Proof.
  intros r' act. unfold consume_bytes. destruct (parse _ _ _) as [[[[[rc p] m] ec]|]|]; [|done..].
  intros [= H]. destruct rc; unfold read_bytes_with_timeout, set_message_lifecycle in H; simplify_eq; try done.
  cbn [rd_message rd_parser]. destruct (check_keep_alive m); [|done]. by destruct (eof p).
Qed.

Lemma handle_read_socket ev r : keeps_socket (rd_conn r) (handle_read ev r).
Proof.
  intros r' act. unfold handle_read. destruct ev as [data|].
  - destruct (eof _); [by intros [= <- <-]|]. by intros E%consume_bytes_socket.
  - intros [= E]. unfold handle_read_error in E. inv_res E. destruct a as [[e p] m]. by simplify_eq.
Qed.

Lemma receive_socket r : keeps_socket (rd_conn r) (receive r).
Proof.
  intros r' act. unfold receive. destruct (get_pipelined _).
  - destruct (load_read_pos _) as [data last]. by intros E%consume_bytes_socket.
  - by intros [= <- _].
Qed.

Lemma run_reader_socket events o c r act events' :
  keeps_socket c o -> run_reader events o = Some (Ok (r, act, events')) ->
  socket_of (rd_conn r) = socket_of c.
Proof.
  revert o. induction events as [|ev events IH]; intros o Ho Hr; cbn [run_reader] in Hr;
    destruct o as [[[r1 [|ec]]|]|]; simplify_eq; try (by eapply Ho).
  eapply IH; [|exact Hr]. intros r2 act2 E2. rewrite (handle_read_socket ev r1 _ _ E2). by eapply Ho.
Qed.

(** ** Handlers that answer *)

(** A connection that is kept alive and to which nothing was written. *)
Definition blank_connection : connection := set_lifecycle LIFECYCLE_KEEPALIVE (new_connection []).

(** The bytes a handler answers a request with. *)
Definition answer_of (h : request_handler_t) (m : message) : bytes :=
  m_written (snd (fst (h m blank_connection))).

(** A handler that answers at once, on a connection that is open and kept alive, and does
    nothing else with it; what it writes does not depend on what was written before.  The
    parser limits the length of a resource. *)
Definition answers (h : request_handler_t) : Prop :=
  forall m c, zlen (get_resource m) <= RESOURCE_MAX -> m_is_open c = true -> get_keep_alive c = true ->
    exists buffers, h m c = (m, write_buffers buffers c, None) /\ mjoin buffers = answer_of h m.

(** Every page with some text is such an answer. *)
Lemma page_answers edit parts :
  (forall m, zlen (get_resource m) <= RESOURCE_MAX -> 0 < zlen (parts m ≫= op_data) < 2 ^ 64) ->
  answers (fun m c => page m c (edit m) (parts m)).
Proof.
  intros Hz m c Hr Ho Hk. unfold page, answer_of. cbn [fst snd].
  destruct (reply_written m c (edit m) (parts m) Ho (Hz m Hr)) as [Hw (buffers & E)].
  destruct (reply_written m blank_connection (edit m) (parts m) eq_refl (Hz m Hr)) as [Hw' _].
  rewrite E. exists buffers. split; [done|]. rewrite Hw'.
  rewrite E in Hw. cbn [m_written write_buffers] in Hw. apply app_inv_head in Hw. rewrite Hw.
  rewrite Hk. done.
Qed.

(** The page for resources that are not found is one. *)
Lemma not_found_answers : answers handle_not_found_request.
Proof.
  apply (page_answers (fun _ => with_status RESPONSE_CODE_NOT_FOUND RESPONSE_MESSAGE_NOT_FOUND)
    (fun m => [op_memory NOT_FOUND_HTML_START; op_text (xml_encode (get_resource m));
               op_memory NOT_FOUND_HTML_FINISH])).
  intros m Hr. unfold zlen in *. cbn [mbind list_bind op_data]. rewrite !length_app.
  pose proof (xml_encode_length (get_resource m)).
  assert (length NOT_FOUND_HTML_START = 96%nat) as -> by (vm_compute; reflexivity).
  assert (length NOT_FOUND_HTML_FINISH = 50%nat) as -> by (vm_compute; reflexivity).
  unfold RESOURCE_MAX in Hr. simpl length. lia.
Qed.

(** The answer of a server to a request. *)
Definition server_answer {A} (s : http_server A) (m : message) : bytes :=
  m_written (hd_conn (run_handler (strip_trailing_slash (get_resource m)) m blank_connection s)).

(** A server whose handlers all answer, without authentication and redirections and with the
    default limit. *)
Record answering {A} (s : http_server A) : Prop := mk_answering {
  an_handlers key h : map_find key (m_resources s) = Some h -> answers h;
  an_not_found : answers (m_not_found_handler s);
  an_auth : m_auth_ptr s = None;
  an_redirects : m_redirects s = [];
  an_limit : m_max_content_length s = DEFAULT_CONTENT_MAX
}.

Lemma run_handler_answers {A} (s : http_server A) resource m c :
  answering s -> map_ok (m_resources s) -> zlen (get_resource m) <= RESOURCE_MAX -> m_is_open c = true -> get_keep_alive c = true ->
  exists buffers calls,
    run_handler resource m c s = mk_handled s m (write_buffers buffers c) calls None
    /\ mjoin buffers = m_written (hd_conn (run_handler resource m blank_connection s)).
Proof.
  intros Ha Hok Hr Ho Hk. pose proof (find_resource_longest resource (m_resources s) Hok) as H.
  unfold run_handler, find_request_handler.
  destruct (find_resource resource (m_resources s)) as [[key h]|].
  - destruct H as [Hf _]. pose proof (an_handlers _ Ha _ _ Hf) as Hh.
    destruct (Hh m c Hr Ho Hk) as (buffers & -> & Hb).
    destruct (Hh m blank_connection Hr eq_refl eq_refl) as (b' & E' & _).
    exists buffers, [call_handler key m]. split; [done|]. rewrite Hb. unfold answer_of. by rewrite E'.
  - destruct (an_not_found _ Ha m c Hr Ho Hk) as (buffers & -> & Hb).
    destruct (an_not_found _ Ha m blank_connection Hr eq_refl eq_refl) as (b' & E' & _).
    exists buffers, [call_not_found m]. split; [done|]. rewrite Hb. unfold answer_of, called. by rewrite E'.
Qed.

Lemma write_buffers_ready buffers c : ready c -> ready (write_buffers buffers c).
Proof. intros [H1 H2]. by split. Qed.

(** The resource of a request that was sent is within the limit of the parser. *)
Lemma received_resource content m' m :
  keep_alive_request content m -> same_start m' m -> zlen (get_resource m') <= RESOURCE_MAX.
Proof.
  intros [Hs Hq _ _ _] Hst. pose proof (sd_start_line _ _ Hs) as Hl.
  unfold same_start, start_line_ok, is_request, get_resource in *.
  destruct (m_kind m) as [r|r]; [|done]. destruct (m_kind m') as [r'|r']; [|done].
  destruct Hst as (_ & -> & _). apply Hl.
Qed.

Lemma serve_one {A} `{Authenticator A} content m rest c datas now rnd (s : http_server A) :
  configured s -> answering s -> keep_alive_request content m -> ready c -> m_is_open c = true ->
  Forall segment datas -> pending c ++ mjoin datas = message_text content m ++ rest ->
  exists r datas' hd,
    run_reader (read_data <$> datas) (receive (handle_connection c s))
    = Some (Ok (r, finished_reading None, read_data <$> datas'))
    /\ handle_request now rnd (rd_message r) (rd_conn r) None s = Ok hd
    /\ delivered (content, m) (rd_message r, None)
    /\ hd_server hd = s /\ get_keep_alive (hd_conn hd) = true /\ m_is_open (hd_conn hd) = true
    /\ ready (hd_conn hd) /\ Forall segment datas' /\ pending (hd_conn hd) ++ mjoin datas' = rest
    /\ m_written (hd_conn hd) = m_written c ++ server_answer s (rd_message r).
Proof.
  intros Hcf Ha Hm Hc Ho Hd Hj. pose proof Hcf as [Hok _]%configured_ok.
  destruct (read_one_request content m rest c datas Hm Hc Hd Hj)
    as (r & datas' & m' & Hrun & [Hmsg Hrdy Hal Hrest Hseg] & Hv & [Har Hcont]).
  assert (handle_connection c s = new_reader new_request c) as Ehc.
  { unfold handle_connection. rewrite (an_limit _ Ha). done. }
  rewrite Ehc. pose proof (run_reader_socket _ _ c _ _ _ (receive_socket (new_reader new_request c)) Hrun) as [= Ho' Hw'].
  assert (m_is_open (rd_conn r) = true) as Hor by congruence.
  assert (zlen (get_resource m') <= RESOURCE_MAX) as Hsize
    by (destruct Har as [Hst _ _ _ _]; exact (received_resource _ _ _ Hm Hst)).
  destruct (run_handler_answers s (strip_trailing_slash (get_resource m')) m' (rd_conn r) Ha Hok Hsize Hor Hal)
    as (buffers & calls & E & Hb).
  exists r, datas', (mk_handled s m' (write_buffers buffers (rd_conn r)) calls None).
  split; [exact Hrun|]. rewrite Hmsg. split.
  { unfold handle_request. rewrite Hv, (an_redirects _ Ha), (an_auth _ Ha). cbn. by rewrite E. }
  split; [destruct Har; done|]. cbn [hd_server hd_conn]. split; [done|]. split; [exact Hal|].
  split; [exact Hor|]. split; [by apply write_buffers_ready|]. split; [done|]. split; [exact Hrest|].
  cbn [m_written write_buffers]. rewrite Hw', Hb. done.
Qed.


(** ** An example *)

#[local] Existing Instance padding_config.

(** A server with one resource, for requests that come in two pieces. *)
Definition hello_server : http_server basic_auth :=
  add_resource (str "/") (fun m c => page m c (fun r => r) [op_text (str "Hello")]) new_http_server.

Lemma hello_server_answering : answering hello_server.
Proof.
  split; [|exact not_found_answers|reflexivity..].
  intros key h Hf. cbn [m_resources hello_server add_resource with_resources new_http_server] in Hf.
  unfold map_insert in Hf. cbn in Hf. case_match; [|done]. injection Hf as <-.
  apply (page_answers (fun _ r => r) (fun _ => [op_text (str "Hello")])). intros m _. vm_compute. done.
Qed.

