(* ===== verification/Spdy.v ===== *)
(** * The SPDY parser

    Models [spdy::parser] (src/spdy_parser.cpp, include/pion/spdy/parser.hpp) and
    [spdy::decompressor] (src/spdy_decompressor.cpp).  zlib is a parameter.  The packet is
    memory [mem] and a pointer into it an offset; reading behind the memory is a fault. *)
From stdpp Require Import gmap.
From S2P Require Import Prelude CLib Algorithm Tribool.

(** ** Types and constants *)

Definition MIN_SPDY_VERSION : Z := 3.
Definition SPDY_DATA : Z := 0.
Definition SPDY_SYN_STREAM : Z := 1.
Definition SPDY_SYN_REPLY : Z := 2.
Definition SPDY_RST_STREAM : Z := 3.
Definition SPDY_SETTINGS : Z := 4.
Definition SPDY_PING : Z := 6.
Definition SPDY_GOAWAY : Z := 7.
Definition SPDY_HEADERS : Z := 8.
Definition SPDY_WINDOW_UPDATE : Z := 9.
Definition SPDY_CREDENTIAL : Z := 10.
Definition SPDY_INVALID : Z := 11.

Definition SPDY_FLAG_FIN : Z := 1.

Definition NON_SPDY : Z := 0.
Definition HTTP_REQUEST : Z := 1.
Definition HTTP_RESPONSE : Z := 2.
Definition HTTP_DATA : Z := 3.
Definition SPDY_CONTROL : Z := 4.

Record spdy_control_frame_info := mk_frame_info {
  fi_control_bit : bool;
  fi_version : Z;
  fi_type : Z;
  fi_flags : Z;
  fi_length : Z
}.

Record http_protocol_info := mk_http_info {
  hi_headers : gmap bytes bytes;
  hi_http_type : Z;
  hi_stream_id : Z;
  hi_data_offset : Z;
  hi_data_size : Z;
  hi_last_chunk : bool
}.

Definition new_http_info : http_protocol_info := mk_http_info ∅ NON_SPDY 0 0 0 false.

Definition with_http_type (t : Z) (h : http_protocol_info) : http_protocol_info :=
  mk_http_info (hi_headers h) t (hi_stream_id h) (hi_data_offset h) (hi_data_size h) (hi_last_chunk h).
Definition with_stream_id (i : Z) (h : http_protocol_info) : http_protocol_info :=
  mk_http_info (hi_headers h) (hi_http_type h) i (hi_data_offset h) (hi_data_size h) (hi_last_chunk h).
Definition add_data_offset (n : Z) (h : http_protocol_info) : http_protocol_info :=
  mk_http_info (hi_headers h) (hi_http_type h) (hi_stream_id h) (u32 (hi_data_offset h + n))
    (hi_data_size h) (hi_last_chunk h).
Definition with_data_size (n : Z) (h : http_protocol_info) : http_protocol_info :=
  mk_http_info (hi_headers h) (hi_http_type h) (hi_stream_id h) (hi_data_offset h) n (hi_last_chunk h).
Definition with_last_chunk (b : bool) (h : http_protocol_info) : http_protocol_info :=
  mk_http_info (hi_headers h) (hi_http_type h) (hi_stream_id h) (hi_data_offset h) (hi_data_size h) b.
Definition with_headers (m : gmap bytes bytes) (h : http_protocol_info) : http_protocol_info :=
  mk_http_info m (hi_http_type h) (hi_stream_id h) (hi_data_offset h) (hi_data_size h) (hi_last_chunk h).

Inductive spdy_frame_type := spdy_data_frame | spdy_control_frame | spdy_invalid_frame.

(** [error_value_t]. *)
Inductive spdy_error :=
| ERROR_INVALID_SPDY_FRAME
| ERROR_INVALID_SPDY_VERSION
| ERROR_DECOMPRESSION
| ERROR_PROTOCOL_ERROR
| ERROR_INTERNAL_SPDY_ERROR
| ERROR_MISSING_HEADER_DATA.

(** [error_category_t::message]. *)
Definition spdy_error_message (e : spdy_error) : bytes :=
  match e with
  | ERROR_INVALID_SPDY_FRAME => str "invalid spdy frame"
  | ERROR_INVALID_SPDY_VERSION => str "invalid spdy version"
  | ERROR_DECOMPRESSION => str "error in decompression"
  | ERROR_MISSING_HEADER_DATA => str "missing header data"
  | _ => str "SPDYParser error"
  end.

(** [rst_stream_status]. *)
Definition rst_stream_status (code : Z) : option bytes :=
  match code with
  | 1 => Some (str "PROTOCOL_ERROR")
  | 2 => Some (str "INVALID_STREAM")
  | 3 => Some (str "REFUSED_STREAM")
  | 4 => Some (str "UNSUPPORTED_VERSION")
  | 5 => Some (str "CANCEL")
  | 6 => Some (str "INTERNAL_ERROR")
  | 7 => Some (str "FLOW_CONTROL_ERROR")
  | 8 => Some (str "STREAM_IN_USE")
  | 9 => Some (str "STREAM_ALREADY_CLOSED")
  | 10 => Some (str "INVALID_CREDENTIALS")
  | 11 => Some (str "FRAME_TOO_LARGE")
  | 12 => Some (str "INVALID")
  | _ => None
  end.

(** ** zlib *)

Definition Z_OK : Z := 0.
Definition Z_NEED_DICT : Z := 2.

(** What [inflate] changes in the stream it is given. *)
Record inflated (S : Type) := mk_inflated {
  if_code : Z;
  if_state : S;
  if_rest : bytes;  (* the input that is left: next_in, avail_in *)
  if_out : bytes;  (* what was stored at next_out *)
  if_adler : Z
}.
Arguments mk_inflated {S}. Arguments if_code {S}. Arguments if_state {S}.
Arguments if_rest {S}. Arguments if_out {S}. Arguments if_adler {S}.

(** The functions of zlib the decompressor calls. *)
Class Zlib := {
  zstate : Type;
  inflateInit2 : Z * zstate;
  inflate : zstate -> bytes -> Z -> inflated zstate;
  inflateSetDictionary : zstate -> bytes -> Z * zstate;
  adler32_start : Z;
  adler32 : Z -> bytes -> Z
}.

(** What zlib documents: [inflate] stores at most [avail_out] bytes. *)
Class ZlibLaws (z : Zlib) := {
  inflate_fits st data n : 0 <= n -> zlen (if_out (inflate st data n)) <= n
}.

(** ** The decompressor *)

Definition MAX_UNCOMPRESSED_DATA_BUF_SIZE : Z := 16384.

(** The dictionary with its terminator, which [sizeof] counts. *)
Definition SPDY_ZLIB_DICTIONARY : bytes :=
  str "optionsgetheadpostputdeletetraceacceptaccept-charsetaccept-encodingaccept-"
  ++ str "languageauthorizationexpectfromhostif-modified-sinceif-matchif-none-matchi"
  ++ str "f-rangeif-unmodifiedsincemax-forwardsproxy-authorizationrangerefererteuser"
  ++ str "-agent10010120020120220320420520630030130230330430530630740040140240340440"
  ++ str "5406407408409410411412413414415416417500501502503504505accept-rangesageeta"
  ++ str "glocationproxy-authenticatepublicretry-afterservervarywarningwww-authentic"
  ++ str "ateallowcontent-basecontent-encodingcache-controlconnectiondatetrailertran"
  ++ str "sfer-encodingupgradeviawarningcontent-languagecontent-lengthcontent-locati"
  ++ str "oncontent-md5content-rangecontent-typeetagexpireslast-modifiedset-cookieMo"
  ++ str "ndayTuesdayWednesdayThursdayFridaySaturdaySundayJanFebMarAprMayJunJulAugSe"
  ++ str "pOctNovDecchunkedtext/htmlimage/pngimage/jpgimage/gifapplication/xmlapplic"
  ++ str "ation/xhtmltext/plainpublicmax-agecharset=iso-8859-1utf-8gzipdeflateHTTP/1"
  ++ str ".1statusversionurl"
  ++ [NUL].

Section Decompressor.
Context `{z : Zlib}.

(** [m_response_zstream] is not initialised if the first initialisation fails, and the
    dictionary identifier is not if one of them fails. *)
Record decompressor := mk_decompressor {
  m_request_zstream : zstate;
  m_response_zstream : option zstate;
  m_dictionary_id : option Z;
  m_uncompressed_header : list (option char)
}.

Definition new_decompressor : decompressor :=
  let '(code, req) := inflateInit2 in
  let buffer := replicate (Z.to_nat MAX_UNCOMPRESSED_DATA_BUF_SIZE) None in
  if code =? Z_OK then
    let '(code, resp) := inflateInit2 in
    mk_decompressor req (Some resp)
      (if code =? Z_OK then Some (adler32 adler32_start SPDY_ZLIB_DICTIONARY) else None) buffer
  else mk_decompressor req None None buffer.

(** Bytes that are stored at an offset of the buffer. *)
Definition store_at (k : nat) (out : bytes) (buffer : list (option char)) : list (option char) :=
  take k buffer ++ (Some <$> out) ++ drop (k + length out) buffer.

(** [spdy_decompress_header]: the result, the stream and the buffer. *)
Definition spdy_decompress_header (data : bytes) (st : zstate) (dictionary_id : option Z)
  (buffer : list (option char)) : res (bool * zstate * list (option char)) :=
  let r := inflate st data MAX_UNCOMPRESSED_DATA_BUF_SIZE in
  let buffer := store_at 0 (if_out r) buffer in
  r2 ←
    (if if_code r =? Z_NEED_DICT then
       match dictionary_id with
       | None => Fault undefined_behaviour
       | Some id =>
           if if_adler r =? id then
             let '(code, st) := inflateSetDictionary (if_state r) SPDY_ZLIB_DICTIONARY in
             if code =? Z_OK then
               let r2 := inflate st (if_rest r)
                           (MAX_UNCOMPRESSED_DATA_BUF_SIZE - zlen (if_out r)) in
               Ok (if_code r2, if_state r2, if_rest r2, store_at (length (if_out r)) (if_out r2) buffer)
             else Ok (code, st, if_rest r, buffer)
           else Ok (if_code r, if_state r, if_rest r, buffer)
       end
     else Ok (if_code r, if_state r, if_rest r, buffer));
  let '(code, st, rest, buffer) := r2 in
  Ok ((code =? Z_OK) && (zlen rest =? 0), st, buffer).

(** [decompress]: whether [m_uncompressed_header] holds the block. *)
Definition decompress (data : bytes) (stream_id : Z) (frame : spdy_control_frame_info)
  (d : decompressor) : res (bool * decompressor) :=
  let on_response :=
    match m_response_zstream d with
    | None => Fault undefined_behaviour
    | Some st =>
        r ← spdy_decompress_header data st (m_dictionary_id d) (m_uncompressed_header d);
        let '(ok, st, buffer) := r in
        Ok (ok, mk_decompressor (m_request_zstream d) (Some st) (m_dictionary_id d) buffer)
    end in
  if stream_id mod 2 =? 0 then on_response
  else if fi_type frame =? SPDY_HEADERS then on_response
  else if fi_type frame =? SPDY_SYN_STREAM then
    r ← spdy_decompress_header data (m_request_zstream d) (m_dictionary_id d)
          (m_uncompressed_header d);
    let '(ok, st, buffer) := r in
    Ok (ok, mk_decompressor st (m_response_zstream d) (m_dictionary_id d) buffer)
  else if fi_type frame =? SPDY_SYN_REPLY then on_response
  else Fault assertion_failed.

End Decompressor.

(** ** The parser *)

(** The pointers of the parser, as offsets in the packet; [nullptr] is the null pointer. *)
Record spdy_parser := mk_spdy_parser {
  sp_read_ptr : Z;
  sp_uncompressed_ptr : Z;  (* an offset in the decompressor's buffer *)
  sp_current_data_chunk_ptr : Z;
  sp_last_data_chunk_ptr : Z
}.

Definition nullptr : Z := -1.

Definition new_spdy_parser : spdy_parser := mk_spdy_parser nullptr nullptr nullptr nullptr.

(** The memory from a pointer on. *)
Definition at_ptr {A} (mem : list A) (p : Z) : list A :=
  if p <? 0 then [] else drop (Z.to_nat p) mem.

Definition set_read_ptr (ptr : Z) (sp : spdy_parser) : spdy_parser :=
  mk_spdy_parser ptr (sp_uncompressed_ptr sp) ptr (sp_last_data_chunk_ptr sp).

(** [m_read_ptr += n]. *)
Definition skip (n : Z) (sp : spdy_parser) : spdy_parser :=
  mk_spdy_parser (sp_read_ptr sp + n) (sp_uncompressed_ptr sp) (sp_current_data_chunk_ptr sp)
    (sp_last_data_chunk_ptr sp).

Definition set_uncompressed_ptr (p : Z) (sp : spdy_parser) : spdy_parser :=
  mk_spdy_parser (sp_read_ptr sp) p (sp_current_data_chunk_ptr sp) (sp_last_data_chunk_ptr sp).

Definition set_current_chunk (p : Z) (sp : spdy_parser) : spdy_parser :=
  mk_spdy_parser (sp_read_ptr sp) (sp_uncompressed_ptr sp) p (sp_last_data_chunk_ptr sp).

Definition get_spdy_data_content (sp : spdy_parser) : Z := sp_last_data_chunk_ptr sp.
Definition get_spdy_read_pointer (sp : spdy_parser) : Z := sp_read_ptr sp.

Definition is_spdy_control_frame (mem : bytes) (ptr : Z) : res bool :=
  byte_value ← to_uint16_ptr (at_ptr mem ptr);
  if Z.shiftr byte_value 15 =? 0 then Ok false
  else
    let version := Z.land byte_value 32767 in
    if (version <? 1) || (3 <? version) then Ok false
    else
      type ← to_uint16_ptr (at_ptr mem (ptr + 2));
      Ok (negb (SPDY_INVALID <=? type)).

Definition get_spdy_frame_type (mem : bytes) (ptr : Z) : res spdy_frame_type :=
  if ptr =? nullptr then Fault assertion_failed
  else
    match at_ptr mem ptr with
    | [] => Fault undefined_behaviour
    | c :: _ => Ok (if uchar c =? 128 then spdy_control_frame
                    else if uchar c =? 0 then spdy_data_frame else spdy_invalid_frame)
    end.

Definition get_control_frame_stream_id (mem : bytes) (ptr : Z) : res Z :=
  four_bytes ← to_uint32_ptr (at_ptr mem (ptr + 8));
  Ok (Z.land four_bytes 2147483647).

(** [populate_frame]: an error, or the frame and the stream identifier, with the read
    pointer behind the head of the frame. *)
Definition populate_frame (mem : bytes) (sp : spdy_parser) (length_packet : Z)
  (http_info : http_protocol_info)
  : res (spdy_parser * Z * http_protocol_info * (spdy_error + spdy_control_frame_info * Z)) :=
  byte_value ← to_uint16_ptr (at_ptr mem (sp_read_ptr sp));
  let control_bit := negb (Z.shiftr byte_value 15 =? 0) in
  head ←
    (if control_bit then
       let version := Z.land byte_value 32767 in
       let sp := skip 2 sp in
       type ← to_uint16_ptr (at_ptr mem (sp_read_ptr sp));
       Ok (sp, add_data_offset 2 http_info, type, version, 0, SPDY_INVALID <=? type)
     else
       four_bytes ← to_uint32_ptr (at_ptr mem (sp_read_ptr sp));
       let stream_id := Z.land four_bytes 2147483647 in
       Ok (skip 2 sp, add_data_offset 2 (with_stream_id stream_id http_info), SPDY_DATA, 0,
           stream_id, false));
  let '(sp, http_info, type, version, stream_id, invalid) := head in
  let length_packet := u32 (length_packet - 2) in
  if invalid : bool then Ok (sp, length_packet, http_info, inl ERROR_INVALID_SPDY_FRAME)
  else
    let sp := skip 2 sp in
    let length_packet := u32 (length_packet - 2) in
    let http_info := add_data_offset 2 http_info in
    match at_ptr mem (sp_read_ptr sp) with
    | [] => Fault undefined_behaviour
    | c :: _ =>
        four_bytes ← to_uint32_ptr (at_ptr mem (sp_read_ptr sp));
        let frame := mk_frame_info control_bit version type (uchar c)
                       (Z.land four_bytes 16777215) in
        let sp := skip 4 sp in
        let length_packet := u32 (length_packet - 4) in
        let http_info := with_data_size (fi_length frame) (add_data_offset 4 http_info) in
        if control_bit then
          four_bytes ← to_uint32_ptr (at_ptr mem (sp_read_ptr sp));
          Ok (sp, length_packet, http_info, inr (frame, Z.land four_bytes 2147483647))
        else Ok (sp, length_packet, http_info, inr (frame, stream_id))
    end.

Definition parse_spdy_data (frame : spdy_control_frame_info) (http_info : http_protocol_info)
  : http_protocol_info :=
  if Z.land (fi_flags frame) SPDY_FLAG_FIN =? 0 then http_info
  else with_last_chunk true http_info.

(** The status code is only logged. *)
Definition parse_spdy_rst_stream (mem : bytes) (frame : spdy_control_frame_info)
  (sp : spdy_parser) : res (spdy_parser * option bytes) :=
  if negb (fi_flags frame =? 0) || negb (fi_length frame =? 8) then Ok (sp, None)
  else
    let sp := skip 4 sp in
    status_code ← to_uint32_ptr (at_ptr mem (sp_read_ptr sp));
    Ok (sp, rst_stream_status status_code).

Definition parse_spdy_ping_frame (mem : bytes) (frame : spdy_control_frame_info)
  (sp : spdy_parser) : res spdy_parser :=
  if negb (fi_length frame =? 4) then Ok sp
  else ping_id ← to_uint32_ptr (at_ptr mem (sp_read_ptr sp)); Ok (skip 4 sp).

Definition parse_spdy_goaway_frame (mem : bytes) (frame : spdy_control_frame_info)
  (sp : spdy_parser) : res (spdy_parser * option spdy_error) :=
  if negb (fi_length frame =? 4) then Ok (sp, None)
  else
    let sp := skip 4 sp in
    status_code ← to_uint32_ptr (at_ptr mem (sp_read_ptr sp));
    Ok (sp, if status_code =? 1 then Some ERROR_PROTOCOL_ERROR
            else if status_code =? 11 then Some ERROR_INTERNAL_SPDY_ERROR
            else None).

Section Parser.
Context `{z : Zlib}.

(** The characters at an offset of the decompressor's buffer. *)
Definition read_uncompressed (p n : Z) (d : decompressor) : res bytes :=
  match mapM (fun c => c) (take (Z.to_nat n) (at_ptr (m_uncompressed_header d) p)) with
  | Some s => if zlen s =? n then Ok s else Fault undefined_behaviour
  | None => Fault undefined_behaviour
  end.

(** [std::map::insert], which keeps the value of a key that is there. *)
Definition map_insert (k v : bytes) (m : gmap bytes bytes) : gmap bytes bytes :=
  match m !! k with Some _ => m | None => <[k := v]> m end.

(** A string with its length in front. *)
Definition read_counted (p : Z) (d : decompressor) : res (bytes * Z) :=
  two ← read_uncompressed p 2 d;
  len ← to_uint16_ptr two;
  s ← read_uncompressed (p + 2) len d;
  Ok (s, p + 2 + len).

Fixpoint name_value_pairs (n : nat) (p : Z) (d : decompressor) (headers : gmap bytes bytes)
  : res (gmap bytes bytes * Z) :=
  match n with
  | O => Ok (headers, p)
  | S n' =>
      name ← read_counted p d;
      value ← read_counted (snd name) d;
      name_value_pairs n' (snd value) d (map_insert (fst name) (fst value) headers)
  end.

(** The compressed block; zlib is given a pointer and a length, and may read all of it. *)
Definition compressed_block (mem : bytes) (p n : Z) : res bytes :=
  let data := at_ptr mem p in
  if zlen data <? n then Fault undefined_behaviour else Ok (take (Z.to_nat n) data).

(** [parse_header_payload]. *)
Definition parse_header_payload (mem : bytes) (frame : spdy_control_frame_info)
  (d : decompressor) (http_info : http_protocol_info) (sp : spdy_parser)
  : res (spdy_parser * decompressor * http_protocol_info * option spdy_error) :=
  four_bytes ← to_uint32_ptr (at_ptr mem (sp_read_ptr sp));
  let stream_id := Z.land four_bytes 2147483647 in
  let sp := skip 4 sp in
  let http_info := with_stream_id stream_id http_info in
  let is_reply := (fi_type frame =? SPDY_SYN_REPLY) || (fi_type frame =? SPDY_HEADERS) in
  let sp := if fi_type frame =? SPDY_SYN_STREAM then skip 2 (skip 4 sp)
            else if is_reply then skip 2 sp else sp in
  if negb ((fi_type frame =? SPDY_SYN_STREAM) || is_reply) then
    Ok (sp, d, http_info, Some ERROR_INVALID_SPDY_FRAME)
  else
    let header_block_length :=
      u32 (fi_length frame - if fi_type frame =? SPDY_SYN_STREAM then 10 else 6) in
    data ← compressed_block mem (sp_read_ptr sp) header_block_length;
    r ← decompress data stream_id frame d;
    let '(ok, d) := r in
    if negb ok then
      Ok (set_uncompressed_ptr nullptr sp, d, http_info, Some ERROR_DECOMPRESSION)
    else
      two ← read_uncompressed 0 2 d;
      num_name_val_pairs ← to_uint16_ptr two;
      r ← name_value_pairs (Z.to_nat num_name_val_pairs) 2 d (hi_headers http_info);
      let '(headers, p) := r in
      Ok (set_uncompressed_ptr p sp, d, with_headers headers http_info, None).

(** The [switch] of [parse_spdy_frame] on the type of the frame. *)
Definition parse_frame_payload (mem : bytes) (frame : spdy_control_frame_info)
  (d : decompressor) (http_info : http_protocol_info) (sp : spdy_parser)
  : res (spdy_parser * decompressor * http_protocol_info * option spdy_error) :=
  let t := fi_type frame in
  if (t =? SPDY_SYN_STREAM) || (t =? SPDY_SYN_REPLY) || (t =? SPDY_HEADERS) then
    parse_header_payload mem frame d http_info sp
  else if t =? SPDY_RST_STREAM then
    r ← parse_spdy_rst_stream mem frame sp;
    Ok (fst r, d, with_http_type SPDY_CONTROL http_info, None)
  else if t =? SPDY_SETTINGS then Ok (sp, d, with_http_type SPDY_CONTROL http_info, None)
  else if t =? SPDY_PING then
    sp ← parse_spdy_ping_frame mem frame sp;
    Ok (sp, d, with_http_type SPDY_CONTROL http_info, None)
  else if t =? SPDY_GOAWAY then
    r ← parse_spdy_goaway_frame mem frame sp;
    Ok (fst r, d, with_http_type SPDY_CONTROL http_info, snd r)
  else if (t =? SPDY_WINDOW_UPDATE) || (t =? SPDY_CREDENTIAL) then
    Ok (sp, d, with_http_type SPDY_CONTROL http_info, None)
  else Ok (sp, d, http_info, None).

(** The type of the message, by the type of the frame. *)
Definition note_frame_type (frame : spdy_control_frame_info) (http_info : http_protocol_info)
  : http_protocol_info :=
  if fi_type frame =? SPDY_SYN_STREAM then with_http_type HTTP_REQUEST http_info
  else if fi_type frame =? SPDY_SYN_REPLY then with_http_type HTTP_RESPONSE http_info
  else if fi_type frame =? SPDY_DATA then with_http_type HTTP_DATA http_info
  else http_info.

(** What a call of the parser gives: the result, the parser, the decompressor, the
    information on the frame, the length that is left and the error code. *)
Record spdy_result := mk_spdy_result {
  sr_rc : tribool;
  sr_parser : spdy_parser;
  sr_decompressor : decompressor;
  sr_http_info : http_protocol_info;
  sr_length_packet : Z;
  sr_error : option spdy_error
}.

Definition parse_spdy_frame (mem : bytes) (d : decompressor) (http_info : http_protocol_info)
  (length_packet : Z) (sp : spdy_parser) : res spdy_result :=
  if sp_read_ptr sp =? nullptr then Fault assertion_failed
  else
    match at_ptr mem (sp_read_ptr sp) with
    | [] => Fault undefined_behaviour
    | first_byte :: _ =>
        if negb (uchar first_byte =? 128) && negb (uchar first_byte =? 0) then
          Ok (mk_spdy_result false_value sp d http_info length_packet (Some ERROR_INVALID_SPDY_FRAME))
        else
          r ← populate_frame mem sp length_packet http_info;
          match r with
          | (sp, length_packet, http_info, inl e) =>
              Ok (mk_spdy_result false_value sp d http_info length_packet (Some e))
          | (sp, length_packet, http_info, inr (frame, stream_id)) =>
              if stream_id =? 0 then Fault assertion_failed
              else
                let more := fi_length frame <? length_packet in
                let sp := if more then set_current_chunk (sp_read_ptr sp + fi_length frame) sp
                          else sp in
                let length_packet := if more then u32 (length_packet - fi_length frame)
                                     else length_packet in
                let rc := if more then indeterminate_value else true_value in
                let http_info := if fi_control_bit frame then http_info
                                 else parse_spdy_data frame http_info in
                if MIN_SPDY_VERSION <? fi_version frame then
                  Ok (mk_spdy_result false_value sp d http_info length_packet
                        (Some ERROR_INVALID_SPDY_VERSION))
                else
                  let http_info := note_frame_type frame http_info in
                  r ← parse_frame_payload mem frame d http_info sp;
                  let '(sp, d, http_info, ec) := r in
                  match ec with
                  | Some e => Ok (mk_spdy_result false_value sp d http_info length_packet (Some e))
                  | None =>
                      Ok (mk_spdy_result rc
                            (mk_spdy_parser (sp_current_data_chunk_ptr sp) (sp_uncompressed_ptr sp)
                               (sp_current_data_chunk_ptr sp) (sp_read_ptr sp))
                            d http_info length_packet None)
                  end
          end
    end.

(** [parse]: a frame at an offset of the packet. *)
Definition parse_spdy (mem : bytes) (d : decompressor) (http_info : http_protocol_info)
  (packet_ptr length_packet : Z) (sp : spdy_parser) : res spdy_result :=
  parse_spdy_frame mem d http_info length_packet (set_read_ptr packet_ptr sp).

End Parser.

(** ** Frames on the wire *)

(** The frames of the protocol.  [data_frame id flags payload] and [control_frame version
    type flags payload]. *)
Inductive spdy_frame :=
| data_frame (id flags : Z) (payload : bytes)
| control_frame (version type flags : Z) (payload : bytes).

Definition frame_payload (f : spdy_frame) : bytes :=
  match f with data_frame _ _ payload | control_frame _ _ _ payload => payload end.

Definition frame_head (f : spdy_frame) : bytes :=
  match f with
  | data_frame id flags payload => from_uint32 id ++ from_uint8 flags ++ from_uint24 (zlen payload)
  | control_frame version type flags payload =>
      from_uint16 (32768 + version) ++ from_uint16 type ++ from_uint8 flags
      ++ from_uint24 (zlen payload)
  end.

Definition encode_frame (f : spdy_frame) : bytes := frame_head f ++ frame_payload f.

(** What the parser makes of the head. *)
Definition frame_info (f : spdy_frame) : spdy_control_frame_info :=
  match f with
  | data_frame _ flags payload => mk_frame_info false 0 SPDY_DATA flags (zlen payload)
  | control_frame version type flags payload =>
      mk_frame_info true version type flags (zlen payload)
  end.

(** The stream identifier the parser takes for a frame: for a control frame, the first four
    bytes of its payload, whatever the type. *)
Definition frame_stream_id (f : spdy_frame) : Z :=
  match f with
  | data_frame id _ _ => id
  | control_frame _ _ _ payload =>
      match to_uint32_ptr payload with Ok n => Z.land n 2147483647 | Fault _ => 0 end
  end.

(** A frame with fields of their width; a data frame is recognised by a first byte of 0. *)
Definition frame_ok (f : spdy_frame) : Prop :=
  zlen (frame_payload f) < 2 ^ 24
  /\ match f with
     | data_frame id flags _ => 0 < id < 2 ^ 24 /\ 0 <= flags < 2 ^ 8
     | control_frame version type flags payload =>
         0 <= version < 2 ^ 8 /\ 0 <= type < SPDY_INVALID /\ 0 <= flags < 2 ^ 8
         /\ 4 <= zlen payload
     end.

Lemma at_ptr_app {A} (pre rest : list A) : at_ptr (pre ++ rest) (zlen pre) = rest.
Proof.
  unfold at_ptr. pose proof (zlen_nonneg pre). replace (zlen pre <? 0) with false by lia.
  unfold zlen. rewrite Nat2Z.id. apply drop_app_length.
Qed.

Lemma at_ptr_add {A} (mem rest : list A) p n :
  0 <= p -> 0 <= n -> at_ptr mem p = rest -> at_ptr mem (p + n) = drop (Z.to_nat n) rest.
Proof.
  unfold at_ptr. intros Hp Hn H. replace (p <? 0) with false in H by lia.
  replace (p + n <? 0) with false by lia. rewrite <- H, drop_drop. f_equal. lia.
Qed.

(** Four bytes: the low bytes of a word do not change when the high byte does. *)
Lemma from_uint8_uchar n : 0 <= n < 2 ^ 8 -> uchar (byte_at n 0) = n.
Proof. intros H. rewrite uchar_byte_at by lia. rewrite Z.div_1_r, Z.mod_small; lia. Qed.

Lemma land_31 n : Z.land n 2147483647 = n mod 2 ^ 31.
Proof. change 2147483647 with (Z.ones 31). by rewrite Z.land_ones. Qed.

Lemma land_24 n : Z.land n 16777215 = n mod 2 ^ 24.
Proof. change 16777215 with (Z.ones 24). by rewrite Z.land_ones. Qed.

Lemma land_15 n : Z.land n 32767 = n mod 2 ^ 15.
Proof. change 32767 with (Z.ones 15). by rewrite Z.land_ones. Qed.

(** The word behind the type: the flags and 24 bits of length. *)
Lemma length_word flags n rest :
  0 <= flags < 2 ^ 8 -> 0 <= n < 2 ^ 24 ->
  exists w, to_uint32_ptr (from_uint8 flags ++ from_uint24 n ++ rest) = Ok w
            /\ Z.land w 16777215 = n.
Proof.
  intros Hf Hn. eexists. split; [reflexivity|]. rewrite land_24, to_uint32_add.
  pose proof (uint24_bytes n) as E. cbn [from_uint24 to_uint24_ptr] in E.
  rewrite to_uint24_add in E. injection E as E. rewrite !uchar_byte_at in * by lia. dlia.
Qed.

Lemma id_word id rest :
  0 <= id < 2 ^ 31 ->
  exists w, to_uint32_ptr (from_uint32 id ++ rest) = Ok w /\ Z.land w 2147483647 = id.
Proof.
  intros H. exists id. split; [|rewrite land_31; apply Z.mod_small; lia].
  pose proof (uint32_bytes id) as E. rewrite Z.mod_small in E by lia. exact E.
Qed.

Lemma uint16_word n rest : 0 <= n < 2 ^ 16 -> to_uint16_ptr (from_uint16 n ++ rest) = Ok n.
Proof.
  intros H. pose proof (uint16_bytes n) as E. rewrite Z.mod_small in E by lia. exact E.
Qed.

(** What [populate_frame] stores for a frame. *)
Definition frame_http_info (f : spdy_frame) (h : http_protocol_info) : http_protocol_info :=
  with_data_size (zlen (frame_payload f))
    (add_data_offset 8 (match f with
                        | data_frame id _ _ => with_stream_id id h
                        | control_frame _ _ _ _ => h
                        end)).

Lemma skip_skip a b sp : 0 <= a -> skip b (skip a sp) = skip (a + b) sp.
Proof. intros _. unfold skip. simpl. f_equal. lia. Qed.

Lemma add_data_offset_twice a b h :
  add_data_offset b (add_data_offset a h) = add_data_offset (a + b) h.
Proof.
  unfold add_data_offset. simpl. f_equal. unfold u32. rewrite Zplus_mod_idemp_l. f_equal. lia.
Qed.

Lemma length_minus_8 n : 8 <= n < 2 ^ 32 -> u32 (u32 (u32 (n - 2) - 2) - 4) = n - 8.
Proof.
  intros H. rewrite (u32_small (n - 2)), (u32_small (n - 2 - 2)), u32_small by lia. lia.
Qed.

(** The pointer behind [n] bytes of memory that starts with them. *)
Lemma at_ptr_skip {A} (mem s rest : list A) p n :
  0 <= p -> at_ptr mem p = s ++ rest -> n = zlen s -> at_ptr mem (p + n) = rest.
Proof.
  intros Hp H ->. rewrite (at_ptr_add mem (s ++ rest)) by (try done; apply zlen_nonneg).
  unfold zlen. rewrite Nat2Z.id. apply drop_app_length.
Qed.

(** The first half of the head of a frame. *)
Definition head_start (f : spdy_frame) : bytes :=
  match f with
  | data_frame id _ _ => from_uint32 id
  | control_frame version type _ _ => from_uint16 (32768 + version) ++ from_uint16 type
  end.

Definition frame_flags (f : spdy_frame) : Z :=
  match f with data_frame _ flags _ | control_frame _ _ flags _ => flags end.

Lemma encode_frame_split f :
  encode_frame f
  = head_start f ++ from_uint8 (frame_flags f) ++ from_uint24 (zlen (frame_payload f)) ++ frame_payload f.
Proof. by destruct f. Qed.

(** The first byte of a frame. *)
Lemma first_byte_of_frame f :
  frame_ok f -> exists c s, encode_frame f = c :: s
                            /\ uchar c = match f with data_frame _ _ _ => 0 | _ => 128 end.
Proof.
  intros [_ H]. destruct f as [id flags payload|version type flags payload]; simpl in H;
    (eexists _, _; split; [reflexivity|]); rewrite uchar_byte_at by lia; dlia.
Qed.

Lemma populate_frame_encoded mem sp f post len h :
  frame_ok f -> 0 <= sp_read_ptr sp -> at_ptr mem (sp_read_ptr sp) = encode_frame f ++ post ->
  8 <= len < 2 ^ 32 ->
  populate_frame mem sp len h
  = Ok (skip 8 sp, len - 8, frame_http_info f h, inr (frame_info f, frame_stream_id f)).
Proof.
  intros [Hn Hf] Hp Hm Hl. pose proof (zlen_nonneg (frame_payload f)) as Hn0.
  rewrite encode_frame_split, <- !app_assoc in Hm.
  assert (zlen (head_start f) = 4) as Hh by (by destruct f).
  pose proof (at_ptr_skip mem _ _ _ 4 Hp Hm (eq_sym Hh)) as Hm4.
  assert (0 <= frame_flags f < 2 ^ 8) as Hfl by (destruct f; simpl in *; lia).
  destruct (length_word (frame_flags f) (zlen (frame_payload f)) (frame_payload f ++ post) Hfl
    ltac:(lia)) as (w & Ew & Hw).
  assert (at_ptr mem (sp_read_ptr sp + 8) = frame_payload f ++ post) as Hm8.
  { replace (sp_read_ptr sp + 8) with (sp_read_ptr sp + 4 + 4) by lia.
    apply (at_ptr_skip mem (from_uint8 (frame_flags f) ++ from_uint24 (zlen (frame_payload f))));
      [lia| |reflexivity]. by rewrite <- app_assoc. }
  unfold populate_frame. rewrite Hm.
  destruct f as [id flags payload|version type flags payload]; cbn [head_start frame_flags frame_payload] in *.
  - destruct Hf as [Hid _].
    destruct (id_word id (from_uint8 flags ++ from_uint24 (zlen payload) ++ payload ++ post)
      ltac:(lia)) as (wi & Ei & Hwi).
    assert (to_uint16_ptr (from_uint32 id ++ from_uint8 flags ++ from_uint24 (zlen payload) ++ payload ++ post)
            = Ok (id / 2 ^ 16)) as ->.
    { simpl. f_equal. rewrite to_uint16_add, !uchar_byte_at by lia. dlia. }
    cbn [mbind res_bind]. rewrite Ei. cbn [mbind res_bind]. rewrite Hwi.
    assert (Z.shiftr (id / 2 ^ 16) 15 = 0) as ->.
    { rewrite Z.shiftr_div_pow2 by lia. dlia. }
    cbn [Z.eqb negb mbind res_bind]. rewrite skip_skip by lia. change (sp_read_ptr (skip (2 + 2) sp)) with (sp_read_ptr sp + 4).
    rewrite Hm4, Ew. cbn [mbind res_bind app from_uint8]. rewrite Hw, from_uint8_uchar by lia.
    rewrite skip_skip, !add_data_offset_twice by lia.
    by rewrite length_minus_8.
  - destruct Hf as (Hv & Ht & _ & Hpl).
    rewrite <- app_assoc in *.
    rewrite uint16_word by lia. cbn [mbind res_bind].
    assert (Z.shiftr (32768 + version) 15 = 1) as ->.
    { rewrite Z.shiftr_div_pow2 by lia. dlia. }
    cbn [Z.eqb negb mbind res_bind]. change (sp_read_ptr (skip 2 sp)) with (sp_read_ptr sp + 2).
    rewrite (at_ptr_skip mem _ _ _ 2 Hp Hm eq_refl), uint16_word by (unfold SPDY_INVALID in *; lia).
    cbn [mbind res_bind]. replace (SPDY_INVALID <=? type) with false by lia.
    rewrite skip_skip by lia. change (sp_read_ptr (skip (2 + 2) sp)) with (sp_read_ptr sp + 4).
    rewrite Hm4, Ew. cbn [mbind res_bind app from_uint8]. rewrite Hw, from_uint8_uchar by lia.
    rewrite skip_skip, !add_data_offset_twice by lia.
    change (sp_read_ptr (skip (2 + 2 + 4) sp)) with (sp_read_ptr sp + 8). rewrite Hm8.
    unfold frame_stream_id.
    destruct payload as [|c0 [|c1 [|c2 [|c3 payload']]]]; try (exfalso; unfold zlen in Hpl; simpl in Hpl; lia).
    cbn [app to_uint32_ptr mbind res_bind]. rewrite length_minus_8 by done.
    rewrite land_15. replace ((32768 + version) mod 2 ^ 15) with version by dlia.
    done.
Qed.

(** ** Header blocks *)

(** A string with its length in front, and a block of name/value pairs. *)
Definition counted (s : bytes) : bytes := from_uint16 (zlen s) ++ s.

Definition encode_pair (kv : bytes * bytes) : bytes := counted (fst kv) ++ counted (snd kv).

Definition encode_pairs (kvs : list (bytes * bytes)) : bytes :=
  from_uint16 (zlen kvs) ++ (kvs ≫= encode_pair).

Definition pair_ok (kv : bytes * bytes) : Prop :=
  zlen (fst kv) < 2 ^ 16 /\ zlen (snd kv) < 2 ^ 16.

(** The headers of a block: the first value of a name counts. *)
Definition insert_pairs (kvs : list (bytes * bytes)) (m : gmap bytes bytes) : gmap bytes bytes :=
  foldl (fun m kv => map_insert (fst kv) (snd kv) m) m kvs.

(** The first value of a name. *)
Fixpoint first_value (kvs : list (bytes * bytes)) (k : bytes) : option bytes :=
  match kvs with
  | [] => None
  | (k', v) :: kvs' => if decide (k' = k) then Some v else first_value kvs' k
  end.

Lemma insert_pairs_lookup kvs m k :
  insert_pairs kvs m !! k
  = match m !! k with Some v => Some v | None => first_value kvs k end.
Proof.
  revert m. induction kvs as [|[k' v] kvs IH]; intros m; cbn [insert_pairs foldl first_value fst snd].
  { by destruct (m !! k). }
  change (foldl _ ?m0 kvs) with (insert_pairs kvs m0). rewrite IH. unfold map_insert.
  destruct (decide (k' = k)) as [->|Hne].
  - destruct (m !! k) as [w|] eqn:E; [by rewrite E|]. by rewrite lookup_insert_eq.
  - destruct (m !! k') as [w|] eqn:E; [done|]. by rewrite lookup_insert_ne.
Qed.

Section HeaderBlock.
Context `{z : Zlib}.

(** The decompressor's buffer starts with a block. *)
Definition holds_block (d : decompressor) (s : bytes) : Prop :=
  exists rest, m_uncompressed_header d = (Some <$> s) ++ rest.

Lemma mapM_id_some (s : bytes) : mapM (fun c => c) (Some <$> s) = Some s.
Proof. induction s as [|c s IH]; [done|]. cbn. by rewrite IH. Qed.

Lemma read_uncompressed_at d pre s post n :
  holds_block d (pre ++ s ++ post) -> n = zlen s -> read_uncompressed (zlen pre) n d = Ok s.
Proof.
  intros [rest E] ->. unfold read_uncompressed. rewrite E, !fmap_app, <- !app_assoc.
  replace (zlen pre) with (zlen (Some <$> pre)) by (unfold zlen; by rewrite length_fmap).
  rewrite at_ptr_app. unfold zlen at 1. rewrite Nat2Z.id, <- (length_fmap Some s), take_app_length.
  rewrite mapM_id_some. by rewrite Z.eqb_refl.
Qed.

Lemma read_counted_at d pre s post :
  holds_block d (pre ++ counted s ++ post) -> zlen s < 2 ^ 16 ->
  read_counted (zlen pre) d = Ok (s, zlen (pre ++ counted s)).
Proof.
  intros H Hs. pose proof (zlen_nonneg s). unfold read_counted, counted in *.
  rewrite (read_uncompressed_at d pre (from_uint16 (zlen s)) (s ++ post));
    [|by rewrite <- app_assoc in H|done].
  cbn [mbind res_bind]. pose proof (uint16_word (zlen s) [] ltac:(lia)) as E.
  rewrite app_nil_r in E. rewrite E. cbn [mbind res_bind].
  replace (zlen pre + 2) with (zlen (pre ++ from_uint16 (zlen s))) by (by rewrite zlen_app).
  rewrite (read_uncompressed_at d _ s post); [|by rewrite <- !app_assoc in *|done].
  cbn [mbind res_bind]. by rewrite !zlen_app, Z.add_assoc.
Qed.

Lemma name_value_pairs_at d kvs pre post m :
  holds_block d (pre ++ (kvs ≫= encode_pair) ++ post) -> Forall pair_ok kvs ->
  name_value_pairs (length kvs) (zlen pre) d m
  = Ok (insert_pairs kvs m, zlen (pre ++ (kvs ≫= encode_pair))).
Proof.
  intros H Hk. revert pre m H. induction Hk as [|[k v] kvs [Hk Hv] Hkvs IH]; intros pre m H.
  { cbn. by rewrite app_nil_r. }
  rewrite bind_cons in *. change (encode_pair (k, v)) with (counted k ++ counted v) in *.
  cbn [fst snd] in *.
  cbn [length name_value_pairs].
  rewrite (read_counted_at d pre k (counted v ++ (kvs ≫= encode_pair) ++ post));
    [|by rewrite <- !app_assoc in *|done].
  cbn [mbind res_bind fst snd].
  rewrite (read_counted_at d (pre ++ counted k) v ((kvs ≫= encode_pair) ++ post));
    [|by rewrite <- !app_assoc in *|done].
  cbn [mbind res_bind fst snd]. rewrite IH; [|rewrite <- !app_assoc; rewrite <- !app_assoc in H; exact H].
  by rewrite <- !app_assoc.
Qed.

End HeaderBlock.

(** ** Packets *)

Section Packets.
Context `{z : Zlib}.

(** What a caller learns from a frame: the information and, for a data frame, the bytes
    that [get_spdy_data_content] and [data_size] delimit. *)
Record spdy_event := mk_spdy_event { ev_info : http_protocol_info; ev_data : bytes }.

Definition event_of (mem : bytes) (r : spdy_result) : spdy_event :=
  mk_spdy_event (sr_http_info r)
    (if hi_http_type (sr_http_info r) =? HTTP_DATA then
       take (Z.to_nat (hi_data_size (sr_http_info r)))
         (at_ptr mem (get_spdy_data_content (sr_parser r)))
     else []).

(** A packet is parsed frame by frame: while the result is indeterminate, the next frame is
    at [get_spdy_read_pointer]. *)
Fixpoint parse_packet (n : nat) (mem : bytes) (p len : Z) (d : decompressor) (sp : spdy_parser)
  : res (list spdy_event * tribool * decompressor) :=
  match n with
  | O => Ok ([], indeterminate_value, d)
  | S n' =>
      r ← parse_spdy mem d new_http_info p len sp;
      match sr_rc r with
      | indeterminate_value =>
          rest ← parse_packet n' mem (get_spdy_read_pointer (sr_parser r)) (sr_length_packet r)
                   (sr_decompressor r) (sr_parser r);
          let '(evs, rc, d) := rest in
          Ok (event_of mem r :: evs, rc, d)
      | rc => Ok ([event_of mem r], rc, sr_decompressor r)
      end
  end.

(** The control frames that are only noticed. *)
Definition noticed_types : list Z :=
  [SPDY_RST_STREAM; SPDY_SETTINGS; SPDY_PING; SPDY_WINDOW_UPDATE; SPDY_CREDENTIAL].

(** What the protocol says about a frame, for the frames whose treatment is complete: data
    frames, the control frames that are only noticed, and blocks of headers that zlib
    inflates. *)
Inductive delivers (d : decompressor) : spdy_frame -> decompressor -> spdy_event -> Prop :=
| delivers_data id flags payload :
    delivers d (data_frame id flags payload) d
      (mk_spdy_event
         (mk_http_info ∅ HTTP_DATA id 8 (zlen payload) (negb (Z.land flags SPDY_FLAG_FIN =? 0)))
         payload)
| delivers_control version type flags payload :
    type ∈ noticed_types ->
    delivers d (control_frame version type flags payload) d
      (mk_spdy_event (mk_http_info ∅ SPDY_CONTROL 0 8 (zlen payload) false) [])
| delivers_headers version type flags id gap block d' kvs :
    type ∈ [SPDY_SYN_STREAM; SPDY_SYN_REPLY; SPDY_HEADERS] -> 0 <= id < 2 ^ 31 ->
    zlen gap = (if type =? SPDY_SYN_STREAM then 6 else 2) ->
    let payload := from_uint32 id ++ gap ++ block in
    decompress block id (mk_frame_info true version type flags (zlen payload)) d = Ok (true, d') ->
    holds_block d' (encode_pairs kvs) -> Forall pair_ok kvs -> zlen kvs < 2 ^ 16 ->
    delivers d (control_frame version type flags payload) d'
      (mk_spdy_event
         (mk_http_info (insert_pairs kvs ∅)
            (if type =? SPDY_SYN_STREAM then HTTP_REQUEST
             else if type =? SPDY_SYN_REPLY then HTTP_RESPONSE else NON_SPDY)
            id 8 (zlen payload) false) []).

(** A frame the parser accepts: its version is supported and the stream identifier the
    parser takes is not zero, which it asserts. *)
Definition frame_accepted (f : spdy_frame) : Prop :=
  frame_ok f /\ frame_stream_id f <> 0 /\ fi_version (frame_info f) <= MIN_SPDY_VERSION.

(** The sequence of frames of a session. *)
Inductive delivered : decompressor -> list spdy_frame -> decompressor -> list spdy_event -> Prop :=
| delivered_nil d : delivered d [] d []
| delivered_cons d f d' ev fs d'' evs :
    frame_accepted f -> delivers d f d' ev -> delivered d' fs d'' evs ->
    delivered d (f :: fs) d'' (ev :: evs).

Lemma take_zlen_app {A} (s post : list A) : take (Z.to_nat (zlen s)) (s ++ post) = s.
Proof. unfold zlen. rewrite Nat2Z.id. apply take_app_length. Qed.

Lemma compressed_block_at mem p s post :
  at_ptr mem p = s ++ post -> compressed_block mem p (zlen s) = Ok s.
Proof.
  intros H. unfold compressed_block. rewrite H, take_zlen_app, zlen_app.
  pose proof (zlen_nonneg post). by replace (zlen s + zlen post <? zlen s) with false by lia.
Qed.

Lemma header_types type :
  type ∈ [SPDY_SYN_STREAM; SPDY_SYN_REPLY; SPDY_HEADERS] ->
  type = SPDY_SYN_STREAM \/ type = SPDY_SYN_REPLY \/ type = SPDY_HEADERS.
Proof. intros [H|[H|[H|[]%not_elem_of_nil]%elem_of_cons]%elem_of_cons]%elem_of_cons; auto. Qed.

(** The payload of a frame with headers. *)
Lemma header_payload_step mem sp h d version type flags id gap block d' kvs post :
  type ∈ [SPDY_SYN_STREAM; SPDY_SYN_REPLY; SPDY_HEADERS] -> 0 <= id < 2 ^ 31 ->
  zlen gap = (if type =? SPDY_SYN_STREAM then 6 else 2) ->
  let payload := from_uint32 id ++ gap ++ block in
  let frame := mk_frame_info true version type flags (zlen payload) in
  zlen payload < 2 ^ 24 ->
  decompress block id frame d = Ok (true, d') ->
  holds_block d' (encode_pairs kvs) -> Forall pair_ok kvs -> zlen kvs < 2 ^ 16 ->
  0 <= sp_read_ptr sp -> at_ptr mem (sp_read_ptr sp) = payload ++ post ->
  exists sp', parse_header_payload mem frame d h sp
              = Ok (sp', d', with_headers (insert_pairs kvs (hi_headers h)) (with_stream_id id h), None)
              /\ sp_current_data_chunk_ptr sp' = sp_current_data_chunk_ptr sp.
Proof.
  intros Ht Hid Hgap payload frame Hpl Hd Hb Hk Hn Hp Hm.
  unfold payload in Hm. rewrite <- !app_assoc in Hm.
  destruct (id_word id (gap ++ block ++ post) Hid) as (w & Ew & Hw).
  unfold parse_header_payload. rewrite Hm, Ew. cbn [mbind res_bind]. rewrite Hw.
  change (fi_type frame) with type. change (fi_length frame) with (zlen payload).
  set (is_reply := (type =? SPDY_SYN_REPLY) || (type =? SPDY_HEADERS)).
  set (sp1 := if type =? SPDY_SYN_STREAM then _ else _).
  assert ((type =? SPDY_SYN_STREAM) || is_reply = true) as ->.
  { unfold is_reply. destruct (header_types _ Ht) as [->|[->| ->]]; reflexivity. }
  assert (sp_current_data_chunk_ptr sp1 = sp_current_data_chunk_ptr sp
          /\ at_ptr mem (sp_read_ptr sp1) = block ++ post) as [Hcur Hm1].
  { assert (sp_read_ptr sp1 = sp_read_ptr sp + zlen (from_uint32 id ++ gap)
            /\ sp_current_data_chunk_ptr sp1 = sp_current_data_chunk_ptr sp) as [-> ->].
    { rewrite zlen_app, Hgap. unfold sp1. change (zlen (from_uint32 id)) with 4.
      unfold is_reply. destruct (header_types _ Ht) as [->|[->| ->]]; simpl; lia. }
    split; [done|]. eapply at_ptr_skip; [done| |done]. rewrite Hm. by rewrite <- !app_assoc. }
  assert (u32 (zlen payload - (if type =? SPDY_SYN_STREAM then 10 else 6)) = zlen block) as ->.
  { pose proof (zlen_nonneg block). unfold payload in *. rewrite !zlen_app in *.
    change (zlen (from_uint32 id)) with 4 in *.
    rewrite u32_small; destruct (type =? SPDY_SYN_STREAM); lia. }
  cbn [negb]. rewrite (compressed_block_at _ _ _ _ Hm1). cbn [mbind res_bind].
  rewrite Hd. cbn [negb mbind res_bind].
  pose proof (zlen_nonneg kvs).
  rewrite (read_uncompressed_at d' [] (from_uint16 (zlen kvs)) (kvs ≫= encode_pair) 2 Hb eq_refl : read_uncompressed 0 2 d' = _).
  cbn [mbind res_bind].
  pose proof (uint16_word (zlen kvs) [] ltac:(lia)) as E. rewrite app_nil_r in E. rewrite E.
  cbn [mbind res_bind]. assert (Z.to_nat (zlen kvs) = length kvs) as -> by (unfold zlen; lia).
  pose proof (name_value_pairs_at d' kvs (from_uint16 (zlen kvs)) [] (hi_headers h)) as Ev.
  rewrite app_nil_r in Ev. specialize (Ev Hb Hk). change (zlen (from_uint16 (zlen kvs))) with 2 in Ev.
  change (hi_headers (with_stream_id id h)) with (hi_headers h). rewrite Ev.
  cbn [mbind res_bind]. eexists. split; [reflexivity|]. exact Hcur.
Qed.

Lemma rst_step mem sp version flags payload post :
  4 <= zlen payload -> 0 <= sp_read_ptr sp -> at_ptr mem (sp_read_ptr sp) = payload ++ post ->
  exists sp' s, parse_spdy_rst_stream mem
                  (mk_frame_info true version SPDY_RST_STREAM flags (zlen payload)) sp = Ok (sp', s)
                /\ sp_current_data_chunk_ptr sp' = sp_current_data_chunk_ptr sp.
Proof.
  intros H4 Hp Hm. unfold parse_spdy_rst_stream. cbn [fi_flags fi_length].
  destruct (negb (flags =? 0) || negb (zlen payload =? 8)) eqn:E8; [by eexists _, _|].
  apply orb_false_iff in E8 as [_ E8]. apply negb_false_iff, Z.eqb_eq in E8.
  do 8 (destruct payload as [|? payload]; [exfalso; unfold zlen in E8; simpl in E8; lia|]).
  change (sp_read_ptr (skip 4 sp)) with (sp_read_ptr sp + 4).
  rewrite (at_ptr_skip mem [b; b0; b1; b2] (b3 :: b4 :: b5 :: b6 :: payload ++ post) _ 4 Hp Hm eq_refl).
  by eexists _, _.
Qed.

Lemma control_payload_step mem sp d version type flags payload h post :
  type ∈ noticed_types -> 4 <= zlen payload -> 0 <= sp_read_ptr sp ->
  at_ptr mem (sp_read_ptr sp) = payload ++ post ->
  exists sp', parse_frame_payload mem (mk_frame_info true version type flags (zlen payload)) d h sp
              = Ok (sp', d, with_http_type SPDY_CONTROL h, None)
              /\ sp_current_data_chunk_ptr sp' = sp_current_data_chunk_ptr sp.
Proof.
  intros Ht H4 Hp Hm. unfold parse_frame_payload. cbn [fi_type].
  apply elem_of_cons in Ht as [->|Ht].
  { destruct (rst_step mem sp version flags payload post H4 Hp Hm) as (sp' & s & E & Hc).
    exists sp'. split; [|done]. cbn [Z.eqb orb]. by rewrite E. }
  apply elem_of_cons in Ht as [->|Ht]; [by eexists|].
  apply elem_of_cons in Ht as [->|Ht].
  { cbn [Z.eqb orb]. unfold parse_spdy_ping_frame. rewrite Hm.
    do 4 (destruct payload as [|? payload]; [exfalso; unfold zlen in H4; simpl in H4; lia|]).
    cbn [app to_uint32_ptr mbind res_bind]. destruct (negb _); by eexists. }
  apply elem_of_cons in Ht as [->|Ht]; [by eexists|].
  apply elem_of_cons in Ht as [->|Ht]; [by eexists|].
  by apply elem_of_nil in Ht.
Qed.

Lemma noticed_untyped type h version flags n :
  type ∈ noticed_types -> note_frame_type (mk_frame_info true version type flags n) h = h.
Proof.
  intros Ht. unfold note_frame_type. cbn [fi_type].
  repeat (apply elem_of_cons in Ht as [->|Ht]; [reflexivity|]). by apply elem_of_nil in Ht.
Qed.

(** The treatment of a frame's payload gives its event. *)
Lemma payload_step mem sp d f d' ev post :
  frame_accepted f -> delivers d f d' ev -> 0 <= sp_read_ptr sp ->
  at_ptr mem (sp_read_ptr sp) = frame_payload f ++ post ->
  let h := frame_http_info f new_http_info in
  let h := if fi_control_bit (frame_info f) then h else parse_spdy_data (frame_info f) h in
  exists sp', parse_frame_payload mem (frame_info f) d (note_frame_type (frame_info f) h) sp
              = Ok (sp', d', ev_info ev, None)
              /\ sp_current_data_chunk_ptr sp' = sp_current_data_chunk_ptr sp
              /\ match f with
                 | data_frame _ _ _ => sp_read_ptr sp' = sp_read_ptr sp /\ ev_data ev = frame_payload f
                 | control_frame _ _ _ _ => hi_http_type (ev_info ev) <> HTTP_DATA /\ ev_data ev = []
                 end.
Proof.
  intros [[Hn Hok] [Hid _]] Hd Hp Hm h h'.
  destruct Hd as [id flags payload|version type flags payload Ht
    |version type flags id gap block d' kvs Ht Hi Hg payload Hdc Hb Hk Hz].
  - exists sp. split; [|done]. unfold h', parse_spdy_data. cbn [frame_info fi_control_bit fi_flags].
    by destruct (Z.land flags SPDY_FLAG_FIN =? 0).
  - destruct (control_payload_step mem sp d version type flags payload h post Ht (proj2 (proj2 (proj2 Hok)))
      Hp Hm) as (sp' & E & Hc).
    exists sp'. cbn [frame_info ev_info ev_data]. split; [|done].
    rewrite noticed_untyped by done. exact E.
  - destruct (header_payload_step mem sp
      (note_frame_type (mk_frame_info true version type flags (zlen payload)) h) d version type flags
      id gap block d' kvs post Ht Hi Hg Hn Hdc Hb Hk Hz Hp Hm) as (sp' & E & Hc).
    exists sp'. cbn [frame_info ev_info ev_data].
    split; [|split; [exact Hc|split; [by destruct (header_types _ Ht) as [->|[->| ->]]|done]]].
    change h' with h.
    destruct (header_types _ Ht) as [->|[->| ->]]; exact E.
Qed.

(** The parser behind the head of a frame with a stream identifier. *)
Lemma parse_behind_head mem f post d h p len sp :
  frame_ok f -> 0 <= p -> at_ptr mem p = encode_frame f ++ post -> 8 <= len < 2 ^ 32 ->
  parse_spdy mem d h p len sp
  = (let '(sp, len, h) := (skip 8 (set_read_ptr p sp), len - 8, frame_http_info f h) in
     if frame_stream_id f =? 0 then Fault assertion_failed
     else
       let more := zlen (frame_payload f) <? len in
       let sp := if more then set_current_chunk (sp_read_ptr sp + zlen (frame_payload f)) sp else sp in
       let len := if more then u32 (len - zlen (frame_payload f)) else len in
       let h := if fi_control_bit (frame_info f) then h else parse_spdy_data (frame_info f) h in
       if MIN_SPDY_VERSION <? fi_version (frame_info f) then
         Ok (mk_spdy_result false_value sp d h len (Some ERROR_INVALID_SPDY_VERSION))
       else
         r ← parse_frame_payload mem (frame_info f) d (note_frame_type (frame_info f) h) sp;
         let '(sp, d, h, ec) := r in
         match ec with
         | Some e => Ok (mk_spdy_result false_value sp d h len (Some e))
         | None =>
             Ok (mk_spdy_result (if more then indeterminate_value else true_value)
                   (mk_spdy_parser (sp_current_data_chunk_ptr sp) (sp_uncompressed_ptr sp)
                      (sp_current_data_chunk_ptr sp) (sp_read_ptr sp))
                   d h len None)
         end).
Proof.
  intros Hok Hp Hm Hl. destruct (first_byte_of_frame f Hok) as (c & s & Ef & Hcb).
  unfold parse_spdy, parse_spdy_frame. change (sp_read_ptr (set_read_ptr p sp)) with p.
  replace (p =? nullptr) with false by (unfold nullptr; lia). rewrite Hm, Ef. cbn [app].
  replace (negb (uchar c =? 128) && negb (uchar c =? 0)) with false by (rewrite Hcb; by destruct f).
  rewrite (populate_frame_encoded mem (set_read_ptr p sp) f post len h Hok Hp Hm) by lia.
  cbn [mbind res_bind]. by replace (fi_length (frame_info f)) with (zlen (frame_payload f)) by (by destruct f).
Qed.

(** One call of the parser on a packet that starts with a frame. *)
Lemma frame_step mem d f d' ev p post len sp :
  frame_accepted f -> delivers d f d' ev -> 0 <= p ->
  at_ptr mem p = encode_frame f ++ post -> len = zlen (encode_frame f ++ post) -> len < 2 ^ 32 ->
  exists r, parse_spdy mem d new_http_info p len sp = Ok r
            /\ sr_rc r = (if bool_decide (post = []) then true_value else indeterminate_value)
            /\ sr_error r = None /\ sr_decompressor r = d' /\ event_of mem r = ev
            /\ (post <> [] -> get_spdy_read_pointer (sr_parser r) = p + zlen (encode_frame f)
                              /\ sr_length_packet r = zlen post).
Proof.
  intros Ha Hd Hp Hm -> Hl. pose proof Ha as (Hok & Hid & Hv).
  pose proof (zlen_nonneg post) as Hn. pose proof (zlen_nonneg (frame_payload f)) as Hn2.
  assert (zlen (encode_frame f) = 8 + zlen (frame_payload f)) as Hlen.
  { unfold encode_frame. rewrite zlen_app. by destruct f. }
  rewrite zlen_app, Hlen in *.
  assert (at_ptr mem (p + 8) = frame_payload f ++ post) as Hm8.
  { apply (at_ptr_skip mem (frame_head f)); [done| |by destruct f].
    rewrite Hm. unfold encode_frame. by rewrite <- app_assoc. }
  set (more := zlen (frame_payload f) <? zlen (frame_payload f) + zlen post).
  assert (more = negb (bool_decide (post = []))) as Hmore.
  { unfold more. case_bool_decide as E; [subst post; simpl; rewrite zlen_nil; lia|].
    rewrite <- zlen_zero_iff in E. simpl. lia. }
  set (sp1 := let sp1 := skip 8 (set_read_ptr p sp) in
              if more then set_current_chunk (p + 8 + zlen (frame_payload f)) sp1 else sp1).
  destruct (payload_step mem sp1 d f d' ev post Ha Hd) as (sp2 & E & Hc & Hev);
    [unfold sp1; destruct more; simpl; lia | unfold sp1; destruct more; exact Hm8 |].
  rewrite (parse_behind_head mem f post d new_http_info p _ sp Hok Hp Hm) by lia. cbn zeta.
  replace (frame_stream_id f =? 0) with false by lia.
  replace (MIN_SPDY_VERSION <? fi_version (frame_info f)) with false by lia.
  replace (8 + zlen (frame_payload f) + zlen post - 8) with (zlen (frame_payload f) + zlen post) by lia.
  fold more. change (sp_read_ptr (skip 8 (set_read_ptr p sp))) with (p + 8). fold sp1.
  rewrite E. cbn [mbind res_bind]. eexists. split; [reflexivity|].
  cbn [sr_rc sr_error sr_decompressor sr_parser sr_length_packet get_spdy_read_pointer sp_read_ptr].
  rewrite Hmore. split; [by case_bool_decide|]. split; [done|]. split; [done|].
  split.
  - unfold event_of. cbn [sr_http_info sr_parser get_spdy_data_content sp_last_data_chunk_ptr].
    destruct f as [id flags payload|version type flags payload].
    + destruct Hev as [Hr He]. inversion Hd; subst. cbn [ev_info hi_http_type hi_data_size].
      change (HTTP_DATA =? HTTP_DATA) with true. cbv iota. f_equal. rewrite Hr.
      assert (sp_read_ptr sp1 = p + 8) as -> by (unfold sp1; by destruct more).
      rewrite Hm8. apply take_zlen_app.
    + destruct Hev as [Ht He]. replace (hi_http_type (ev_info ev) =? HTTP_DATA) with false by lia.
      destruct ev. simpl in *. by subst.
  - intros Hpost. rewrite bool_decide_false by done. cbn [negb]. rewrite Hc. unfold sp1.
    rewrite Hmore, bool_decide_false by done. cbn [negb set_current_chunk sp_current_data_chunk_ptr].
    split; [lia|]. rewrite u32_small; lia.
Qed.

Lemma delivered_packet mem d fs d' evs p sp :
  delivered d fs d' evs -> fs <> [] -> 0 <= p -> at_ptr mem p = (fs ≫= encode_frame) ->
  zlen (fs ≫= encode_frame) < 2 ^ 32 ->
  parse_packet (length fs) mem p (zlen (fs ≫= encode_frame)) d sp = Ok (evs, true_value, d').
Proof.
  intros Hd. revert p sp. induction Hd as [d|d f d1 ev fs d2 evs Ha Hf Hd IH]; [done|].
  intros p sp _ Hp Hm Hl. rewrite bind_cons in *. cbn [length parse_packet].
  destruct (frame_step mem d f d1 ev p (fs ≫= encode_frame) _ sp Ha Hf Hp Hm eq_refl Hl)
    as (r & E & Hrc & _ & Hdec & Hev & Hnext).
  rewrite E. cbn [mbind res_bind]. rewrite Hrc, Hdec, Hev.
  destruct fs as [|f2 fs]; [inversion Hd; by subst|].
  assert (((f2 :: fs) ≫= encode_frame) <> []) as Hne.
  { rewrite bind_cons. intros [H _]%app_nil. inversion Hd as [|? ? ? ? ? ? ? [Ha2 _] _ _]; subst.
    destruct (first_byte_of_frame f2 Ha2) as (c & s & E2 & _). congruence. }
  rewrite bool_decide_false by done. destruct (Hnext Hne) as [-> ->].
  pose proof (zlen_nonneg (encode_frame f)).
  rewrite IH; [done..|lia| |rewrite zlen_app in Hl; lia].
  by eapply at_ptr_skip.
Qed.

(** C35: a packet is parsed frame by frame.  In a packet that is any sequence of data
    frames, of control frames that are only noticed and of frames with a block of headers
    that zlib inflates, the calls of [parse], each where the one before stopped, take one
    frame each; the last one gives true and the others indeterminate; the data frames give
    their stream, their payload and whether they end the stream, and the frames with headers
    give the headers, the first value of a name counting. *)
Theorem spdy_packet_parsed fs d d' evs sp :
  delivered d fs d' evs -> fs <> [] -> zlen (fs ≫= encode_frame) < 2 ^ 32 ->
  parse_packet (length fs) (fs ≫= encode_frame) 0 (zlen (fs ≫= encode_frame)) d sp
  = Ok (evs, true_value, d').
Proof. intros Hd Hne Hl. by apply delivered_packet. Qed.


(** ** Errors *)

(** A result that reports an error and leaves the decompressor as it was. *)
Definition rejected (d : decompressor) (e : spdy_error) (r : res spdy_result) : Prop :=
  exists sr, r = Ok sr /\ sr_rc sr = false_value /\ sr_error sr = Some e /\ sr_decompressor sr = d.

Lemma invalid_type_rejected mem d h p len sp version type s :
  0 <= p -> at_ptr mem p = from_uint16 (32768 + version) ++ from_uint16 type ++ s ->
  0 <= version < 2 ^ 8 -> SPDY_INVALID <= type < 2 ^ 16 ->
  rejected d ERROR_INVALID_SPDY_FRAME (parse_spdy mem d h p len sp).
Proof.
  intros Hp Hm Hv Ht. unfold parse_spdy, parse_spdy_frame. change (sp_read_ptr (set_read_ptr p sp)) with p.
  replace (p =? nullptr) with false by (unfold nullptr; lia). rewrite Hm. cbn [app from_uint16].
  replace (uchar (byte_at (32768 + version) 8)) with 128
    by (rewrite uchar_byte_at by lia; dlia).
  cbn [Z.eqb Pos.eqb negb andb]. unfold populate_frame. change (sp_read_ptr (set_read_ptr p sp)) with p.
  rewrite Hm, uint16_word by lia. cbn [mbind res_bind].
  assert (Z.shiftr (32768 + version) 15 = 1) as -> by (rewrite Z.shiftr_div_pow2 by lia; dlia).
  cbn [Z.eqb negb]. change (sp_read_ptr (skip 2 (set_read_ptr p sp))) with (p + 2).
  rewrite (at_ptr_skip mem _ _ _ 2 Hp Hm eq_refl), uint16_word by (unfold SPDY_INVALID in *; lia).
  cbn [mbind res_bind]. replace (SPDY_INVALID <=? type) with true by lia.
  by eexists.
Qed.

(** The errors a GOAWAY frame reports: the parser reads the status behind the four bytes of
    the frame. *)
Lemma goaway_rejected mem d h p len sp version flags payload code post :
  0 <= p -> 8 <= len < 2 ^ 32 -> frame_accepted (control_frame version SPDY_GOAWAY flags payload) ->
  zlen payload = 4 -> 0 <= code < 2 ^ 32 ->
  at_ptr mem p = encode_frame (control_frame version SPDY_GOAWAY flags payload)
                 ++ from_uint32 code ++ post ->
  let r := parse_spdy mem d h p len sp in
  (code = 1 -> rejected d ERROR_PROTOCOL_ERROR r)
  /\ (code = 11 -> rejected d ERROR_INTERNAL_SPDY_ERROR r)
  /\ (code <> 1 -> code <> 11 -> exists sr, r = Ok sr /\ sr_rc sr <> false_value).
Proof.
  intros Hp Hl (Hok & Hid & Hv) H4 Hc Hm r. unfold r.
  rewrite (parse_behind_head mem _ _ _ _ _ _ _ Hok Hp Hm Hl). cbn zeta.
  set (f := control_frame version SPDY_GOAWAY flags payload) in *.
  replace (frame_stream_id f =? 0) with false by lia.
  replace (MIN_SPDY_VERSION <? fi_version (frame_info f)) with false by lia.
  set (sp1 := if zlen (frame_payload f) <? len - 8 then _ else skip 8 (set_read_ptr p sp)).
  assert (at_ptr mem (sp_read_ptr sp1 + 4) = from_uint32 code ++ post) as Hm12.
  { assert (sp_read_ptr sp1 = p + 8) as -> by (unfold sp1; by destruct (_ <? _)).
    replace (p + 8 + 4) with (p + 12) by lia. eapply at_ptr_skip; [done|exact Hm|].
    unfold f, encode_frame. rewrite zlen_app. cbn [frame_payload]. rewrite H4. reflexivity. }
  assert (parse_frame_payload mem (frame_info f) d
            (note_frame_type (frame_info f) (frame_http_info f h)) sp1
          = Ok (skip 4 sp1, d, with_http_type SPDY_CONTROL (frame_http_info f h),
                if code =? 1 then Some ERROR_PROTOCOL_ERROR
                else if code =? 11 then Some ERROR_INTERNAL_SPDY_ERROR else None)) as E.
  { change (parse_frame_payload mem (frame_info f) d
            (note_frame_type (frame_info f) (frame_http_info f h)) sp1)
      with (r ← parse_spdy_goaway_frame mem (frame_info f) sp1;
            Ok (fst r, d, with_http_type SPDY_CONTROL (frame_http_info f h), snd r)).
    unfold parse_spdy_goaway_frame. change (fi_length (frame_info f)) with (zlen payload).
    rewrite H4. cbn [Z.eqb Pos.eqb negb]. change (sp_read_ptr (skip 4 sp1)) with (sp_read_ptr sp1 + 4).
    rewrite Hm12. pose proof (uint32_bytes code) as Ew. rewrite Z.mod_small in Ew by lia.
    change (to_uint32_ptr (from_uint32 code ++ post)) with (to_uint32_ptr (from_uint32 code)).
    by rewrite Ew. }
  change (fi_control_bit (frame_info f)) with true. cbv iota. rewrite E. cbn [mbind res_bind].
  split; [intros ->; by eexists|]. split; [intros ->; by eexists|]. intros H1 H11.
  replace (code =? 1) with false by lia. replace (code =? 11) with false by lia.
  eexists. split; [reflexivity|]. simpl. by destruct (_ <? _).
Qed.

(** A GOAWAY frame of another length is read over, whatever its status. *)
Lemma goaway_ignored mem d h p len sp version flags payload post :
  0 <= p -> 8 <= len < 2 ^ 32 -> frame_accepted (control_frame version SPDY_GOAWAY flags payload) ->
  zlen payload <> 4 ->
  at_ptr mem p = encode_frame (control_frame version SPDY_GOAWAY flags payload) ++ post ->
  exists sr, parse_spdy mem d h p len sp = Ok sr /\ sr_rc sr <> false_value.
Proof.
  intros Hp Hl (Hok & Hid & Hv) H4 Hm.
  rewrite (parse_behind_head mem _ _ _ _ _ _ _ Hok Hp Hm Hl). cbn zeta.
  set (f := control_frame version SPDY_GOAWAY flags payload) in *.
  replace (frame_stream_id f =? 0) with false by lia.
  replace (MIN_SPDY_VERSION <? fi_version (frame_info f)) with false by lia.
  set (sp1 := if zlen (frame_payload f) <? len - 8 then _ else skip 8 (set_read_ptr p sp)).
  assert (parse_frame_payload mem (frame_info f) d
            (note_frame_type (frame_info f) (frame_http_info f h)) sp1
          = Ok (sp1, d, with_http_type SPDY_CONTROL (frame_http_info f h), None)) as E.
  { change (parse_frame_payload mem (frame_info f) d
            (note_frame_type (frame_info f) (frame_http_info f h)) sp1)
      with (r ← parse_spdy_goaway_frame mem (frame_info f) sp1;
            Ok (fst r, d, with_http_type SPDY_CONTROL (frame_http_info f h), snd r)).
    unfold parse_spdy_goaway_frame. change (fi_length (frame_info f)) with (zlen payload).
    by rewrite (proj2 (Z.eqb_neq _ _) H4). }
  change (fi_control_bit (frame_info f)) with true. cbv iota. rewrite E. cbn [mbind res_bind].
  eexists. split; [reflexivity|]. simpl. by destruct (_ <? _).
Qed.

(** C39: the errors of the SPDY parser.  A packet whose first byte is neither 0 nor 0x80, and
    a control frame with an unknown type, give ERROR_INVALID_SPDY_FRAME.  A control frame with
    a stream id (the first word of its payload) other than 0 and a version above 3 gives
    ERROR_INVALID_SPDY_VERSION, not one whose version is too low, as the comments of the source
    have it.  A GOAWAY frame with such an id and a version up to 3 is looked into when its
    length is 4 only: then the four bytes behind the frame are taken for the status, 1 gives
    ERROR_PROTOCOL_ERROR, 11 gives ERROR_INTERNAL_SPDY_ERROR and others are accepted; one of any
    other length, such as the eight bytes of SPDY/3, is accepted whatever its status is.  No
    error touches the decompressor.  A data frame of stream 0 fails an assertion. *)
Theorem spdy_errors mem d h p len sp :
  0 <= p -> 8 <= len < 2 ^ 32 ->
  (forall c s, at_ptr mem p = c :: s -> uchar c <> 0 -> uchar c <> 128 ->
     rejected d ERROR_INVALID_SPDY_FRAME (parse_spdy mem d h p len sp))
  /\ (forall version type s,
        at_ptr mem p = from_uint16 (32768 + version) ++ from_uint16 type ++ s ->
        0 <= version < 2 ^ 8 -> SPDY_INVALID <= type < 2 ^ 16 ->
        rejected d ERROR_INVALID_SPDY_FRAME (parse_spdy mem d h p len sp))
  /\ (forall f post, at_ptr mem p = encode_frame f ++ post -> frame_ok f ->
        frame_stream_id f <> 0 -> MIN_SPDY_VERSION < fi_version (frame_info f) ->
        rejected d ERROR_INVALID_SPDY_VERSION (parse_spdy mem d h p len sp))
  /\ (forall version flags payload code post,
        at_ptr mem p = encode_frame (control_frame version SPDY_GOAWAY flags payload)
                       ++ from_uint32 code ++ post ->
        frame_accepted (control_frame version SPDY_GOAWAY flags payload) ->
        zlen payload = 4 -> 0 <= code < 2 ^ 32 ->
        let r := parse_spdy mem d h p len sp in
        (code = 1 -> rejected d ERROR_PROTOCOL_ERROR r)
        /\ (code = 11 -> rejected d ERROR_INTERNAL_SPDY_ERROR r)
        /\ (code <> 1 -> code <> 11 -> exists sr, r = Ok sr /\ sr_rc sr <> false_value))
  /\ (forall version flags payload post,
        at_ptr mem p = encode_frame (control_frame version SPDY_GOAWAY flags payload) ++ post ->
        frame_accepted (control_frame version SPDY_GOAWAY flags payload) -> zlen payload <> 4 ->
        exists sr, parse_spdy mem d h p len sp = Ok sr /\ sr_rc sr <> false_value)
  /\ (forall flags n s, at_ptr mem p = from_uint32 0 ++ from_uint8 flags ++ from_uint24 n ++ s ->
        parse_spdy mem d h p len sp = Fault assertion_failed).
Proof.
  intros Hp Hl. split_and!.
  - intros c s Hm H0 H128. unfold parse_spdy, parse_spdy_frame.
    change (sp_read_ptr (set_read_ptr p sp)) with p.
    replace (p =? nullptr) with false by (unfold nullptr; lia). rewrite Hm.
    replace (negb (uchar c =? 128) && negb (uchar c =? 0)) with true by lia. by eexists.
  - intros version type s Hm. by eapply invalid_type_rejected.
  - intros f post Hm Hok Hid Hv. rewrite (parse_behind_head mem _ _ _ _ _ _ _ Hok Hp Hm Hl). cbn zeta.
    replace (frame_stream_id f =? 0) with false by lia.
    replace (MIN_SPDY_VERSION <? fi_version (frame_info f)) with true by lia. by eexists.
  - intros version flags payload code post Hm Ha H4 Hc. by eapply goaway_rejected.
  - intros version flags payload post Hm Ha H4. by eapply goaway_ignored.
  - intros flags n s Hm. unfold parse_spdy, parse_spdy_frame.
    change (sp_read_ptr (set_read_ptr p sp)) with p.
    replace (p =? nullptr) with false by (unfold nullptr; lia). rewrite Hm. cbn [app from_uint32].
    change (uchar (byte_at 0 24)) with 0. cbn [Z.eqb negb andb].
    unfold populate_frame. change (sp_read_ptr (set_read_ptr p sp)) with p. rewrite Hm.
    cbn [app from_uint32 to_uint16_ptr to_uint32_ptr mbind res_bind].
    change (Z.shiftr (to_uint16 (byte_at 0 24) (byte_at 0 16)) 15) with 0. cbn [Z.eqb negb mbind res_bind].
    rewrite skip_skip by lia. change (sp_read_ptr (skip (2 + 2) (set_read_ptr p sp))) with (p + 4).
    rewrite (at_ptr_skip mem (from_uint32 0) _ p 4 Hp Hm eq_refl).
    cbn [app from_uint8 from_uint24 to_uint32_ptr mbind res_bind]. reflexivity.
Qed.

End Packets.

(** ** The decompressor's buffer *)

Section Buffer.
Context `{z : Zlib, !ZlibLaws z}.

Definition buffer_ok (buffer : list (option char)) : Prop :=
  zlen buffer = MAX_UNCOMPRESSED_DATA_BUF_SIZE.

Lemma store_at_ok k out buffer :
  buffer_ok buffer -> Z.of_nat k + zlen out <= MAX_UNCOMPRESSED_DATA_BUF_SIZE ->
  buffer_ok (store_at k out buffer).
Proof.
  unfold buffer_ok, store_at, zlen. intros H Hk.
  rewrite !length_app, length_fmap, length_take, length_drop. lia.
Qed.

Lemma spdy_decompress_header_ok data st id buffer ok st' buffer' :
  buffer_ok buffer ->
  spdy_decompress_header data st id buffer = Ok (ok, st', buffer') -> buffer_ok buffer'.
Proof.
  intros Hb. unfold spdy_decompress_header.
  set (r := inflate st data MAX_UNCOMPRESSED_DATA_BUF_SIZE).
  pose proof (inflate_fits st data MAX_UNCOMPRESSED_DATA_BUF_SIZE ltac:(done)) as Hr. fold r in Hr.
  assert (buffer_ok (store_at 0 (if_out r) buffer)) as H0 by (by apply store_at_ok).
  destruct (if_code r =? Z_NEED_DICT); [|by intros [= _ _ <-]].
  destruct id as [id|]; [|done]. destruct (if_adler r =? id); [|by intros [= _ _ <-]].
  destruct (inflateSetDictionary _ _) as [code st1]. destruct (code =? Z_OK); [|by intros [= _ _ <-]].
  intros [= _ _ <-]. apply store_at_ok; [done|].
  pose proof (inflate_fits st1 (if_rest r) (MAX_UNCOMPRESSED_DATA_BUF_SIZE - zlen (if_out r))
    ltac:(lia)) as H2. unfold zlen at 1 3 in H2. unfold zlen at 1. lia.
Qed.

(** C40: zlib never writes outside the buffer of the decompressor, also when the dictionary
    is asked for in the middle of a block and the rest goes behind what is there: the buffer
    keeps its size through any number of blocks, inflated or not. *)
Theorem decompress_in_buffer (blocks : list (bytes * Z * spdy_control_frame_info)) d :
  foldl (fun (r : res decompressor) '(data, id, frame) =>
           d ← r; r ← decompress data id frame d; Ok (snd r))
    (Ok new_decompressor) blocks = Ok d ->
  buffer_ok (m_uncompressed_header d).
Proof.
  assert (buffer_ok (m_uncompressed_header new_decompressor)) as H0.
  { unfold new_decompressor. destruct inflateInit2 as [c s].
    destruct (c =? Z_OK); unfold buffer_ok, zlen; cbn [m_uncompressed_header];
      by rewrite length_replicate. }
  revert H0. generalize new_decompressor. induction blocks as [|[[data id] frame] blocks IH];
    intros d0 H0 H; cbn [foldl] in H; [by simplify_eq|].
  cbn [mbind res_bind] in H. destruct (decompress data id frame d0) as [[ok d1]|f] eqn:E.
  - apply (IH d1); [|exact H]. revert E. unfold decompress.
    repeat case_if; try done;
      try (destruct (m_response_zstream d0) as [st|]; [|done]);
      (destruct (spdy_decompress_header _ _ _ _) as [[[ok1 st1] b1]|] eqn:Eh; [|done]);
      intros [= _ <-]; by eapply spdy_decompress_header_ok.
  - exfalso. clear -H. cbn [mbind res_bind] in H. induction blocks as [|[[? ?] ?] blocks IH]; [done|].
    by apply IH.
Qed.

End Buffer.

(** ** Examples *)

(** A compression that only copies, with the interface of zlib. *)
#[local] Instance copying_zlib : Zlib := {|
  zstate := unit;
  inflateInit2 := (Z_OK, tt);
  inflate _ data n :=
    if zlen data <=? n then mk_inflated Z_OK tt [] data 0
    else mk_inflated (-5) tt (drop (Z.to_nat n) data) (take (Z.to_nat n) data) 0;
  inflateSetDictionary _ _ := (Z_OK, tt);
  adler32_start := 1;
  adler32 n _ := n
|}.

#[local] Instance copying_zlib_laws : ZlibLaws copying_zlib.
Proof.
  constructor. intros st data n Hn. cbn. destruct (zlen data <=? n) eqn:E; cbn; [lia|].
  unfold zlen. rewrite length_take. lia.
Qed.

Definition sample_headers : list (bytes * bytes) :=
  [(str "method", str "GET"); (str "url", str "/a"); (str "url", str "/b")].

Definition sample_frames : list spdy_frame :=
  [control_frame 2 SPDY_SYN_STREAM 0 (from_uint32 1 ++ replicate 6 NUL ++ encode_pairs sample_headers);
   data_frame 1 0 (str "some");
   control_frame 2 SPDY_PING 0 (from_uint32 9);
   data_frame 1 1 (str "data")].

Lemma sample_frames_delivered :
  exists d evs, delivered new_decompressor sample_frames d evs
                /\ (ev_data <$> evs) = [[]; str "some"; []; str "data"].
Proof.
  assert (Forall pair_ok sample_headers) as Hk by (repeat constructor).
  assert (Forall frame_accepted sample_frames) as Ha.
  { repeat (apply Forall_cons; split); [..|apply Forall_nil; exact I];
      (split; [vm_compute; intuition congruence|]); vm_compute; split; discriminate. }
  apply Forall_cons in Ha as [A1 Ha]. apply Forall_cons in Ha as [A2 Ha].
  apply Forall_cons in Ha as [A3 Ha]. apply Forall_cons in Ha as [A4 _].
  assert (exists d, decompress (encode_pairs sample_headers) 1
            (mk_frame_info true 2 SPDY_SYN_STREAM 0
               (zlen (from_uint32 1 ++ replicate 6 NUL ++ encode_pairs sample_headers)))
            new_decompressor = Ok (true, d) /\ holds_block d (encode_pairs sample_headers))
    as (d & E & Hb).
  { eexists. split; [reflexivity|]. eexists. reflexivity. }
  eexists d, _. split.
  - eapply delivered_cons; [exact A1| |].
    { eapply (delivers_headers _ 2 SPDY_SYN_STREAM 0 1 (replicate 6 NUL) _ d sample_headers);
        [set_solver|done|done|exact E|exact Hb|exact Hk|done]. }
    eapply delivered_cons; [exact A2|apply delivers_data|].
    eapply delivered_cons; [exact A3|apply delivers_control; set_solver|].
    eapply delivered_cons; [exact A4|apply delivers_data|apply delivered_nil].
  - reflexivity.
Qed.

Lemma spdy_packet_parsed_witness :
  exists d evs,
    parse_packet 4 (sample_frames ≫= encode_frame) 0 (zlen (sample_frames ≫= encode_frame))
      new_decompressor new_spdy_parser = Ok (evs, true_value, d)
    /\ (ev_data <$> evs) = [[]; str "some"; []; str "data"].
Proof.
  destruct sample_frames_delivered as (d & evs & Hd & Hev).
  exists d, evs. split; [|exact Hev].
  apply (spdy_packet_parsed sample_frames new_decompressor d evs new_spdy_parser Hd); done.
Defined.

Lemma spdy_errors_witness :
  rejected new_decompressor ERROR_INVALID_SPDY_FRAME
    (parse_spdy (str "GET / HTTP/1.1") new_decompressor new_http_info 0 14 new_spdy_parser).
Proof.
  apply (proj1 (spdy_errors (str "GET / HTTP/1.1") new_decompressor new_http_info 0 14 new_spdy_parser
    ltac:(done) ltac:(done)) "G"%byte (str "ET / HTTP/1.1")); [reflexivity|discriminate|discriminate].
Defined.

Lemma decompress_in_buffer_witness :
  exists d, decompress (str "abc") 1 (mk_frame_info true 2 SPDY_SYN_STREAM 0 13) new_decompressor
            = Ok (true, d) /\ buffer_ok (m_uncompressed_header d).
Proof.
  eexists. split; [reflexivity|].
  apply (decompress_in_buffer [(str "abc", 1, mk_frame_info true 2 SPDY_SYN_STREAM 0 13)]). reflexivity.
Defined.

(** ** Deviations *)

(** The parser looks at the bytes of a frame without regard to the length of the packet: it
    reads behind a packet of eight bytes that holds a complete control frame. *)
Lemma short_frame_read_outside :
  parse_spdy (frame_head (control_frame 2 SPDY_SETTINGS 0 [])) new_decompressor new_http_info 0 8
    new_spdy_parser = Fault undefined_behaviour.
Proof. vm_compute. reflexivity. Qed.

(** The length of a frame with headers is not checked either: what is left of a length
    below 10 wraps around, and zlib is told to read four gigabytes. *)
Lemma short_headers_read_outside :
  parse_spdy (encode_frame (control_frame 2 SPDY_SYN_STREAM 0 (from_uint32 1)) ++ replicate 100 NUL)
    new_decompressor new_http_info 0 112 new_spdy_parser = Fault undefined_behaviour.
Proof. vm_compute. reflexivity. Qed.

(** A SETTINGS frame without entries, or any control frame whose payload starts with four
    bytes 0, fails the assertion that the stream is not 0. *)
Lemma settings_frame_aborts :
  parse_spdy (encode_frame (control_frame 2 SPDY_SETTINGS 0 (from_uint32 0))) new_decompressor
    new_http_info 0 12 new_spdy_parser = Fault assertion_failed.
Proof. vm_compute. reflexivity. Qed.

(** A block that announces more pairs than it holds is read to its end and beyond. *)
Lemma long_count_read_outside :
  let payload := from_uint32 1 ++ replicate 6 NUL ++ from_uint16 3 in
  parse_spdy (encode_frame (control_frame 2 SPDY_SYN_STREAM 0 payload)) new_decompressor
    new_http_info 0 (8 + zlen payload) new_spdy_parser = Fault undefined_behaviour.
Proof. vm_compute. reflexivity. Qed.
