(* ===== verification/Plugins.v ===== *)
(** * Plug-ins

    Models [pion::plugin] and [pion::plugin_ptr] (src/plugin.cpp, include/pion/plugin.hpp) on
    POSIX: plug-in objects share the data of a loaded library and count their references to
    it; the last one unloads the library.  The files and the dynamic linker are the operating
    system's and parameters, which may depend on everything that was asked of them before.
    The objects, the shared data and the mutex are explicit, so a use of freed data and a
    second locking of the mutex are outcomes. *)
From stdpp Require Import gmap.
From S2P Require Import Prelude Outcomes CLib StringUtils StdMap Resources Paths.

(** ** The operating system *)

Abbreviation handle := nat.
Abbreviation func := nat.

(** The calls that were made, the latest first, with what the dynamic linker returned. *)
Inductive os_call :=
| os_stat (path : bytes)
| os_dlopen (path : bytes) (r : option handle)
| os_dlsym (h : option handle) (symbol : bytes) (r : option func)
| os_dlclose (h : option handle).

(** [None] for an exception of the file system library, and for [NULL]. *)
Class OS := {
  is_regular_file : list os_call -> bytes -> option bool;
  is_directory : list os_call -> bytes -> option bool;
  exists_file : list os_call -> bytes -> option bool;
  read_directory : list os_call -> bytes -> option (list bytes);
  absolute : list os_call -> bytes -> option bytes;
  dlopen : list os_call -> bytes -> option handle;
  dlsym : list os_call -> option handle -> bytes -> option func
}.

(** ** State *)

Abbreviation addr := nat.
Abbreviation obj := nat.

Record data_type := mk_data_type {
  m_lib_handle : option handle;
  m_create_func : option func;
  m_destroy_func : option func;
  m_plugin_name : bytes;
  m_references : Z
}.

(** [config_type], the data on the heap, the plug-in objects with their [m_plugin_data], and
    the calls of the operating system. *)
Record plugins := mk_plugins {
  m_plugin_dirs : list bytes;
  m_plugin_map : smap addr;
  m_plugin_mutex : bool;
  data_heap : gmap addr data_type;
  next_addr : addr;
  plugin_objects : gmap obj (option addr);
  next_object : obj;
  os_calls : list os_call
}.

Definition new_plugins : plugins := mk_plugins [] [] false ∅ 0 ∅ 0 [].

(** The functions of the plug-ins. *)
Abbreviation plug := (comp plugins).

Definition with_dirs (dirs : list bytes) st : plugins :=
  mk_plugins dirs (m_plugin_map st) (m_plugin_mutex st) (data_heap st) (next_addr st)
    (plugin_objects st) (next_object st) (os_calls st).
Definition with_map (m : smap addr) st : plugins :=
  mk_plugins (m_plugin_dirs st) m (m_plugin_mutex st) (data_heap st) (next_addr st)
    (plugin_objects st) (next_object st) (os_calls st).
Definition with_mutex (locked : bool) st : plugins :=
  mk_plugins (m_plugin_dirs st) (m_plugin_map st) locked (data_heap st) (next_addr st)
    (plugin_objects st) (next_object st) (os_calls st).
Definition with_heap (h : gmap addr data_type) st : plugins :=
  mk_plugins (m_plugin_dirs st) (m_plugin_map st) (m_plugin_mutex st) h (next_addr st)
    (plugin_objects st) (next_object st) (os_calls st).
Definition with_objects (objects : gmap obj (option addr)) st : plugins :=
  mk_plugins (m_plugin_dirs st) (m_plugin_map st) (m_plugin_mutex st) (data_heap st) (next_addr st)
    objects (next_object st) (os_calls st).
Definition with_call (c : os_call) st : plugins :=
  mk_plugins (m_plugin_dirs st) (m_plugin_map st) (m_plugin_mutex st) (data_heap st) (next_addr st)
    (plugin_objects st) (next_object st) (c :: os_calls st).

(** The scope of a [unique_lock] of [m_plugin_mutex], which is not recursive. *)
Definition with_lock {A} (m : plug A) : plug A := fun st =>
  if m_plugin_mutex st then Deadlock
  else match m (with_mutex true st) with
       | Done a st' => Done a (with_mutex false st')
       | Thrown st' => Thrown (with_mutex false st')
       | Deadlock => Deadlock
       | Crash => Crash
       end.

(** [m_plugin_data] of an object. *)
Definition get_data (this : obj) : plug (option addr) := fun st =>
  match plugin_objects st !! this with Some d => Done d st | None => Crash end.
Definition set_data (this : obj) (d : option addr) : plug unit :=
  modify (fun st => with_objects (<[this := d]> (plugin_objects st)) st).

(** A dereference, [new] and [delete] of the shared data. *)
Definition deref (a : addr) : plug data_type := fun st =>
  match data_heap st !! a with Some d => Done d st | None => Crash end.
Definition store (a : addr) (d : data_type) : plug unit :=
  modify (fun st => with_heap (<[a := d]> (data_heap st)) st).
Definition new_data (d : data_type) : plug addr := fun st =>
  Done (next_addr st)
    (mk_plugins (m_plugin_dirs st) (m_plugin_map st) (m_plugin_mutex st)
       (<[next_addr st := d]> (data_heap st)) (S (next_addr st)) (plugin_objects st) (next_object st)
       (os_calls st)).
Definition delete_data (a : addr) : plug unit :=
  modify (fun st => with_heap (delete a (data_heap st)) st).

Definition with_references (n : Z) (d : data_type) : data_type :=
  mk_data_type (m_lib_handle d) (m_create_func d) (m_destroy_func d) (m_plugin_name d) n.

(** ** References *)

Definition close_dynamic_library (h : option handle) : plug unit :=
  modify (with_call (os_dlclose h)).

Definition release_data (this : obj) : plug unit :=
  p ← get_data this;
  match p with
  | None => mret tt
  | Some a =>
      with_lock (
        d ← deref a;
        let references := u64 (m_references d - 1) in
        store a (with_references references d);;
        (if references =? 0 then
           match m_lib_handle d with
           | None => mret tt
           | Some _ =>
               close_dynamic_library (m_lib_handle d);;
               modify (fun st => with_map (map_erase (m_plugin_name d) (m_plugin_map st)) st);;
               delete_data a
           end
         else mret tt);;
        set_data this None)
  end.

(** [++ m_plugin_data->m_references]. *)
Definition add_reference (a : addr) : plug unit :=
  d ← deref a; store a (with_references (u64 (m_references d + 1)) d).

Definition grab_data (this p : obj) : plug unit :=
  release_data this;;
  with_lock (
    d ← get_data p;
    set_data this d;;
    match d with Some a => add_reference a | None => mret tt end).

(** The constructors, the assignment, [close] and the destructor. *)
Definition new_plugin : plug obj := fun st =>
  Done (next_object st)
    (mk_plugins (m_plugin_dirs st) (m_plugin_map st) (m_plugin_mutex st) (data_heap st) (next_addr st)
       (<[next_object st := None]> (plugin_objects st)) (S (next_object st)) (os_calls st)).
Definition copy_plugin (p : obj) : plug obj :=
  this ← new_plugin; grab_data this p;; mret this.
Definition assign_plugin (this p : obj) : plug unit := grab_data this p.
Definition close_plugin (this : obj) : plug unit := release_data this.
Definition delete_plugin (this : obj) : plug unit :=
  release_data this;;
  modify (fun st => with_objects (delete this (plugin_objects st)) st).

Definition is_open (this : obj) : plug bool :=
  p ← get_data this; mret (bool_decide (p <> None)).
Definition get_plugin_name (this : obj) : plug bytes :=
  p ← get_data this;
  match p with None => mret [] | Some a => d ← deref a; mret (m_plugin_name d) end.
Definition get_create_function (this : obj) : plug (option func) :=
  p ← get_data this;
  match p with None => mret None | Some a => d ← deref a; mret (m_create_func d) end.
Definition get_destroy_function (this : obj) : plug (option func) :=
  p ← get_data this;
  match p with None => mret None | Some a => d ← deref a; mret (m_destroy_func d) end.

(** [plugin_ptr::create] and [destroy]: the function of the library that is called; the check
    for [NULL] only prints. *)
Definition create_function (this : obj) : plug func :=
  f ← get_create_function this; match f with Some f => mret f | None => crash end.
Definition destroy_function (this : obj) : plug func :=
  f ← get_destroy_function this; match f with Some f => mret f | None => crash end.

(** ** Finding and opening plug-ins *)

Definition PION_PLUGIN_CREATE : bytes := str "pion_create_".
Definition PION_PLUGIN_DESTROY : bytes := str "pion_destroy_".
Definition PION_PLUGIN_EXTENSION : bytes := str ".so".
Definition PION_CONFIG_EXTENSION : bytes := str ".conf".

(** The static [get_plugin_name(plugin_file)]. *)
Definition plugin_name_of (plugin_file : bytes) : bytes := path_stem plugin_file.

Section Operations.
Context `{OS}.

(** [is_regular_file] in its [try] block. *)
Definition regular (path : bytes) : plug bool := fun st =>
  let st' := with_call (os_stat path) st in
  match is_regular_file (os_calls st) path with
  | Some b => Done b st'
  | None => Done false st'
  end.

(** The path that was found. *)
Definition check_for_file (start_path name extension : bytes) : plug (option bytes) :=
  let test_path := if bool_decide (name = []) then start_path else path_append start_path name in
  b ← regular test_path;
  if b : bool then mret (Some test_path)
  else
    let test_path := if bool_decide (name = []) then start_path ++ extension
                     else path_append start_path (name ++ extension) in
    b ← regular test_path;
    mret (if b : bool then Some test_path else None).

(** The loop over the directories. *)
Fixpoint check_dirs (dirs : list bytes) (name extension : bytes) : plug (option bytes) :=
  match dirs with
  | [] => mret None
  | i :: dirs' =>
      r ← check_for_file i name extension;
      match r with Some _ => mret r | None => check_dirs dirs' name extension end
  end.

Definition find_file (name extension : bytes) : plug (option bytes) :=
  r ← check_for_file name [] extension;
  match r with
  | Some _ => mret r
  | None => with_lock (dirs ← gets m_plugin_dirs; check_dirs dirs name extension)
  end.

Definition find_plugin_file (name : bytes) : plug (option bytes) :=
  find_file name PION_PLUGIN_EXTENSION.
Definition find_config_file (name : bytes) : plug (option bytes) :=
  find_file name PION_CONFIG_EXTENSION.

Definition load_dynamic_library (plugin_file : bytes) : plug (option handle) := fun st =>
  match absolute (os_calls st) plugin_file with
  | None => Thrown st
  | Some full_path =>
      let r := dlopen (os_calls st) full_path in
      Done r (with_call (os_dlopen full_path r) st)
  end.

Definition get_library_symbol (h : option handle) (symbol : bytes) : plug (option func) := fun st =>
  let r := dlsym (os_calls st) h symbol in
  Done r (with_call (os_dlsym h symbol r) st).

(** A library or a symbol that is missing is only reported, and the library closed. *)
Definition open_plugin (plugin_file : bytes) : plug data_type :=
  let name := plugin_name_of plugin_file in
  h ← load_dynamic_library plugin_file;
  c ← get_library_symbol h (PION_PLUGIN_CREATE ++ name);
  (if bool_decide (c = None) then close_dynamic_library h else mret tt);;
  d ← get_library_symbol h (PION_PLUGIN_DESTROY ++ name);
  (if bool_decide (d = None) then close_dynamic_library h else mret tt);;
  mret (mk_data_type h c d name 0).

Definition open_file (this : obj) (plugin_file : bytes) : plug unit :=
  release_data this;;
  with_lock (
    itr ← gets (fun st => map_find (plugin_name_of plugin_file) (m_plugin_map st));
    a ← match itr with
        | None =>
            plugin_data ← open_plugin plugin_file;
            a ← new_data plugin_data;
            modify (fun st => with_map (map_insert (m_plugin_name plugin_data) a (m_plugin_map st)) st);;
            mret a
        | Some a => mret a
        end;
    set_data this (Some a);;
    add_reference a).

(** The first lookup releases the data of the object inside the scope of the lock.  A file
    that is not found is only reported, and the empty path opened. *)
Definition open (this : obj) (plugin_name : bytes) : plug unit :=
  found ← with_lock (
    itr ← gets (fun st => map_find plugin_name (m_plugin_map st));
    match itr with
    | Some a => release_data this;; set_data this (Some a);; add_reference a;; mret true
    | None => mret false
    end);
  if found : bool then mret tt
  else
    plugin_file ← find_plugin_file plugin_name;
    open_file this (default [] plugin_file).

Definition add_plugin_directory (dir : bytes) : plug unit := fun st =>
  match exists_file (os_calls st) dir with
  | None => Thrown st
  | Some _ => with_lock (modify (fun st => with_dirs (m_plugin_dirs st ++ [dir]) st)) st
  end.
Definition reset_plugin_directories : plug unit := with_lock (modify (with_dirs [])).

Definition add_static_entry_point (plugin_name : bytes) (create_func destroy_func : option func)
  : plug unit :=
  with_lock (
    itr ← gets (fun st => map_find plugin_name (m_plugin_map st));
    match itr with
    | None =>
        a ← new_data (mk_data_type None create_func destroy_func plugin_name 0);
        modify (fun st => with_map (map_insert plugin_name a (m_plugin_map st)) st)
    | Some _ => mret tt
    end).

(** The entries of a directory that [get_all_plugin_names] lists: directories with the
    extension of a library. *)
Fixpoint plugin_entries (entries : list bytes) : plug (list bytes) :=
  match entries with
  | [] => mret []
  | path :: entries' => fun st =>
      match is_directory (os_calls st) path with
      | None => Thrown st
      | Some b =>
          (names ← plugin_entries entries';
           mret (if b && bytes_eqb (path_extension path) PION_PLUGIN_EXTENSION
                 then plugin_name_of (path_filename path) :: names else names)) st
      end
  end.

Fixpoint plugin_directories (dirs : list bytes) : plug (list bytes) :=
  match dirs with
  | [] => mret []
  | dir :: dirs' => fun st =>
      match read_directory (os_calls st) dir with
      | None => Thrown st
      | Some entries =>
          (names ← plugin_entries entries; rest ← plugin_directories dirs'; mret (names ++ rest)) st
      end
  end.

(** The plug-ins without a library. *)
Fixpoint static_names (m : smap addr) : plug (list bytes) :=
  match m with
  | [] => mret []
  | (_, a) :: m' =>
      d ← deref a;
      names ← static_names m';
      mret (if bool_decide (m_lib_handle d = None) then m_plugin_name d :: names else names)
  end.

Definition get_all_plugin_names : plug (list bytes) :=
  with_lock (
    dirs ← gets m_plugin_dirs;
    found ← plugin_directories dirs;
    m ← gets m_plugin_map;
    static ← static_names m;
    mret (found ++ static)).

End Operations.

(** ** Counting references *)

(** The number of objects that point to [a]. *)
Definition users_of (a : addr) (objects : gmap obj (option addr)) : nat :=
  size (filter (fun kv => kv.2 = Some a) objects).

Definition points (v : option addr) (a : addr) : nat := if decide (v = Some a) then 1 else 0.

Lemma users_of_insert_new a o v objects :
  objects !! o = None -> users_of a (<[o := v]> objects) = (points v a + users_of a objects)%nat.
Proof.
  intros Ho. unfold users_of, points. rewrite map_filter_insert. cbn [snd]. case_decide as E.
  - rewrite map_size_insert_None; [done|]. apply map_lookup_filter_None. by left.
  - by rewrite delete_id.
Qed.

Lemma users_of_delete a o v objects :
  objects !! o = Some v -> users_of a objects = (points v a + users_of a (delete o objects))%nat.
Proof.
  intros Ho. rewrite <- (insert_delete_id objects o v Ho) at 1.
  apply users_of_insert_new. apply lookup_delete_eq.
Qed.

Lemma users_of_set a o v v' objects :
  objects !! o = Some v ->
  (points v a + users_of a (<[o := v']> objects) = points v' a + users_of a objects)%nat.
Proof.
  intros Ho. rewrite <- insert_delete_eq, users_of_insert_new by apply lookup_delete_eq.
  rewrite (users_of_delete a o v objects Ho). lia.
Qed.

Lemma users_of_size a objects : (users_of a objects <= size objects)%nat.
Proof. apply map_size_filter. Qed.

Lemma users_of_pos a o objects : objects !! o = Some (Some a) -> (0 < users_of a objects)%nat.
Proof. intros Ho. rewrite (users_of_delete a o _ _ Ho). unfold points. rewrite decide_True by done. lia. Qed.

Lemma users_of_zero a objects : users_of a objects = 0%nat -> forall o, objects !! o <> Some (Some a).
Proof. intros Hz o Ho. apply users_of_pos in Ho. lia. Qed.

Lemma users_of_none a objects : (forall o, objects !! o <> Some (Some a)) -> users_of a objects = 0%nat.
Proof.
  intros Hn. unfold users_of. apply map_size_empty_iff, map_empty.
  intros o. apply map_lookup_filter_None. right. intros v Ho. cbn. intros ->. by apply (Hn o).
Qed.

(** ** The invariant *)

(** The map leads to the data of exactly the known plug-ins, under their names; a count is
    the number of the objects that point to the data, and these point to data that is there;
    data nobody points to is that of a plug-in without a library, or [pending]. *)
Record data_ok (pending : option addr) (st : plugins) : Prop := mk_data_ok {
  do_map_ok : map_ok (m_plugin_map st);
  do_map : forall name a, map_find name (m_plugin_map st) = Some a
    <-> exists d, data_heap st !! a = Some d /\ m_plugin_name d = name;
  do_next : forall a d, data_heap st !! a = Some d -> (a < next_addr st)%nat;
  do_references : forall a d, data_heap st !! a = Some d ->
    m_references d = Z.of_nat (users_of a (plugin_objects st));
  do_static : forall a d, data_heap st !! a = Some d -> m_references d = 0 ->
    m_lib_handle d = None \/ pending = Some a;
  do_points : forall o a, plugin_objects st !! o = Some (Some a) -> is_Some (data_heap st !! a);
  do_next_object : forall o v, plugin_objects st !! o = Some v -> (o < next_object st)%nat;
  do_size : Z.of_nat (size (plugin_objects st)) < 2 ^ 64
}.

Definition plugins_ok (st : plugins) : Prop := m_plugin_mutex st = false /\ data_ok None st.

(** What the operations on one object keep of the rest: the directories, and the objects
    except that [this] now has [v]. *)
Record points_to (this : obj) (v : option addr) (st st' : plugins) : Prop := mk_points_to {
  pt_objects : plugin_objects st' = <[this := v]> (plugin_objects st);
  pt_dirs : m_plugin_dirs st' = m_plugin_dirs st;
  pt_next : next_object st' = next_object st;
  pt_mutex : m_plugin_mutex st' = m_plugin_mutex st
}.

Lemma data_ok_mutex pending b st : data_ok pending st -> data_ok pending (with_mutex b st).
Proof. by intros []. Qed.

Lemma new_plugins_ok : plugins_ok new_plugins.
Proof.
  split; [done|]. split; try done; [apply map_ok_nil|]. intros name a. split; [done|]. by intros (d & H & _).
Qed.

Lemma size_set_object o v v' (objects : gmap obj (option addr)) :
  objects !! o = Some v -> size (<[o := v']> objects) = size objects.
Proof. intros Ho. by rewrite (map_size_insert_Some o v' objects (mk_is_Some _ _ Ho)). Qed.

Lemma lookup_set_object o o' (v v' : option addr) (objects : gmap obj (option addr)) :
  <[o := v]> objects !! o' = Some v' -> (o' = o /\ v' = v) \/ (o' <> o /\ objects !! o' = Some v').
Proof. rewrite lookup_insert_Some. intros [[-> ->]|[? ?]]; [by left|right; by split]. Qed.

Lemma lookup_set_heap a b (d e : data_type) (h : gmap addr data_type) :
  <[a := d]> h !! b = Some e -> (b = a /\ e = d) \/ (b <> a /\ h !! b = Some e).
Proof. rewrite lookup_insert_Some. intros [[-> ->]|[? ?]]; [by left|right; by split]. Qed.

(** The step that gives an object without data a reference to [a]. *)
Lemma attach_ok this a d pending st :
  data_ok pending st -> plugin_objects st !! this = Some None -> data_heap st !! a = Some d ->
  pending = None \/ pending = Some a ->
  exists st', (set_data this (Some a);; add_reference a) st = Done tt st'
              /\ data_ok None st' /\ points_to this (Some a) st st'.
Proof.
  intros [Hmo Hm Hnx Hr Hs Hp Hno Hz] Ho Hd Hpe.
  assert (forall b, users_of b (<[this := Some a]> (plugin_objects st))
                    = (points (Some a) b + users_of b (plugin_objects st))%nat) as Hus.
  { intros b. pose proof (users_of_set b this None (Some a) _ Ho) as H. unfold points at 1 in H.
    rewrite decide_False in H by done. lia. }
  assert (Z.of_nat (users_of a (<[this := Some a]> (plugin_objects st))) < 2 ^ 64) as Hlt.
  { pose proof (users_of_size a (<[this := Some a]> (plugin_objects st))) as H.
    rewrite (size_set_object _ _ _ _ Ho) in H. lia. }
  unfold set_data, add_reference, deref, modify, mbind, comp_bind. cbn [with_objects data_heap]. rewrite Hd.
  assert (u64 (m_references d + 1) = Z.of_nat (users_of a (<[this := Some a]> (plugin_objects st)))) as Hinc.
  { rewrite Hus in *. unfold points in *. rewrite decide_True in * by done. rewrite (Hr _ _ Hd).
    rewrite u64_small; lia. }
  eexists. split; [reflexivity|]. split; [|by split].
  split; cbn [store modify with_heap with_objects m_plugin_map data_heap next_addr plugin_objects next_object].
  - done.
  - intros name b. rewrite Hm. split.
    + intros (e & He & Hn). destruct (decide (b = a)) as [->|Hb].
      * rewrite Hd in He. injection He as <-. eexists. by rewrite lookup_insert_eq.
      * exists e. by rewrite lookup_insert_ne.
    + intros (e & [[-> ->]|[Hb He]]%lookup_set_heap & Hn); [by exists d|by exists e].
  - intros b e [[-> ->]|[Hb He]]%lookup_set_heap; [by eapply Hnx|by eapply Hnx].
  - intros b e [[-> ->]|[Hb He]]%lookup_set_heap; [done|]. rewrite (Hr _ _ He), Hus. unfold points.
    by rewrite decide_False by congruence.
  - intros b e [[-> ->]|[Hb He]]%lookup_set_heap Hz0.
    + cbn [with_references m_references] in Hz0. rewrite Hinc, Hus in Hz0. unfold points in Hz0.
      rewrite decide_True in Hz0 by done. lia.
    + destruct (Hs _ _ He Hz0) as [H|H]; [by left|]. destruct Hpe; congruence.
  - intros o b [[-> [= ->]]|[? Hob]]%lookup_set_object; [by rewrite lookup_insert_eq|].
    destruct (decide (b = a)) as [->|]; [by rewrite lookup_insert_eq|]. rewrite lookup_insert_ne by done.
    by eapply Hp.
  - intros o v [[-> ->]|[? Hob]]%lookup_set_object; by eapply Hno.
  - by rewrite (size_set_object _ _ _ _ Ho).
Qed.

(** The step that takes the reference of an object: the data may go with it. *)
Definition detached (this : obj) (a : addr) (d : data_type) (st : plugins) : plugins :=
  let n := m_references d - 1 in
  let st1 := with_heap (<[a := with_references n d]> (data_heap st)) st in
  let st2 := if n =? 0 then
               match m_lib_handle d with
               | None => st1
               | Some _ => with_heap (delete a (data_heap st1))
                             (with_map (map_erase (m_plugin_name d) (m_plugin_map st))
                                (with_call (os_dlclose (m_lib_handle d)) st1))
               end
             else st1 in
  with_objects (<[this := None]> (plugin_objects st)) st2.

Lemma detach_users this a st :
  plugin_objects st !! this = Some (Some a) ->
  Z.of_nat (users_of a (<[this := None]> (plugin_objects st))) = Z.of_nat (users_of a (plugin_objects st)) - 1
  /\ forall b, b <> a -> users_of b (<[this := None]> (plugin_objects st)) = users_of b (plugin_objects st).
Proof.
  intros Ho. split.
  - pose proof (users_of_set a this (Some a) None _ Ho) as H. unfold points in H.
    rewrite decide_True, decide_False in H by done. lia.
  - intros b Hb. pose proof (users_of_set b this (Some a) None _ Ho) as H. unfold points in H.
    rewrite !decide_False in H by congruence. lia.
Qed.

(** The data that is kept when the count of [a] becomes what it is without [this]. *)
Lemma detached_kept this a d st :
  data_ok None st -> plugin_objects st !! this = Some (Some a) -> data_heap st !! a = Some d ->
  m_references d - 1 <> 0 \/ m_lib_handle d = None ->
  data_ok None (with_objects (<[this := None]> (plugin_objects st))
                  (with_heap (<[a := with_references (m_references d - 1) d]> (data_heap st)) st)).
Proof.
  intros [Hmo Hm Hnx Hr Hs Hp Hno Hz] Ho Hd Hk. destruct (detach_users _ _ _ Ho) as [Ha Hb].
  split; cbn [with_heap with_objects m_plugin_map data_heap next_addr plugin_objects next_object].
  - done.
  - intros name b. rewrite Hm. split.
    + intros (e & He & Hn). destruct (decide (b = a)) as [->|Hne].
      * rewrite Hd in He. injection He as <-. eexists. by rewrite lookup_insert_eq.
      * exists e. by rewrite lookup_insert_ne.
    + intros (e & [[-> ->]|[Hne He]]%lookup_set_heap & Hn); [by exists d|by exists e].
  - intros b e [[-> ->]|[Hne He]]%lookup_set_heap; by eapply Hnx.
  - intros b e [[-> ->]|[Hne He]]%lookup_set_heap; [cbn; by rewrite Ha, (Hr _ _ Hd)|]. by rewrite (Hr _ _ He), Hb.
  - intros b e [[-> ->]|[Hne He]]%lookup_set_heap Hz0; [|by apply Hs]. left. cbn in *.
    by destruct Hk.
  - intros o b [[-> [=]]|[? Hob]]%lookup_set_object. destruct (decide (b = a)) as [->|].
    + by rewrite lookup_insert_eq.
    + rewrite lookup_insert_ne by done. by eapply Hp.
  - intros o v [[-> ->]|[? Hob]]%lookup_set_object; by eapply Hno.
  - by rewrite (size_set_object _ _ _ _ Ho).
Qed.

Lemma data_names_inj pending st a b d e :
  data_ok pending st -> data_heap st !! a = Some d -> data_heap st !! b = Some e ->
  m_plugin_name d = m_plugin_name e -> a = b.
Proof.
  intros Hst Ha Hb Hn.
  assert (map_find (m_plugin_name d) (m_plugin_map st) = Some a) as H1 by (apply (do_map _ _ Hst); by exists d).
  assert (map_find (m_plugin_name e) (m_plugin_map st) = Some b) as H2 by (apply (do_map _ _ Hst); by exists e).
  congruence.
Qed.

(** The data that goes with its last object. *)
Lemma detached_deleted this a d st st1 :
  data_ok None st -> plugin_objects st !! this = Some (Some a) -> data_heap st !! a = Some d ->
  m_references d - 1 = 0 ->
  m_plugin_map st1 = map_erase (m_plugin_name d) (m_plugin_map st) ->
  data_heap st1 = delete a (data_heap st) -> next_addr st1 = next_addr st ->
  plugin_objects st1 = <[this := None]> (plugin_objects st) -> next_object st1 = next_object st ->
  data_ok None st1.
Proof.
  intros Hst Ho Hd Hz0 E1 E2 E3 E4 E5. pose proof Hst as [Hmo Hm Hnx Hr Hs Hp Hno Hz].
  destruct (detach_users _ _ _ Ho) as [Ha Hb]. rewrite <- (Hr _ _ Hd) in Ha.
  split; rewrite ?E1, ?E2, ?E3, ?E4, ?E5.
  - by apply map_erase_ok.
  - intros name b. rewrite map_find_erase. split.
    + case_decide as E; [done|]. rewrite Hm. intros (e & He & Hn). exists e.
      rewrite lookup_delete_ne by congruence. done.
    + intros (e & He & Hn). apply lookup_delete_Some in He as [Hne He].
      rewrite decide_False; [apply Hm; by exists e|]. intros E.
      apply Hne. by eapply (data_names_inj None st a b d e); [| | |congruence].
  - intros b e He. apply lookup_delete_Some in He as [Hne He]. by eapply Hnx.
  - intros b e He. apply lookup_delete_Some in He as [Hne He]. rewrite Hb by done. by apply Hr.
  - intros b e He. apply lookup_delete_Some in He as [Hne He]. by apply Hs.
  - intros o b [[-> [=]]|[? Hob]]%lookup_set_object. destruct (decide (b = a)) as [->|].
    + assert (users_of a (<[this := None]> (plugin_objects st)) = 0%nat) as H0 by lia.
      exfalso. apply (users_of_zero _ _ H0 o). by rewrite lookup_insert_ne.
    + rewrite lookup_delete_ne by done. by eapply Hp.
  - intros o v [[-> ->]|[? Hob]]%lookup_set_object; by eapply Hno.
  - by rewrite (size_set_object _ _ _ _ Ho).
Qed.

Lemma detached_ok this a d st :
  data_ok None st -> plugin_objects st !! this = Some (Some a) -> data_heap st !! a = Some d ->
  data_ok None (detached this a d st) /\ points_to this None st (detached this a d st).
Proof.
  intros Hst Ho Hd. unfold detached.
  destruct (Z.eqb_spec (m_references d - 1) 0) as [E|E]; [destruct (m_lib_handle d) as [h|] eqn:Eh|].
  - split; [|by split]. eapply detached_deleted; try done. cbn. by rewrite delete_insert_eq.
  - split; [|by split]. by apply detached_kept; [| | |right].
  - split; [|by split]. by apply detached_kept; [| | |left].
Qed.

Lemma release_data_run this a d st :
  plugins_ok st -> plugin_objects st !! this = Some (Some a) -> data_heap st !! a = Some d ->
  release_data this st = Done tt (detached this a d st).
Proof.
  intros [Hu Hst] Ho Hd.
  assert (u64 (m_references d - 1) = m_references d - 1) as Hdec.
  { pose proof (do_references _ _ Hst _ _ Hd) as Hr. pose proof (users_of_pos _ _ _ Ho).
    pose proof (users_of_size a (plugin_objects st)). pose proof (do_size _ _ Hst). apply u64_small. lia. }
  unfold release_data, get_data, deref, store, close_dynamic_library, delete_data, set_data, modify, mbind,
    comp_bind, with_lock, detached.
  rewrite Ho, Hu. cbn [with_mutex data_heap]. rewrite Hd, Hdec.
  destruct (m_references d - 1 =? 0); [destruct (m_lib_handle d)|];
    unfold with_heap, with_map, with_objects, with_call, with_mutex;
    cbn [m_plugin_dirs m_plugin_map m_plugin_mutex data_heap next_addr plugin_objects next_object os_calls];
    by rewrite ?Hu.
Qed.

Lemma release_data_ok this v st :
  plugins_ok st -> plugin_objects st !! this = Some v ->
  exists st', release_data this st = Done tt st' /\ plugins_ok st' /\ points_to this None st st'.
Proof.
  intros Hst Ho. destruct v as [a|].
  - destruct (do_points _ _ (proj2 Hst) _ _ Ho) as [d Hd]. exists (detached this a d st).
    split; [by apply release_data_run|]. destruct Hst as [Hu Hst].
    destruct (detached_ok _ _ _ _ Hst Ho Hd) as [H1 H2]. split; [|done]. split; [|done].
    by rewrite (pt_mutex _ _ _ _ H2).
  - exists st. unfold release_data, get_data, mbind, comp_bind. rewrite Ho. split; [done|]. split; [done|].
    split; try done. by rewrite insert_id.
Qed.

(** ** What the operations do to a good state *)

(** The state inside the scope of the lock. *)
Definition locked (st : plugins) : plugins := with_mutex true st.

Lemma safe_lock {A} (m : plug A) st (Q : A -> plugins -> Prop) (E : plugins -> Prop) :
  m_plugin_mutex st = false ->
  safe m (locked st) (fun a st' => Q a (with_mutex false st')) (fun st' => E (with_mutex false st')) ->
  safe (with_lock m) st Q E.
Proof. unfold safe, with_lock. intros ->. fold (locked st). by destruct (m (locked st)). Qed.

(** The state [st'] is [st] after more calls of the operating system. *)
Definition only_calls (st st' : plugins) : Prop := exists l,
  st' = mk_plugins (m_plugin_dirs st) (m_plugin_map st) (m_plugin_mutex st) (data_heap st) (next_addr st)
          (plugin_objects st) (next_object st) (l ++ os_calls st).

Lemma only_calls_refl st : only_calls st st.
Proof. exists []. by destruct st. Qed.

Lemma only_calls_trans st1 st2 st3 : only_calls st1 st2 -> only_calls st2 st3 -> only_calls st1 st3.
Proof. intros [l ->] [k ->]. exists (k ++ l). by rewrite <- app_assoc. Qed.

Lemma with_call_only c st : only_calls st (with_call c st).
Proof. by exists [c]. Qed.

Lemma only_calls_ok pending st st' : only_calls st st' -> data_ok pending st -> data_ok pending st'.
Proof. intros [l ->]. by intros []. Qed.

#[export] Hint Resolve only_calls_refl with_call_only : pion.

(** A function that only asks the operating system. *)
Definition asks {A} (m : plug A) : Prop := forall st, safe m st (fun _ st' => only_calls st st') (only_calls st).

Lemma asks_bind {A B} (m : plug A) (k : A -> plug B) : asks m -> (forall a, asks (k a)) -> asks (m ≫= k).
Proof.
  intros Hm Hk st. apply safe_bind. eapply safe_weaken; [apply Hm| |done]. intros a st' H. cbn.
  eapply safe_weaken; [apply Hk| |]; cbn; intros; apply (only_calls_trans st st' _ H); assumption.
Qed.

Lemma asks_ret {A} (a : A) : asks (mret a).
Proof. intros st. apply only_calls_refl. Qed.

#[export] Hint Resolve asks_bind asks_ret : pion.

Lemma close_dynamic_library_asks h : asks (close_dynamic_library h).
Proof. intros st. apply with_call_only. Qed.

Section Asking.
Context `{OS}.

Lemma regular_asks path : asks (regular path).
Proof. intros st. unfold safe, regular. destruct (is_regular_file _ _); apply with_call_only. Qed.

Lemma load_asks f : asks (load_dynamic_library f).
Proof. intros st. unfold safe, load_dynamic_library. destruct (absolute _ _); auto with pion. Qed.

Lemma symbol_asks h s : asks (get_library_symbol h s).
Proof. intros st. apply with_call_only. Qed.

Lemma check_for_file_asks start_path name extension : asks (check_for_file start_path name extension).
Proof.
  unfold check_for_file. apply asks_bind; [apply regular_asks|]. intros []; [apply asks_ret|].
  apply asks_bind; [apply regular_asks|]. intros b. apply asks_ret.
Qed.

Lemma check_dirs_asks dirs name extension : asks (check_dirs dirs name extension).
Proof.
  induction dirs as [|d dirs IH]; cbn [check_dirs]; [apply asks_ret|].
  apply asks_bind; [apply check_for_file_asks|]. intros []; [apply asks_ret|done].
Qed.

Lemma open_plugin_asks plugin_file : asks (open_plugin plugin_file).
Proof.
  unfold open_plugin. apply asks_bind; [apply load_asks|]. intros h.
  apply asks_bind; [apply symbol_asks|]. intros c.
  apply asks_bind; [case_if; [apply close_dynamic_library_asks|apply asks_ret]|]. intros [].
  apply asks_bind; [apply symbol_asks|]. intros d.
  apply asks_bind; [case_if; [apply close_dynamic_library_asks|apply asks_ret]|]. intros []. apply asks_ret.
Qed.

(** What a library that was opened is registered with. *)
Lemma open_plugin_data plugin_file st d st' :
  open_plugin plugin_file st = Done d st' ->
  m_plugin_name d = plugin_name_of plugin_file /\ m_references d = 0.
Proof.
  unfold open_plugin, load_dynamic_library, get_library_symbol, close_dynamic_library, modify, mbind,
    comp_bind, mret, comp_ret. destruct (absolute _ _); [|done].
  repeat case_if; by intros [= <- <-].
Qed.

End Asking.

(** A new entry of the map. *)
Definition registered (d : data_type) (st : plugins) : plugins :=
  mk_plugins (m_plugin_dirs st) (map_insert (m_plugin_name d) (next_addr st) (m_plugin_map st))
    (m_plugin_mutex st) (<[next_addr st := d]> (data_heap st)) (S (next_addr st)) (plugin_objects st)
    (next_object st) (os_calls st).

Lemma registered_ok d st :
  data_ok None st -> map_find (m_plugin_name d) (m_plugin_map st) = None -> m_references d = 0 ->
  data_ok (Some (next_addr st)) (registered d st)
  /\ (m_lib_handle d = None -> data_ok None (registered d st)).
Proof.
  intros Hst Hf Hd0. pose proof Hst as [Hmo Hm Hnx Hr Hs Hp Hno Hz].
  assert (data_heap st !! next_addr st = None) as Hfresh.
  { destruct (data_heap st !! next_addr st) as [e|] eqn:E; [|done]. apply Hnx in E. lia. }
  assert (users_of (next_addr st) (plugin_objects st) = 0%nat) as Hu0.
  { apply users_of_none. intros o Ho. destruct (Hp _ _ Ho) as [e He]. congruence. }
  assert (forall pending, (forall a e, data_heap (registered d st) !! a = Some e -> m_references e = 0 ->
            m_lib_handle e = None \/ pending = Some a) -> data_ok pending (registered d st)) as Hall.
  { intros pending Hpe. split; try done;
      cbn [registered m_plugin_map data_heap next_addr plugin_objects next_object].
    - by apply map_insert_ok.
    - intros name a. rewrite map_find_insert, Hf by done. case_decide as E.
      + subst name. split.
        { intros [= <-]. exists d. by rewrite lookup_insert_eq. }
        intros (e & [[-> ->]|[Hne He]]%lookup_set_heap & Hn); [done|].
          assert (map_find (m_plugin_name d) (m_plugin_map st) = Some a) by (apply Hm; by exists e). congruence.
      + rewrite Hm. split.
        { intros (e & He & Hn). exists e. rewrite lookup_insert_ne by congruence. done. }
        intros (e & [[-> ->]|[Hne He]]%lookup_set_heap & Hn); [congruence|by exists e].
    - intros a e [[-> ->]|[Hne He]]%lookup_set_heap; [lia|]. apply Hnx in He. lia.
    - intros a e [[-> ->]|[Hne He]]%lookup_set_heap; [|by apply Hr]. by rewrite Hu0.
    - intros o a Ho. destruct (Hp _ _ Ho) as [e He]. rewrite lookup_insert_ne by congruence. by exists e. }
  split; [|intros Hh]; apply Hall; intros a e [[-> ->]|[Hne He]]%lookup_set_heap He0; auto.
  - destruct (Hs _ _ He He0); [by left|done].
Qed.

(** ** The operations keep the invariant *)

Lemma points_to_trans this v w st st1 st2 :
  points_to this v st st1 -> points_to this w st1 st2 -> points_to this w st st2.
Proof.
  intros [O1 D1 N1 M1] [O2 D2 N2 M2]. split; [|congruence..].
  rewrite O2, O1. by rewrite insert_insert_eq.
Qed.

Lemma points_to_calls this v st st1 st2 :
  only_calls st st1 -> points_to this v st1 st2 -> points_to this v st st2.
Proof. intros [l ->] []. by split. Qed.

Lemma points_to_lookup this v st st' : points_to this v st st' -> plugin_objects st' !! this = Some v.
Proof. intros [E _ _ _]. by rewrite E, lookup_insert_eq. Qed.

(** An operation on [this]: the invariant is kept, and only [this] points to something else. *)
Definition moves (this : obj) {A} (m : plug A) (st : plugins) : Prop :=
  safe m st (fun _ st' => plugins_ok st' /\ exists v, points_to this v st st')
    (fun st' => plugins_ok st' /\ exists v, points_to this v st st').

Lemma release_data_moves this v st :
  plugins_ok st -> plugin_objects st !! this = Some v -> moves this (release_data this) st.
Proof.
  intros Hst Ho. destruct (release_data_ok _ _ _ Hst Ho) as (st' & E & H1 & H2).
  eapply safe_done; [exact E|]. split; [done|by exists None].
Qed.

Lemma locked_data_ok st : plugins_ok st -> data_ok None (locked st).
Proof. intros [_ H]. by apply data_ok_mutex. Qed.

(** [st'] in the scope of the lock, when the lock is released. *)
Lemma unlocked_moves this v st st' :
  data_ok None st' -> points_to this v (locked st) st' ->
  m_plugin_mutex st = false ->
  plugins_ok (with_mutex false st') /\ points_to this v st (with_mutex false st').
Proof.
  intros Hst' [O1 D1 N1 M1] Hu. split; [split; [done|by apply data_ok_mutex]|]. by split.
Qed.

Lemma grab_data_safe this p v w st :
  plugins_ok st -> plugin_objects st !! this = Some v -> plugin_objects st !! p = Some w ->
  safe (grab_data this p) st (fun _ st' => plugins_ok st' /\ exists v, points_to this v st st') (fun _ => False).
Proof.
  intros Hst Ho Hp. destruct (release_data_ok _ _ _ Hst Ho) as (st1 & E & Hst1 & H1).
  unfold grab_data. apply safe_bind. eapply safe_done; [exact E|]. cbn beta.
  assert (exists w', plugin_objects st1 !! p = Some w') as [w' Hp1].
  { rewrite (pt_objects _ _ _ _ H1). destruct (decide (p = this)) as [->|Hne].
    - exists None. by rewrite lookup_insert_eq.
    - exists w. by rewrite lookup_insert_ne. }
  pose proof (points_to_lookup _ _ _ _ H1) as Hn1.
  pose proof Hst1 as [Hu1 _]. apply safe_lock; [done|]. apply safe_bind.
  eapply safe_done; [unfold get_data; cbn [locked with_mutex plugin_objects]; by rewrite Hp1|]. cbn beta.
  destruct w' as [a|].
  - destruct (do_points _ _ (proj2 Hst1) _ _ Hp1) as [d Hd].
    destruct (attach_ok this a d None (locked st1) (locked_data_ok _ Hst1) Hn1 Hd (or_introl eq_refl))
      as (st2 & E2 & Hst2 & H2).
    eapply safe_done; [exact E2|]. destruct (unlocked_moves _ _ _ _ Hst2 H2 Hu1) as [H3 H4].
    split; [done|]. exists (Some a). by eapply points_to_trans.
  - eapply safe_done; [reflexivity|].
    replace (with_mutex false (with_objects _ _)) with st1; [split; [done|by exists None]|].
    destruct st1 as [? ? mx ? ? os ? ?]. cbn in *. rewrite (insert_id os) by done. by subst mx.
Qed.

Lemma grab_data_moves this p v w st :
  plugins_ok st -> plugin_objects st !! this = Some v -> plugin_objects st !! p = Some w ->
  moves this (grab_data this p) st.
Proof. intros Hst Ho Hp. by eapply safe_weaken; [by eapply grab_data_safe| |]. Qed.

Section Opening.
Context `{OS}.

Lemma open_file_moves this v plugin_file st :
  plugins_ok st -> plugin_objects st !! this = Some v -> moves this (open_file this plugin_file) st.
Proof.
  intros Hst Ho. destruct (release_data_ok _ _ _ Hst Ho) as (st1 & E & Hst1 & H1).
  unfold moves, open_file. apply safe_bind. eapply safe_done; [exact E|]. cbn beta.
  pose proof (points_to_lookup _ _ _ _ H1) as Hn1. pose proof Hst1 as [Hu1 _].
  apply safe_lock; [done|]. apply safe_bind. eapply safe_done; [reflexivity|]. cbn beta.
  change (m_plugin_map (locked st1)) with (m_plugin_map st1).
  destruct (map_find (plugin_name_of plugin_file) (m_plugin_map st1)) as [a|] eqn:Ef.
  - apply safe_bind. eapply safe_done; [reflexivity|]. cbn beta.
    destruct (proj1 (do_map _ _ (proj2 Hst1) _ _) Ef) as (d & Hd & _).
    destruct (attach_ok this a d None (locked st1) (locked_data_ok _ Hst1) Hn1 Hd (or_introl eq_refl))
      as (st2 & E2 & Hst2 & H2).
    eapply safe_done; [exact E2|]. destruct (unlocked_moves _ _ _ _ Hst2 H2 Hu1) as [H3 H4].
    split; [done|]. exists (Some a). by eapply points_to_trans.
  - apply safe_bind. apply safe_bind. unfold safe at 1.
    pose proof (open_plugin_asks plugin_file (locked st1)) as Ha. unfold safe in Ha.
    destruct (open_plugin plugin_file (locked st1)) as [d st2|st2| |] eqn:Eo; [|..|done|done].
    + destruct (open_plugin_data _ _ _ _ Eo) as [Hdn Hd0].
      assert (data_ok None st2) as Hst2 by (eapply only_calls_ok; [exact Ha|by apply locked_data_ok]).
      assert (map_find (m_plugin_name d) (m_plugin_map st2) = None) as Hf2.
      { rewrite Hdn. destruct Ha as [l ->]. exact Ef. }
      destruct (registered_ok d st2 Hst2 Hf2 Hd0) as [Hst3 _].
      apply safe_bind. eapply safe_done; [reflexivity|]. cbn beta.
      apply safe_bind. eapply safe_done; [reflexivity|]. cbn beta.
      apply safe_ret. fold (registered d st2).
      assert (plugin_objects st2 !! this = Some None) as Hn2 by (destruct Ha as [l ->]; exact Hn1).
      destruct (attach_ok this (next_addr st2) d (Some (next_addr st2)) (registered d st2) Hst3 Hn2
        ltac:(apply lookup_insert_eq) (or_intror eq_refl)) as (st4 & E4 & Hst4 & H4).
      eapply safe_done; [exact E4|].
      assert (points_to this (Some (next_addr st2)) (locked st1) st4) as H5.
      { eapply points_to_calls; [exact Ha|]. destruct H4; by split. }
      destruct (unlocked_moves _ _ _ _ Hst4 H5 Hu1) as [H6 H7].
      split; [done|]. eexists. by eapply points_to_trans.
    + assert (points_to this None (locked st1) st2) as H5.
      { eapply points_to_calls; [exact Ha|]. split; try done. rewrite insert_id; [done|].
        destruct Ha as [l ->]. exact Hn1. }
      destruct (unlocked_moves this None st1 st2) as [H6 H7]; [|done..|].
      { eapply only_calls_ok; [exact Ha|by apply locked_data_ok]. }
      split; [done|]. eexists. by eapply points_to_trans.
Qed.

Lemma find_file_asks name extension st :
  plugins_ok st ->
  safe (find_file name extension) st (fun _ st' => plugins_ok st' /\ only_calls st st')
    (fun st' => plugins_ok st' /\ only_calls st st').
Proof.
  intros Hst. unfold find_file. apply safe_bind.
  eapply safe_weaken; [apply check_for_file_asks| |].
  2:{ intros st1 H1. split; [|done]. split; [by destruct H1 as [l ->]; apply Hst|by eapply only_calls_ok; [|apply Hst]]. }
  intros r st1 H1. cbn beta.
  assert (plugins_ok st1) as Hst1.
  { split; [by destruct H1 as [l ->]; apply Hst|by eapply only_calls_ok; [|apply Hst]]. }
  destruct r as [f|]; [by apply safe_ret|]. apply safe_lock; [apply Hst1|].
  apply safe_bind. eapply safe_done; [reflexivity|]. cbn beta.
  assert (forall st', only_calls (locked st1) st' ->
            plugins_ok (with_mutex false st') /\ only_calls st (with_mutex false st')) as Hend.
  { intros st' H2. split.
    - split; [done|]. apply data_ok_mutex. eapply only_calls_ok; [exact H2|by apply locked_data_ok].
    - eapply only_calls_trans; [exact H1|]. destruct H2 as [l ->]. exists l.
      destruct Hst1 as [Hu _]. unfold with_mutex, locked. cbn. by rewrite Hu. }
  eapply safe_weaken; [apply check_dirs_asks| |]; cbn; intros; by apply Hend.
Qed.

(** [open] locks the mutex again exactly when the object is open and the name is known. *)
Lemma open_deadlocks this a name st b :
  plugins_ok st -> plugin_objects st !! this = Some (Some a) ->
  map_find name (m_plugin_map st) = Some b -> open this name st = Deadlock.
Proof.
  intros [Hu Hst] Ho Hf. unfold open, with_lock, mbind, comp_bind, gets. rewrite Hu.
  cbn [with_mutex m_plugin_map]. rewrite Hf. unfold release_data, get_data, mbind, comp_bind.
  cbn [with_mutex plugin_objects]. rewrite Ho. done.
Qed.

Lemma open_moves this v name st :
  plugins_ok st -> plugin_objects st !! this = Some v ->
  v = None \/ map_find name (m_plugin_map st) = None -> moves this (open this name) st.
Proof.
  intros Hst Ho Hv. pose proof Hst as [Hu Hst']. unfold moves, open. apply safe_bind.
  apply safe_lock; [done|]. apply safe_bind. eapply safe_done; [reflexivity|]. cbn beta.
  change (m_plugin_map (locked st)) with (m_plugin_map st).
  destruct (map_find name (m_plugin_map st)) as [a|] eqn:Ef.
  - destruct Hv as [->|]; [|done]. apply safe_bind.
    eapply (safe_done _ _ tt (locked st)); [unfold release_data, get_data, mbind, comp_bind; cbn [locked with_mutex plugin_objects]; by rewrite Ho|].
    cbn beta. destruct (proj1 (do_map _ _ Hst' _ _) Ef) as (d & Hd & _).
    destruct (attach_ok this a d None (locked st) (locked_data_ok _ Hst) Ho Hd (or_introl eq_refl))
      as (st2 & E2 & Hst2 & H2).
    apply safe_bind. eapply safe_done; [reflexivity|]. apply safe_bind.
    unfold mbind, comp_bind in E2. cbn [set_data modify] in E2.
    eapply safe_done; [exact E2|]. cbn beta. apply safe_ret, safe_ret.
    destruct (unlocked_moves _ _ _ _ Hst2 H2 Hu) as [H3 H4]. split; [done|by exists (Some a)].
  - apply safe_ret. replace (with_mutex false (locked st)) with st by (destruct st; cbn in *; by subst).
    apply safe_bind. eapply safe_weaken; [by apply find_file_asks| |].
    + intros f st1 [Hst1 H1]. cbn beta.
      assert (plugin_objects st1 !! this = Some v) as Ho1 by (destruct H1 as [l ->]; exact Ho).
      eapply safe_weaken; [by eapply open_file_moves| |]; cbn.
      * intros _ st2 [H2 [w H3]]. split; [done|]. exists w. by eapply points_to_calls.
      * intros st2 [H2 [w H3]]. split; [done|]. exists w. by eapply points_to_calls.
    + intros st1 [Hst1 H1]. split; [done|]. exists v. eapply points_to_calls; [exact H1|].
      split; try done. rewrite insert_id; [done|]. destruct H1 as [l ->]; exact Ho.
Qed.

End Opening.

(** ** Runs *)

Inductive plugin_op :=
| op_new_plugin
| op_copy_plugin (p : obj)
| op_assign_plugin (this p : obj)
| op_open (this : obj) (plugin_name : bytes)
| op_open_file (this : obj) (plugin_file : bytes)
| op_close_plugin (this : obj)
| op_delete_plugin (this : obj)
| op_static (plugin_name : bytes) (create_func destroy_func : option func)
| op_add_directory (dir : bytes)
| op_reset_directories.

(** The objects an operation is called on exist, and fit in memory. *)
Definition valid_op (op : plugin_op) (st : plugins) : Prop :=
  match op with
  | op_new_plugin => Z.of_nat (size (plugin_objects st)) + 1 < 2 ^ 64
  | op_copy_plugin p => Z.of_nat (size (plugin_objects st)) + 1 < 2 ^ 64 /\ is_Some (plugin_objects st !! p)
  | op_assign_plugin this p => is_Some (plugin_objects st !! this) /\ is_Some (plugin_objects st !! p)
  | op_open this _ | op_open_file this _ | op_close_plugin this | op_delete_plugin this =>
      is_Some (plugin_objects st !! this)
  | op_static _ _ _ | op_add_directory _ | op_reset_directories => True
  end.

Section Runs.
Context `{OS}.

Definition run_op (op : plugin_op) : plug unit :=
  match op with
  | op_new_plugin => new_plugin;; mret tt
  | op_copy_plugin p => copy_plugin p;; mret tt
  | op_assign_plugin this p => assign_plugin this p
  | op_open this plugin_name => open this plugin_name
  | op_open_file this plugin_file => open_file this plugin_file
  | op_close_plugin this => close_plugin this
  | op_delete_plugin this => delete_plugin this
  | op_static plugin_name c d => add_static_entry_point plugin_name c d
  | op_add_directory dir => add_plugin_directory dir
  | op_reset_directories => reset_plugin_directories
  end.

(** The states of a process that uses plug-ins: exceptions are caught and it goes on. *)
Inductive plugin_run : plugins -> Prop :=
| plugin_run_new : plugin_run new_plugins
| plugin_run_done op st st' :
    plugin_run st -> valid_op op st -> run_op op st = Done tt st' -> plugin_run st'
| plugin_run_thrown op st st' :
    plugin_run st -> valid_op op st -> run_op op st = Thrown st' -> plugin_run st'.

(** [open] of an object that is open, with a name that is known. *)
Definition reopens (op : plugin_op) (st : plugins) : Prop :=
  exists this name a b, op = op_open this name /\ plugin_objects st !! this = Some (Some a)
                        /\ map_find name (m_plugin_map st) = Some b.

Lemma reopens_dec op st : reopens op st \/ ~ reopens op st.
Proof.
  destruct op as [| | |this name| | | | | |]; try (right; by intros (? & ? & ? & ? & ? & _)).
  destruct (plugin_objects st !! this) as [[a|]|] eqn:Eo; [|right; intros (? & ? & ? & ? & [= <- <-] & ? & _); congruence..].
  destruct (map_find name (m_plugin_map st)) as [b|] eqn:Ef; [left; by exists this, name, a, b|].
  right. intros (? & ? & ? & ? & [= <- <-] & _ & ?). congruence.
Qed.

Lemma moves_ok {A} this (m : plug A) st :
  moves this m st -> safe m st (fun _ => plugins_ok) plugins_ok.
Proof. intros Hm. eapply safe_weaken; [exact Hm|by intros ? ? []|by intros ? []]. Qed.

(** The state after the constructor. *)
Definition created (st : plugins) : plugins :=
  mk_plugins (m_plugin_dirs st) (m_plugin_map st) (m_plugin_mutex st) (data_heap st) (next_addr st)
    (<[next_object st := None]> (plugin_objects st)) (S (next_object st)) (os_calls st).

Lemma next_object_fresh st : plugins_ok st -> plugin_objects st !! next_object st = None.
Proof.
  intros [_ Hst]. destruct (plugin_objects st !! next_object st) as [v|] eqn:E; [|done].
  apply (do_next_object _ _ Hst) in E. lia.
Qed.

Lemma created_ok st :
  plugins_ok st -> Z.of_nat (size (plugin_objects st)) + 1 < 2 ^ 64 -> plugins_ok (created st).
Proof.
  intros Hst Hsz. pose proof (next_object_fresh st Hst) as Hf. destruct Hst as [Hu [Hmo Hm Hnx Hr Hs Hp Hno Hz]].
  split; [done|]. split; try done; cbn [created m_plugin_map data_heap next_addr plugin_objects next_object].
  - intros a d Hd. rewrite (users_of_insert_new a _ _ _ Hf). unfold points. rewrite decide_False by done. by apply Hr.
  - intros o a [[-> [=]]|[Hne Ho]]%lookup_set_object. by eapply Hp.
  - intros o v [[-> ->]|[Hne Ho]]%lookup_set_object; [lia|]. apply Hno in Ho. lia.
  - rewrite map_size_insert_None by done. lia.
Qed.

(** A copy is a new object, and nothing else changes. *)
Lemma copy_plugin_safe p v st :
  plugins_ok st -> plugin_objects st !! p = Some v -> Z.of_nat (size (plugin_objects st)) + 1 < 2 ^ 64 ->
  safe (copy_plugin p) st
    (fun copy st' => copy = next_object st /\ plugins_ok st'
       /\ exists w, plugin_objects st' = <[copy := w]> (plugin_objects st))
    (fun _ => False).
Proof.
  intros Hst Hp Hsz. pose proof (next_object_fresh st Hst) as Hf. unfold copy_plugin. apply safe_bind.
  eapply (safe_done _ _ (next_object st) (created st)); [reflexivity|]. cbn beta. apply safe_bind.
  eapply safe_weaken; [eapply (grab_data_safe _ _ None v); [by apply created_ok|apply lookup_insert_eq|]| |done].
  - change (plugin_objects (created st)) with (<[next_object st := None]> (plugin_objects st)).
    rewrite lookup_insert_ne; [done|]. intros <-. by rewrite Hf in Hp.
  - intros [] st' [H1 [w H2]]. apply safe_ret. split; [done|]. split; [done|]. exists w.
    rewrite (pt_objects _ _ _ _ H2). apply insert_insert_eq.
Qed.

Lemma delete_object_ok this st :
  plugins_ok st -> plugin_objects st !! this = Some None ->
  plugins_ok (with_objects (delete this (plugin_objects st)) st).
Proof.
  intros [Hu [Hmo Hm Hnx Hr Hs Hp Hno Hz]] Ho. split; [done|].
  split; try done; cbn [with_objects m_plugin_map data_heap next_addr plugin_objects next_object].
  - intros a d Hd. rewrite (Hr _ _ Hd), (users_of_delete a _ _ _ Ho). unfold points. by rewrite decide_False.
  - intros o a [_ Hoa]%lookup_delete_Some. by eapply Hp.
  - intros o v [_ Hov]%lookup_delete_Some. by eapply Hno.
  - rewrite map_size_delete, Ho. cbn. lia.
Qed.

Lemma static_ok name c d st :
  plugins_ok st -> safe (add_static_entry_point name c d) st (fun _ => plugins_ok) plugins_ok.
Proof.
  intros Hst. pose proof Hst as [Hu Hst']. apply safe_lock; [done|].
  apply safe_bind. eapply safe_done; [reflexivity|]. cbn beta.
  change (m_plugin_map (locked st)) with (m_plugin_map st).
  destruct (map_find name (m_plugin_map st)) as [a|] eqn:Ef.
  { split; [done|]. by apply data_ok_mutex, data_ok_mutex. }
  eapply safe_done; [reflexivity|]. split; [done|]. apply data_ok_mutex.
  change (data_ok None (registered (mk_data_type None c d name 0) (locked st))).
  by eapply registered_ok; [apply locked_data_ok| | |].
Qed.

Lemma run_op_safe op st :
  plugins_ok st -> valid_op op st -> ~ reopens op st ->
  safe (run_op op) st (fun _ => plugins_ok) plugins_ok.
Proof.
  intros Hst Hv Hre. destruct op as [|p|this p|this name|this file|this|this|name c d|dir|]; cbn [run_op valid_op] in *.
  - eapply safe_done; [reflexivity|]. by apply created_ok.
  - destruct Hv as [Hsz [w Hp]]. apply safe_bind.
    eapply safe_weaken; [by eapply copy_plugin_safe| |done]. intros copy st' (_ & H1 & _). by apply safe_ret.
  - destruct Hv as [[v Ho] [w Hp]]. by eapply moves_ok, grab_data_moves.
  - destruct Hv as [v Ho]. eapply moves_ok, open_moves; [done|done|]. destruct v as [a|]; [|by left]. right.
    destruct (map_find name (m_plugin_map st)) as [b|] eqn:Ef; [|done]. exfalso. apply Hre. by exists this, name, a, b.
  - destruct Hv as [v Ho]. by eapply moves_ok, open_file_moves.
  - destruct Hv as [v Ho]. by eapply moves_ok, release_data_moves.
  - destruct Hv as [v Ho]. destruct (release_data_ok _ _ _ Hst Ho) as (st' & E & H1 & H2).
    unfold delete_plugin. apply safe_bind. eapply safe_done; [exact E|]. eapply safe_done; [reflexivity|].
    apply delete_object_ok; [done|]. by apply (points_to_lookup _ _ _ _ H2).
  - by apply static_ok.
  - unfold safe, add_plugin_directory. destruct (exists_file _ _); [|done].
    unfold with_lock. destruct Hst as [Hu Hst]. rewrite Hu. split; [done|]. by destruct Hst.
  - destruct Hst as [Hu Hst]. unfold safe, reset_plugin_directories, with_lock. rewrite Hu.
    split; [done|]. by destruct Hst.
Qed.

Lemma plugin_run_ok st : plugin_run st -> plugins_ok st.
Proof.
  induction 1 as [|op st st' _ IH Hv E|op st st' _ IH Hv E]; [apply new_plugins_ok|..];
    (assert (~ reopens op st) as Hre;
     [intros (this & name & a & b & -> & Ho & Hf); cbn [run_op] in E;
      by rewrite (open_deadlocks this a name st b IH Ho Hf) in E|]);
    pose proof (run_op_safe op st IH Hv Hre) as Hs; unfold safe in Hs; by rewrite E in Hs.
Qed.

(** C14: plug-in objects use the data they share safely, whatever the operations and whatever
    the operating system answers.  The data an object points to is there, registered under its
    name, and its count is the number of the objects that point to it; no operation reads or
    releases data that was freed; and an operation waits for itself exactly when [open] is
    called on an open object with the name of a plug-in that is known. *)
Theorem plugin_data_safe op st :
  plugin_run st -> valid_op op st ->
  (forall this a, plugin_objects st !! this = Some (Some a) ->
     exists d, data_heap st !! a = Some d /\ map_find (m_plugin_name d) (m_plugin_map st) = Some a
               /\ m_references d = Z.of_nat (users_of a (plugin_objects st)) /\ 0 < m_references d)
  /\ run_op op st <> Crash /\ (run_op op st = Deadlock <-> reopens op st).
Proof.
  intros Hst%plugin_run_ok Hv. split; [|split; [|split]].
  - intros this a Ho. destruct (do_points _ _ (proj2 Hst) _ _ Ho) as [d Hd]. exists d. split; [done|].
    split; [apply (do_map _ _ (proj2 Hst)); by exists d|]. rewrite (do_references _ _ (proj2 Hst) _ _ Hd).
    split; [done|]. apply users_of_pos in Ho. lia.
  - intros E. destruct (reopens_dec op st) as [(this & name & a & b & -> & Ho & Hf)|Hre].
    { cbn [run_op] in E. by rewrite (open_deadlocks this a name st b Hst Ho Hf) in E. }
    pose proof (run_op_safe op st Hst Hv Hre) as Hs. unfold safe in Hs. by rewrite E in Hs.
  - intros E. destruct (reopens_dec op st) as [|Hre]; [done|].
    pose proof (run_op_safe op st Hst Hv Hre) as Hs. unfold safe in Hs. by rewrite E in Hs.
  - intros (this & name & a & b & -> & Ho & Hf). by eapply open_deadlocks.
Qed.

End Runs.

(** ** The life of a library *)

(** How often a library was opened more than it was closed. *)
Fixpoint loaded (h : handle) (calls : list os_call) : Z :=
  match calls with
  | [] => 0
  | os_dlopen _ r :: calls' => loaded h calls' + (if decide (r = Some h) then 1 else 0)
  | os_dlclose r :: calls' => loaded h calls' - (if decide (r = Some h) then 1 else 0)
  | _ :: calls' => loaded h calls'
  end.

(** Every symbol that was looked up was found. *)
Definition symbols_found (calls : list os_call) : Prop :=
  forall h s, ~ In (os_dlsym h s None) calls.

(** The data with a library. *)
Definition handles (h : handle) (heap : gmap addr data_type) : nat :=
  size (filter (fun kv => m_lib_handle kv.2 = Some h) heap).

Definition has_handle (d : data_type) (h : handle) : nat :=
  if decide (m_lib_handle d = Some h) then 1 else 0.

Lemma handles_insert_new h a d heap :
  heap !! a = None -> handles h (<[a := d]> heap) = (has_handle d h + handles h heap)%nat.
Proof.
  intros Ha. unfold handles, has_handle. rewrite map_filter_insert. cbn [snd]. case_decide as E.
  - rewrite map_size_insert_None; [done|]. apply map_lookup_filter_None. by left.
  - by rewrite delete_id.
Qed.

Lemma handles_delete h a d heap :
  heap !! a = Some d -> handles h heap = (has_handle d h + handles h (delete a heap))%nat.
Proof.
  intros Ha. rewrite <- (insert_delete_id heap a d Ha) at 1. apply handles_insert_new, lookup_delete_eq.
Qed.

Lemma handles_set h a d d' heap :
  heap !! a = Some d -> m_lib_handle d' = m_lib_handle d -> handles h (<[a := d']> heap) = handles h heap.
Proof.
  intros Ha E. rewrite <- insert_delete_eq, handles_insert_new by apply lookup_delete_eq.
  rewrite (handles_delete h a d heap Ha). unfold has_handle. by rewrite E.
Qed.

(** The libraries that are open are those of the data. *)
Record libs_ok (st : plugins) : Prop := mk_libs_ok {
  lo_fresh : forall a d, data_heap st !! a = Some d -> (a < next_addr st)%nat;
  lo_loaded : symbols_found (os_calls st) ->
    forall h, loaded h (os_calls st) = Z.of_nat (handles h (data_heap st))
}.

Lemma keeps_get P this : keeps P (get_data this).
Proof. intros st Hst. unfold get_data. by destruct (plugin_objects st !! this). Qed.

Lemma keeps_lock {A} (m : plug A) : keeps libs_ok m -> keeps libs_ok (with_lock m).
Proof.
  intros Hm st Hst. unfold with_lock. destruct (m_plugin_mutex st); [done|].
  assert (libs_ok (with_mutex true st)) as H1 by (by destruct Hst).
  specialize (Hm _ H1). destruct (m (with_mutex true st)) as [a st'|st'| |]; try done; by destruct Hm.
Qed.

Lemma keeps_modify f :
  (forall st, data_heap (f st) = data_heap st /\ next_addr (f st) = next_addr st /\ os_calls (f st) = os_calls st) ->
  keeps libs_ok (modify f).
Proof. intros Hf st [H1 H2]. destruct (Hf st) as (E1 & E2 & E3). split; by rewrite ?E1, ?E2, ?E3. Qed.

Lemma keeps_set this d : keeps libs_ok (set_data this d).
Proof. by apply keeps_modify. Qed.

Lemma keeps_add_reference a : keeps libs_ok (add_reference a).
Proof.
  intros st [H1 H2]. unfold add_reference, deref, store, modify, mbind, comp_bind.
  destruct (data_heap st !! a) as [d|] eqn:Ed; [|done]. split; cbn [with_heap data_heap next_addr os_calls].
  - intros b e [[-> ->]|[Hne He]]%lookup_set_heap; by eapply H1.
  - intros Hs h. erewrite handles_set; [by apply H2|exact Ed|done].
Qed.

Lemma symbols_found_cons c calls : symbols_found (c :: calls) -> symbols_found calls.
Proof. intros H h s Hin. apply (H h s). by right. Qed.

#[local] Hint Resolve keeps_bind keeps_ret keeps_gets keeps_if keeps_get keeps_lock keeps_set keeps_add_reference : pion.

Lemma release_data_keeps this : keeps libs_ok (release_data this).
Proof.
  unfold release_data. apply keeps_bind; [apply keeps_get|]. intros [a|]; [|apply keeps_ret].
  apply keeps_lock. intros st [H1 H2]. unfold deref, store, close_dynamic_library, delete_data, set_data,
    modify, mbind, comp_bind, mret, comp_ret.
  destruct (data_heap st !! a) as [d|] eqn:Ed; [|done].
  destruct (u64 (m_references d - 1) =? 0); [destruct (m_lib_handle d) as [h0|] eqn:Eh|];
    split; cbn [with_heap with_map with_objects with_call data_heap next_addr os_calls].
  - intros b e He. rewrite delete_insert_eq in He. apply lookup_delete_Some in He as [_ He]. by eapply H1.
  - intros Hs h. rewrite delete_insert_eq. cbn [loaded]. specialize (H2 (symbols_found_cons _ _ Hs) h).
    rewrite H2, (handles_delete h a d _ Ed). unfold has_handle. rewrite Eh. destruct (decide _); lia.
  - intros b e [[-> ->]|[Hne He]]%lookup_set_heap; by eapply H1.
  - intros Hs h. erewrite handles_set; [by apply H2|exact Ed|done].
  - intros b e [[-> ->]|[Hne He]]%lookup_set_heap; by eapply H1.
  - intros Hs h. erewrite handles_set; [by apply H2|exact Ed|done].
Qed.

Lemma new_data_keeps d :
  (forall h, m_lib_handle d <> Some h) -> keeps libs_ok (new_data d).
Proof.
  intros Hd st [H1 H2]. unfold new_data. split; cbn [data_heap next_addr os_calls].
  - intros b e [[-> ->]|[Hne He]]%lookup_set_heap; [lia|]. apply H1 in He. lia.
  - intros Hs h. rewrite handles_insert_new.
    2:{ destruct (data_heap st !! next_addr st) as [e|] eqn:E; [|done]. apply H1 in E. lia. }
    unfold has_handle. rewrite decide_False by apply Hd. by apply H2.
Qed.

Lemma grab_data_keeps this p : keeps libs_ok (grab_data this p).
Proof.
  unfold grab_data. apply keeps_bind; [apply release_data_keeps|]. intros []. apply keeps_lock.
  apply keeps_bind; [apply keeps_get|]. intros d. apply keeps_bind; [apply keeps_set|]. intros [].
  destruct d; auto with pion.
Qed.

Section Libraries.
Context `{OS}.

Lemma regular_keeps path : keeps libs_ok (regular path).
Proof.
  intros st [H1 H2]. unfold regular. destruct (is_regular_file _ _); split; cbn; try done;
    intros Hs%symbols_found_cons; by apply H2.
Qed.

Lemma find_plugin_file_keeps name : keeps libs_ok (find_plugin_file name).
Proof.
  assert (forall s n e, keeps libs_ok (check_for_file s n e)) as Hc.
  { intros s n e. unfold check_for_file. apply keeps_bind; [apply regular_keeps|]. intros []; [apply keeps_ret|].
    apply keeps_bind; [apply regular_keeps|]. intros b. apply keeps_ret. }
  unfold find_plugin_file, find_file. apply keeps_bind; [apply Hc|]. intros [f|]; [apply keeps_ret|].
  apply keeps_lock, keeps_bind; [apply keeps_gets|]. intros dirs.
  induction dirs as [|d dirs IH]; cbn [check_dirs]; [apply keeps_ret|].
  apply keeps_bind; [apply Hc|]. intros []; [apply keeps_ret|done].
Qed.

(** A library that is opened is that of the new data. *)
Lemma open_new_keeps plugin_file :
  keeps libs_ok (plugin_data ← open_plugin plugin_file; new_data plugin_data).
Proof.
  intros st [H1 H2]. unfold open_plugin, load_dynamic_library, get_library_symbol, close_dynamic_library,
    new_data, modify, mbind, comp_bind, mret, comp_ret.
  destruct (absolute _ _) as [full_path|]; [|done].
  assert (data_heap st !! next_addr st = None) as Hf.
  { destruct (data_heap st !! next_addr st) as [e|] eqn:E; [|done]. apply H1 in E. lia. }
  repeat case_if; cbn [with_call data_heap next_addr os_calls]; split; cbn [data_heap next_addr os_calls];
    try (intros b e [[-> ->]|[Hne He]]%lookup_set_heap; [lia|]; apply H1 in He; lia);
    try (intros Hs; exfalso;
         repeat match goal with E : bool_decide (_ = None) = true |- _ => apply bool_decide_eq_true in E end;
         repeat match goal with
         | E : dlsym _ _ _ = None |- _ => revert E
         end; intros; 
         match goal with
         | E : dlsym _ ?h ?s = None |- _ => apply (Hs h s); rewrite <- E; simpl; tauto
         end).
  intros Hs h. rewrite handles_insert_new by done. cbn [loaded].
  rewrite H2 by (repeat apply symbols_found_cons in Hs; done). unfold has_handle. cbn [m_lib_handle].
  destruct (decide _); lia.
Qed.

Lemma open_file_keeps this plugin_file : keeps libs_ok (open_file this plugin_file).
Proof.
  unfold open_file. apply keeps_bind; [apply release_data_keeps|]. intros [].
  apply keeps_lock, keeps_bind; [apply keeps_gets|]. intros itr. apply keeps_bind.
  - destruct itr as [a|]; [apply keeps_ret|]. intros st Hst. pose proof (open_new_keeps plugin_file st Hst) as Hk.
    unfold mbind, comp_bind in *. destruct (open_plugin plugin_file st) as [d st'|st'| |]; try done.
    cbn [new_data] in *. cbn [modify mret comp_ret]. destruct Hk. by split.
  - intros a. apply keeps_bind; [apply keeps_set|]. intros []. apply keeps_add_reference.
Qed.

Lemma run_op_keeps op : keeps libs_ok (run_op op).
Proof.
  destruct op as [|p|this p|this name|this file|this|this|name c d|dir|]; cbn [run_op].
  - apply keeps_bind; [|intros; apply keeps_ret]. intros st [H1 H2]. by split.
  - apply keeps_bind; [|intros; apply keeps_ret]. unfold copy_plugin. apply keeps_bind.
    + intros st [H1 H2]. by split.
    + intros this. apply keeps_bind; [apply grab_data_keeps|]. intros; apply keeps_ret.
  - apply grab_data_keeps.
  - unfold open. apply keeps_bind.
    + apply keeps_lock, keeps_bind; [apply keeps_gets|]. intros [a|]; [|apply keeps_ret].
      apply keeps_bind; [apply release_data_keeps|]. intros []. apply keeps_bind; [apply keeps_set|]. intros [].
      apply keeps_bind; [apply keeps_add_reference|]. intros; apply keeps_ret.
    + intros []; [apply keeps_ret|]. apply keeps_bind; [apply find_plugin_file_keeps|]. intros f.
      apply open_file_keeps.
  - apply open_file_keeps.
  - apply release_data_keeps.
  - apply keeps_bind; [apply release_data_keeps|]. intros []. by apply keeps_modify.
  - apply keeps_lock, keeps_bind; [apply keeps_gets|]. intros [a|]; [apply keeps_ret|].
    apply keeps_bind; [by apply new_data_keeps|]. intros a. by apply keeps_modify.
  - intros st Hst. unfold add_plugin_directory. destruct (exists_file _ _); [|done].
    by apply keeps_lock; [apply keeps_modify|].
  - by apply keeps_lock, keeps_modify.
Qed.

Lemma plugin_run_libs st : plugin_run st -> libs_ok st.
Proof.
  induction 1 as [|op st st' _ IH Hv E|op st st' _ IH Hv E];
    [|pose proof (run_op_keeps op st IH) as Hk; by rewrite E in Hk..].
  split; [done|]. intros _ h. done.
Qed.

(** C27: a library stays loaded as long as an object uses it, and not longer.  When the
    libraries that were opened had their two symbols, a library has been opened more often
    than it was closed exactly when an object points to data with its handle, and it was
    never closed more often than it was opened. *)
Theorem libraries_loaded_while_used st h :
  plugin_run st -> symbols_found (os_calls st) ->
  0 <= loaded h (os_calls st)
  /\ (0 < loaded h (os_calls st) <->
      exists this a d, plugin_objects st !! this = Some (Some a) /\ data_heap st !! a = Some d
                       /\ m_lib_handle d = Some h).
Proof.
  intros Hrun Hs. pose proof (plugin_run_ok st Hrun) as [_ Hst].
  destruct (plugin_run_libs st Hrun) as [_ Hl]. rewrite (Hl Hs h). split; [lia|]. split.
  - intros Hpos. unfold handles in Hpos. destruct (map_choose (filter (fun kv => m_lib_handle kv.2 = Some h) (data_heap st)))
      as (a & d & Had).
    { intros E. rewrite E, map_size_empty in Hpos. lia. }
    apply map_lookup_filter_Some in Had as [Hd Hh]. cbn in Hh.
    destruct (decide (users_of a (plugin_objects st) = 0%nat)) as [Hz|Hz].
    + destruct (do_static _ _ Hst _ _ Hd) as [E|E]; [|congruence|done].
      by rewrite (do_references _ _ Hst _ _ Hd), Hz.
    + destruct (map_choose (filter (fun kv => kv.2 = Some a) (plugin_objects st))) as (this & v & Hv).
      { intros E. unfold users_of in Hz. by rewrite E, map_size_empty in Hz. }
      apply map_lookup_filter_Some in Hv as [Ho Hva]. cbn in Hva. subst v. by exists this, a, d.
  - intros (this & a & d & _ & Hd & Hh). rewrite (handles_delete h a d _ Hd). unfold has_handle.
    rewrite decide_True by done. lia.
Qed.

End Libraries.

(** ** Examples and deviations *)

(** Files named [.so] are there, [.conf] files too; the libraries [good.so] and [more.so] have
    both symbols, [half.so] has no function to destroy its objects, and [text.so] is not a library. *)
#[local] Instance sample_os : OS := {|
  is_regular_file _ p := Some (bool_decide (path_extension p <> []));
  is_directory _ _ := Some false;
  exists_file _ _ := Some true;
  read_directory _ _ := Some [str "lib/good.so"];
  absolute _ p := if bool_decide (p = []) then None else Some p;
  dlopen _ p := if bytes_eqb (path_stem p) (str "good") then Some 1%nat
                else if bytes_eqb (path_stem p) (str "half") then Some 2%nat
                else if bytes_eqb (path_stem p) (str "more") then Some 3%nat else None;
  dlsym _ h s := match h with
                 | Some 1%nat => Some 10%nat
                 | Some 3%nat => Some 30%nat
                 | Some 2%nat => if starts PION_PLUGIN_CREATE s then Some 20%nat else None
                 | _ => None
                 end
|}.

(** Object 0, open with the library [good.so]. *)
Definition good_state : plugins := after (run_op (op_open 0 (str "good"))) (after (run_op op_new_plugin) new_plugins).

Lemma good_state_run : plugin_run good_state.
Proof.
  apply (plugin_run_done (op_open 0 (str "good")) (after (run_op op_new_plugin) new_plugins)).
  - by apply (plugin_run_done op_new_plugin new_plugins); [constructor|vm_compute|].
  - by exists None.
  - vm_compute. reflexivity.
Qed.

Lemma plugin_data_safe_witness :
  run_op (op_copy_plugin 0) good_state <> Crash /\ run_op (op_open 0 (str "good")) good_state = Deadlock.
Proof.
  split.
  - destruct (plugin_data_safe (op_copy_plugin 0) good_state good_state_run) as (_ & H & _); [|exact H].
    split; [vm_compute; reflexivity|]. eexists. reflexivity.
  - destruct (plugin_data_safe (op_open 0 (str "good")) good_state good_state_run) as (_ & _ & H).
    { eexists. reflexivity. }
    apply H. exists 0%nat, (str "good"), 0%nat, 0%nat. split; [reflexivity|]. split; reflexivity.
Defined.

Lemma libraries_loaded_while_used_witness :
  symbols_found (os_calls good_state) /\ 0 <= loaded 1%nat (os_calls good_state).
Proof.
  assert (symbols_found (os_calls good_state)) as Hs.
  { intros h s H. vm_compute in H. repeat (destruct H as [H|H]; [discriminate H|]). destruct H. }
  split; [exact Hs|]. apply (proj1 (libraries_loaded_while_used good_state 1%nat good_state_run Hs)).
Defined.

Definition run_all (ops : list plugin_op) : plugins := foldl (fun st op => after (run_op op) st) new_plugins ops.

(** The name of a plug-in is its stem; the last object that closes it closes the library. *)
Lemma plugin_example :
  loaded 1%nat (os_calls (run_all [op_new_plugin; op_open 0 (str "good"); op_copy_plugin 0; op_close_plugin 0])) = 1
  /\ loaded 1%nat (os_calls (run_all [op_new_plugin; op_open 0 (str "good"); op_copy_plugin 0; op_close_plugin 0;
                                   op_delete_plugin 1])) = 0
  /\ get_plugin_name 0 good_state = Done (str "good") good_state.
Proof. split_and!; vm_compute; reflexivity. Qed.

(** A library without the second symbol is closed, and is opened as a plug-in all the same:
    the next [close] closes the library a second time. *)
Lemma missing_symbol_closed_twice :
  loaded 2%nat (os_calls (run_all [op_new_plugin; op_open 0 (str "half")])) = 0
  /\ is_open 0 (run_all [op_new_plugin; op_open 0 (str "half")])
     = Done true (run_all [op_new_plugin; op_open 0 (str "half")])
  /\ loaded 2%nat (os_calls (run_all [op_new_plugin; op_open 0 (str "half"); op_close_plugin 0])) = -1.
Proof. split_and!; vm_compute; reflexivity. Qed.

(** A file that is not a library is opened as a plug-in whose objects cannot be created; the
    null handle is closed twice, and the plug-in stays in the map for ever, like one that is
    linked statically. *)
Lemma unloadable_plugin_registered :
  let st := run_all [op_new_plugin; op_open 0 (str "text"); op_close_plugin 0; op_open 0 (str "text")] in
  is_open 0 st = Done true st /\ create_function 0 st = Crash
  /\ length (List.filter (fun c => match c with os_dlclose None => true | _ => false end) (os_calls st)) = 2%nat
  /\ length (List.filter (fun c => match c with os_dlopen _ _ => true | _ => false end) (os_calls st)) = 1%nat.
Proof. split_and!; vm_compute; reflexivity. Qed.

(** Assigning a plug-in object to itself closes it. *)
Lemma self_assignment_closes :
  let st := after (run_op (op_assign_plugin 0 0)) good_state in
  is_open 0 st = Done false st /\ loaded 1%nat (os_calls st) = 0.
Proof. split; vm_compute; reflexivity. Qed.

(** The library [lib/good.so] can be opened and is not listed: only directories are. *)
Lemma libraries_not_listed :
  let st := run_all [op_new_plugin; op_add_directory (str "lib"); op_open 0 (str "good")] in
  is_open 0 st = Done true st /\ get_all_plugin_names st = Done [] st.
Proof. split_and!; vm_compute; reflexivity. Qed.
