(* ===== verification/PluginManager.v ===== *)
(** * The plug-in manager

    Models [pion::plugin_manager] (include/pion/plugin_manager.hpp) and
    [pion::plugin_instance_ptr] (include/pion/plugin.hpp): plug-in objects under identifiers,
    each with the [plugin_ptr] of the library that made it.  The objects themselves are
    numbers with a record of who created them; the functions of the libraries return a new
    object each time, and an object that is destroyed twice is a crash.  What happens under
    the mutex of the manager is one step.  A [plugin_ptr] that is copied into the map is one
    copy: the temporary pairs on the way take and give back a reference each. *)
From stdpp Require Import gmap.
From S2P Require Import Prelude Outcomes CLib StringUtils StdMap Resources Paths Plugins.

Abbreviation inst := nat.

(** ** State *)

(** Objects that were not destroyed, with the library function that created them ([None] for
    the application's [new]); objects that were, with the function that destroyed them
    ([None] for [delete]). *)
Record manager := mk_manager {
  pm_plugins : plugins;
  pm_map : smap (inst * obj);  (* m_plugin_map *)
  pm_live : gmap inst (option func);
  pm_next : inst;
  pm_ended : list (inst * option func)
}.

Definition new_manager : manager := mk_manager new_plugins [] ∅ 0 [].

Definition with_pm_plugins (p : plugins) m : manager :=
  mk_manager p (pm_map m) (pm_live m) (pm_next m) (pm_ended m).
Definition with_pm_map (mp : smap (inst * obj)) m : manager :=
  mk_manager (pm_plugins m) mp (pm_live m) (pm_next m) (pm_ended m).

(** A function of the plug-ins, in the manager's state. *)
Definition lift {A} (f : plug A) : comp manager A := fun m =>
  match f (pm_plugins m) with
  | Done a p => Done a (with_pm_plugins p m)
  | Thrown p => Thrown (with_pm_plugins p m)
  | Deadlock => Deadlock
  | Crash => Crash
  end.

(** A new object, and the end of one. *)
Definition new_object (by_func : option func) : comp manager inst := fun m =>
  Done (pm_next m)
    (mk_manager (pm_plugins m) (pm_map m) (<[pm_next m := by_func]> (pm_live m)) (S (pm_next m)) (pm_ended m)).
Definition end_object (i : inst) (by_func : option func) : comp manager unit := fun m =>
  match pm_live m !! i with
  | None => Crash
  | Some _ => Done tt (mk_manager (pm_plugins m) (pm_map m) (delete i (pm_live m)) (pm_next m)
                         (pm_ended m ++ [(i, by_func)]))
  end.

(** [plugin_ptr::create] and [destroy]. *)
Definition create (p : obj) : comp manager inst := f ← lift (create_function p); new_object (Some f).
Definition destroy (p : obj) (i : inst) : comp manager unit :=
  f ← lift (destroy_function p); end_object i (Some f).

(** The end of the scope of a local [plugin_ptr], also when an exception leaves it. *)
Definition at_exit {A} (this : obj) (body : comp manager A) : comp manager A := fun m =>
  match body m with
  | Done a m' => (lift (delete_plugin this);; mret a) m'
  | Thrown m' => match lift (delete_plugin this) m' with
                 | Done _ m'' => Thrown m''
                 | Thrown m'' => Thrown m''
                 | Deadlock => Deadlock
                 | Crash => Crash
                 end
  | Deadlock => Deadlock
  | Crash => Crash
  end.

Definition with_local {A} (body : obj -> comp manager A) : comp manager A :=
  this ← lift new_plugin; at_exit this (body this).

(** ** Operations *)

(** [insert] of an entry: the pair is only stored under a new identifier. *)
Definition insert_entry (plugin_id : bytes) (i : inst) (p : obj) : comp manager unit :=
  itr ← gets (fun m => map_find plugin_id (pm_map m));
  match itr with
  | Some _ => mret tt
  | None =>
      copy ← lift (copy_plugin p);
      modify (fun m => with_pm_map (map_insert plugin_id (i, copy) (pm_map m)) m)
  end.

Definition manager_add (plugin_id : bytes) (plugin_object_ptr : inst) : comp manager unit :=
  with_local (fun plugin_ptr => insert_entry plugin_id plugin_object_ptr plugin_ptr).

(** The end of the object of an entry. *)
Definition destroy_entry (e : inst * obj) : comp manager unit :=
  b ← lift (is_open (snd e));
  if b : bool then destroy (snd e) (fst e) else end_object (fst e) None.

(** The iterator that [find] returns, dereferenced: the end of the map is only reported. *)
Definition find_entry (plugin_id : bytes) : comp manager (inst * obj) := fun m =>
  match map_find plugin_id (pm_map m) with Some e => Done e m | None => Crash end.

Definition manager_remove (plugin_id : bytes) : comp manager unit :=
  e ← find_entry plugin_id;
  destroy_entry e;;
  lift (delete_plugin (snd e));;
  modify (fun m => with_pm_map (map_erase plugin_id (pm_map m)) m).

Definition manager_replace (plugin_id : bytes) (plugin_ptr : inst) : comp manager unit :=
  e ← find_entry plugin_id;
  destroy_entry e;;
  modify (fun m => with_pm_map (map_set plugin_id (plugin_ptr, snd e) (pm_map m)) m).

Definition manager_clone (plugin_id : bytes) : comp manager inst :=
  e ← find_entry plugin_id; create (snd e).

Definition manager_load `{OS} (plugin_id plugin_type : bytes) : comp manager inst :=
  with_local (fun plugin_ptr =>
    lift (open plugin_ptr plugin_type);;
    plugin_object_ptr ← create plugin_ptr;
    insert_entry plugin_id plugin_object_ptr plugin_ptr;;
    mret plugin_object_ptr).

Definition manager_get (plugin_id : bytes) (m : manager) : option inst :=
  fst <$> map_find plugin_id (pm_map m).

(** The copy that is returned; it points to nothing when the identifier is unknown. *)
Definition get_lib_ptr (plugin_id : bytes) : comp manager obj :=
  plugin_ptr ← lift new_plugin;
  i ← gets (fun m => map_find plugin_id (pm_map m));
  match i with
  | None => mret plugin_ptr
  | Some (_, p) => lift (assign_plugin plugin_ptr p);; mret plugin_ptr
  end.

(** The loop of [find], over the entries before [upper_bound], the last one first. *)
Fixpoint find_walk {V} (resource : bytes) (l : smap V) : option (bytes * V) :=
  match l with
  | [] => None
  | (k, v) :: l' =>
      if negb (starts k resource) then
        match l' with
        | (j, _) :: _ => if (length j <? length k)%nat then find_walk resource l' else None
        | [] => None
        end
      else if (length resource =? length k)%nat
              || match resource !! length k with Some c => c =c SLASH | None => false end
      then Some (k, v)
      else find_walk resource l'
  end.

Definition search_back {V} (resource : bytes) (mp : smap V) : option (bytes * V) :=
  find_walk resource (reverse (before_upper_bound resource mp)).

Definition manager_find (resource : bytes) (m : manager) : option inst :=
  fst ∘ snd <$> search_back resource (pm_map m).

(** [run] of a function that changes some state, on every object and on one (the pointer is
    null when the identifier is unknown). *)
Definition manager_run {T} (run_func : inst -> T -> T) (m : manager) (t : T) : T :=
  foldl (fun t e => run_func (fst (snd e)) t) t (pm_map m).
Definition manager_run_one {R} (plugin_id : bytes) (run_func : option inst -> R) (m : manager) : R :=
  run_func (manager_get plugin_id m).

Definition get_statistic (stat_func : inst -> Z) (m : manager) : Z :=
  foldl (fun stat_value e => u64 (stat_value + stat_func (fst (snd e)))) 0 (pm_map m).
Definition get_statistic_one (plugin_id : bytes) (stat_func : option inst -> Z) (m : manager) : Z :=
  stat_func (manager_get plugin_id m).

Definition manager_empty (m : manager) : bool := bool_decide (pm_map m = []).

Fixpoint destroy_entries (l : smap (inst * obj)) : comp manager unit :=
  match l with
  | [] => mret tt
  | (_, e) :: l' => destroy_entry e;; destroy_entries l'
  end.

Fixpoint delete_ptrs (l : smap (inst * obj)) : comp manager unit :=
  match l with
  | [] => mret tt
  | (_, e) :: l' => lift (delete_plugin (snd e));; delete_ptrs l'
  end.

(** [map_type::clear]: the objects first, then the entries. *)
Definition manager_clear : comp manager unit :=
  entries ← gets pm_map;
  destroy_entries entries;; delete_ptrs entries;; modify (with_pm_map []).

(** ** [plugin_instance_ptr] *)

Record instance_ptr := mk_instance_ptr { m_plugin_ptr : obj; m_instance_ptr : option inst }.

(** [reset] leaves the pointer as it is. *)
Definition instance_reset (p : instance_ptr) : comp manager unit :=
  match m_instance_ptr p with None => mret tt | Some i => destroy (m_plugin_ptr p) i end.

Definition instance_create `{OS} (plugin_type : bytes) (p : instance_ptr) : comp manager instance_ptr :=
  instance_reset p;;
  lift (open (m_plugin_ptr p) plugin_type);;
  i ← create (m_plugin_ptr p);
  mret (mk_instance_ptr (m_plugin_ptr p) (Some i)).

(** ** The search for a resource *)

Section Find.
Context {V : Type}.
Implicit Types (l mp : smap V).

Lemma starts_nil s : starts [] s = true.
Proof. by destruct s. Qed.

(** What the loop finds is what the loop of the server finds. *)
Lemma find_walk_first resource l kv : find_walk resource l = Some kv -> first_match resource l = Some kv.
Proof.
  induction l as [|[k v] l IH]; cbn [find_walk first_match]; [done|].
  destruct (starts k resource) eqn:Es; cbn [negb].
  - unfold resource_matches. cbn [fst]. rewrite Es, orb_true_r, andb_true_l. case_if; [done|apply IH].
  - unfold resource_matches. cbn [fst]. rewrite Es, orb_false_r.
    destruct k as [|c k]; [by rewrite starts_nil in Es|]. rewrite bool_decide_false by done. cbn [andb].
    destruct l as [|[j w] l]; [done|]. case_if; [apply IH|done].
Qed.

(** The keys behind a prefix of the resource start with it. *)
Lemma between_prefix p k s : p `prefix_of` s -> bytes_lt p k -> ~ bytes_lt s k -> p `prefix_of` k.
Proof.
  revert k s. induction p as [|a p IH]; intros k s Hp Hk Hs; [apply prefix_nil|].
  destruct Hp as [r ->]. destruct k as [|b k]; [done|]. unfold bytes_lt in Hk, Hs. simpl in Hk, Hs.
  destruct (Z.compare_spec (uchar a) (uchar b)) as [E|E|E]; [|done|done].
  apply uchar_inj in E as ->. apply prefix_cons, (IH k (p ++ r)); [by exists r|done|exact Hs].
Qed.

(** At most one entry is passed before a match that is shorter. *)
Lemma find_walk_near resource pre k v l :
  Forall (fun e => resource_matches resource (fst e) = false /\ (length k < length (fst e))%nat) pre ->
  (length pre <= 1)%nat -> resource_matches resource k = true ->
  find_walk resource (pre ++ (k, v) :: l) = Some (k, v).
Proof.
  intros Hf Hl Hm.
  assert (forall l, find_walk resource ((k, v) :: l) = Some (k, v)) as Hk.
  { intros l'. pose proof Hm as Hm'. unfold resource_matches in Hm. apply andb_true_iff in Hm as [H1 H2].
    cbn [find_walk]. assert (starts k resource = true) as ->.
    { apply orb_true_iff in H1 as [->%bool_decide_eq_true|?]; [apply starts_nil|done]. }
    cbn [negb]. by rewrite H2. }
  destruct pre as [|[k' v'] [|? ?]]; [apply Hk| |simpl in Hl; lia]. cbn [app].
  apply Forall_cons_1 in Hf as [[Hn Hlt] _]. cbn [fst] in *. cbn [find_walk].
  replace (length k <? length k')%nat with true by (symmetry; by apply Nat.ltb_lt).
  destruct (starts k' resource) eqn:Es; cbn [negb].
  - unfold resource_matches in Hn. rewrite Es, orb_true_r, andb_true_l in Hn. rewrite Hn. apply Hk.
  - apply Hk.
Qed.

(** The map around an entry of the search. *)
Lemma before_split resource mp pre k v post :
  map_ok mp -> reverse (before_upper_bound resource mp) = pre ++ (k, v) :: post ->
  Forall (fun e => bytes_lt k (fst e) /\ ~ bytes_lt resource (fst e) /\ map_find (fst e) mp = Some (snd e)) pre
  /\ NoDup (fst <$> pre).
Proof.
  intros Hm E. apply (f_equal reverse) in E.
  rewrite reverse_involutive, reverse_app, reverse_cons, <- app_assoc in E. cbn [app] in E.
  destruct (before_upper_bound_prefix resource mp) as [rest Em].
  assert (map_ok (before_upper_bound resource mp)) as Hok by (eapply map_ok_app_l; by rewrite <- Em).
  rewrite E in Hok. split.
  - apply Forall_forall. intros [k' v'] Hin. cbn [fst snd].
    assert ((k', v') ∈ before_upper_bound resource mp) as Hb.
    { rewrite E. apply elem_of_app. right. constructor. by rewrite elem_of_reverse. }
    apply before_upper_bound_elem in Hb as [Hb1 Hb2]; [|done]. split; [|split; [done|by apply map_elem_find]].
    apply map_ok_app_r in Hok. inversion Hok as [|? ? _ Hf]; subst. rewrite Forall_forall in Hf.
    apply (Hf (k', v')). by rewrite elem_of_reverse.
  - apply map_ok_app_r in Hok. inversion Hok as [|? ? Hs _]; subst. apply map_ok_nodup in Hs.
    eapply (NoDup_Permutation_proper (fst <$> reverse pre)); [|exact Hs]. by rewrite reverse_Permutation.
Qed.

End Find.

(** What [find] returns is the object of the longest identifier that the resource is or
    is below; and when at most one other identifier lies between that one and the resource
    in the order of the map, [find] does return it. *)
Theorem manager_finds_longest resource m :
  map_ok (pm_map m) ->
  (forall i, manager_find resource m = Some i ->
     exists k p, map_find k (pm_map m) = Some (i, p) /\ under k resource
       /\ forall k' e, map_find k' (pm_map m) = Some e -> under k' resource -> (length k' <= length k)%nat)
  /\ (forall k i p, map_find k (pm_map m) = Some (i, p) -> under k resource ->
        (forall k' e, map_find k' (pm_map m) = Some e -> under k' resource -> (length k' <= length k)%nat) ->
        (forall k1 k2 e1 e2, map_find k1 (pm_map m) = Some e1 -> map_find k2 (pm_map m) = Some e2 ->
           bytes_lt k k1 /\ ~ bytes_lt resource k1 -> bytes_lt k k2 /\ ~ bytes_lt resource k2 -> k1 = k2) ->
        manager_find resource m = Some i).
Proof.
  intros Hm. pose proof (find_resource_longest resource (pm_map m) Hm) as Hr. split.
  - intros i Hi. unfold manager_find, search_back in Hi.
    destruct (find_walk resource _) as [[k [i' p]]|] eqn:E; [|done]. injection Hi as <-.
    apply find_walk_first in E. change (first_match _ _) with (find_resource resource (pm_map m)) in E.
    rewrite E in Hr. by exists k, p.
  - intros k i p Hk Hu Hlong Hone.
    destruct (find_resource resource (pm_map m)) as [[k0 e0]|] eqn:E; [|by destruct (Hr k (i, p))].
    destruct Hr as (H0 & Hu0 & Hl0).
    assert (k0 = k) as ->.
    { assert (length k0 = length k) as El by (apply Nat.le_antisymm; [by eapply Hlong|by eapply Hl0]).
      apply under_prefix in Hu0 as [r0 E0]. apply under_prefix in Hu as [r1 E1]. rewrite E0 in E1.
      by destruct (app_inj_1 k0 k r0 r1 El E1). }
    rewrite Hk in H0. injection H0 as <-. unfold find_resource in E.
    apply first_match_some in E as (pre & post & El & Hmk & Hpre). cbn [fst] in Hmk.
    destruct (before_split _ _ _ _ _ _ Hm El) as [Hb Hnd].
    unfold manager_find, search_back. rewrite El, find_walk_near; [done|..|done].
    + rewrite Forall_forall in *. intros e He. split; [by apply Hpre|]. destruct (Hb e He) as (Hlt & Hns & _).
      pose proof (between_prefix k (fst e) resource (under_prefix _ _ Hu) Hlt Hns) as [r Er].
      rewrite Er in Hlt |- *. rewrite length_app. destruct r; [rewrite app_nil_r in Hlt; by apply bytes_lt_irrefl in Hlt|simpl; lia].
    + destruct pre as [|[k1 e1] [|[k2 e2] pre]]; [simpl; lia..|]. exfalso. cbn [fmap list_fmap fst] in Hnd.
      rewrite Forall_forall in Hb. destruct (Hb (k1, e1)) as (L1 & N1 & F1); [set_solver|].
      destruct (Hb (k2, e2)) as (L2 & N2 & F2); [set_solver|].
      assert (k1 = k2) as -> by (by eapply Hone). inversion Hnd as [|? ? Hn _]; subst. set_solver.
Qed.

(** ** The invariant of the manager *)

(** The entries' objects and plug-in pointers exist and no two entries share one; an object
    that was destroyed is not there any more and was destroyed once. *)
Record manager_ok (m : manager) : Prop := mk_manager_ok {
  mo_plugins : plugins_ok (pm_plugins m);
  mo_map : map_ok (pm_map m);
  mo_entries : forall k i p, map_find k (pm_map m) = Some (i, p) ->
    is_Some (pm_live m !! i) /\ is_Some (plugin_objects (pm_plugins m) !! p);
  mo_insts : forall k1 k2 i p1 p2, map_find k1 (pm_map m) = Some (i, p1) ->
    map_find k2 (pm_map m) = Some (i, p2) -> k1 = k2;
  mo_ptrs : forall k1 k2 i1 i2 p, map_find k1 (pm_map m) = Some (i1, p) ->
    map_find k2 (pm_map m) = Some (i2, p) -> k1 = k2;
  mo_next : forall i, is_Some (pm_live m !! i) -> (i < pm_next m)%nat;
  mo_ended : forall i, i ∈ fst <$> pm_ended m -> pm_live m !! i = None /\ (i < pm_next m)%nat;
  mo_once : NoDup (fst <$> pm_ended m)
}.

Lemma new_manager_ok : manager_ok new_manager.
Proof.
  split; try done.
  - apply new_plugins_ok.
  - apply map_ok_nil.
  - by intros i [? ?].
  - by intros i Hi%elem_of_nil.
  - constructor.
Qed.

Lemma may_lift {A} (f : plug A) m (Q : A -> manager -> Prop) (E : manager -> Prop) :
  safe f (pm_plugins m) (fun a p => Q a (with_pm_plugins p m)) (fun p => E (with_pm_plugins p m)) ->
  may (lift f) m Q E.
Proof. unfold safe, may, lift. by destruct (f (pm_plugins m)). Qed.

(** The plug-in objects of [st] are objects of [st']. *)
Definition keeps_objects (st st' : plugins) : Prop := forall p,
  is_Some (plugin_objects st !! p) -> is_Some (plugin_objects st' !! p).

Lemma points_to_keeps this v st st' : points_to this v st st' -> keeps_objects st st'.
Proof.
  intros [E _ _ _] p Hp. rewrite E. destruct (decide (p = this)) as [->|];
    [by rewrite lookup_insert_eq|by rewrite lookup_insert_ne].
Qed.

Lemma points_to_size this v w st st' :
  points_to this v st st' -> plugin_objects st !! this = Some w ->
  size (plugin_objects st') = size (plugin_objects st).
Proof. intros [E _ _ _] Ho. by rewrite E, (size_set_object _ _ _ _ Ho). Qed.

Lemma with_plugins_ok p m :
  manager_ok m -> plugins_ok p -> keeps_objects (pm_plugins m) p -> manager_ok (with_pm_plugins p m).
Proof.
  intros [] Hp Hk. split; try done. cbn. intros k i q Hq. destruct (mo_entries0 _ _ _ Hq). auto.
Qed.

(** A pointer that the map does not hold. *)
Record local_ok (this : obj) (m : manager) : Prop := mk_local_ok {
  lk_manager : manager_ok m;
  lk_this : is_Some (plugin_objects (pm_plugins m) !! this);
  lk_free : forall k i p, map_find k (pm_map m) = Some (i, p) -> p <> this
}.

(** There is room for another pointer. *)
Definition room (m : manager) : Prop := Z.of_nat (size (plugin_objects (pm_plugins m))) + 1 < 2 ^ 64.

Lemma new_plugin_local m :
  manager_ok m -> Z.of_nat (size (plugin_objects (pm_plugins m))) + 2 < 2 ^ 64 ->
  local_ok (next_object (pm_plugins m)) (with_pm_plugins (created (pm_plugins m)) m)
  /\ plugin_objects (created (pm_plugins m)) !! next_object (pm_plugins m) = Some None
  /\ room (with_pm_plugins (created (pm_plugins m)) m).
Proof.
  intros Hm Hsz. pose proof (next_object_fresh _ (mo_plugins _ Hm)) as Hf.
  assert (keeps_objects (pm_plugins m) (created (pm_plugins m))) as Hk.
  { intros p Hp. change (plugin_objects (created _)) with (<[next_object (pm_plugins m) := None]> (plugin_objects (pm_plugins m))).
    rewrite lookup_insert_ne; [done|]. intros <-. rewrite Hf in Hp. by destruct Hp. }
  split; [split|split; [by apply lookup_insert_eq|]].
  - apply with_plugins_ok; [done| |done]. apply created_ok; [by apply Hm|lia].
  - eexists. by apply lookup_insert_eq.
  - intros k i p Hp ->. destruct (mo_entries _ Hm _ _ _ Hp) as [_ [v Hv]]. by rewrite Hf in Hv.
  - unfold room. cbn. rewrite map_size_insert_None by done. lia.
Qed.

Lemma delete_plugin_local this m :
  local_ok this m ->
  may (lift (delete_plugin this)) m (fun _ m' => manager_ok m' /\ pm_map m' = pm_map m) (fun _ => False).
Proof.
  intros [Hm [v Ho] Hf]. apply may_lift. pose proof (mo_plugins _ Hm) as Hp.
  destruct (release_data_ok _ _ _ Hp Ho) as (st' & E & H1 & H2). unfold delete_plugin. apply safe_bind.
  eapply safe_done; [exact E|]. eapply safe_done; [reflexivity|]. split; [|done].
  pose proof (delete_object_ok this st' H1 (points_to_lookup _ _ _ _ H2)) as H3.
  destruct Hm. split; try done. cbn. intros k i p Hkp. destruct (mo_entries0 _ _ _ Hkp) as [Hl Hs].
  split; [done|]. rewrite lookup_delete_ne by (intros <-; by eapply Hf).
  by apply (points_to_keeps _ _ _ _ H2).
Qed.

Lemma with_local_ok {A} (body : obj -> comp manager A) m :
  manager_ok m -> Z.of_nat (size (plugin_objects (pm_plugins m))) + 2 < 2 ^ 64 ->
  (forall this m', local_ok this m' -> plugin_objects (pm_plugins m') !! this = Some None -> room m' ->
     pm_map m' = pm_map m -> pm_live m' = pm_live m -> pm_next m' = pm_next m -> pm_ended m' = pm_ended m ->
     may (body this) m' (fun _ => local_ok this) (local_ok this)) ->
  may (with_local body) m (fun _ => manager_ok) manager_ok.
Proof.
  intros Hm Hsz Hb. destruct (new_plugin_local m Hm Hsz) as (Hl & Hn & Hr). unfold with_local. apply may_bind.
  apply may_lift. eapply safe_done; [reflexivity|]. cbn beta. fold (created (pm_plugins m)).
  specialize (Hb _ _ Hl Hn Hr eq_refl eq_refl eq_refl eq_refl). unfold may, at_exit in *.
  destruct (body _ _) as [a m'|m'| |]; [|..|done|done];
    pose proof (delete_plugin_local _ _ Hb) as Hd; unfold may, mbind, comp_bind in *;
    destruct (lift _ m') as [? m''|m''| |]; try done; by destruct Hd.
Qed.

Lemma insert_entry_local this id i m :
  local_ok this m -> room m -> is_Some (pm_live m !! i) ->
  (forall k p, map_find k (pm_map m) <> Some (i, p)) ->
  may (insert_entry id i this) m (fun _ => local_ok this) (local_ok this).
Proof.
  intros Hl Hr Hi Hni. pose proof Hl as [Hm [w Ht] Hf]. unfold insert_entry. apply may_bind.
  change (may (match map_find id (pm_map m) with
               | Some _ => mret tt
               | None => copy ← lift (copy_plugin this);
                         modify (fun m => with_pm_map (map_insert id (i, copy) (pm_map m)) m)
               end) m (fun _ => local_ok this) (local_ok this)).
  destruct (map_find id (pm_map m)) as [e|] eqn:Ef; [done|]. apply may_bind, may_lift.
  eapply safe_weaken; [eapply copy_plugin_safe; [apply Hm|exact Ht|done]| |done].
  intros copy st' (-> & Hst' & v & Eo). unfold may, modify. cbn [with_pm_plugins with_pm_map pm_map].
  pose proof (next_object_fresh _ (mo_plugins _ Hm)) as Hfr.
  assert (forall p, is_Some (plugin_objects (pm_plugins m) !! p) -> p <> next_object (pm_plugins m)) as Hne.
  { intros p [u Hp] ->. by rewrite Hfr in Hp. }
  assert (keeps_objects (pm_plugins m) st') as Hk.
  { intros p Hp. rewrite Eo, lookup_insert_ne; [done|]. intros <-. by apply (Hne _ Hp). }
  assert (forall k j p, map_find k (map_insert id (i, next_object (pm_plugins m)) (pm_map m)) = Some (j, p) ->
            (k = id /\ j = i /\ p = next_object (pm_plugins m)) \/ (k <> id /\ map_find k (pm_map m) = Some (j, p)))
    as Hins.
  { intros k j p. rewrite map_find_insert, Ef by apply Hm. case_decide as E; [intros [= <- <-]; by left|by right]. }
  destruct Hm as [Hpl Hmp He Hin Hpt Hnx Hend Honce]. split.
  - split; try done; cbn [with_pm_plugins with_pm_map pm_map pm_plugins pm_live pm_next pm_ended].
    + by apply map_insert_ok.
    + intros k j p [(-> & -> & ->)|[_ H]]%Hins.
      * split; [done|]. rewrite Eo, lookup_insert_eq. done.
      * destruct (He _ _ _ H). auto.
    + intros k1 k2 j p1 p2 [(-> & -> & ->)|[N1 H1]]%Hins [(E2 & E3 & E4)|[N2 H2]]%Hins; subst; try done.
      * by destruct (Hni k2 p2).
      * by destruct (Hni k1 p1).
      * by eapply Hin.
    + intros k1 k2 i1 i2 p [(-> & -> & ->)|[N1 H1]]%Hins [(E2 & E3 & E4)|[N2 H2]]%Hins; subst; try done.
      * destruct (He _ _ _ H2) as [_ Hs]. by destruct (Hne _ Hs).
      * destruct (He _ _ _ H1) as [_ Hs]. by destruct (Hne _ Hs).
      * by eapply Hpt.
  - cbn. apply Hk. by exists w.
  - intros k j p [(-> & -> & ->)|[_ H]]%Hins; [|by eapply Hf]. apply not_eq_sym, Hne. by exists w.
Qed.

(** ** Its operations *)

(** A new object of the application or of a library. *)
Lemma new_object_ok f m :
  manager_ok m ->
  may (new_object f) m (fun i m' => manager_ok m' /\ pm_map m' = pm_map m /\ pm_plugins m' = pm_plugins m
                                    /\ is_Some (pm_live m' !! i) /\ pm_live m !! i = None) (fun _ => False).
Proof.
  intros [Hpl Hmp He Hin Hpt Hnx Hend Honce]. unfold may, new_object.
  assert (pm_live m !! pm_next m = None) as Hf.
  { destruct (pm_live m !! pm_next m) as [g|] eqn:E; [|done]. specialize (Hnx (pm_next m) (mk_is_Some _ _ E)). lia. }
  split; [|cbn; rewrite lookup_insert_eq; by eauto]. split; try done; cbn [pm_map pm_plugins pm_live pm_next pm_ended].
  - intros k i p Hk. destruct (He _ _ _ Hk) as [Hl Hs]. split; [|done].
    rewrite lookup_insert_ne; [done|]. intros <-. rewrite Hf in Hl. by destruct Hl.
  - intros i [g Hg]. apply lookup_insert_Some in Hg as [[<- _]|[_ Hg]]; [lia|].
    specialize (Hnx i (mk_is_Some _ _ Hg)). lia.
  - intros i Hi. destruct (Hend _ Hi) as [H1 H2]. split; [|lia]. rewrite lookup_insert_ne by lia. done.
Qed.

(** The end of an object that no entry holds. *)
Lemma end_object_ok i f m :
  manager_ok m -> (forall k p, map_find k (pm_map m) <> Some (i, p)) ->
  may (end_object i f) m (fun _ m' => manager_ok m' /\ pm_map m' = pm_map m /\ pm_plugins m' = pm_plugins m
                                      /\ pm_live m' = delete i (pm_live m)) (fun _ => False).
Proof.
  intros [Hpl Hmp He Hin Hpt Hnx Hend Honce] Hni. unfold may, end_object.
  destruct (pm_live m !! i) as [g|] eqn:Ei; [|done]. split; [|done].
  split; try done; cbn [pm_map pm_plugins pm_live pm_next pm_ended].
  - intros k j p Hk. destruct (He _ _ _ Hk) as [Hl Hs]. split; [|done].
    rewrite lookup_delete_ne; [done|]. intros ->. by eapply Hni.
  - intros j [h Hj]. apply lookup_delete_Some in Hj as [_ Hj]. by eapply Hnx.
  - intros j. rewrite fmap_app, elem_of_app. intros [Hj|Hj%list_elem_of_singleton].
    + destruct (Hend _ Hj) as [H1 H2]. split; [|done]. destruct (decide (i = j)) as [->|];
        [by rewrite lookup_delete_eq|by rewrite lookup_delete_ne].
    + cbn in Hj. subst j. rewrite lookup_delete_eq. split; [done|]. by eapply Hnx.
  - rewrite fmap_app. apply NoDup_app. split; [done|]. split; [|apply NoDup_singleton].
    intros j Hj ->%list_elem_of_singleton. cbn in Hj. destruct (Hend _ Hj). congruence.
Qed.

(** The functions that destroy an object or let go of a pointer neither look at the map nor
    change it. *)
Definition blind {A} (f : comp manager A) : Prop := forall mp m,
  f (with_pm_map mp m)
  = match f m with
    | Done a m' => Done a (with_pm_map mp m')
    | Thrown m' => Thrown (with_pm_map mp m')
    | Deadlock => Deadlock
    | Crash => Crash
    end
  /\ may f m (fun _ m' => pm_map m' = pm_map m) (fun m' => pm_map m' = pm_map m).

Lemma blind_lift {A} (f : plug A) : blind (lift f).
Proof. intros mp m. unfold lift, may. cbn [with_pm_map pm_plugins]. by destruct (f (pm_plugins m)). Qed.

Lemma blind_end i f : blind (end_object i f).
Proof. intros mp m. unfold end_object, may. cbn [with_pm_map pm_live]. by destruct (pm_live m !! i). Qed.

Lemma blind_ret {A} (a : A) : blind (mret a).
Proof. by intros mp m. Qed.

Lemma blind_bind {A B} (f : comp manager A) (k : A -> comp manager B) :
  blind f -> (forall a, blind (k a)) -> blind (f ≫= k).
Proof.
  intros Hf Hk mp m. unfold may, mbind, comp_bind. destruct (Hf mp m) as [-> H]. unfold may in H.
  destruct (f m) as [a m'|m'| |]; try done. destruct (Hk a mp m') as [-> H']. split; [done|]. unfold may in H'.
  destruct (k a m'); congruence.
Qed.

Lemma blind_destroy_entry e : blind (destroy_entry e).
Proof.
  unfold destroy_entry. apply blind_bind; [apply blind_lift|]. intros []; [|apply blind_end].
  apply blind_bind; [apply blind_lift|]. intros f. apply blind_end.
Qed.

Lemma blind_entries l : blind (destroy_entries l) /\ blind (delete_ptrs l).
Proof.
  split; induction l as [|[k e] l IH]; try apply blind_ret; apply blind_bind;
    auto using blind_destroy_entry, @blind_lift.
Qed.

Lemma may_blind {A} mp (f : comp manager A) m Q E :
  blind f -> may f (with_pm_map mp m) Q E ->
  may f m (fun a m' => Q a (with_pm_map mp m') /\ pm_map m' = pm_map m)
    (fun m' => E (with_pm_map mp m') /\ pm_map m' = pm_map m).
Proof. unfold may. intros Hb. destruct (Hb mp m) as [-> H]. unfold may in H. by destruct (f m). Qed.

Lemma with_pm_map_eq m : with_pm_map (pm_map m) m = m.
Proof. by destruct m. Qed.

Lemma with_pm_plugins_eq m : with_pm_plugins (pm_plugins m) m = m.
Proof. by destruct m. Qed.

(** An entry that is taken out of the map. *)
Lemma erase_ok id i p m :
  manager_ok m -> map_find id (pm_map m) = Some (i, p) ->
  local_ok p (with_pm_map (map_erase id (pm_map m)) m)
  /\ (forall k q, map_find k (map_erase id (pm_map m)) <> Some (i, q)).
Proof.
  intros [Hpl Hmp He Hin Hpt Hnx Hend Honce] Hf.
  assert (forall k e, map_find k (map_erase id (pm_map m)) = Some e -> k <> id /\ map_find k (pm_map m) = Some e) as Hk.
  { intros k e. rewrite map_find_erase. case_decide as E; [done|]. intros H. by split; [intros ->|]. }
  split.
  - split; cbn.
    + split; try done; cbn.
      * by apply map_erase_ok.
      * intros k j q [_ H]%Hk. by eapply He.
      * intros k1 k2 j p1 p2 [_ H1]%Hk [_ H2]%Hk. by eapply Hin.
      * intros k1 k2 i1 i2 q [_ H1]%Hk [_ H2]%Hk. by eapply Hpt.
    + by eapply He.
    + intros k j q [N H]%Hk ->. apply N. by eapply Hpt.
  - intros k q [N H]%Hk. apply N. by eapply Hin.
Qed.

Lemma is_open_may p m :
  may (lift (is_open p)) m (fun _ m' => m' = m) (fun _ => False).
Proof.
  unfold may, lift, is_open, get_data, mbind, comp_bind, mret, comp_ret.
  destruct (plugin_objects (pm_plugins m) !! p); [|done]. apply with_pm_plugins_eq.
Qed.

Lemma function_may p m :
  may (lift (create_function p)) m (fun _ m' => m' = m) (fun _ => False)
  /\ may (lift (destroy_function p)) m (fun _ m' => m' = m) (fun _ => False).
Proof.
  unfold may, lift, create_function, destroy_function, get_create_function, get_destroy_function,
    get_data, deref, crash, mbind, comp_bind, mret, comp_ret.
  destruct (plugin_objects (pm_plugins m) !! p) as [[a|]|]; [|done..].
  destruct (data_heap (pm_plugins m) !! a) as [d|]; [|done].
  split; [destruct (m_create_func d)|destruct (m_destroy_func d)]; try done; apply with_pm_plugins_eq.
Qed.

Lemma destroy_entry_ok i p m :
  manager_ok m -> (forall k q, map_find k (pm_map m) <> Some (i, q)) ->
  may (destroy_entry (i, p)) m
    (fun _ m' => manager_ok m' /\ pm_map m' = pm_map m /\ pm_plugins m' = pm_plugins m
                 /\ pm_live m' = delete i (pm_live m)) (fun _ => False).
Proof.
  intros Hm Hni. unfold destroy_entry. apply may_bind. eapply may_weaken; [apply is_open_may| |done].
  intros b ? ->. cbn beta. destruct b; [|by apply end_object_ok].
  unfold destroy. apply may_bind. eapply may_weaken; [apply function_may| |done].
  intros f ? ->. by apply end_object_ok.
Qed.

Lemma manager_remove_ok id m :
  manager_ok m -> may (manager_remove id) m (fun _ => manager_ok) manager_ok.
Proof.
  intros Hm. unfold manager_remove. apply may_bind. unfold may at 1, find_entry.
  destruct (map_find id (pm_map m)) as [[i p]|] eqn:Ef; [|done].
  destruct (erase_ok id i p m Hm Ef) as [Hl Hni]. apply may_bind.
  eapply may_weaken; [apply (may_blind (map_erase id (pm_map m))), destroy_entry_ok;
    [apply blind_destroy_entry|apply Hl|done]| |by intros ? [? _]].
  intros [] m1 ((H1 & E1 & E2 & E3) & M1). cbn beta. apply may_bind.
  eapply may_weaken; [apply (may_blind (map_erase id (pm_map m))), delete_plugin_local; [apply blind_lift|]| |by intros ? [? _]].
  - split; [done| |].
    + change (is_Some (plugin_objects (pm_plugins (with_pm_map (map_erase id (pm_map m)) m1)) !! p)).
      rewrite E2. apply Hl.
    + rewrite E1. apply Hl.
  - intros [] m2 [[H2 E4] M2]. unfold may, modify. by rewrite M2, M1.
Qed.

Lemma manager_replace_ok id j m :
  manager_ok m -> is_Some (pm_live m !! j) -> (forall k p, map_find k (pm_map m) <> Some (j, p)) ->
  may (manager_replace id j) m (fun _ => manager_ok) manager_ok.
Proof.
  intros Hm Hj Hnj. unfold manager_replace. apply may_bind. unfold may at 1, find_entry.
  destruct (map_find id (pm_map m)) as [[i p]|] eqn:Ef; [|done].
  destruct (erase_ok id i p m Hm Ef) as [Hl Hni]. apply may_bind.
  eapply may_weaken; [apply (may_blind (map_erase id (pm_map m))), destroy_entry_ok;
    [apply blind_destroy_entry|apply Hl|done]| |by intros ? [? _]].
  intros [] m1 (([Hpl Hmp He Hin Hpt Hnx Hend Honce] & E1 & E2 & E3) & M1). unfold may, modify. cbn beta.
  cbn [with_pm_map pm_map pm_plugins pm_live pm_next pm_ended snd] in *.
  assert (forall k e, map_find k (map_set id (j, p) (pm_map m1)) = Some e ->
            (k = id /\ e = (j, p)) \/ (k <> id /\ map_find k (map_erase id (pm_map m)) = Some e
                                      /\ map_find k (pm_map m) = Some e)) as Hk.
  { intros k e. rewrite map_find_set, map_find_erase, M1 by (rewrite M1; apply Hm).
    case_decide as E; [intros [= <-]; by left|]. intros H. right. by split. }
  destruct Hl as [_ Hp Hf]. cbn [with_pm_map pm_map pm_plugins] in *.
  split; try done; cbn [with_pm_map pm_map pm_plugins pm_live pm_next pm_ended].
  - apply map_set_ok. rewrite M1. apply Hm.
  - intros k i' q [[-> [= -> ->]]|(N & H & _)]%Hk; [|by eapply He].
    split; [|by rewrite E2]. rewrite E3, lookup_delete_ne; [done|]. intros <-. by eapply Hnj.
  - intros k1 k2 i' p1 p2 [[-> [= -> ->]]|(N1 & H1 & G1)]%Hk [[E4 E5]|(N2 & H2 & G2)]%Hk; subst; try done.
    + by destruct (Hnj _ _ G2).
    + injection E5 as -> ->. by destruct (Hnj _ _ G1).
    + by eapply Hin.
  - intros k1 k2 i1 i2 q [[-> [= -> ->]]|(N1 & H1 & G1)]%Hk [[E4 E5]|(N2 & H2 & G2)]%Hk; subst; try done.
    + by destruct (Hf _ _ _ H2).
    + injection E5 as -> ->. by destruct (Hf _ _ _ H1).
    + by eapply Hpt.
Qed.

Lemma create_ok p m :
  manager_ok m ->
  may (create p) m (fun i m' => manager_ok m' /\ pm_map m' = pm_map m /\ pm_plugins m' = pm_plugins m
                                /\ is_Some (pm_live m' !! i) /\ pm_live m !! i = None) (fun _ => False).
Proof.
  intros Hm. unfold create. apply may_bind. eapply may_weaken; [apply function_may| |done].
  intros f ? ->. by apply new_object_ok.
Qed.

Lemma manager_clone_ok id m : manager_ok m -> may (manager_clone id) m (fun _ => manager_ok) manager_ok.
Proof.
  intros Hm. unfold manager_clone. apply may_bind. unfold may at 1, find_entry.
  destruct (map_find id (pm_map m)) as [e|]; [|done].
  eapply may_weaken; [by apply create_ok| |done]. by intros i m' (? & _).
Qed.

Lemma manager_add_ok id i m :
  manager_ok m -> Z.of_nat (size (plugin_objects (pm_plugins m))) + 2 < 2 ^ 64 ->
  is_Some (pm_live m !! i) -> (forall k p, map_find k (pm_map m) <> Some (i, p)) ->
  may (manager_add id i) m (fun _ => manager_ok) manager_ok.
Proof.
  intros Hm Hsz Hi Hni. apply with_local_ok; [done|done|].
  intros this m' Hl _ Hr E1 E2 _ _. apply insert_entry_local; [done|done|by rewrite E2|by rewrite E1].
Qed.

Lemma manager_load_ok `{OS} id type m :
  manager_ok m -> Z.of_nat (size (plugin_objects (pm_plugins m))) + 2 < 2 ^ 64 ->
  may (manager_load id type) m (fun _ => manager_ok) manager_ok.
Proof.
  intros Hm Hsz. apply with_local_ok; [done|done|].
  intros this m0 Hl Hn Hr _ _ _ _. clear m Hm Hsz. rename m0 into m. pose proof Hl as [Hm Ht Hf]. apply may_bind, may_lift.
  assert (forall st', plugins_ok st' /\ (exists v, points_to this v (pm_plugins m) st') ->
            local_ok this (with_pm_plugins st' m) /\ room (with_pm_plugins st' m)) as Hopen.
  { intros st' [H1 [v H2]]. pose proof (points_to_keeps _ _ _ _ H2) as Hk. split; [split|].
    - by apply with_plugins_ok.
    - by apply Hk.
    - exact Hf.
    - unfold room. cbn. by rewrite (points_to_size _ _ _ _ _ H2 Hn). }
  eapply safe_weaken; [apply (open_moves this None type _ (mo_plugins _ Hm) Hn); by left| |].
  2:{ intros st' H1. by apply Hopen. }
  intros [] st' [Hl' Hr']%Hopen. apply may_bind.
  eapply may_weaken; [apply create_ok, Hl'| |done]. intros i m1 (Hm1 & E1 & E2 & Hi & Hfr). cbn beta.
  apply may_bind. eapply may_weaken; [apply (insert_entry_local this)| |]; try done.
  - split; [done|rewrite E2; apply Hl'|rewrite E1; apply Hl'].
  - unfold room. rewrite E2. exact Hr'.
  - rewrite E1. intros k p Hk. destruct (mo_entries _ (lk_manager _ _ Hl') _ _ _ Hk) as [Hs _].
    rewrite Hfr in Hs. by destruct Hs.
Qed.

(** ** Clearing *)

(** What destroys the object of an entry: the function of the library, or [delete]. *)
Definition destroyer (st : plugins) (p : obj) : option func :=
  match plugin_objects st !! p with
  | Some (Some a) => match data_heap st !! a with Some d => m_destroy_func d | None => None end
  | _ => None
  end.

(** The libraries that are in use have their functions. *)
Definition has_functions (st : plugins) : Prop := forall this a d,
  plugin_objects st !! this = Some (Some a) -> data_heap st !! a = Some d ->
  is_Some (m_create_func d) /\ is_Some (m_destroy_func d).

Definition ended (i : inst) (f : option func) (m : manager) : manager :=
  mk_manager (pm_plugins m) (pm_map m) (delete i (pm_live m)) (pm_next m) (pm_ended m ++ [(i, f)]).

Lemma destroy_entry_run i p m :
  plugins_ok (pm_plugins m) -> has_functions (pm_plugins m) ->
  is_Some (pm_live m !! i) -> is_Some (plugin_objects (pm_plugins m) !! p) ->
  destroy_entry (i, p) m = Done tt (ended i (destroyer (pm_plugins m) p) m).
Proof.
  intros Hst Hf [g Hg] [v Hv]. unfold destroy_entry, destroy, end_object, lift, is_open, destroy_function,
    get_destroy_function, get_data, deref, destroyer, mbind, comp_bind, mret, comp_ret. cbn [fst snd].
  rewrite Hv. destruct v as [a|].
  - rewrite bool_decide_true by done. destruct (do_points _ _ (proj2 Hst) _ _ Hv) as [d Hd].
    destruct (Hf _ _ _ Hv Hd) as [_ [f Hfd]]. cbn [with_pm_plugins pm_plugins]. rewrite Hv, Hd, Hfd.
    cbn [with_pm_plugins pm_live pm_plugins pm_map pm_next pm_ended]. by rewrite Hg.
  - rewrite bool_decide_false by congruence. cbn [with_pm_plugins pm_live pm_plugins pm_map pm_next pm_ended].
    by rewrite Hg.
Qed.

Definition live_without (l : smap (inst * obj)) (live : gmap inst (option func)) : gmap inst (option func) :=
  foldl (fun live e => delete (fst (snd e)) live) live l.

Lemma live_without_lookup l live i :
  live_without l live !! i = if decide (i ∈ fst ∘ snd <$> l) then None else live !! i.
Proof.
  revert live. induction l as [|[k [j p]] l IH]; intros live; [done|].
  unfold live_without. cbn [foldl fmap list_fmap fst snd compose]. fold (live_without l (delete j live)). rewrite IH.
  repeat case_decide; try done.
  - set_solver.
  - assert (i = j) as -> by set_solver. by rewrite lookup_delete_eq.
  - rewrite lookup_delete_ne; [done|set_solver].
Qed.

Definition ends (st : plugins) (l : smap (inst * obj)) : list (inst * option func) :=
  (fun e => (fst (snd e), destroyer st (snd (snd e)))) <$> l.

Lemma destroy_entries_run l m :
  plugins_ok (pm_plugins m) -> has_functions (pm_plugins m) -> NoDup (fst ∘ snd <$> l) ->
  (forall k i p, (k, (i, p)) ∈ l -> is_Some (pm_live m !! i) /\ is_Some (plugin_objects (pm_plugins m) !! p)) ->
  destroy_entries l m
  = Done tt (mk_manager (pm_plugins m) (pm_map m) (live_without l (pm_live m)) (pm_next m)
               (pm_ended m ++ ends (pm_plugins m) l)).
Proof.
  revert m. induction l as [|[k [i p]] l IH]; intros m Hst Hf Hnd He.
  { cbn. rewrite app_nil_r. by destruct m. }
  cbn [destroy_entries]. unfold mbind, comp_bind. destruct (He k i p) as [Hi Hp]; [by constructor|].
  rewrite destroy_entry_run by done. inversion Hnd as [|? ? Hni Hnd']; subst. cbn [compose fst snd] in Hni.
  rewrite IH; [|done..|].
  - cbn [ended pm_plugins pm_map pm_live pm_next pm_ended]. by rewrite <- app_assoc.
  - intros k' i' p' Hin. destruct (He k' i' p') as [Hi' Hp']; [by constructor|]. split; [|done].
    cbn [ended pm_live]. rewrite lookup_delete_ne; [done|]. intros <-. apply Hni.
    apply list_elem_of_fmap. by exists (k', (i, p')).
Qed.

Lemma delete_ptrs_run l m :
  plugins_ok (pm_plugins m) -> NoDup (snd ∘ snd <$> l) ->
  (forall k i p, (k, (i, p)) ∈ l -> is_Some (plugin_objects (pm_plugins m) !! p)) ->
  exists st, delete_ptrs l m = Done tt (with_pm_plugins st m) /\ plugins_ok st
             /\ forall p, is_Some (plugin_objects st !! p)
                          <-> is_Some (plugin_objects (pm_plugins m) !! p) /\ p ∉ snd ∘ snd <$> l.
Proof.
  revert m. induction l as [|[k [i p]] l IH]; intros m Hst Hnd He.
  { exists (pm_plugins m). split; [cbn; by rewrite with_pm_plugins_eq|]. split; [done|]. intros p.
    split; [|by intros [? _]]. intros Hp. split; [done|]. by intros ?%elem_of_nil. }
  inversion Hnd as [|? ? Hni Hnd']; subst. cbn [compose fst snd] in Hni.
  destruct (He k i p) as [v Hv]; [by constructor|].
  destruct (release_data_ok p v (pm_plugins m) Hst Hv) as (st1 & E1 & H1 & P1).
  pose proof (delete_object_ok p st1 H1 (points_to_lookup _ _ _ _ P1)) as H2.
  set (st2 := with_objects (delete p (plugin_objects st1)) st1) in *.
  assert (lift (delete_plugin p) m = Done tt (with_pm_plugins st2 m)) as E2.
  { unfold lift, delete_plugin, mbind, comp_bind. by rewrite E1. }
  assert (forall q, is_Some (plugin_objects st2 !! q) <-> is_Some (plugin_objects (pm_plugins m) !! q) /\ q <> p) as Hq.
  { intros q. change (plugin_objects st2) with (delete p (plugin_objects st1)).
    rewrite (pt_objects _ _ _ _ P1). destruct (decide (q = p)) as [->|Hqp].
    - rewrite lookup_delete_eq. split; [by intros [? ?]|by intros [_ ?]].
    - rewrite lookup_delete_ne, lookup_insert_ne by done. split; [done|by intros [? _]]. }
  destruct (IH (with_pm_plugins st2 m)) as (st & E3 & H3 & P3); [done|done|..].
  { intros k' i' p' Hin. apply Hq. split; [eapply He; by constructor|]. intros ->. apply Hni.
    apply list_elem_of_fmap. by exists (k', (i', p)). }
  exists st. split; [|split; [done|]].
  - cbn [delete_ptrs snd]. unfold mbind, comp_bind. by rewrite E2, E3.
  - intros q. rewrite P3. cbn [with_pm_plugins pm_plugins]. rewrite Hq. cbn [fmap list_fmap compose fst snd]. set_solver.
Qed.

(** ** Runs *)

Inductive manager_op :=
| mop_object
| mop_add (plugin_id : bytes) (plugin_object_ptr : inst)
| mop_remove (plugin_id : bytes)
| mop_replace (plugin_id : bytes) (plugin_ptr : inst)
| mop_clone (plugin_id : bytes)
| mop_load (plugin_id plugin_type : bytes)
| mop_clear
| mop_static (plugin_name : bytes) (create_func destroy_func : option func)
| mop_add_directory (dir : bytes).

(** The application gives the manager objects that were not destroyed, and each only once. *)
Definition unmanaged (i : inst) (m : manager) : Prop :=
  is_Some (pm_live m !! i) /\ forall k p, map_find k (pm_map m) <> Some (i, p).

Definition space (m : manager) : Prop := Z.of_nat (size (plugin_objects (pm_plugins m))) + 2 < 2 ^ 64.

Definition valid_mop (op : manager_op) (m : manager) : Prop :=
  match op with
  | mop_add _ i => unmanaged i m /\ space m
  | mop_replace _ i => unmanaged i m
  | mop_load _ _ => space m
  | _ => True
  end.

Section ManagerRuns.
Context `{OS}.

Definition run_mop (op : manager_op) : comp manager unit :=
  match op with
  | mop_object => new_object None;; mret tt
  | mop_add plugin_id i => manager_add plugin_id i
  | mop_remove plugin_id => manager_remove plugin_id
  | mop_replace plugin_id i => manager_replace plugin_id i
  | mop_clone plugin_id => manager_clone plugin_id;; mret tt
  | mop_load plugin_id plugin_type => manager_load plugin_id plugin_type;; mret tt
  | mop_clear => manager_clear
  | mop_static plugin_name c d => lift (add_static_entry_point plugin_name c d)
  | mop_add_directory dir => lift (add_plugin_directory dir)
  end.

Inductive manager_runs : manager -> Prop :=
| manager_runs_new : manager_runs new_manager
| manager_runs_done op m m' :
    manager_runs m -> valid_mop op m -> run_mop op m = Done tt m' -> manager_runs m'
| manager_runs_thrown op m m' :
    manager_runs m -> valid_mop op m -> run_mop op m = Thrown m' -> manager_runs m'.

(** An operation of the plug-ins that is none on an object. *)
Lemma lift_op_ok op m :
  manager_ok m -> (forall st, valid_op op st) -> (forall st, ~ reopens op st) ->
  (forall st, match run_op op st with
              | Done _ st' | Thrown st' => plugin_objects st' = plugin_objects st
              | _ => True
              end) ->
  may (lift (run_op op)) m (fun _ => manager_ok) manager_ok.
Proof.
  intros Hm Hv Hr Ho. pose proof (run_op_safe op _ (mo_plugins _ Hm) (Hv _) (Hr _)) as Hs.
  specialize (Ho (pm_plugins m)). unfold safe in Hs. unfold may, lift.
  destruct (run_op op (pm_plugins m)) as [[] st|st| |]; try done;
    (apply with_plugins_ok; [done|done|]; intros p; by rewrite Ho).
Qed.

Lemma destroy_entries_ok l m :
  manager_ok m -> pm_map m = [] ->
  may (destroy_entries l) m (fun _ m' => manager_ok m' /\ pm_map m' = [] /\ pm_plugins m' = pm_plugins m)
    (fun _ => False).
Proof.
  revert m. induction l as [|[k [i p]] l IH]; intros m Hm Hmp; [done|]. cbn [destroy_entries].
  apply may_bind. eapply may_weaken; [apply destroy_entry_ok; [done|by rewrite Hmp]| |done].
  intros [] m' (H1 & E1 & E2 & _). eapply may_weaken; [apply IH; [done|by rewrite E1]| |done].
  intros [] m'' (H2 & E3 & E4). split; [done|]. split; [done|]. by rewrite E4.
Qed.

Lemma map_entries_nodup m :
  manager_ok m -> NoDup (fst ∘ snd <$> pm_map m) /\ NoDup (snd ∘ snd <$> pm_map m).
Proof.
  intros Hm. pose proof (mo_map _ Hm) as Hmp. pose proof (map_ok_nodup _ Hmp) as Hnd.
  apply NoDup_fmap_1 in Hnd. split; apply NoDup_fmap_2_strong; try done.
  - intros [k1 [i1 p1]] [k2 [i2 p2]] H1 H2 E. cbn in E. subst i2.
    apply map_elem_find in H1, H2; [|done..]. pose proof (mo_insts _ Hm _ _ _ _ _ H1 H2) as ->. congruence.
  - intros [k1 [i1 p1]] [k2 [i2 p2]] H1 H2 E. cbn in E. subst p2.
    apply map_elem_find in H1, H2; [|done..]. pose proof (mo_ptrs _ Hm _ _ _ _ _ H1 H2) as ->. congruence.
Qed.

Lemma manager_clear_ok m : manager_ok m -> may manager_clear m (fun _ => manager_ok) manager_ok.
Proof.
  intros Hm. destruct (map_entries_nodup m Hm) as [_ Hnd]. unfold manager_clear.
  set (l := pm_map m) in *.
  assert (manager_ok (with_pm_map [] m)) as H0.
  { destruct Hm. split; try done. apply map_ok_nil. }
  assert (forall k i p, (k, (i, p)) ∈ l -> is_Some (plugin_objects (pm_plugins m) !! p)) as He.
  { intros k i p Hin. apply map_elem_find in Hin; [|apply Hm]. by eapply mo_entries. }
  apply may_bind. change (may (destroy_entries l;; delete_ptrs l;; modify (with_pm_map [])) m (fun _ => manager_ok) manager_ok).
  apply may_bind. eapply may_weaken; [apply (may_blind []), destroy_entries_ok; [apply blind_entries|done|done]| |by intros ? [? _]].
  intros [] m1 [(H1 & _ & E1) M1]. cbn beta. apply may_bind. cbn [with_pm_map pm_plugins] in E1.
  destruct (delete_ptrs_run l m1) as (st & E2 & H2 & _); [by rewrite E1; apply Hm|done|by rewrite E1|].
  unfold may. rewrite E2. unfold modify. cbn [with_pm_map with_pm_plugins].
  destruct H1. split; try done.
Qed.

Lemma manager_runs_ok m : manager_runs m -> manager_ok m.
Proof.
  assert (forall op m, manager_ok m -> valid_mop op m -> may (run_mop op) m (fun _ => manager_ok) manager_ok) as Hstep.
  { intros op m1 Hm Hv. destruct op as [|id i|id|id i|id|id type| |name c d|dir]; cbn [run_mop valid_mop] in *.
    - apply may_bind. eapply may_weaken; [by apply new_object_ok| |done]. by intros i m' (? & _).
    - destruct Hv as [[H1 H2] H3]. by apply manager_add_ok.
    - by apply manager_remove_ok.
    - destruct Hv as [H1 H2]. by apply manager_replace_ok.
    - apply may_bind. eapply may_weaken; [by apply manager_clone_ok|done|done].
    - apply may_bind. eapply may_weaken; [by apply manager_load_ok|done|done].
    - by apply manager_clear_ok.
    - apply (lift_op_ok (op_static name c d)); [done|done|by intros st (? & ? & ? & ? & ? & _)|].
      intros st. cbn [run_op]. unfold add_static_entry_point, with_lock. destruct (m_plugin_mutex st); [done|].
      unfold mbind, comp_bind, gets. cbn [with_mutex m_plugin_map]. by destruct (map_find name (m_plugin_map st)).
    - apply (lift_op_ok (op_add_directory dir)); [done|done|by intros st (? & ? & ? & ? & ? & _)|].
      intros st. cbn [run_op]. unfold add_plugin_directory. destruct (exists_file _ _); [|done].
      unfold with_lock. by destruct (m_plugin_mutex st). }
  induction 1 as [|op m m' _ IH Hv E|op m m' _ IH Hv E]; [apply new_manager_ok|..];
    specialize (Hstep op m IH Hv); unfold may in Hstep; by rewrite E in Hstep.
Qed.

(** C26: the manager destroys every object it manages exactly once.  After any operations,
    when the libraries in use have both functions that [open_plugin] looks up
    ([has_functions]), [clear] returns; it ends the managed objects in the order of their
    identifiers, each as its entry says: by the destroy function of the library that the
    entry points to, or by [delete] when it points to none.  The entry is that of the library
    that made the object, or of none for an object that was added; but [replace] keeps the
    entry of the object before ([replaced_object_wrong_end]).  No object was ever ended twice, the objects that are
    not managed stay, and the pointers to the libraries of the entries are gone. *)
Theorem manager_clear_ends_once m :
  manager_runs m -> has_functions (pm_plugins m) ->
  exists m', manager_clear m = Done tt m' /\ pm_map m' = []
    /\ pm_ended m' = pm_ended m ++ ends (pm_plugins m) (pm_map m) /\ NoDup (fst <$> pm_ended m')
    /\ (forall i, pm_live m' !! i = if decide (i ∈ fst ∘ snd <$> pm_map m) then None else pm_live m !! i)
    /\ (forall p, is_Some (plugin_objects (pm_plugins m') !! p)
                  <-> is_Some (plugin_objects (pm_plugins m) !! p) /\ p ∉ snd ∘ snd <$> pm_map m).
Proof.
  intros Hm%manager_runs_ok Hf. destruct (map_entries_nodup m Hm) as [Hni Hnp].
  assert (forall k i p, (k, (i, p)) ∈ pm_map m ->
            is_Some (pm_live m !! i) /\ is_Some (plugin_objects (pm_plugins m) !! p)) as He.
  { intros k i p Hin. apply map_elem_find in Hin; [|apply Hm]. by eapply mo_entries. }
  pose proof (destroy_entries_run (pm_map m) m (mo_plugins _ Hm) Hf Hni He) as E1. set (m1 := mk_manager _ _ _ _ _) in E1.
  destruct (delete_ptrs_run (pm_map m) m1 (mo_plugins _ Hm) Hnp) as (st & E2 & H2 & P2).
  { intros k i p Hin. by eapply He. }
  assert (manager_clear m = Done tt (with_pm_map [] (with_pm_plugins st m1))) as E.
  { unfold manager_clear, mbind, comp_bind, gets. rewrite E1. unfold mbind, comp_bind. by rewrite E2. }
  pose proof (manager_clear_ok m Hm) as Hok. unfold may in Hok. rewrite E in Hok.
  eexists. split; [exact E|]. split; [done|]. split; [done|]. split; [apply Hok|]. split; [|done].
  intros i. cbn [with_pm_map with_pm_plugins pm_live m1]. apply live_without_lookup.
Qed.

End ManagerRuns.

(** ** The entries *)

Lemma insert_entry_map id i p m :
  may (insert_entry id i p) m (fun _ m' => exists q, pm_map m' = map_insert id (i, q) (pm_map m))
    (fun m' => pm_map m' = pm_map m).
Proof.
  unfold may, insert_entry, mbind, comp_bind, gets. destruct (map_find id (pm_map m)) as [e|] eqn:Ef.
  - exists p. unfold map_insert. by rewrite Ef.
  - unfold lift. destruct (copy_plugin p (pm_plugins m)) as [q st|st| |]; try done. by exists q.
Qed.

Lemma delete_never_throws this st : match delete_plugin this st with Thrown _ => False | _ => True end.
Proof.
  unfold delete_plugin, release_data, get_data, deref, store, close_dynamic_library, delete_data, set_data,
    modify, with_lock, mbind, comp_bind, mret, comp_ret.
  destruct (plugin_objects st !! this) as [[a|]|]; try done.
  destruct (m_plugin_mutex st); [done|]. cbn [with_mutex data_heap].
  destruct (data_heap st !! a) as [d|]; [|done]. destruct (_ =? 0); [|done]. by destruct (m_lib_handle d).
Qed.

Lemma with_local_map {A} (body : obj -> comp manager A) m (Q : A -> smap (inst * obj) -> Prop) :
  (forall this m', pm_map m' = pm_map m ->
     may (body this) m' (fun a m'' => Q a (pm_map m'')) (fun m'' => pm_map m'' = pm_map m)) ->
  may (with_local body) m (fun a m' => Q a (pm_map m')) (fun m' => pm_map m' = pm_map m).
Proof.
  intros Hb. unfold with_local. apply may_bind.
  change (may (at_exit (next_object (pm_plugins m)) (body (next_object (pm_plugins m))))
            (with_pm_plugins (created (pm_plugins m)) m)
            (fun a m' => Q a (pm_map m')) (fun m' => pm_map m' = pm_map m)).
  set (this := next_object (pm_plugins m)). set (m0 := with_pm_plugins (created (pm_plugins m)) m).
  specialize (Hb this m0 eq_refl). unfold may, at_exit in *.
  assert (forall m', may (lift (delete_plugin this)) m' (fun _ m'' => pm_map m'' = pm_map m') (fun _ => False)) as Hd.
  { intros m'. pose proof (delete_never_throws this (pm_plugins m')) as Hn. unfold may, lift.
    by destruct (delete_plugin this (pm_plugins m')). }
  destruct (body this m0) as [a m'|m'| |]; try done; specialize (Hd m'); unfold may, mbind, comp_bind, mret, comp_ret in *;
    destruct (lift (delete_plugin this) m') as [? m''|m''| |]; try done; by rewrite Hd.
Qed.

Lemma manager_add_map id i m :
  may (manager_add id i) m (fun _ m' => exists q, pm_map m' = map_insert id (i, q) (pm_map m))
    (fun m' => pm_map m' = pm_map m).
Proof.
  apply (with_local_map _ _ (fun _ mp => exists q, mp = map_insert id (i, q) (pm_map m))).
  intros this m' E. rewrite <- E. apply insert_entry_map.
Qed.

Lemma manager_load_map `{OS} id type m :
  may (manager_load id type) m (fun i m' => exists q, pm_map m' = map_insert id (i, q) (pm_map m))
    (fun m' => pm_map m' = pm_map m).
Proof.
  apply (with_local_map _ _ (fun i mp => exists q, mp = map_insert id (i, q) (pm_map m))).
  intros this m' E. apply may_bind. eapply may_weaken; [apply (blind_lift (open this type) [] m')| |].
  2:{ cbn. intros m1 E1. congruence. }
  intros [] m1 E1. cbn beta in E1 |- *. apply may_bind. unfold create. apply may_bind.
  eapply may_weaken; [apply function_may| |done]. intros f ? ->. cbn beta. unfold may at 1, new_object.
  apply may_bind. rewrite <- E, <- E1.
  eapply may_weaken; [apply insert_entry_map|cbn; by intros [] m2 H2|done].
Qed.

Lemma manager_clear_map m :
  may manager_clear m (fun _ m' => pm_map m' = []) (fun m' => pm_map m' = pm_map m).
Proof.
  unfold manager_clear. apply may_bind.
  change (may (destroy_entries (pm_map m);; delete_ptrs (pm_map m);; modify (with_pm_map [])) m
            (fun _ m' => pm_map m' = []) (fun m' => pm_map m' = pm_map m)).
  destruct (blind_entries (pm_map m)) as [H1 H2]. apply may_bind.
  eapply may_weaken; [apply (H1 [] m)| |done]. intros [] m1 E1. cbn beta in E1 |- *. apply may_bind.
  eapply may_weaken; [apply (H2 [] m1)| |]; [done|]. cbn. intros m2 E2. congruence.
Qed.

(** ** Examples and deviations *)

#[local] Existing Instance sample_os.

Definition manage (ops : list manager_op) : manager := foldl (fun m op => after (run_mop op) m) new_manager ops.

(** Two services of the library [good.so] and one of the application. *)
Definition sample_manager : manager :=
  manage [mop_load (str "/a") (str "good"); mop_load (str "/b") (str "good"); mop_object; mop_add (str "/c") 2].

Lemma sample_manager_runs : manager_runs sample_manager.
Proof.
  unfold sample_manager, manage. cbn [foldl].
  apply (manager_runs_done (mop_add (str "/c") 2) (after (run_mop mop_object)
    (after (run_mop (mop_load (str "/b") (str "good"))) (after (run_mop (mop_load (str "/a") (str "good"))) new_manager)))).
  - apply (manager_runs_done mop_object (after (run_mop (mop_load (str "/b") (str "good")))
      (after (run_mop (mop_load (str "/a") (str "good"))) new_manager))); [|exact I|vm_compute; reflexivity].
    apply (manager_runs_done (mop_load (str "/b") (str "good")) (after (run_mop (mop_load (str "/a") (str "good"))) new_manager));
      [|vm_compute; reflexivity|vm_compute; reflexivity].
    apply (manager_runs_done (mop_load (str "/a") (str "good")) new_manager);
      [constructor|vm_compute; reflexivity|vm_compute; reflexivity].
  - split; [split|].
    + eexists. vm_compute. reflexivity.
    + intros k p H. vm_compute in H.
      repeat match type of H with context [match ?d with _ => _ end] => destruct d end; discriminate H.
    + vm_compute. reflexivity.
  - vm_compute. reflexivity.
Qed.

Lemma manager_clear_ends_once_witness :
  exists m', manager_clear sample_manager = Done tt m' /\ pm_map m' = []
             /\ pm_ended m' = [(0%nat, Some 10%nat); (1%nat, Some 10%nat); (2%nat, None)].
Proof.
  destruct (manager_clear_ends_once sample_manager sample_manager_runs) as (m' & H1 & H2 & H3 & _).
  - intros this a d _ Hd.
    assert (map_Forall (fun _ d => is_Some (m_create_func d) /\ is_Some (m_destroy_func d))
              (data_heap (pm_plugins sample_manager))) as H; [|exact (H a d Hd)].
    apply map_Forall_to_list. vm_compute. repeat constructor; eexists; reflexivity.
  - exists m'. split; [exact H1|]. split; [exact H2|]. rewrite H3. vm_compute. reflexivity.
Defined.

Lemma manager_finds_longest_witness :
  manager_find (str "/b/x") sample_manager = Some 1%nat.
Proof.
  apply (proj2 (manager_finds_longest (str "/b/x") sample_manager (mo_map _ (manager_runs_ok _ sample_manager_runs)))
           (str "/b") 1%nat 3%nat).
  - vm_compute. reflexivity.
  - right. by exists (str "x").
  - intros k' e Hk Hu. apply map_find_elem in Hk. vm_compute in Hk.
    repeat (apply elem_of_cons in Hk as [Hk|Hk]; [injection Hk as -> _; vm_compute; lia|]).
    by apply elem_of_nil in Hk.
  - intros k1 k2 e1 e2 H1 H2 [L1 N1] [L2 N2]. apply map_find_elem in H1, H2. vm_compute in H1, H2.
    repeat (apply elem_of_cons in H1 as [H1|H1];
      [injection H1 as -> _; first [by vm_compute in L1|destruct N1; vm_compute; reflexivity]|]).
    by apply elem_of_nil in H1.
Defined.

(** An identifier that is not there: the end of the map is dereferenced. *)
Lemma remove_unknown_crashes id i :
  manager_remove id new_manager = Crash /\ manager_replace id i new_manager = Crash
  /\ manager_clone id new_manager = Crash.
Proof. done. Qed.

(** A service of the application cannot be cloned: there is no function to call. *)
Lemma clone_added_crashes : manager_clone (str "/c") sample_manager = Crash.
Proof. vm_compute. reflexivity. Qed.

(** Loading a second object under an identifier leaves it outside the map, and its library
    is unloaded while the object that was returned lives. *)
Lemma duplicate_load_unloads :
  let m := after (run_mop (mop_load (str "/a") (str "more"))) sample_manager in
  pm_live m !! 3%nat = Some (Some 30%nat)
  /\ manager_get (str "/a") m = Some 0%nat
  /\ loaded 3%nat (os_calls (pm_plugins m)) = 0.
Proof. split_and!; vm_compute; reflexivity. Qed.

(** An object of the application that replaces one of a library is ended by the library's
    function. *)
Lemma replaced_object_wrong_end :
  let m := manage [mop_load (str "/a") (str "good"); mop_object; mop_replace (str "/a") 1; mop_remove (str "/a")] in
  pm_ended m = [(0%nat, Some 10%nat); (1%nat, Some 10%nat)]
  /\ pm_live (manage [mop_load (str "/a") (str "good"); mop_object]) !! 1%nat = Some None.
Proof. split_and!; vm_compute; reflexivity. Qed.

(** The search stops at an identifier that is not shorter than the one after it, although a
    service above the resource is there; the search of the server finds it. *)
Lemma find_misses_service :
  let m := manage [mop_load (str "/a") (str "good"); mop_load (str "/a/bb") (str "good");
                   mop_load (str "/a/cc") (str "good")] in
  manager_find (str "/a/dd") m = None
  /\ find_resource (str "/a/dd") (pm_map m) = Some (str "/a", (0%nat, 1%nat)).
Proof. split_and!; vm_compute; reflexivity. Qed.

(** [reset] keeps the pointer: a second one destroys the object again; and creating an
    instance of the same plug-in again locks the mutex twice. *)
Lemma instance_reset_twice :
  let m0 := after (lift new_plugin) new_manager in
  let m := after (instance_create (str "good") (mk_instance_ptr 0 None)) m0 in
  let p := mk_instance_ptr 0 (Some 0%nat) in
  instance_create (str "good") (mk_instance_ptr 0 None) m0 = Done p m
  /\ instance_reset p (after (instance_reset p) m) = Crash
  /\ instance_create (str "good") p m = Deadlock.
Proof. split_and!; vm_compute; reflexivity. Qed.
