(* ===== verification/PluginServer.v ===== *)
(** * The server of web services

    Models [http::plugin_server] (src/http_plugin_server.cpp, include/pion/http/plugin_server.hpp)
    and the base class of the services (include/pion/http/plugin_service.hpp): an HTTP server
    whose handlers are the services of a plug-in manager, and the configuration files that
    set it up.  What a service does is its own code and a parameter; the calls of its virtual
    functions are recorded.  The reader of a configuration file is split into the state
    machine, which yields the commands of the file in their order, and the execution of a
    command. *)
From stdpp Require Import gmap.
From S2P Require Import Prelude Outcomes CLib StringUtils Algorithm StdMap Resources Paths Dict HttpTypes Message.
From S2P Require Import Connection Users Replies Auth HttpServer Plugins PluginManager.

(** ** The base class of services *)

(** [get_relative_resource]: the path of a request below the service. *)
Definition get_relative_resource (resource resource_requested : bytes) : bytes :=
  if (length resource_requested <=? length resource)%nat then []
  else url_decode (drop (length resource + 1) resource_requested).

(** The calls of the virtual functions. *)
Inductive service_call :=
| call_set_resource (i : inst) (resource : bytes)
| call_set_option (i : inst) (name value : bytes)
| call_start (i : inst)
| call_stop (i : inst).

(** The services, whose [set_option] may throw, and the contents of the files that can be
    opened. *)
Class Host := {
  service_handler : inst -> request_handler_t;
  option_throws : list service_call -> inst -> bytes -> bytes -> bool;
  file_content : bytes -> option bytes
}.

(** ** The authentication of a configuration file *)

Inductive config_auth := with_basic (a : basic_auth) | with_cookie (a : cookie_auth).

Definition config_auth_of (a : config_auth) : auth :=
  match a with with_basic a => ba_auth a | with_cookie a => ca_auth a end.

Definition map_config_auth (f : auth -> auth) (a : config_auth) : config_auth :=
  match a with
  | with_basic a => with_basic (mk_basic_auth (f (ba_auth a)) (m_realm a) (ba_cleanup_time a) (ba_user_cache a))
  | with_cookie a =>
      with_cookie (mk_cookie_auth (f (ca_auth a)) (m_login a) (m_logout a) (m_redirect a) (ca_cleanup_time a)
                     (ca_user_cache a))
  end.

(** ** State *)

Record plugin_server := mk_plugin_server {
  ps_server : http_server config_auth;
  m_services : manager;
  ps_listening : bool;  (* m_is_listening of the TCP server *)
  ps_calls : list service_call
}.

Definition new_plugin_server : plugin_server := mk_plugin_server new_http_server new_manager false [].

Definition with_server (f : http_server config_auth -> http_server config_auth) s : plugin_server :=
  mk_plugin_server (f (ps_server s)) (m_services s) (ps_listening s) (ps_calls s).
Definition with_calls (calls : list service_call) s : plugin_server :=
  mk_plugin_server (ps_server s) (m_services s) (ps_listening s) (ps_calls s ++ calls).
Definition with_services (m : manager) s : plugin_server :=
  mk_plugin_server (ps_server s) m (ps_listening s) (ps_calls s).
Definition with_listening (b : bool) s : plugin_server :=
  mk_plugin_server (ps_server s) (m_services s) b (ps_calls s).

(** A function of the manager, in the server's state. *)
Definition lift_manager {A} (f : comp manager A) : comp plugin_server A := fun s =>
  match f (m_services s) with
  | Done a m => Done a (with_services m s)
  | Thrown m => Thrown (with_services m s)
  | Deadlock => Deadlock
  | Crash => Crash
  end.

(** ** The configuration file *)

Inductive parse_state_t :=
| PARSE_NEWLINE | PARSE_COMMAND | PARSE_RESOURCE | PARSE_VALUE | PARSE_COMMENT | PARSE_USERNAME.

Record config_parser := mk_config_parser {
  parse_state : parse_state_t;
  command_string : bytes;
  resource_string : bytes;
  username_string : bytes;
  value_string : bytes
}.

Definition new_config_parser : config_parser := mk_config_parser PARSE_NEWLINE [] [] [] [].

Inductive config_command :=
| cmd_path (value : bytes)
| cmd_auth (value : bytes)
| cmd_restrict (value : bytes)
| cmd_user (username value : bytes)
| cmd_service (resource value : bytes)
| cmd_option (resource value : bytes).

Definition is_blank (c : char) : bool := (c =c SP) || (c =c TAB).
Definition is_line_end (c : char) : bool := (c =c CR) || (c =c LF).

(** The command of a complete line. *)
Definition finished_command (p : config_parser) : option config_command :=
  let v := value_string p in
  if bytes_eqb (command_string p) (str "path") then Some (cmd_path v)
  else if bytes_eqb (command_string p) (str "auth") then Some (cmd_auth v)
  else if bytes_eqb (command_string p) (str "restrict") then Some (cmd_restrict v)
  else if bytes_eqb (command_string p) (str "user") then Some (cmd_user (username_string p) v)
  else if bytes_eqb (command_string p) (str "service") then Some (cmd_service (resource_string p) v)
  else if bytes_eqb (command_string p) (str "option") then Some (cmd_option (resource_string p) v)
  else None.

(** One character: a bad one is reported, and nothing else happens. *)
Definition config_char (c : char) (p : config_parser) : config_parser * option config_command :=
  let cmd := command_string p in
  match parse_state p with
  | PARSE_NEWLINE =>
      if c =c "#"%byte then
        (mk_config_parser PARSE_COMMENT cmd (resource_string p) (username_string p) (value_string p), None)
      else if isalpha c then
        (mk_config_parser PARSE_COMMAND (cmd ++ [tolower c]) (resource_string p) (username_string p)
           (value_string p), None)
      else (p, None)
  | PARSE_COMMAND =>
      if is_blank c then
        if bytes_eqb cmd (str "path") || bytes_eqb cmd (str "auth") || bytes_eqb cmd (str "restrict") then
          (mk_config_parser PARSE_VALUE cmd (resource_string p) (username_string p) [], None)
        else if bytes_eqb cmd (str "service") || bytes_eqb cmd (str "option") then
          (mk_config_parser PARSE_RESOURCE cmd [] (username_string p) (value_string p), None)
        else if bytes_eqb cmd (str "user") then
          (mk_config_parser PARSE_USERNAME cmd (resource_string p) [] (value_string p), None)
        else (p, None)
      else if negb (isalpha c) then (p, None)
      else (mk_config_parser PARSE_COMMAND (cmd ++ [tolower c]) (resource_string p) (username_string p)
              (value_string p), None)
  | PARSE_RESOURCE =>
      if is_blank c then
        if bool_decide (resource_string p = []) then (p, None)
        else (mk_config_parser PARSE_VALUE cmd (resource_string p) (username_string p) [], None)
      else if is_line_end c then (p, None)
      else (mk_config_parser PARSE_RESOURCE cmd (resource_string p ++ [c]) (username_string p)
              (value_string p), None)
  | PARSE_USERNAME =>
      if is_blank c then
        if bool_decide (username_string p = []) then (p, None)
        else (mk_config_parser PARSE_VALUE cmd (resource_string p) (username_string p) [], None)
      else if is_line_end c then (p, None)
      else (mk_config_parser PARSE_USERNAME cmd (resource_string p) (username_string p ++ [c])
              (value_string p), None)
  | PARSE_VALUE =>
      if is_line_end c then
        (mk_config_parser PARSE_NEWLINE [] (resource_string p) (username_string p) (value_string p),
         if bool_decide (value_string p = []) then None else finished_command p)
      else if is_blank c && bool_decide (value_string p = []) then (p, None)
      else (mk_config_parser PARSE_VALUE cmd (resource_string p) (username_string p) (value_string p ++ [c]),
            None)
  | PARSE_COMMENT =>
      if is_line_end c then
        (mk_config_parser PARSE_NEWLINE cmd (resource_string p) (username_string p) (value_string p), None)
      else (p, None)
  end.

(** The commands of the characters, and the state at the end. *)
Fixpoint config_run (text : bytes) (p : config_parser) : list config_command * config_parser :=
  match text with
  | [] => ([], p)
  | c :: text' =>
      let '(p', r) := config_char c p in
      let '(l, q) := config_run text' p' in
      (option_list r ++ l, q)
  end.

Definition parse_config (text : bytes) : list config_command := fst (config_run text new_config_parser).

(** ** Operations *)

Section Operations.
Context `{OS} `{Host} `{cfg : UserConfig}.

Definition add_service (resource : bytes) (service_ptr : inst) : comp plugin_server unit :=
  let clean_resource := strip_trailing_slash resource in
  modify (with_calls [call_set_resource service_ptr clean_resource]);;
  lift_manager (manager_add clean_resource service_ptr);;
  modify (with_server (add_resource clean_resource (service_handler service_ptr))).

Definition load_service (resource service_name : bytes) : comp plugin_server unit :=
  let clean_resource := strip_trailing_slash resource in
  service_ptr ← lift_manager (manager_load clean_resource service_name);
  modify (with_server (add_resource clean_resource (service_handler service_ptr)));;
  modify (with_calls [call_set_resource service_ptr clean_resource]).

(** The service whose option is set; [run] calls the function on the null pointer when there
    is none. *)
Definition set_service_option (resource name value : bytes) : comp plugin_server unit := fun s =>
  manager_run_one (strip_trailing_slash resource)
    (fun service =>
       match service with
       | None => Crash
       | Some i =>
           let s' := with_calls [call_set_option i name value] s in
           if option_throws (ps_calls s) i name value then Thrown s' else Done tt s'
       end) (m_services s).

(** [before_starting] and [after_stopping]. *)
Definition before_starting : comp plugin_server unit :=
  modify (fun s => with_calls (manager_run (fun i l => l ++ [call_start i]) (m_services s) []) s).
Definition after_stopping : comp plugin_server unit :=
  modify (fun s => with_calls (manager_run (fun i l => l ++ [call_stop i]) (m_services s) []) s).

(** What [start] and [stop] of the TCP server do to the services. *)
Definition start_services : comp plugin_server unit :=
  b ← gets ps_listening;
  if b : bool then mret tt else before_starting;; modify (with_listening true).
Definition stop_services : comp plugin_server unit :=
  b ← gets ps_listening;
  if b : bool then modify (with_listening false);; after_stopping else mret tt.

Definition clear : comp plugin_server unit :=
  stop_services;; lift_manager manager_clear;; modify (with_server clear_resources).

(** The commands; [my_auth_ptr] is null at the beginning. *)
Definition new_config_auth (now : Z) (value : bytes) : option config_auth :=
  if bytes_eqb value (str "basic") then
    Some (with_basic (new_basic_auth new_user_manager (str "PION") now))
  else if bytes_eqb value (str "cookie") then
    Some (with_cookie (new_cookie_auth new_user_manager (str "/login") (str "/logout") [] now))
  else None.

(** The effect of a command on [my_auth_ptr]; [None] for the dereference of the null pointer. *)
Definition auth_command (now : Z) (cmd : config_command) (a : option config_auth)
  : option (option config_auth) :=
  match cmd with
  | cmd_auth value =>
      Some (match new_config_auth now value with Some a' => Some a' | None => a end)
  | cmd_restrict value => a ← a; Some (Some (map_config_auth (add_restrict value) a))
  | cmd_user username value =>
      a ← a; Some (Some (map_config_auth (fun a => snd (auth_add_user username value a)) a))
  | _ => Some a
  end.

(** The name and the value of an option: a value without [=] is both. *)
Definition split_option (value : bytes) : bytes * bytes :=
  match find_char "="%byte value with
  | None => (value, value)
  | Some pos => (take pos value, drop (pos + 1) value)
  end.

(** The exceptions of [add_plugin_directory] are caught. *)
Definition caught {A} (f : comp A unit) : comp A unit := fun s =>
  match f s with Thrown s' => Done tt s' | r => r end.

Definition execute (now : Z) (cmd : config_command) (a : option config_auth)
  : comp plugin_server (option config_auth) :=
  match cmd with
  | cmd_path value =>
      caught (lift_manager (lift (add_plugin_directory value)));; mret a
  | cmd_service resource value => load_service resource value;; mret a
  | cmd_option resource value =>
      set_service_option resource (fst (split_option value)) (snd (split_option value));; mret a
  | _ => match auth_command now cmd a with Some a' => mret a' | None => crash end
  end.

Fixpoint execute_all (now : Z) (cmds : list config_command) (a : option config_auth)
  : comp plugin_server (option config_auth) :=
  match cmds with
  | [] => mret a
  | cmd :: cmds' => a' ← execute now cmd a; execute_all now cmds' a'
  end.

(** A file that is not found or cannot be opened is only reported, and has no characters. *)
Definition load_service_config (now : Z) (config_name : bytes) : comp plugin_server unit :=
  config_file ← lift_manager (lift (find_config_file config_name));
  let text := default [] (file_content (default [] config_file)) in
  my_auth_ptr ← execute_all now (parse_config text) None;
  modify (with_server (set_authentication my_auth_ptr)).

End Operations.

(** ** The language of configuration files *)

Definition value_ok (v : bytes) : Prop :=
  Forall (fun c => is_line_end c = false) v /\ exists c v', v = c :: v' /\ is_blank c = false.

Definition argument_ok (a : bytes) : Prop :=
  a <> [] /\ Forall (fun c => is_line_end c = false /\ is_blank c = false) a.

Definition blanks_ok (b : bytes) : Prop := b <> [] /\ Forall (fun c => is_blank c = true) b.

(** A command with a value, and one with an argument and a value. *)
Inductive value_command : bytes -> (bytes -> config_command) -> Prop :=
| vc_path : value_command (str "path") cmd_path
| vc_auth : value_command (str "auth") cmd_auth
| vc_restrict : value_command (str "restrict") cmd_restrict.

Inductive argument_command : bytes -> (bytes -> bytes -> config_command) -> Prop :=
| ac_user : argument_command (str "user") cmd_user
| ac_service : argument_command (str "service") cmd_service
| ac_option : argument_command (str "option") cmd_option.

(** The files of the documented form: empty lines, comments, and commands in any mixture of
    upper and lower case letters. *)
Inductive config_text : bytes -> list config_command -> Prop :=
| ct_nil : config_text [] []
| ct_empty e t l : is_line_end e = true -> config_text t l -> config_text (e :: t) l
| ct_comment s e t l :
    Forall (fun c => is_line_end c = false) s -> is_line_end e = true -> config_text t l ->
    config_text ("#"%byte :: s ++ e :: t) l
| ct_value w name f b v e t l :
    Forall (fun c => isalpha c = true) w -> to_lower w = name -> value_command name f ->
    blanks_ok b -> value_ok v -> is_line_end e = true -> config_text t l ->
    config_text (w ++ b ++ v ++ e :: t) (f v :: l)
| ct_argument w name f b a b' v e t l :
    Forall (fun c => isalpha c = true) w -> to_lower w = name -> argument_command name f ->
    blanks_ok b -> argument_ok a -> blanks_ok b' -> value_ok v -> is_line_end e = true -> config_text t l ->
    config_text (w ++ b ++ a ++ b' ++ v ++ e :: t) (f a v :: l).

Lemma config_run_app s t p :
  config_run (s ++ t) p
  = let '(l1, q) := config_run s p in let '(l2, r) := config_run t q in (l1 ++ l2, r).
Proof.
  revert p. induction s as [|c s IH]; intros p; cbn [config_run app].
  { by destruct (config_run t p). }
  destruct (config_char c p) as [p' o]. rewrite IH. destruct (config_run s p') as [l1 q].
  destruct (config_run t q). by rewrite app_assoc.
Qed.

(** The characters of [s] only move the parser from [p] to [q]. *)
Definition silent (s : bytes) (p q : config_parser) : Prop := config_run s p = ([], q).

Lemma silent_nil p : silent [] p p.
Proof. done. Qed.

Lemma silent_cons c s p p' q : config_char c p = (p', None) -> silent s p' q -> silent (c :: s) p q.
Proof. unfold silent. cbn [config_run]. intros -> ->. done. Qed.

Lemma silent_app s t p q : silent s p q -> config_run (s ++ t) p = config_run t q.
Proof. unfold silent. rewrite config_run_app. intros ->. by destruct (config_run t q). Qed.

Lemma alpha_facts c : isalpha c = true -> (c =c "#"%byte) = false /\ is_blank c = false.
Proof. revert c. by_all_chars c; by split. Qed.

Lemma blank_facts c : is_blank c = true -> is_line_end c = false.
Proof. revert c. by_all_chars c. Qed.

Lemma silent_word w cmd r u v :
  Forall (fun c => isalpha c = true) w -> w <> [] ->
  silent w (mk_config_parser PARSE_NEWLINE cmd r u v) (mk_config_parser PARSE_COMMAND (cmd ++ to_lower w) r u v).
Proof.
  assert (forall w cmd, Forall (fun c => isalpha c = true) w ->
            silent w (mk_config_parser PARSE_COMMAND cmd r u v) (mk_config_parser PARSE_COMMAND (cmd ++ to_lower w) r u v)) as Hc.
  { clear. induction w as [|c w IH]; intros cmd Hw; [cbn; rewrite app_nil_r; apply silent_nil|].
    apply Forall_cons in Hw as [Hc Hw]. destruct (alpha_facts c Hc) as [_ Hb].
    eapply silent_cons.
    - unfold config_char. cbn [parse_state command_string resource_string username_string value_string].
      by rewrite Hb, Hc.
    - cbn [to_lower fmap list_fmap]. change (cmd ++ tolower c :: (tolower <$> w)) with (cmd ++ [tolower c] ++ to_lower w).
      rewrite app_assoc. by apply IH. }
  intros Hw Hne. destruct w as [|c w]; [done|]. apply Forall_cons in Hw as [Hc' Hw].
  destruct (alpha_facts c Hc') as [Hh _]. eapply silent_cons.
  - unfold config_char. cbn [parse_state command_string resource_string username_string value_string].
    by rewrite Hh, Hc'.
  - cbn [to_lower fmap list_fmap]. change (cmd ++ tolower c :: (tolower <$> w)) with (cmd ++ [tolower c] ++ to_lower w).
    rewrite app_assoc. by apply Hc.
Qed.

Lemma silent_loop (P : char -> Prop) b p :
  Forall P b -> (forall c, P c -> config_char c p = (p, None)) -> silent b p p.
Proof. intros Hb Hp. induction Hb; [apply silent_nil|]. eapply silent_cons; [by apply Hp|done]. Qed.

(** The value of a line, after its command and argument. *)
Lemma value_run b v e t cmd r u :
  Forall (fun c => is_blank c = true) b -> value_ok v -> is_line_end e = true ->
  config_run (b ++ v ++ e :: t) (mk_config_parser PARSE_VALUE cmd r u [])
  = (option_list (finished_command (mk_config_parser PARSE_VALUE cmd r u v))
     ++ fst (config_run t (mk_config_parser PARSE_NEWLINE [] r u v)),
     snd (config_run t (mk_config_parser PARSE_NEWLINE [] r u v))).
Proof.
  intros Hb (Hv & c0 & v0 & Ev & Hc0) He.
  rewrite (silent_app b _ _ (mk_config_parser PARSE_VALUE cmd r u [])).
  2:{ apply (silent_loop (fun c => is_blank c = true)); [done|]. intros c Hc. unfold config_char.
      cbn [parse_state command_string resource_string username_string value_string].
      by rewrite (blank_facts c Hc), Hc, bool_decide_true. }
  rewrite (silent_app v _ _ (mk_config_parser PARSE_VALUE cmd r u v)).
  2:{ assert (forall w acc, acc <> [] -> Forall (fun c => is_line_end c = false) w ->
                silent w (mk_config_parser PARSE_VALUE cmd r u acc) (mk_config_parser PARSE_VALUE cmd r u (acc ++ w))) as Hw.
      { clear. induction w as [|c w IH]; intros acc Ha Hw; [rewrite app_nil_r; apply silent_nil|].
        apply Forall_cons in Hw as [Hc Hw]. eapply silent_cons.
        - unfold config_char. cbn [parse_state command_string resource_string username_string value_string].
          by rewrite Hc, (bool_decide_false (acc = [])), andb_false_r.
        - specialize (IH (acc ++ [c])). rewrite <- app_assoc in IH. apply IH; [|done]. by destruct acc. }
      subst v. apply Forall_cons in Hv as [Hl Hv]. eapply silent_cons.
      - unfold config_char. cbn [parse_state command_string resource_string username_string value_string].
        by rewrite Hl, Hc0.
      - by apply (Hw v0 [c0]). }
  cbn [config_run]. unfold config_char.
  cbn [parse_state command_string resource_string username_string value_string].
  rewrite He, bool_decide_false by (by subst v).
  by destruct (config_run t (mk_config_parser PARSE_NEWLINE [] r u v)).
Qed.

Lemma argument_run (st : parse_state_t) b a b' t cmd r u v :
  Forall (fun c => is_blank c = true) b -> argument_ok a -> blanks_ok b' ->
  (st = PARSE_RESOURCE /\ r = [] \/ st = PARSE_USERNAME /\ u = []) ->
  exists b'', Forall (fun c => is_blank c = true) b'' /\
  config_run (b ++ a ++ b' ++ t) (mk_config_parser st cmd r u v)
  = config_run (b'' ++ t)
      (match st with
       | PARSE_RESOURCE => mk_config_parser PARSE_VALUE cmd a u []
       | _ => mk_config_parser PARSE_VALUE cmd r a []
       end).
Proof.
  intros Hb [Ha0 Ha] [Hb0 Hb'] Hst. destruct b' as [|c b'']; [done|]. apply Forall_cons in Hb' as [Hc Hb''].
  exists b''. split; [done|].
  rewrite (silent_app b _ _ (mk_config_parser st cmd r u v)).
  2:{ apply (silent_loop (fun c => is_blank c = true)); [done|]. intros d Hd. unfold config_char.
      cbn [parse_state command_string resource_string username_string value_string].
      destruct Hst as [[-> ->]|[-> ->]]; by rewrite Hd, bool_decide_true. }
  set (q := fun x => match st with
                     | PARSE_RESOURCE => mk_config_parser st cmd x u v
                     | _ => mk_config_parser st cmd r x v end).
  assert (mk_config_parser st cmd r u v = q []) as -> by (destruct Hst as [[-> ->]|[-> ->]]; done).
  rewrite (silent_app a _ _ (q a)).
  2:{ assert (forall w acc, Forall (fun c => is_line_end c = false /\ is_blank c = false) w ->
                silent w (q acc) (q (acc ++ w))) as Hw.
      { clear -Hst. induction w as [|d w IH]; intros acc Hw; [rewrite app_nil_r; apply silent_nil|].
        apply Forall_cons in Hw as [[Hd1 Hd2] Hw]. apply (silent_cons _ _ _ (q (acc ++ [d]))).
        - unfold config_char, q. destruct Hst as [[-> ->]|[-> ->]];
            cbn [parse_state command_string resource_string username_string value_string]; by rewrite Hd2, Hd1.
        - specialize (IH (acc ++ [d])). rewrite <- app_assoc in IH. by apply IH. }
      by apply (Hw a []). }
  cbn [app config_run].
  assert (config_char c (q a) = (match st with
       | PARSE_RESOURCE => mk_config_parser PARSE_VALUE cmd a u []
       | _ => mk_config_parser PARSE_VALUE cmd r a []
       end, None)) as ->.
  { unfold config_char, q. destruct Hst as [[-> ->]|[-> ->]];
      cbn [parse_state command_string resource_string username_string value_string];
      by rewrite Hc, bool_decide_false. }
  cbn [option_list app]. by destruct (config_run (b'' ++ t) _).
Qed.

Lemma word_run w name b t r u v :
  Forall (fun c => isalpha c = true) w -> to_lower w = name -> name <> [] -> blanks_ok b ->
  exists c b', b = c :: b' /\ is_blank c = true /\ Forall (fun c => is_blank c = true) b' /\
    config_run (w ++ b ++ t) (mk_config_parser PARSE_NEWLINE [] r u v)
    = config_run (c :: b' ++ t) (mk_config_parser PARSE_COMMAND name r u v).
Proof.
  intros Hw Hn Hne [Hb0 Hb]. destruct b as [|c b']; [done|]. apply Forall_cons in Hb as [Hc Hb].
  exists c, b'. split; [done|]. split; [done|]. split; [done|]. subst name.
  apply (silent_app _ _ _ _). apply (silent_word w [] r u v Hw). by destruct w.
Qed.

Lemma config_text_run text l r u v :
  config_text text l -> fst (config_run text (mk_config_parser PARSE_NEWLINE [] r u v)) = l.
Proof.
  intros Ht. revert r u v. induction Ht as [|e t l He Ht IH|s e t l Hs He Ht IH
    |w name f b x e t l Hw Hn Hf Hb Hx He Ht IH|w name f b a b' x e t l Hw Hn Hf Hb Ha Hb' Hx He Ht IH]; intros r u v.
  - done.
  - cbn [config_run]. assert (config_char e (mk_config_parser PARSE_NEWLINE [] r u v)
      = (mk_config_parser PARSE_NEWLINE [] r u v, None)) as ->.
    { unfold config_char. cbn [parse_state]. revert He. by_all_chars e. }
    specialize (IH r u v). by destruct (config_run t _).
  - assert (silent ("#"%byte :: s) (mk_config_parser PARSE_NEWLINE [] r u v) (mk_config_parser PARSE_COMMENT [] r u v)) as H1.
    { eapply silent_cons; [reflexivity|]. apply (silent_loop (fun c => is_line_end c = false)); [done|].
      intros c Hc. unfold config_char. cbn [parse_state]. by rewrite Hc. }
    rewrite app_comm_cons, (silent_app _ _ _ _ H1).
    cbn [config_run]. unfold config_char. cbn [parse_state command_string resource_string username_string value_string].
    rewrite He. specialize (IH r u v). by destruct (config_run t _).
  - assert (name <> []) as Hne by (by destruct Hf).
    destruct (word_run w name b (x ++ e :: t) r u v Hw Hn Hne Hb) as (c & b' & -> & Hc & Hb' & ->).
    cbn [config_run]. assert (config_char c (mk_config_parser PARSE_COMMAND name r u v)
      = (mk_config_parser PARSE_VALUE name r u [], None)) as ->.
    { unfold config_char. cbn [parse_state command_string]. rewrite Hc. by destruct Hf. }
    rewrite value_run by done. cbn [option_list app fst]. rewrite IH. by destruct Hf.
  - assert (name <> []) as Hne by (by destruct Hf).
    destruct (word_run w name b (a ++ b' ++ x ++ e :: t) r u v Hw Hn Hne Hb) as (c & b0 & -> & Hc & Hb0 & ->).
    cbn [config_run]. set (st := if bytes_eqb name (str "user") then PARSE_USERNAME else PARSE_RESOURCE).
    assert (exists r' u', config_char c (mk_config_parser PARSE_COMMAND name r u v)
      = (mk_config_parser st name r' u' v, None) /\ (st = PARSE_RESOURCE /\ r' = [] \/ st = PARSE_USERNAME /\ u' = []))
      as (r' & u' & -> & Hst).
    { unfold config_char, st. cbn [parse_state command_string]. rewrite Hc.
      destruct Hf; do 2 eexists; (split; [reflexivity|]); vm_compute; tauto. }
    destruct (argument_run st b0 a b' (x ++ e :: t) name r' u' v Hb0 Ha Hb' Hst) as (b2 & Hb2 & E).
    rewrite E. destruct Hf; [change st with PARSE_USERNAME|change st with PARSE_RESOURCE..]; cbn iota; rewrite value_run by done; cbn [fst snd option_list app];
      by rewrite IH.
Qed.

(** C25: a configuration file of the documented form is read as the commands it consists of:
    whatever the case of the command words, the blanks between the parts, the comments and
    empty lines, every line yields its command with its argument and its value, in the order
    of the file. *)
Theorem config_file_parsed text cmds : config_text text cmds -> parse_config text = cmds.
Proof. apply config_text_run. Qed.

(** ** The routes of the services *)

Section Fmap.
Context {V W : Type} (f : V -> W).
Implicit Types (m l : smap V).

Lemma map_find_fmap k m : map_find k (prod_map id f <$> m) = f <$> map_find k m.
Proof. induction m as [|[k' v] m IH]; [done|]. cbn. by case_decide. Qed.

Lemma map_insert_fmap k v m : map_insert k (f v) (prod_map id f <$> m) = prod_map id f <$> map_insert k v m.
Proof.
  unfold map_insert. rewrite map_find_fmap. destruct (map_find k m); [done|]. cbn [fmap option_fmap option_map].
  induction m as [|[k' v'] m IH]; [done|]. cbn. destruct (bytes_compare k k'); [done|done|]. cbn. by rewrite <- IH.
Qed.

Lemma find_resource_fmap r m : find_resource r (prod_map id f <$> m) = prod_map id f <$> find_resource r m.
Proof.
  unfold find_resource. assert (before_upper_bound r (prod_map id f <$> m) = prod_map id f <$> before_upper_bound r m) as ->.
  { induction m as [|[k v] m IH]; [done|]. cbn. destruct (bytes_compare r k); cbn; by rewrite ?IH. }
  rewrite <- fmap_reverse. induction (reverse (before_upper_bound r m)) as [|[k v] l IH]; [done|].
  cbn. by case_if.
Qed.

End Fmap.

(** The names of resources end in one slash at most. *)
Definition clean_name (r : bytes) : Prop := strip_trailing_slash (strip_trailing_slash r) = strip_trailing_slash r.

Definition clean_command (cmd : config_command) : Prop :=
  match cmd with cmd_service r _ => clean_name r | _ => True end.

Inductive server_op :=
| sop_add_service (resource : bytes) (service_ptr : inst)
| sop_load_service (resource service_name : bytes)
| sop_set_option (resource name value : bytes)
| sop_config (now : Z) (config_name : bytes)
| sop_start
| sop_stop
| sop_clear
| sop_manager (f : comp manager unit).

Section Routes.
Context `{OS} `{Host} `{cfg : UserConfig}.

Definition run_sop (op : server_op) : comp plugin_server unit :=
  match op with
  | sop_add_service resource service_ptr => add_service resource service_ptr
  | sop_load_service resource service_name => load_service resource service_name
  | sop_set_option resource name value => set_service_option resource name value
  | sop_config now config_name => load_service_config now config_name
  | sop_start => start_services
  | sop_stop => stop_services
  | sop_clear => clear
  | sop_manager f => lift_manager f
  end.

(** What else happens to the manager leaves its map alone. *)
Definition valid_sop (op : server_op) : Prop :=
  match op with
  | sop_add_service resource _ | sop_load_service resource _ => clean_name resource
  | sop_config _ _ => forall file text, file_content file = Some text -> Forall clean_command (parse_config text)
  | sop_manager f => forall m, may f m (fun _ m' => pm_map m' = pm_map m) (fun m' => pm_map m' = pm_map m)
  | _ => True
  end.

Inductive server_runs : plugin_server -> Prop :=
| server_runs_new : server_runs new_plugin_server
| server_runs_done op s s' : server_runs s -> valid_sop op -> run_sop op s = Done tt s' -> server_runs s'
| server_runs_thrown op s s' : server_runs s -> valid_sop op -> run_sop op s = Thrown s' -> server_runs s'.

(** The handlers of the server are the services of the manager. *)
Definition routed (s : plugin_server) : Prop :=
  m_resources (ps_server s) = prod_map id (service_handler ∘ fst) <$> pm_map (m_services s).

Lemma may_lift_manager {A} (f : comp manager A) s (Q : A -> plugin_server -> Prop) (E : plugin_server -> Prop) :
  may f (m_services s) (fun a m => Q a (with_services m s)) (fun m => E (with_services m s)) ->
  may (lift_manager f) s Q E.
Proof. unfold may, lift_manager. by destruct (f (m_services s)). Qed.

Lemma may_done {S A} (m : comp S A) st a st' (Q : A -> S -> Prop) E : m st = Done a st' -> Q a st' -> may m st Q E.
Proof. unfold may. by intros ->. Qed.

(** The server with another manager, when the map did not change. *)
Lemma routed_services m s : routed s -> pm_map m = pm_map (m_services s) -> routed (with_services m s).
Proof. unfold routed. intros Hr E. cbn. by rewrite E. Qed.

Lemma routed_insert r i q m s :
  routed s -> clean_name r ->
  pm_map m = map_insert (strip_trailing_slash r) (i, q) (pm_map (m_services s)) ->
  routed (with_server (add_resource (strip_trailing_slash r) (service_handler i)) (with_services m s)).
Proof.
  unfold routed, clean_name. intros Hr Hc E. cbn. rewrite Hc, E, Hr, <- map_insert_fmap. done.
Qed.

Lemma add_service_routed r i s :
  routed s -> clean_name r -> may (add_service r i) s (fun _ => routed) routed.
Proof.
  intros Hr Hc. unfold add_service. apply may_bind. eapply may_done; [reflexivity|]. cbn beta. apply may_bind.
  apply may_lift_manager. eapply may_weaken; [apply manager_add_map| |]; cbn [with_calls m_services].
  - intros [] m [q E]. eapply may_done; [reflexivity|]. by eapply (routed_insert r i q m (with_calls _ s)).
  - intros m E. by apply (routed_services m (with_calls _ s)).
Qed.

Lemma load_service_routed r n s :
  routed s -> clean_name r -> may (load_service r n) s (fun _ => routed) routed.
Proof.
  intros Hr Hc. unfold load_service. apply may_bind. apply may_lift_manager.
  eapply may_weaken; [apply manager_load_map| |].
  - intros i m [q E]. cbn beta. apply may_bind. eapply may_done; [reflexivity|]. cbn beta.
    eapply may_done; [reflexivity|]. by apply (routed_insert r i q m s).
  - intros m E. by apply routed_services.
Qed.

Lemma set_service_option_routed r n v s :
  routed s -> may (set_service_option r n v) s (fun _ => routed) routed.
Proof.
  intros Hr. unfold may, set_service_option, manager_run_one. destruct (manager_get _ _); [|done].
  by destruct (option_throws _ _ _ _).
Qed.

Lemma lift_blind_routed {A} (f : plug A) s :
  routed s -> may (lift_manager (lift f)) s (fun _ => routed) routed.
Proof.
  intros Hr. apply may_lift_manager. eapply may_weaken; [apply (blind_lift f [])| |]; cbn; intros;
    by apply routed_services.
Qed.

Lemma execute_routed now cmd a s :
  routed s -> clean_command cmd -> may (execute now cmd a) s (fun _ => routed) routed.
Proof.
  intros Hr Hc. destruct cmd as [v|v|v|u v|r v|r v]; cbn [execute].
  - apply may_bind. pose proof (lift_blind_routed (add_plugin_directory v) s Hr) as Hl. unfold may, caught in *.
    by destruct (lift_manager _ s).
  - done.
  - by destruct (auth_command now (cmd_restrict v) a).
  - by destruct (auth_command now (cmd_user u v) a).
  - apply may_bind. eapply may_weaken; [by apply load_service_routed|done|done].
  - apply may_bind. eapply may_weaken; [by apply set_service_option_routed|done|done].
Qed.

Lemma execute_all_routed now cmds a s :
  routed s -> Forall clean_command cmds -> may (execute_all now cmds a) s (fun _ => routed) routed.
Proof.
  revert a s. induction cmds as [|cmd cmds IH]; intros a s Hr Hc; [done|]. apply Forall_cons in Hc as [Hc Hcs].
  cbn [execute_all]. apply may_bind. eapply may_weaken; [by apply execute_routed| |done].
  intros a' s' Hr'. by apply IH.
Qed.

Lemma load_service_config_routed now name s :
  routed s -> (forall file text, file_content file = Some text -> Forall clean_command (parse_config text)) ->
  may (load_service_config now name) s (fun _ => routed) routed.
Proof.
  intros Hr Hc. unfold load_service_config. apply may_bind.
  eapply may_weaken; [by apply lift_blind_routed| |done]. intros f s1 H1. cbn beta. apply may_bind.
  eapply may_weaken; [apply execute_all_routed; [done|]| |done].
  - destruct (file_content (default [] f)) as [text|] eqn:E; [by eapply Hc|constructor].
  - intros a s2 H2. by eapply may_done; [reflexivity|].
Qed.

Lemma services_calls_routed op s :
  routed s -> op = start_services \/ op = stop_services -> may op s (fun _ => routed) routed.
Proof.
  intros Hr [->| ->]; unfold may, start_services, stop_services, before_starting, after_stopping, gets, modify,
    mbind, comp_bind, mret, comp_ret; by destruct (ps_listening s).
Qed.

Lemma clear_routed s : routed s -> may clear s (fun _ => routed) routed.
Proof.
  intros Hr. unfold clear. apply may_bind.
  eapply may_weaken; [apply services_calls_routed; [done|by right]| |done]. intros [] s1 H1. cbn beta.
  apply may_bind, may_lift_manager. eapply may_weaken; [apply manager_clear_map| |].
  - intros [] m E. eapply may_done; [reflexivity|]. unfold routed. cbn. by rewrite E.
  - intros m E. by apply routed_services.
Qed.

Lemma server_runs_routed s : server_runs s -> routed s.
Proof.
  assert (forall op s, routed s -> valid_sop op -> may (run_sop op) s (fun _ => routed) routed) as Hstep.
  { intros op s0 Hr Hv. destruct op; cbn [run_sop valid_sop] in *.
    - by apply add_service_routed.
    - by apply load_service_routed.
    - by apply set_service_option_routed.
    - by apply load_service_config_routed.
    - by apply services_calls_routed; [|left].
    - by apply services_calls_routed; [|right].
    - by apply clear_routed.
    - apply may_lift_manager. eapply may_weaken; [apply Hv| |]; cbn; intros; by apply routed_services. }
  induction 1 as [|op s s' _ IH Hv E|op s s' _ IH Hv E]; [done|..];
    specialize (Hstep op s IH Hv); unfold may in Hstep; by rewrite E in Hstep.
Qed.

(** C19: requests go to the services of the manager.  After any additions, loads, options and
    configuration files whose resources end in one slash at most ([clean_name], [clean_command];
    the server and the manager name another resource differently, [double_slash_not_routed]),
    whether they succeed or throw, the server finds for a request the
    handler of the service that the manager has for the longest matching resource, and finds
    none when the manager has none; after [clear] there are none at all. *)
Theorem requests_find_services s resource :
  server_runs s ->
  find_request_handler resource (ps_server s)
  = prod_map id (service_handler ∘ fst) <$> find_resource resource (pm_map (m_services s))
  /\ forall s', clear s = Done tt s' -> find_request_handler resource (ps_server s') = None
                                        /\ pm_map (m_services s') = [].
Proof.
  intros Hr%server_runs_routed. split.
  - unfold find_request_handler. rewrite Hr. apply find_resource_fmap.
  - intros s' E. unfold clear, mbind, comp_bind in E.
    destruct (stop_services s) as [[] s1|s1| |] eqn:E1; try done.
    pose proof (manager_clear_map (m_services s1)) as Hm. unfold may in Hm. unfold lift_manager in E.
    destruct (manager_clear (m_services s1)) as [[] m|m| |]; try done. injection E as <-. by split.
Qed.

(** ** What a configuration file sets *)

(** The authentication after the commands; [None] for the dereference of the null pointer. *)
Fixpoint auth_commands (now : Z) (cmds : list config_command) (a : option config_auth)
  : option (option config_auth) :=
  match cmds with
  | [] => Some a
  | cmd :: cmds' => a' ← auth_command now cmd a; auth_commands now cmds' a'
  end.

Lemma execute_all_auth now cmds a s a' s' :
  execute_all now cmds a s = Done a' s' ->
  auth_commands now cmds a = Some a'.
Proof.
  revert a s. induction cmds as [|cmd cmds IH]; intros a s E; [by injection E as -> ->|].
  cbn [execute_all auth_commands] in *. unfold mbind at 1, comp_bind in E.
  destruct (execute now cmd a s) as [a1 s1|s1| |] eqn:E1; try done. apply IH in E.
  assert (auth_command now cmd a = Some a1) as ->; [|exact E].
  destruct cmd as [v|v|v|u v|r v|r v]; cbn [execute] in E1; unfold mbind, comp_bind in E1.
  - destruct (caught _ s) as [[] s2|s2| |]; try done. by injection E1 as -> ->.
  - by injection E1 as <- <-.
  - destruct (auth_command now (cmd_restrict v) a); [|done]. by injection E1 as -> ->.
  - destruct (auth_command now (cmd_user u v) a); [|done]. by injection E1 as -> ->.
  - destruct (load_service r v s) as [[] s2|s2| |]; try done. by injection E1 as -> ->.
  - destruct (set_service_option _ _ _ s) as [[] s2|s2| |]; try done. by injection E1 as -> ->.
Qed.

Definition is_auth (cmd : config_command) : Prop := match cmd with cmd_auth _ => True | _ => False end.

(** What holds of the authentication object after commands without [auth]. *)
Record restricts (rs : list bytes) (users : bool) (a : auth) : Prop := mk_restricts {
  rt_ok : map_ok (m_restrict_list a);
  rt_list : forall r, r ∈ rs -> map_find (strip_trailing_slash r) (m_restrict_list a) = Some tt;
  rt_white : m_white_list a = [];
  rt_users : users = true -> um_empty (m_user_manager a) = false
}.

Lemma add_user_nonempty u v (a : auth) : um_empty (m_user_manager (snd (auth_add_user u v a))) = false.
Proof.
  unfold auth_add_user, add_user, um_empty.
  destruct (map_find u (m_users (m_user_manager a))) as [q|] eqn:Ef; cbn; apply bool_decide_eq_false.
  - intros E. by rewrite E in Ef.
  - unfold map_insert. rewrite Ef. destruct (m_users (m_user_manager a)) as [|[k w] l]; [done|].
    cbn. by destruct (bytes_compare u k).
Qed.

Lemma restrict_once r a rs users :
  restricts rs users a -> restricts (r :: rs) users (add_restrict r a).
Proof.
  intros [H1 H2 H3 H4]. split; cbn [add_restrict m_restrict_list m_white_list m_user_manager]; [|..|done|done].
  - by apply map_insert_ok.
  - intros r' Hr'. rewrite map_find_insert by done. case_decide as E; [by destruct (map_find _ _) as [[]|]|].
    apply elem_of_cons in Hr' as [->|Hr']; [done|by apply H2].
Qed.

Lemma user_once u v a rs users :
  restricts rs users a -> restricts rs true (snd (auth_add_user u v a)).
Proof.
  intros [H1 H2 H3 H4]. pose proof (add_user_nonempty u v a) as Hn.
  unfold auth_add_user in *. destruct (add_user u v (m_user_manager a)) as [ok um]. by split.
Qed.

Definition restricted_by (cmds : list config_command) : list bytes :=
  cmds ≫= (fun cmd => match cmd with cmd_restrict r => [r] | _ => [] end).
Definition adds_user (cmds : list config_command) : bool :=
  existsb (fun cmd => match cmd with cmd_user _ _ => true | _ => false end) cmds.

Lemma auth_of_map f a : config_auth_of (map_config_auth f a) = f (config_auth_of a).
Proof. by destruct a. Qed.

Lemma auth_commands_restricts now cmds a rs users :
  Forall (fun cmd => ~ is_auth cmd) cmds -> restricts rs users (config_auth_of a) ->
  exists a', auth_commands now cmds (Some a) = Some (Some a')
             /\ restricts (reverse (restricted_by cmds) ++ rs) (users || adds_user cmds) (config_auth_of a').
Proof.
  intros Hn. revert a rs users. induction Hn as [|cmd cmds Hc Hn IH]; intros a rs users Hr.
  { exists a. by rewrite orb_false_r. }
  cbn [auth_commands]. destruct cmd as [v|v|v|u v|r v|r v]; cbn [auth_command mbind option_bind]; try by apply IH.
  - by destruct Hc.
  - destruct (IH (map_config_auth (add_restrict v) a) (v :: rs) users) as (a' & E & H').
    { rewrite auth_of_map. by apply restrict_once. }
    exists a'. split; [exact E|]. unfold restricted_by. rewrite bind_cons. cbn [app]. rewrite reverse_cons, <- app_assoc.
    exact H'.
  - destruct (IH (map_config_auth (fun a => snd (auth_add_user u v a)) a) rs true) as (a' & E & H').
    { rewrite auth_of_map. by eapply user_once. }
    exists a'. split; [exact E|]. cbn [adds_user existsb orb]. rewrite orb_true_r. exact H'.
Qed.

Lemma auth_commands_app now l1 l2 a :
  auth_commands now (l1 ++ l2) a = a' ← auth_commands now l1 a; auth_commands now l2 a'.
Proof.
  revert a. induction l1 as [|cmd l1 IH]; intros a; [done|]. cbn [app auth_commands].
  destruct (auth_command now cmd a); [apply IH|done].
Qed.

(** C20: a configuration file protects what it restricts.  When the file is loaded, and after
    its last [auth basic] or [auth cookie] it has the commands [restrict] for a resource and
    [user] for some user, the server has an authentication object, and every request for the
    resource or below it needs authentication. *)
Theorem config_restricts_resource now name s s' :
  load_service_config now name s = Done tt s' ->
  exists file p,
    find_config_file name (pm_plugins (m_services s)) = Done file p
    /\ forall pre value post r,
         parse_config (default [] (file_content (default [] file))) = pre ++ cmd_auth value :: post ->
         value = str "basic" \/ value = str "cookie" -> Forall (fun cmd => ~ is_auth cmd) post ->
         r ∈ restricted_by post -> adds_user post = true ->
         exists a, m_auth_ptr (ps_server s') = Some a
                   /\ forall m, under (strip_trailing_slash r) (strip_trailing_slash (get_resource m)) ->
                                need_authentication m (config_auth_of a) = true.
Proof.
  intros E. unfold load_service_config, mbind, comp_bind in E. unfold lift_manager, lift in E.
  destruct (find_config_file name (pm_plugins (m_services s))) as [file p|p| |]; try done.
  exists file, p. split; [done|]. set (text := default [] _) in *.
  destruct (execute_all now (parse_config text) None _) as [a s1|s1| |] eqn:E1; try done.
  apply execute_all_auth in E1. injection E as <-. intros pre value post r Ep Hv Hn Hr Hu.
  rewrite Ep, auth_commands_app in E1. destruct (auth_commands now pre None) as [a0|]; [|done].
  cbn [mbind option_bind auth_commands auth_command] in E1.
  assert (exists a1, new_config_auth now value = Some a1 /\ config_auth_of a1 = new_auth new_user_manager)
    as (a1 & E2 & E3) by (destruct Hv as [->| ->]; eexists; split; reflexivity).
  rewrite E2 in E1. destruct (auth_commands_restricts now post a1 [] false Hn) as (a' & E4 & H').
  { rewrite E3. split; [constructor|by intros r' ?%elem_of_nil|done|done]. }
  rewrite E4 in E1. injection E1 as <-. rewrite app_nil_r, Hu in H'. destruct H' as [H1 H2 H3 H4].
  exists a'. split; [done|]. intros m Hm. apply (need_authentication_under _ _ (strip_trailing_slash r)).
  - by apply H4.
  - done.
  - apply H2. by rewrite elem_of_reverse.
  - done.
  - unfold auth_find_resource, find_resource. by rewrite H3.
Qed.

End Routes.

(** ** The authentication object as the server uses it *)

Lemma bind_Ok {A B} (m : res A) (k : A -> res B) b : m ≫= k = Ok b -> exists a, m = Ok a /\ k a = Ok b.
Proof. destruct m as [a|f]; [|done]. by exists a. Qed.

Section Authentication.
Context `{cfg : UserConfig}.

#[export] Instance config_authenticator : Authenticator config_auth := {|
  auth_of := config_auth_of;
  authenticate now rnd m c a :=
    match a with
    | with_basic b => '(ok, b', m', c') ← authenticate now rnd m c b; Ok (ok, with_basic b', m', c')
    | with_cookie b => '(ok, b', m', c') ← authenticate now rnd m c b; Ok (ok, with_cookie b', m', c')
    end
|}.

#[export] Program Instance config_auth_laws : AuthenticatorLaws config_auth := {|
  auth_ok now a := match a with with_basic b => auth_ok now b | with_cookie b => auth_ok now b end;
  exempt m a := match a with with_basic b => exempt m b | with_cookie b => exempt m b end
|}.
Next Obligation.
  intros now now' rnd m c a ok a' m' c' Hok Hn H. destruct a as [b|b]; cbn [authenticate config_authenticator] in H;
    apply bind_Ok in H as ([[[ok1 b1] m1] c1] & H1 & [= <- <- <- <-]);
    destruct (auth_preserved _ _ _ _ _ _ _ _ _ _ Hok Hn H1) as [H2 H3]; by split.
Qed.
Next Obligation.
  intros now now' rnd m c a a' m' c' Hok Hn H. destruct a as [b|b]; cbn [authenticate config_authenticator] in H;
    apply bind_Ok in H as ([[[ok1 b1] m1] c1] & H1 & [= -> <- <- <-]);
    by apply (auth_granted _ _ _ _ _ _ _ _ _ Hok Hn H1).
Qed.
Next Obligation.
  intros now rnd m c a a' m' c' H. destruct a as [b|b]; cbn [authenticate config_authenticator] in H;
    apply bind_Ok in H as ([[[ok1 b1] m1] c1] & H1 & [= -> <- <- <-]);
    by apply (auth_refused _ _ _ _ _ _ _ _ H1).
Qed.

End Authentication.

(** ** Examples and deviations *)

#[local] Existing Instance padding_config.
#[local] Existing Instance sample_os.

(** Services that say who they are, and the files [site.conf] and [open.conf]. *)
#[local] Instance sample_host : Host := {|
  service_handler i := say (to_string (Z.of_nat i));
  option_throws _ _ _ v := bytes_eqb v (str "bad");
  file_content f :=
    if bytes_eqb f (str "site.conf") then
      Some (line (str "# the site") ++ line (str "Service /a good") ++ line (str "AUTH  basic")
            ++ line (str "restrict /a/") ++ line (str "user ann secret") ++ line (str "option /a mode=x y"))
    else if bytes_eqb f (str "open.conf") then Some (line (str "restrict /a"))
    else None
|}.

Definition site_commands : list config_command :=
  [cmd_service (str "/a") (str "good"); cmd_auth (str "basic"); cmd_restrict (str "/a/");
   cmd_user (str "ann") (str "secret"); cmd_option (str "/a") (str "mode=x y")].

Ltac solve_parts := repeat first
  [ apply Forall_nil_2 | apply Forall_cons_2; [by vm_compute|] | split | discriminate
  | do 2 eexists; split; [reflexivity|by vm_compute] ].

Lemma site_text :
  config_text (default [] (file_content (str "site.conf"))) site_commands.
Proof.
  apply (ct_comment (str " the site") LF); [solve_parts|done|].
  apply (ct_argument (str "Service") (str "service") cmd_service [SP] (str "/a") [SP] (str "good") LF);
    [solve_parts|reflexivity|constructor|solve_parts..|done|].
  apply (ct_value (str "AUTH") (str "auth") cmd_auth [SP; SP] (str "basic") LF);
    [solve_parts|reflexivity|constructor|solve_parts..|done|].
  apply (ct_value (str "restrict") (str "restrict") cmd_restrict [SP] (str "/a/") LF);
    [solve_parts|reflexivity|constructor|solve_parts..|done|].
  apply (ct_argument (str "user") (str "user") cmd_user [SP] (str "ann") [SP] (str "secret") LF);
    [solve_parts|reflexivity|constructor|solve_parts..|done|].
  apply (ct_argument (str "option") (str "option") cmd_option [SP] (str "/a") [SP] (str "mode=x y") LF);
    [solve_parts|reflexivity|constructor|solve_parts..|done|constructor].
Qed.

Lemma config_file_parsed_witness :
  parse_config (default [] (file_content (str "site.conf"))) = site_commands.
Proof. apply (config_file_parsed _ _ site_text). Defined.

Definition site_server : plugin_server := after (load_service_config 0 (str "site")) new_plugin_server.

Lemma site_loaded : match load_service_config 0 (str "site") new_plugin_server with
                    | Done _ _ => true | _ => false end = true.
Proof. vm_compute. reflexivity. Qed.

Lemma site_server_done : load_service_config 0 (str "site") new_plugin_server = Done tt site_server.
Proof.
  pose proof site_loaded as H. unfold site_server, after.
  destruct (load_service_config 0 (str "site") new_plugin_server) as [[] s|s| |]; [reflexivity|discriminate H..].
Qed.

Lemma config_restricts_resource_witness :
  exists a, m_auth_ptr (ps_server site_server) = Some a
            /\ need_authentication (get_of (str "/a/page")) (config_auth_of a) = true.
Proof.
  destruct (config_restricts_resource 0 (str "site") new_plugin_server site_server site_server_done)
    as (file & p & E & H).
  assert (file = Some (str "site.conf")) as ->.
  { assert (match find_config_file (str "site") (pm_plugins (m_services new_plugin_server)) with
            | Done f _ => f | _ => None end = Some (str "site.conf")) as E' by (vm_compute; reflexivity).
    rewrite E in E'. exact E'. }
  destruct (H [cmd_service (str "/a") (str "good")] (str "basic")
              [cmd_restrict (str "/a/"); cmd_user (str "ann") (str "secret"); cmd_option (str "/a") (str "mode=x y")]
              (str "/a/")) as (a & Ha & Hm).
  - vm_compute. reflexivity.
  - left. reflexivity.
  - repeat constructor; intros [].
  - vm_compute. left.
  - reflexivity.
  - exists a. split; [exact Ha|]. apply Hm. right. exists (str "page"). vm_compute. reflexivity.
Defined.

Lemma requests_find_services_witness :
  server_runs site_server
  /\ fst <$> find_request_handler (str "/a/page") (ps_server site_server) = Some (str "/a").
Proof.
  assert (server_runs site_server) as Hr.
  { apply (server_runs_done (sop_config 0 (str "site")) new_plugin_server); [constructor| |exact site_server_done].
    cbn [valid_sop]. intros file text E.
    assert (text = default [] (file_content (str "site.conf")) \/ text = default [] (file_content (str "open.conf"))) as H.
    { cbn [file_content sample_host] in E. destruct (bytes_eqb file (str "site.conf")); [left; by injection E as <-|].
      destruct (bytes_eqb file (str "open.conf")); [right; by injection E as <-|done]. }
    destruct H as [->| ->].
    - rewrite (config_text_run _ _ [] [] [] site_text : parse_config _ = _). repeat constructor; vm_compute; reflexivity.
    - vm_compute. repeat constructor. }
  split; [exact Hr|]. destruct (requests_find_services site_server (str "/a/page") Hr) as [-> _].
  vm_compute. reflexivity.
Defined.

(** A word that is no command is reported, and swallows the rest of the file: the reader
    waits for a command in everything that follows. *)
Lemma misspelt_command_swallows_file :
  parse_config (line (str "servise /a good") ++ line (str "auth basic") ++ line (str "restrict /a")) = [].
Proof. vm_compute. reflexivity. Qed.

(** A line without its value takes the next line as part of its resource. *)
Lemma truncated_line_joined :
  parse_config (line (str "service /a") ++ line (str "path /usr/lib")) = [cmd_service (str "/apath") (str "/usr/lib")].
Proof. vm_compute. reflexivity. Qed.

(** The last line is ignored when no line end follows it. *)
Lemma last_line_without_end_ignored :
  parse_config (line (str "auth basic") ++ str "restrict /a") = [cmd_auth (str "basic")].
Proof. vm_compute. reflexivity. Qed.

(** [restrict] and [user] before [auth] dereference the null pointer after reporting it. *)
Lemma restrict_before_auth_crashes :
  match load_service_config 0 (str "open") new_plugin_server with Crash => true | _ => false end = true.
Proof. vm_compute. reflexivity. Qed.

(** An option of a service that is not there calls a function of the null pointer. *)
Lemma option_of_unknown_service_crashes r n v :
  set_service_option r n v new_plugin_server = Crash.
Proof. done. Qed.

(** An option without [=] sets the option of that name to the name. *)
Lemma option_without_equals : split_option (str "writable") = (str "writable", str "writable").
Proof. reflexivity. Qed.

(** A resource with two slashes at its end is routed under another name than its service is
    managed under. *)
Lemma double_slash_not_routed :
  let s := after (load_service (str "/a//") (str "good")) new_plugin_server in
  fst <$> m_resources (ps_server s) = [str "/a"] /\ fst <$> pm_map (m_services s) = [str "/a/"].
Proof. split; vm_compute; reflexivity. Qed.
