(* ===== verification/Dates.v ===== *)
(** * Dates

    Models [types::get_date_string] (src/http_types.cpp) and [response::set_last_modified]
    (http/response.hpp).  The function prints [gmtime] of a time with [strftime] in the "C"
    locale; both are modelled as POSIX defines them, in the Gregorian calendar without leap
    seconds.  The theorems say that the fields agree with the formula by which POSIX defines
    the seconds since 1970, that every time has its own date, and that a date fits a header. *)
From S2P Require Import Prelude CLib Dict HttpTypes Message ParserBase ParserHeaders.

(** ** The calendar *)

(** The members of [struct tm] the format uses: [tm_mon] and [tm_wday] count from 0, the
    year is [tm_year + 1900]. *)
Record tm := mk_tm {
  tm_sec : Z;
  tm_min : Z;
  tm_hour : Z;
  tm_mday : Z;
  tm_mon : Z;
  tm_year : Z;
  tm_wday : Z;
  tm_yday : Z
}.

Definition is_leap (year : Z) : bool :=
  (year mod 4 =? 0) && (negb (year mod 100 =? 0) || (year mod 400 =? 0)).

(** The days of a year before its month [mon]. *)
Definition days_before_month (leap : bool) (mon : Z) : Z :=
  nth (Z.to_nat mon) [0; 31; 59; 90; 120; 151; 181; 212; 243; 273; 304; 334] 365
  + (if leap && (1 <? mon) then 1 else 0).

(** The days from 1 January 1970 to 1 January of [year]. *)
Definition days_before_year (year : Z) : Z :=
  (year - 1970) * 365 + (year - 1969) / 4 - (year - 1901) / 100 + (year - 1601) / 400.

(** The month of a day of the year: the last one that does not begin after it. *)
Definition month_of_day (leap : bool) (yday : Z) : Z :=
  foldl (fun mon m => if days_before_month leap m <=? yday then m else mon) 0
    [1; 2; 3; 4; 5; 6; 7; 8; 9; 10; 11].

(** The year of a day: the day is found in its period of 400 years, which begins with 1
    January 2001 so that the leap years come last, then in the centuries, in the periods of
    four years and in the years. *)
Definition year_of_day (day : Z) : Z :=
  let d := day - 11323 in
  let era := d / 146097 in
  let doe := d mod 146097 in
  let c := Z.min 3 (doe / 36524) in
  let doc := doe - c * 36524 in
  let q := doc / 1461 in
  let y := Z.min 3 (doc mod 1461 / 365) in
  2001 + 400 * era + 100 * c + 4 * q + y.

(** [gmtime]: a null pointer when the year is no [int]. *)
Definition gmtime (t : Z) : option tm :=
  let day := t / 86400 in
  let year := year_of_day day in
  let yday := day - days_before_year year in
  let mon := month_of_day (is_leap year) yday in
  if (INT_MIN <=? year - 1900) && (year - 1900 <=? INT_MAX)
  then Some (mk_tm (t mod 60) (t / 60 mod 60) (t / 3600 mod 24)
               (yday - days_before_month (is_leap year) mon + 1) mon (year - 1900)
               ((day + 4) mod 7) yday)
  else None.

(** ** Printing *)

Definition day_names : list bytes :=
  [str "Sun"; str "Mon"; str "Tue"; str "Wed"; str "Thu"; str "Fri"; str "Sat"].

Definition month_names : list bytes :=
  [str "Jan"; str "Feb"; str "Mar"; str "Apr"; str "May"; str "Jun";
   str "Jul"; str "Aug"; str "Sep"; str "Oct"; str "Nov"; str "Dec"].

Definition two_digits (n : Z) : bytes := [digit_char (n / 10); digit_char (n mod 10)].

(** A decimal number, as [%Y] prints the year. *)
Definition decimal (n : Z) : bytes := if n <? 0 then "-"%byte :: to_string (- n) else to_string n.

(** [strftime] with the format "%a, %d %b %Y %H:%M:%S GMT". *)
Definition strftime (d : tm) : bytes :=
  nth (Z.to_nat (tm_wday d)) day_names (str "?") ++ str ", " ++ two_digits (tm_mday d) ++ str " "
  ++ nth (Z.to_nat (tm_mon d)) month_names (str "?") ++ str " " ++ decimal (tm_year d + 1900) ++ str " "
  ++ two_digits (tm_hour d) ++ str ":" ++ two_digits (tm_min d) ++ str ":" ++ two_digits (tm_sec d)
  ++ str " GMT".

(** [TIME_BUF_SIZE]; the text and its end must fit. *)
Definition TIME_BUF_SIZE : Z := 100.

(** [types::get_date_string]: the result of [gmtime] is not compared with the null pointer. *)
Definition get_date_string (t : Z) : res bytes :=
  match gmtime t with
  | None => Fault undefined_behaviour
  | Some d => let text := strftime d in Ok (if zlen text <? TIME_BUF_SIZE then text else [])
  end.

(** An [unsigned long] as a [time_t]. *)
Definition time_t (t : Z) : Z := (u64 t + 2 ^ 63) mod 2 ^ 64 - 2 ^ 63.

(** [response::set_last_modified]. *)
Definition set_last_modified (t : Z) (m : message) : res message :=
  date ← get_date_string (time_t t);
  Ok (change_header HEADER_LAST_MODIFIED date m).

Example date_0 : get_date_string 0 = Ok (str "Thu, 01 Jan 1970 00:00:00 GMT").
Proof. reflexivity. Qed.

Example date_1e9 : get_date_string 1000000000 = Ok (str "Sun, 09 Sep 2001 01:46:40 GMT").
Proof. reflexivity. Qed.

Example date_leap : get_date_string 951827696 = Ok (str "Tue, 29 Feb 2000 12:34:56 GMT").
Proof. reflexivity. Qed.

Example date_before : get_date_string (-1) = Ok (str "Wed, 31 Dec 1969 23:59:59 GMT").
Proof. reflexivity. Qed.

(** ** The calendar is that of POSIX *)

(** The parts of the year that [year_of_day] finds. *)
Lemma year_parts d :
  exists era c q y,
    year_of_day d = 2001 + 400 * era + 100 * c + 4 * q + y
    /\ 0 <= c <= 3 /\ 0 <= q <= 24 /\ 0 <= y <= 3
    /\ 0 <= d - (11323 + 146097 * era + 36524 * c + 1461 * q + 365 * y)
         < 365 + (if (y =? 3) && (negb (q =? 24) || (c =? 3)) then 1 else 0).
Proof.
  unfold year_of_day. set (e := d - 11323).
  pose proof (Z.div_mod e 146097 ltac:(lia)). pose proof (Z.mod_pos_bound e 146097 ltac:(lia)).
  set (doe := e mod 146097) in *. set (c := Z.min 3 (doe / 36524)).
  assert (0 <= c <= 3 /\ 0 <= doe - c * 36524 < 36524 + (if c =? 3 then 1 else 0)) as [Hc Hd].
  { pose proof (Z.div_mod doe 36524 ltac:(lia)). pose proof (Z.mod_pos_bound doe 36524 ltac:(lia)).
    subst c. destruct (Z.eqb_spec (Z.min 3 (doe / 36524)) 3); lia. }
  set (doc := doe - c * 36524) in *.
  pose proof (Z.div_mod doc 1461 ltac:(lia)). pose proof (Z.mod_pos_bound doc 1461 ltac:(lia)).
  set (doq := doc mod 1461) in *.
  pose proof (Z.div_mod doq 365 ltac:(lia)). pose proof (Z.mod_pos_bound doq 365 ltac:(lia)).
  exists (e / 146097), c, (doc / 1461), (Z.min 3 (doq / 365)). split; [done|].
  split; [done|]. assert (0 <= doc / 1461 <= 24) by (destruct (c =? 3); lia).
  split; [done|]. split; [lia|].
  destruct (Z.eqb_spec (Z.min 3 (doq / 365)) 3), (Z.eqb_spec (doc / 1461) 24), (Z.eqb_spec c 3);
    cbn [andb orb negb]; lia.
Qed.

Lemma mod_next_zero (n k r : Z) : 0 <= r < n -> ((n * k + 1 + r) mod n =? 0) = (r =? n - 1).
Proof.
  intros Hr. destruct (Z.eqb_spec r (n - 1)) as [->|Hne].
  - replace (n * k + 1 + (n - 1)) with ((k + 1) * n) by lia. by rewrite Z.mod_mul by lia.
  - assert ((n * k + 1 + r) mod n = 1 + r) as -> by (symmetry; apply Z.mod_unique_pos with k; lia). lia.
Qed.

Lemma days_before_parts era c q y :
  0 <= c <= 3 -> 0 <= q <= 24 -> 0 <= y <= 3 ->
  days_before_year (2001 + 400 * era + 100 * c + 4 * q + y)
  = 11323 + 146097 * era + 36524 * c + 1461 * q + 365 * y
  /\ is_leap (2001 + 400 * era + 100 * c + 4 * q + y) = (y =? 3) && (negb (q =? 24) || (c =? 3)).
Proof.
  intros Hc Hq Hy. unfold days_before_year, is_leap. set (year := 2001 + _ + _ + _ + _).
  assert ((year - 1969) / 4 = 8 + 100 * era + 25 * c + q) as -> by (symmetry; apply Z.div_unique with y; lia).
  assert ((year - 1901) / 100 = 1 + 4 * era + c) as -> by (symmetry; apply Z.div_unique with (4 * q + y); lia).
  assert ((year - 1601) / 400 = 1 + era) as ->
    by (symmetry; apply Z.div_unique with (100 * c + 4 * q + y); lia).
  split; [lia|].
  replace year with (4 * (500 + 100 * era + 25 * c + q) + 1 + y) at 1 by lia.
  replace year with (100 * (20 + 4 * era + c) + 1 + (4 * q + y)) at 1 by lia.
  replace year with (400 * (5 + era) + 1 + (100 * c + 4 * q + y)) by lia.
  rewrite !mod_next_zero by lia.
  destruct (Z.eqb_spec y (4 - 1)), (Z.eqb_spec y 3), (Z.eqb_spec q 24), (Z.eqb_spec c 3),
    (Z.eqb_spec (4 * q + y) (100 - 1)), (Z.eqb_spec (100 * c + 4 * q + y) (400 - 1)); done || lia.
Qed.

Lemma year_of_day_ok d :
  0 <= d - days_before_year (year_of_day d) < 365 + (if is_leap (year_of_day d) then 1 else 0).
Proof.
  destruct (year_parts d) as (era & c & q & y & -> & Hc & Hq & Hy & Hd).
  destruct (days_before_parts era c q y Hc Hq Hy) as [-> ->]. exact Hd.
Qed.

Lemma month_of_day_ok (leap : bool) yday :
  0 <= yday < 365 + (if leap then 1 else 0) ->
  0 <= month_of_day leap yday <= 11
  /\ days_before_month leap (month_of_day leap yday) <= yday
     < days_before_month leap (month_of_day leap yday + 1).
Proof.
  intros Hy.
  assert (forall n, 0 <= n < Z.of_nat 366 -> (n <? 365 + (if leap then 1 else 0)) = true ->
    (0 <=? month_of_day leap n) && (month_of_day leap n <=? 11)
    && (days_before_month leap (month_of_day leap n) <=? n)
    && (n <? days_before_month leap (month_of_day leap n + 1)) = true) as H.
  { intros n Hn. pose proof (Z_below 366 (fun n => implb (n <? 365 + (if leap then 1 else 0))
      ((0 <=? month_of_day leap n) && (month_of_day leap n <=? 11)
       && (days_before_month leap (month_of_day leap n) <=? n)
       && (n <? days_before_month leap (month_of_day leap n + 1)))) ltac:(by destruct leap; vm_compute) n Hn) as H.
    intros Hlt. cbv beta in H. by rewrite Hlt in H. }
  specialize (H yday). destruct leap; lia.
Qed.

(** What [gmtime] promises of its result, which is the formula by which POSIX defines the
    seconds since 1970. *)
Record time_fields (t : Z) (d : tm) : Prop := mk_time_fields {
  tf_posix : t = tm_sec d + tm_min d * 60 + tm_hour d * 3600
                 + (days_before_year (tm_year d + 1900) + tm_yday d) * 86400;
  tf_sec : 0 <= tm_sec d < 60;
  tf_min : 0 <= tm_min d < 60;
  tf_hour : 0 <= tm_hour d < 24;
  tf_mon : 0 <= tm_mon d <= 11;
  tf_mday : tm_yday d = days_before_month (is_leap (tm_year d + 1900)) (tm_mon d) + tm_mday d - 1;
  tf_month : 1 <= tm_mday d <= 31
             /\ tm_yday d < days_before_month (is_leap (tm_year d + 1900)) (tm_mon d + 1);
  tf_wday : tm_wday d = (t / 86400 + 4) mod 7;
  tf_year : INT_MIN <= tm_year d <= INT_MAX
}.

Lemma month_length leap mon :
  0 <= mon <= 11 -> days_before_month leap (mon + 1) - days_before_month leap mon <= 31.
Proof.
  intros Hm. pose proof (Z_below 12 (fun mon => days_before_month leap (mon + 1) - days_before_month leap mon <=? 31)
    ltac:(by destruct leap; vm_compute) mon ltac:(lia)). cbv beta in *. lia.
Qed.

Lemma gmtime_fields t d : gmtime t = Some d -> time_fields t d.
Proof.
  unfold gmtime. set (day := t / 86400). set (year := year_of_day day). set (yday := day - days_before_year year).
  set (mon := month_of_day _ _). destruct (_ && _) eqn:E; [|done]. intros [= <-].
  apply andb_true_iff in E as [E1%Z.leb_le E2%Z.leb_le].
  destruct (month_of_day_ok (is_leap year) yday (year_of_day_ok day)) as [Hm Hy]. fold mon in Hm, Hy.
  pose proof (month_length (is_leap year) mon Hm).
  assert (year - 1900 + 1900 = year) as Ey by lia.
  split; cbn [tm_sec tm_min tm_hour tm_mday tm_mon tm_year tm_wday tm_yday]; rewrite ?Ey;
    try done; try (by apply Z.mod_pos_bound); try lia.
  - replace (days_before_year year + yday) with day by lia. subst day.
    assert (t / 3600 = t / 60 / 60) as -> by (symmetry; by rewrite Z.div_div by lia).
    assert (t / 86400 = t / 60 / 60 / 24) as -> by (by rewrite !Z.div_div by lia). Z.div_mod_to_equations. lia.
Qed.

(** Every time within an [int] of years has its fields. *)
Lemma gmtime_defined t :
  INT_MIN <= year_of_day (t / 86400) - 1900 <= INT_MAX -> exists d, gmtime t = Some d.
Proof. intros H. unfold gmtime. replace (_ && _) with true by lia. by eexists. Qed.

(** ** The parts of the text *)

Lemma month_name mon :
  0 <= mon <= 11 ->
  length (nth (Z.to_nat mon) month_names (str "?")) = 3%nat
  /\ forallb value_char (nth (Z.to_nat mon) month_names (str "?")) = true.
Proof.
  intros Hm. pose proof (Z_below 12 (fun mon => (length (nth (Z.to_nat mon) month_names (str "?")) =? 3)%nat
    && forallb value_char (nth (Z.to_nat mon) month_names (str "?"))) eq_refl mon ltac:(lia)) as H.
  cbv beta in H. apply andb_true_iff in H as [H%Nat.eqb_eq ?]. done.
Qed.

Lemma day_name wday :
  0 <= wday < 7 ->
  length (nth (Z.to_nat wday) day_names (str "?")) = 3%nat
  /\ forallb value_char (nth (Z.to_nat wday) day_names (str "?")) = true.
Proof.
  intros Hm. pose proof (Z_below 7 (fun wday => (length (nth (Z.to_nat wday) day_names (str "?")) =? 3)%nat
    && forallb value_char (nth (Z.to_nat wday) day_names (str "?"))) eq_refl wday ltac:(lia)) as H.
  cbv beta in H. apply andb_true_iff in H as [H%Nat.eqb_eq ?]. done.
Qed.

Lemma month_name_inj a b :
  0 <= a <= 11 -> 0 <= b <= 11 ->
  nth (Z.to_nat a) month_names (str "?") = nth (Z.to_nat b) month_names (str "?") -> a = b.
Proof.
  intros Ha Hb E. pose proof (Z_below 12 (fun a => forallb (fun b =>
    implb (bytes_eqb (nth (Z.to_nat a) month_names (str "?")) (nth (Z.to_nat b) month_names (str "?"))) (a =? b))
    (Z.of_nat <$> seq 0 12)) eq_refl a ltac:(lia)) as H.
  pose proof (Z_below 12 (fun b => implb (bytes_eqb (nth (Z.to_nat a) month_names (str "?"))
    (nth (Z.to_nat b) month_names (str "?"))) (a =? b)) H b ltac:(lia)) as H'. cbv beta in H'.
  rewrite E in H'. unfold bytes_eqb in H'. rewrite bool_decide_true in H' by done. cbn in H'. lia.
Qed.

Lemma two_digits_inj a b : 0 <= a < 100 -> 0 <= b < 100 -> two_digits a = two_digits b -> a = b.
Proof.
  intros Ha Hb. unfold two_digits. intros [= E1 E2].
  apply (f_equal uchar) in E1, E2. rewrite !uchar_digit_char in E1, E2 by (Z.div_mod_to_equations; lia).
  Z.div_mod_to_equations. repeat case_if_in E1; repeat case_if_in E2; lia.
Qed.

Lemma two_digits_value n : 0 <= n < 100 -> forallb value_char (two_digits n) = true.
Proof. apply (Z_below 100 (fun n => forallb value_char (two_digits n))). by vm_compute. Qed.

Lemma to_string_inj a b : 0 <= a <= ULONG_MAX -> 0 <= b <= ULONG_MAX -> to_string a = to_string b -> a = b.
Proof.
  intros Ha Hb E. apply (f_equal stoul) in E. rewrite !stoul_to_string in E by done. congruence.
Qed.

Lemma to_string_not_minus n s : 0 <= n -> to_string n <> "-"%byte :: s.
Proof.
  intros Hn E. pose proof (to_digits_chars 10 ltac:(lia) 20 n Hn) as H. fold (to_string n) in H. rewrite E in H.
  inversion H as [|? ? (d & Hd & Ec) _]; subst. by destruct (digit_char_plain 10 ltac:(lia) d Hd) as (_ & ? & _).
Qed.

Lemma decimal_inj a b :
  - ULONG_MAX <= a <= ULONG_MAX -> - ULONG_MAX <= b <= ULONG_MAX -> decimal a = decimal b -> a = b.
Proof.
  unfold decimal. intros Ha Hb.
  destruct (Z.ltb_spec a 0), (Z.ltb_spec b 0); intros E.
  - injection E as E. apply to_string_inj in E; lia.
  - symmetry in E. by destruct (to_string_not_minus b _ ltac:(lia) E).
  - by destruct (to_string_not_minus a _ ltac:(lia) E).
  - apply to_string_inj in E; lia.
Qed.

(** ** Dates *)

Lemma value_char_digits fuel n : 0 <= n -> forallb value_char (to_digits 10 fuel n []) = true.
Proof.
  intros Hn. apply forallb_forall. intros c Hin%list_elem_of_In.
  destruct (proj1 (Forall_forall _ _) (to_digits_chars 10 ltac:(lia) fuel n Hn) c Hin) as (d & Hd & ->).
  by apply (Z_below 10 (fun d => value_char (digit_char d))).
Qed.

Lemma decimal_value n : forallb value_char (decimal n) = true /\ zlen (decimal n) <= 21.
Proof.
  unfold decimal. destruct (Z.ltb_spec n 0).
  - pose proof (to_digits_length 10 20 (- n)) as Hl. fold (to_string (- n)) in Hl. split.
    + apply andb_true_iff. split; [done|]. apply (value_char_digits 20). lia.
    + rewrite zlen_cons. unfold zlen. lia.
  - pose proof (to_digits_length 10 20 n) as Hl. fold (to_string n) in Hl. split.
    + by apply (value_char_digits 20).
    + unfold zlen. lia.
Qed.

(** The text is printable and fits the buffer. *)
Lemma strftime_value t d :
  time_fields t d -> forallb value_char (strftime d) = true /\ zlen (strftime d) <= 50.
Proof.
  intros [_ Hs Hm Hh Hmon _ [Hd _] Hw _]. unfold strftime.
  destruct (day_name (tm_wday d)) as [Lw Vw]; [rewrite Hw; by apply Z.mod_pos_bound|].
  destruct (month_name _ Hmon) as [Lm Vm]. destruct (decimal_value (tm_year d + 1900)) as [Vy Ly].
  split.
  - rewrite !forallb_app, Vw, Vm, Vy, !two_digits_value by lia. reflexivity.
  - unfold zlen in *. rewrite !length_app, Lw, Lm. cbn [length two_digits]. 
    change (length (str ", ")) with 2%nat. change (length (str " ")) with 1%nat. 
    change (length (str ":")) with 1%nat. change (length (str " GMT")) with 4%nat. lia.
Qed.

(** What [get_date_string] returns, for the times whose year is an [int]. *)
Lemma date_string_ok t :
  INT_MIN <= year_of_day (t / 86400) - 1900 <= INT_MAX ->
  exists d, time_fields t d /\ get_date_string t = Ok (strftime d)
            /\ bounded value_char HEADER_VALUE_MAX (strftime d).
Proof.
  intros [d Ed]%gmtime_defined. pose proof (gmtime_fields t d Ed) as Hf.
  destruct (strftime_value t d Hf) as [Hv Hl]. exists d. split; [done|]. split.
  - unfold get_date_string. rewrite Ed. unfold TIME_BUF_SIZE. by replace (zlen _ <? 100) with true by lia.
  - split; [by apply Forall_forallb|]. unfold HEADER_VALUE_MAX. lia.
Qed.

(** The years near 1970 are such years. *)
Lemma year_of_day_near d : - 10 ^ 6 <= d <= 10 ^ 6 -> -1000 <= year_of_day d <= 5000.
Proof.
  intros Hd. destruct (year_parts d) as (era & c & q & y & -> & Hc & Hq & Hy & Hr).
  destruct (_ && _); lia.
Qed.

Lemma date_string_near t :
  - 2 ^ 63 <= t * 1000000000 <= 2 ^ 63 ->
  exists d, time_fields t d /\ get_date_string t = Ok (strftime d)
            /\ bounded value_char HEADER_VALUE_MAX (strftime d).
Proof.
  intros Ht. apply date_string_ok. pose proof (Z.div_mod t 86400 ltac:(lia)).
  pose proof (Z.mod_pos_bound t 86400 ltac:(lia)).
  pose proof (year_of_day_near (t / 86400) ltac:(lia)). unfold INT_MIN, INT_MAX. lia.
Qed.

(** A later year is a null pointer, and [strftime] reads through it. *)
Lemma far_date_undefined t :
  INT_MAX < year_of_day (t / 86400) - 1900 -> get_date_string t = Fault undefined_behaviour.
Proof. intros H. unfold get_date_string, gmtime. by replace (_ && _) with false by lia. Qed.

Lemma app_inj_length {A} (a b s t : list A) : length a = length b -> a ++ s = b ++ t -> a = b /\ s = t.
Proof. intros Hl E. by apply app_inj_1. Qed.

Lemma strftime_inj t1 t2 d1 d2 :
  time_fields t1 d1 -> time_fields t2 d2 -> strftime d1 = strftime d2 -> t1 = t2.
Proof.
  intros [P1 S1 M1 H1 O1 D1 [L1 _] W1 Y1] [P2 S2 M2 H2 O2 D2 [L2 _] W2 Y2]. unfold strftime.
  destruct (day_name (tm_wday d1)) as [Lw1 _]; [rewrite W1; by apply Z.mod_pos_bound|].
  destruct (day_name (tm_wday d2)) as [Lw2 _]; [rewrite W2; by apply Z.mod_pos_bound|].
  destruct (month_name _ O1) as [Lm1 _]. destruct (month_name _ O2) as [Lm2 _]. intros E.
  apply app_inj_length in E as [_ E]; [|congruence]. apply app_inv_head in E.
  apply app_inj_length in E as [Ed E]; [|done]. apply app_inv_head in E.
  apply app_inj_length in E as [Eo E]; [|congruence]. apply app_inv_head in E.
  apply app_inj_2 in E as [Ey E]; [|done]. apply app_inv_head in E.
  apply app_inj_length in E as [Eh E]; [|done]. apply app_inv_head in E.
  apply app_inj_length in E as [Em E]; [|done]. apply app_inv_head in E.
  apply app_inj_length in E as [Es _]; [|done].
  apply two_digits_inj in Ed, Eh, Em, Es; [|lia..]. apply month_name_inj in Eo; [|done..].
  apply decimal_inj in Ey; [|unfold INT_MIN, INT_MAX, ULONG_MAX in *; lia..].
  rewrite P1, P2, D1, D2, Ed, Eh, Em, Es, Eo. by replace (tm_year d1) with (tm_year d2) by lia.
Qed.

(** The text of a date is made of the fields of its time. *)
Lemma date_string_fields t s :
  get_date_string t = Ok s -> exists d, time_fields t d /\ s = strftime d /\ bounded value_char HEADER_VALUE_MAX s.
Proof.
  intros E. assert (INT_MIN <= year_of_day (t / 86400) - 1900 <= INT_MAX) as Hy.
  { unfold get_date_string, gmtime in E. destruct (_ && _) eqn:Eb in E; [lia|done]. }
  destruct (date_string_ok t Hy) as (d & Hf & Ed & Hb). exists d. rewrite E in Ed. by injection Ed as ->.
Qed.

(** C34: a date identifies its time.  For every time whose year is an [int] (counted from
    1900, as in [struct tm]), [get_date_string] returns a text; it is that of a day of the
    Gregorian calendar whose fields give the time by the formula of POSIX, it is fit for a
    header, and no other time has the same text.  For every other time [gmtime] has no result
    and the function dereferences a null pointer. *)
Theorem date_identifies_time t :
  (INT_MIN <= year_of_day (t / 86400) - 1900 <= INT_MAX ->
   exists d, time_fields t d /\ get_date_string t = Ok (strftime d)
     /\ bounded value_char HEADER_VALUE_MAX (strftime d)
     /\ forall t', get_date_string t' = Ok (strftime d) -> t' = t)
  /\ (~ (INT_MIN <= year_of_day (t / 86400) - 1900 <= INT_MAX) -> get_date_string t = Fault undefined_behaviour).
Proof.
  split; intros Hy.
  - destruct (date_string_ok t Hy) as (d & Hf & Ed & Hb). exists d. split_and!; [done..|]. intros t' E'.
    destruct (date_string_fields t' _ E') as (d' & Hf' & Es & _). by apply (strftime_inj _ _ _ _ Hf' Hf).
  - unfold get_date_string, gmtime. by replace (_ && _) with false by lia.
Qed.

Lemma date_identifies_time_witness :
  get_date_string 951827696 = Ok (str "Tue, 29 Feb 2000 12:34:56 GMT")
  /\ forall t, get_date_string t = Ok (str "Tue, 29 Feb 2000 12:34:56 GMT") -> t = 951827696.
Proof.
  split; [reflexivity|].
  destruct (proj1 (date_identifies_time 951827696) ltac:(vm_compute; split; discriminate)) as (d & _ & E & _ & H).
  assert (strftime d = str "Tue, 29 Feb 2000 12:34:56 GMT") as Es.
  { change (get_date_string 951827696) with (Ok (str "Tue, 29 Feb 2000 12:34:56 GMT")) in E. by injection E as <-. }
  rewrite <- Es. exact H.
Defined.

(** [set_last_modified] gives the message one date. *)
Lemma last_modified_set t m :
  0 <= t * 1000000000 <= 2 ^ 63 ->
  exists date, get_date_string t = Ok date /\ set_last_modified t m = Ok (change_header HEADER_LAST_MODIFIED date m)
               /\ get_header (change_header HEADER_LAST_MODIFIED date m) HEADER_LAST_MODIFIED = date.
Proof.
  intros Ht. destruct (date_string_near t ltac:(lia)) as (d & _ & Ed & _). exists (strftime d). split; [done|].
  assert (time_t t = t) as Et by (unfold time_t, u64; rewrite (Z.mod_small t), Z.mod_small by lia; lia).
  unfold set_last_modified. rewrite Et, Ed. split; [done|].
  unfold get_header, change_header. cbn [m_headers with_m_headers].
  by rewrite get_value_range, equal_range_change_value.
Qed.

(** ** A deviation *)

(** The argument of [set_last_modified] may be a year that is no [int]; half the numbers of
    its type are times before 1970. *)
Lemma set_last_modified_undefined m : set_last_modified (2 ^ 62) m = Fault undefined_behaviour.
Proof. unfold set_last_modified. by rewrite (far_date_undefined (time_t (2 ^ 62))) by (vm_compute; done). Qed.

Lemma set_last_modified_wraps m :
  set_last_modified (2 ^ 64 - 1) m = Ok (change_header HEADER_LAST_MODIFIED (str "Wed, 31 Dec 1969 23:59:59 GMT") m).
Proof. reflexivity. Qed.
