(* ===== verification/FileService.v ===== *)
(** * The file service

    Models the web service that serves files (services/FileService.cpp, FileService.hpp):
    its options, the cache of files, the answers to requests, and the sender that writes a
    file to a connection piece by piece.  The file system is a
    parameter; a function of the file system that throws gives [None].  A request is
    handled in one step, with the mutex of the cache; the completions of the sender's write
    operations are inputs.  A file does not change while the sender has it open. *)
From stdpp Require Import gmap.
From S2P Require Import Prelude CLib StringUtils Algorithm StdMap Resources Paths Dict Tribool.
From S2P Require Import HttpTypes Message Dates ParserBase ParserHeaders ParserForms ParserBody Parser.
From S2P Require Import ParserSafety ParserStream ParserRoundTrip Connection Writer Users Replies.
From S2P Require Import Auth HttpServer Plugins PluginManager PluginServer.

(** ** The file system *)

Class FileSystem := {
  fs_state : Type;
  fs_exists : fs_state -> bytes -> option bool;
  fs_is_directory : fs_state -> bytes -> option bool;
  fs_file_size : fs_state -> bytes -> option Z;
  fs_last_write_time : fs_state -> bytes -> option Z;
  fs_read : fs_state -> bytes -> option bytes;  (* the bytes of a file that can be opened *)
  fs_write : fs_state -> bool -> bytes -> bytes -> fs_state;  (* appending or not *)
  fs_remove : fs_state -> bytes -> fs_state + bytes;  (* the text of the exception *)
  fs_entries : fs_state -> bytes -> option (list bytes);
  (* a [time_point] of [system_clock] counts nanoseconds in 64 bits *)
  fs_times : forall fs p t, fs_last_write_time fs p = Some t -> - 2 ^ 63 <= t * 1000000000 <= 2 ^ 63
}.

(** The date of a file; [get_date_string] returns for all times of files ([file_date_ok]). *)
Definition file_date (t : Z) : bytes :=
  match get_date_string t with Ok date => date | Fault _ => [] end.

Lemma file_date_ok `{FileSystem} fs p t :
  fs_last_write_time fs p = Some t ->
  get_date_string t = Ok (file_date t) /\ bounded value_char HEADER_VALUE_MAX (file_date t).
Proof.
  intros Ht%fs_times. destruct (date_string_near t) as (d & _ & Ed & Hb); [lia|].
  unfold file_date. by rewrite Ed.
Qed.

(** ** State *)

(** [new char[n]] is not initialised. *)
Record disk_file := mk_disk_file {
  m_file_path : bytes;
  m_file_content : option (list (option char));
  m_file_size : Z;
  m_last_modified : Z;
  m_last_modified_string : bytes;
  m_mime_type : bytes
}.

Definition new_disk_file : disk_file := mk_disk_file [] None 0 0 [] [].

Definition with_file_path (p : bytes) (f : disk_file) : disk_file :=
  mk_disk_file p (m_file_content f) (m_file_size f) (m_last_modified f) (m_last_modified_string f)
    (m_mime_type f).
Definition with_mime_type (t : bytes) (f : disk_file) : disk_file :=
  mk_disk_file (m_file_path f) (m_file_content f) (m_file_size f) (m_last_modified f)
    (m_last_modified_string f) t.
Definition with_file_content (c : option (list (option char))) (f : disk_file) : disk_file :=
  mk_disk_file (m_file_path f) c (m_file_size f) (m_last_modified f) (m_last_modified_string f)
    (m_mime_type f).
Definition with_stamp (size modified : Z) (date : bytes) (f : disk_file) : disk_file :=
  mk_disk_file (m_file_path f) (m_file_content f) size modified date (m_mime_type f).

Record file_service := mk_file_service {
  fsv_resource : bytes;  (* m_resource of the base class *)
  m_directory : bytes;
  m_file : bytes;
  m_cache_map : gmap bytes disk_file;
  m_cache_setting : Z;
  m_scan_setting : Z;
  m_max_cache_size : Z;
  m_max_chunk_size : Z;
  m_writable : bool
}.

Definition DEFAULT_MIME_TYPE : bytes := str "application/octet-stream".
Definition DEFAULT_CACHE_SETTING : Z := 1.
Definition DEFAULT_SCAN_SETTING : Z := 0.
Definition DEFAULT_MAX_CACHE_SIZE : Z := 0.
Definition DEFAULT_MAX_CHUNK_SIZE : Z := 0.

Definition new_file_service (resource : bytes) : file_service :=
  mk_file_service resource [] [] ∅ DEFAULT_CACHE_SETTING DEFAULT_SCAN_SETTING DEFAULT_MAX_CACHE_SIZE
    DEFAULT_MAX_CHUNK_SIZE false.

Definition with_cache (m : gmap bytes disk_file) (s : file_service) : file_service :=
  mk_file_service (fsv_resource s) (m_directory s) (m_file s) m (m_cache_setting s) (m_scan_setting s)
    (m_max_cache_size s) (m_max_chunk_size s) (m_writable s).
Definition with_paths (dir file : bytes) (s : file_service) : file_service :=
  mk_file_service (fsv_resource s) dir file (m_cache_map s) (m_cache_setting s) (m_scan_setting s)
    (m_max_cache_size s) (m_max_chunk_size s) (m_writable s).
Definition with_settings (cache scan : Z) (s : file_service) : file_service :=
  mk_file_service (fsv_resource s) (m_directory s) (m_file s) (m_cache_map s) cache scan
    (m_max_cache_size s) (m_max_chunk_size s) (m_writable s).
Definition with_limits (cache_size chunk_size : Z) (s : file_service) : file_service :=
  mk_file_service (fsv_resource s) (m_directory s) (m_file s) (m_cache_map s) (m_cache_setting s)
    (m_scan_setting s) cache_size chunk_size (m_writable s).
Definition with_writable (b : bool) (s : file_service) : file_service :=
  mk_file_service (fsv_resource s) (m_directory s) (m_file s) (m_cache_map s) (m_cache_setting s)
    (m_scan_setting s) (m_max_cache_size s) (m_max_chunk_size s) b.

(** ** MIME types *)

Definition mime_types : list (bytes * bytes) :=
  [(str "js", str "text/javascript"); (str "txt", str "text/plain"); (str "xml", str "text/xml");
   (str "css", str "text/css"); (str "htm", str "text/html"); (str "html", str "text/html");
   (str "xhtml", str "text/html"); (str "gif", str "image/gif"); (str "png", str "image/png");
   (str "jpg", str "image/jpeg"); (str "jpeg", str "image/jpeg"); (str "svg", str "image/svg+xml");
   (str "eof", str "application/vnd.ms-fontobject"); (str "otf", str "application/x-font-opentype");
   (str "ttf", str "application/x-font-ttf"); (str "woff", str "application/font-woff")].

(** What follows the last period, or the whole name. *)
Definition find_mime_type (file_name : bytes) : bytes :=
  let extension := match find_last (fun c => c =c "."%byte) file_name with
                   | Some i => drop (i + 1) file_name
                   | None => file_name
                   end in
  default DEFAULT_MIME_TYPE (map_find (to_lower extension) mime_types).

Section FileService.
Context `{FileSystem}.
Implicit Types (fs : fs_state).

(** ** Files *)

(** [update], and whether it returns: the size is set before the time is asked for. *)
Definition df_update fs (f : disk_file) : disk_file * bool :=
  match fs_file_size fs (m_file_path f) with
  | None => (f, false)
  | Some size =>
      match fs_last_write_time fs (m_file_path f) with
      | None => (with_stamp size (m_last_modified f) (m_last_modified_string f) f, false)
      | Some t => (with_stamp size t (file_date t) f, true)
      end
  end.

(** [read]: a file that cannot be opened, or is too short, is only reported. *)
Definition df_read fs (f : disk_file) : disk_file :=
  let n := Z.to_nat (m_file_size f) in
  let data := take n (default [] (fs_read fs (m_file_path f))) in
  with_file_content (Some ((Some <$> data) ++ replicate (n - length data) None)) f.

(** [checkUpdated]: whether the file was updated; [None] when it throws. *)
Definition df_check_updated fs (f : disk_file) : option (disk_file * bool) :=
  cur_size ← fs_file_size fs (m_file_path f);
  cur_modified ← fs_last_write_time fs (m_file_path f);
  if (cur_modified =? m_last_modified f) && (cur_size =? m_file_size f) then Some (f, false)
  else Some (df_read fs (with_stamp cur_size cur_modified (file_date cur_modified) f), true).

(** The limit of the size of a file in the cache. *)
Definition cacheable (s : file_service) (f : disk_file) : bool :=
  (m_max_cache_size s =? 0) || (m_file_size f <=? m_max_cache_size s).

(** ** Options *)

Definition set_option fs (name value : bytes) (s : file_service) : res file_service :=
  if bytes_eqb name (str "directory") then
    Ok (with_paths (if default false (fs_exists fs value) && default false (fs_is_directory fs value)
                    then value else []) (m_file s) s)
  else if bytes_eqb name (str "file") then
    Ok (with_paths (m_directory s)
          (if negb (default false (fs_exists fs value)) || default false (fs_is_directory fs value)
           then [] else value) s)
  else if bytes_eqb name (str "cache") then
    Ok (if bytes_eqb value (str "0") then with_settings 0 (m_scan_setting s) s
        else if bytes_eqb value (str "1") then with_settings 1 (m_scan_setting s) s
        else if bytes_eqb value (str "2") then with_settings 2 (m_scan_setting s) s
        else s)
  else if bytes_eqb name (str "scan") then
    Ok (if bytes_eqb value (str "0") then with_settings (m_cache_setting s) 0 s
        else if bytes_eqb value (str "1") then with_settings (m_cache_setting s) 1 s
        else if bytes_eqb value (str "2") then with_settings (m_cache_setting s) 2 s
        else if bytes_eqb value (str "3") then with_settings (m_cache_setting s) 3 s
        else s)
  else if bytes_eqb name (str "max_chunk_size") then
    n ← stoul value; Ok (with_limits (m_max_cache_size s) n s)
  else if bytes_eqb name (str "max_cache_size") then
    n ← stoul value; Ok (with_limits n (m_max_chunk_size s) s)
  else if bytes_eqb name (str "writable") then
    Ok (if bytes_eqb value (str "true") then with_writable true s
        else if bytes_eqb value (str "false") then with_writable false s
        else s)
  else Ok s.

(** ** Starting and stopping *)

(** [addCacheEntry]; [None] when [update] throws. *)
Definition add_cache_entry fs (relative_path file_path : bytes) (placeholder : bool) (s : file_service)
  : option file_service :=
  let cache_entry := mk_disk_file file_path None 0 0 [] (find_mime_type (path_filename file_path)) in
  let add f := match m_cache_map s !! relative_path with
               | Some _ => s
               | None => with_cache (<[relative_path := f]> (m_cache_map s)) s
               end in
  if placeholder then Some (add cache_entry)
  else
    let '(f, ok) := df_update fs cache_entry in
    if ok then Some (add (if cacheable s f then df_read fs f else f)) else None.

(** [scanDirectory], for directories of at most [depth] levels: what is added before an
    exception stays. *)
Fixpoint scan_directory (depth : nat) fs (dir_path : bytes) (s : file_service) : file_service * bool :=
  match depth with
  | O => (s, false)
  | S depth' =>
      match fs_entries fs dir_path with
      | None => (s, false)
      | Some entries =>
          (fix scan (entries : list bytes) (s : file_service) : file_service * bool :=
             match entries with
             | [] => (s, true)
             | p :: entries' =>
                 match fs_is_directory fs p with
                 | None => (s, false)
                 | Some true =>
                     let '(s, ok) := scan_directory depth' fs p s in
                     if ok then scan entries' s else (s, false)
                 | Some false =>
                     match substr p (length (m_directory s) + 1) (length p) with
                     | Fault _ => (s, false)
                     | Ok relative_path =>
                         match add_cache_entry fs relative_path p (m_scan_setting s =? 1) s with
                         | None => (s, false)
                         | Some s => scan entries' s
                         end
                     end
                 end
             end) entries s
      end
  end.

Definition start (depth : nat) fs (s : file_service) : file_service * bool :=
  if m_scan_setting s =? 0 then (s, true)
  else
    let s := if (m_cache_setting s =? 0) && (1 <? m_scan_setting s) then with_settings 1 (m_scan_setting s) s
             else s in
    match (if bool_decide (m_file s = []) then Some s
           else add_cache_entry fs [] (m_file s) (m_scan_setting s =? 1) s) with
    | None => (s, false)
    | Some s => if bool_decide (m_directory s = []) then (s, true)
                else scan_directory depth fs (m_directory s) s
    end.

Definition stop (s : file_service) : file_service := with_cache ∅ s.

(** ** Sending a file *)

Record file_sender := mk_file_sender {
  m_disk_file : disk_file;
  m_writer : writer;
  m_file_stream : option bytes;  (* what is left to read of the open file *)
  snd_max_chunk_size : Z;  (* m_max_chunk_size *)
  m_file_bytes_to_send : Z;
  m_bytes_sent : Z
}.

(** [DiskFileSender::create]. *)
Definition new_file_sender (f : disk_file) (request : message) (c : connection) (max_chunk_size : Z)
  : file_sender :=
  mk_file_sender f
    (edit_response
       (fun m => with_status RESPONSE_CODE_OK RESPONSE_MESSAGE_OK
                   (add_header HEADER_LAST_MODIFIED (m_last_modified_string f)
                      (set_content_type (m_mime_type f) m)))
       (create_response_writer request c))
    None max_chunk_size 0 0.

(** What became of the sender: the connection is finished, the sender gave up without
    finishing it, or it waits for a write operation. *)
Inductive send_outcome :=
| send_finished (c : connection)
| send_given_up (s : file_sender)
| send_waiting (s : file_sender).

(** The bytes of a buffer that were written to. *)
Fixpoint initialised (b : list (option char)) : res bytes :=
  match b with
  | [] => Ok []
  | Some c :: b' => r ← initialised b'; Ok (c :: r)
  | None :: _ => Fault undefined_behaviour
  end.

(** The content of the next [n] bytes, from the cache or the file, and the file's stream. *)
Definition next_content fs (n : Z) (s : file_sender) : res (option (bytes * option bytes)) :=
  match m_file_content (m_disk_file s) with
  | Some buf =>
      if m_bytes_sent s + n <=? zlen buf then
        r ← initialised (take (Z.to_nat n) (drop (Z.to_nat (m_bytes_sent s)) buf));
        Ok (Some (r, m_file_stream s))
      else Fault undefined_behaviour
  | None =>
      match (match m_file_stream s with
             | Some stream => Some stream
             | None => fs_read fs (m_file_path (m_disk_file s))
             end) with
      | None => Ok None
      | Some stream =>
          if n <=? zlen stream then Ok (Some (take (Z.to_nat n) stream, Some (drop (Z.to_nat n) stream)))
          else Ok None
      end
  end.

(** [send]: one step, up to the start of a write operation.  When the connection was lost
    the writer finishes it itself. *)
Definition file_send fs (s : file_sender) : res send_outcome :=
  let f := m_disk_file s in
  if m_file_size f <=? m_bytes_sent s then Ok (send_finished (w_conn (fst (send (m_writer s)))))
  else
    let n := m_file_size f - m_bytes_sent s in
    let n := if (0 <? snd_max_chunk_size s) && (snd_max_chunk_size s <? n) then snd_max_chunk_size s else n in
    content ← next_content fs n s;
    match content with
    | None => Ok (send_given_up s)
    | Some (data, stream) =>
        let w := write_binary data (m_writer s) in
        let '(w, ok) := if m_file_size f <=? m_bytes_sent s + n then
                          (if 0 <? m_bytes_sent s then send_final_chunk w else send w)
                        else send_chunk w in
        let s := mk_file_sender f w stream (snd_max_chunk_size s) n (m_bytes_sent s) in
        Ok (if ok then send_waiting s else send_finished (w_conn w))
    end.

(** [handle_write], when the operation failed or succeeded. *)
Definition handle_write fs (write_error : bool) (s : file_sender) : res send_outcome :=
  if write_error then Ok (send_finished (set_lifecycle LIFECYCLE_CLOSE (w_conn (m_writer s))))
  else
    let sent := m_bytes_sent s + m_file_bytes_to_send s in
    let s' := fun w => mk_file_sender (m_disk_file s) w (m_file_stream s) (snd_max_chunk_size s)
                         (m_file_bytes_to_send s) sent in
    if m_file_size (m_disk_file s) <=? sent then Ok (send_finished (w_conn (m_writer s)))
    else file_send fs (s' (clear_writer (m_writer s))).

(** The sender with the errors of its write operations. *)
Fixpoint sender_loop fs (write_errors : list bool) (o : send_outcome) : res send_outcome :=
  match o, write_errors with
  | send_waiting s, e :: write_errors' =>
      o ← handle_write fs e s; sender_loop fs write_errors' o
  | _, _ => Ok o
  end.

Definition run_sender fs (write_errors : list bool) (s : file_sender) : res send_outcome :=
  o ← file_send fs s; sender_loop fs write_errors o.

(** ** Answering requests *)

Inductive response_type :=
| RESPONSE_UNDEFINED | RESPONSE_OK | RESPONSE_HEAD_OK | RESPONSE_NOT_FOUND | RESPONSE_NOT_MODIFIED.

(** The response to a request for a file with this date. *)
Definition conditional (method if_modified_since date : bytes) : response_type :=
  if bytes_eqb date if_modified_since then RESPONSE_NOT_MODIFIED
  else if bytes_eqb method REQUEST_METHOD_HEAD then RESPONSE_HEAD_OK
  else RESPONSE_OK.

(** An entry of the cache before it is used, and whether it was updated; [None] when the
    file system throws. *)
Definition refresh_entry fs (s : file_service) (e : disk_file) : disk_file * option bool :=
  if m_last_modified e =? 0 then
    let '(f, ok) := df_update fs e in
    if ok then (if cacheable s f then df_read fs f else with_file_content None f, Some true)
    else (f, None)
  else if m_cache_setting s =? 1 then
    match df_check_updated fs e with None => (e, None) | Some (f, b) => (f, Some b) end
  else (e, Some false).

(** The answer from the cache: the type and the file of the response, or an exception. *)
Definition cached_response fs (method if_modified_since relative_path : bytes) (s : file_service)
  : file_service * option (response_type * disk_file) :=
  if (0 <? m_cache_setting s) || (0 <? m_scan_setting s) then
    match m_cache_map s !! relative_path with
    | None =>
        (s, Some (if (m_scan_setting s =? 1) || (m_scan_setting s =? 3) then RESPONSE_NOT_FOUND
                  else RESPONSE_UNDEFINED, new_disk_file))
    | Some e =>
        if m_cache_setting s =? 0 then
          let '(f, ok) := df_update fs (with_mime_type (m_mime_type e)
                                          (with_file_path (m_file_path e) new_disk_file)) in
          (s, if ok then Some (conditional method if_modified_since (m_last_modified_string f), f) else None)
        else
          let '(f, updated) := refresh_entry fs s e in
          match updated with
          | None => (with_cache (<[relative_path := f]> (m_cache_map s)) s, None)
          | Some updated =>
              let cached := if updated && (0 <? m_max_cache_size s) && (m_max_cache_size s <? m_file_size f)
                            then with_file_content None f else f in
              (with_cache (<[relative_path := cached]> (m_cache_map s)) s,
               Some (conditional method if_modified_since (m_last_modified_string f), f))
          end
    end
  else (s, Some (RESPONSE_UNDEFINED, new_disk_file)).

(** The answer without the cache, for a file that exists. *)
Definition uncached_response fs (method if_modified_since relative_path file_path : bytes) (s : file_service)
  : file_service * option (response_type * disk_file) :=
  let '(f, ok) := df_update fs (with_mime_type (find_mime_type (path_filename file_path))
                                  (with_file_path file_path new_disk_file)) in
  if negb ok then (s, None)
  else
    match conditional method if_modified_since (m_last_modified_string f) with
    | RESPONSE_OK =>
        if m_cache_setting s =? 0 then (s, Some (RESPONSE_OK, f))
        else
          let f := if cacheable s f then df_read fs f else f in
          (match m_cache_map s !! relative_path with
           | Some _ => s
           | None => with_cache (<[relative_path := f]> (m_cache_map s)) s
           end, Some (RESPONSE_OK, f))
    | t => (s, Some (t, f))
    end.

(** The pages of the service. *)
Definition html_page (title heading : bytes) : bytes :=
  line (str "<html><head>") ++ line (str "<title>" ++ title ++ str "</title>")
  ++ line (str "</head><body>") ++ line (str "<h1>" ++ heading ++ str "</h1>").
Definition html_end (s : bytes) : bytes := line s ++ line (str "</body></html>").

Definition unless_head (request : message) (parts : list write_op) : list write_op :=
  if bytes_eqb (get_method request) REQUEST_METHOD_HEAD then [] else parts.

Definition send_not_found_response (request : message) (c : connection) : connection :=
  reply request c (with_status RESPONSE_CODE_NOT_FOUND RESPONSE_MESSAGE_NOT_FOUND)
    (unless_head request
       [op_memory (html_page (str "404 Not Found") (str "Not Found") ++ str "<p>The requested URL ");
        op_text (xml_encode (get_resource request));
        op_memory (html_end (str " was not found on this server.</p>"))]).

Definition send_forbidden (reason : bytes) (request : message) (c : connection) : connection :=
  reply request c (with_status RESPONSE_CODE_FORBIDDEN RESPONSE_MESSAGE_FORBIDDEN)
    (unless_head request
       [op_memory (html_page (str "403 Forbidden") (str "Forbidden") ++ str "<p>The requested URL ");
        op_text (xml_encode (get_resource request)); op_memory (html_end reason)]).

Definition send_not_allowed (request : message) (c : connection) : connection :=
  reply request c
    (fun m => add_header (str "Allow") (str "GET, HEAD")
                (with_status RESPONSE_CODE_METHOD_NOT_ALLOWED RESPONSE_MESSAGE_METHOD_NOT_ALLOWED m))
    [op_memory (html_page (str "405 Method Not Allowed") (str "Not Allowed") ++ str "<p>The requested method ");
     op_text (xml_encode (get_method request)); op_memory (html_end (str " is not allowed on this server.</p>"))].

Definition send_not_implemented (request : message) (c : connection) : connection :=
  reply request c (with_status RESPONSE_CODE_NOT_IMPLEMENTED RESPONSE_MESSAGE_NOT_IMPLEMENTED)
    [op_memory (html_page (str "501 Not Implemented") (str "Not Implemented") ++ str "<p>The requested method ");
     op_text (xml_encode (get_method request)); op_memory (html_end (str " is not implemented on this server.</p>"))].

(** The response without a content: for HEAD, and for a file that was not modified. *)
Definition send_headers (t : response_type) (f : disk_file) (request : message) (c : connection) : connection :=
  reply request c
    (fun m =>
       let m := add_header HEADER_LAST_MODIFIED (m_last_modified_string f) (set_content_type (m_mime_type f) m) in
       match t with
       | RESPONSE_NOT_MODIFIED => with_status RESPONSE_CODE_NOT_MODIFIED RESPONSE_MESSAGE_NOT_MODIFIED m
       | _ => with_status RESPONSE_CODE_OK RESPONSE_MESSAGE_OK m
       end) [].

(** What a request gives: an answer that is on its way, a sender whose [send] is called, or
    an exception. *)
Inductive file_answer :=
| answer_written (c : connection)
| answer_sender (s : file_sender)
| answer_thrown.

Definition answer_type (t : response_type) (f : disk_file) (request : message) (c : connection)
  (s : file_service) : file_answer :=
  match t with
  | RESPONSE_OK => answer_sender (new_file_sender f request c (m_max_chunk_size s))
  | RESPONSE_NOT_FOUND => answer_written (send_not_found_response request c)
  | _ => answer_written (send_headers t f request c)
  end.

(** GET and HEAD. *)
Definition handle_get fs (request : message) (c : connection) (relative_path file_path : bytes)
  (s : file_service) : file_service * file_answer :=
  let method := get_method request in
  let if_modified_since := get_header request HEADER_IF_MODIFIED_SINCE in
  let '(s, r) := cached_response fs method if_modified_since relative_path s in
  match r with
  | None => (s, answer_thrown)
  | Some (RESPONSE_UNDEFINED, _) =>
      match fs_exists fs file_path with
      | None => (s, answer_thrown)
      | Some false => (s, answer_written (send_not_found_response request c))
      | Some true =>
          let '(s, r) := uncached_response fs method if_modified_since relative_path file_path s in
          (s, match r with
              | None => answer_thrown
              | Some (t, f) => answer_type t f request c s
              end)
      end
  | Some (t, f) => (s, answer_type t f request c s)
  end.

(** POST and PUT on a writable service. *)
Definition handle_write_request fs (request : message) (c : connection) (file_path : bytes)
  : res (fs_state * file_answer) :=
  let resource := op_text (xml_encode (get_resource request)) in
  match fs_exists fs file_path with
  | None => Ok (fs, answer_thrown)
  | Some existed =>
      let missing_parent :=
        if existed then Some false else negb <$> fs_exists fs (parent_path file_path) in
      match missing_parent with
      | None => Ok (fs, answer_thrown)
      | Some true =>
          Ok (fs, answer_written
                (reply request c (with_status RESPONSE_CODE_NOT_FOUND RESPONSE_MESSAGE_NOT_FOUND)
                   [op_memory (html_page (str "404 Not Found") (str "Not Found")
                               ++ str "<p>The directory of the requested URL ");
                    resource; op_memory (html_end (str " was not found on this server.</p>"))]))
      | Some false =>
          let edit m :=
            if existed then with_status RESPONSE_CODE_NO_CONTENT RESPONSE_MESSAGE_NO_CONTENT m
            else add_header HEADER_LOCATION (get_resource request)
                   (with_status RESPONSE_CODE_CREATED RESPONSE_MESSAGE_CREATED m) in
          let parts :=
            if existed then []
            else [op_memory (html_page (str "201 Created") (str "Created") ++ str "<p>"); resource;
                  op_memory (html_end (str "</p>"))] in
          content ← read_content request;
          let fs' := fs_write fs (bytes_eqb (get_method request) REQUEST_METHOD_POST) file_path content in
          match fs_exists fs' file_path with
          | None => Ok (fs', answer_thrown)
          | Some true => Ok (fs', answer_written (reply request c edit parts))
          | Some false =>
              Ok (fs', answer_written
                    (reply request c
                       (fun m => with_status RESPONSE_CODE_SERVER_ERROR RESPONSE_MESSAGE_SERVER_ERROR (edit m))
                       (parts ++
                        [op_memory (html_page (str "500 Server Error") (str "Server Error")
                                    ++ str "<p>Error writing to ");
                         resource; op_memory (html_end (str ".</p>"))])))
          end
      end
  end.

(** DELETE on a writable service. *)
Definition handle_delete fs (request : message) (c : connection) (file_path : bytes) : fs_state * file_answer :=
  match fs_exists fs file_path with
  | None => (fs, answer_thrown)
  | Some false => (fs, answer_written (send_not_found_response request c))
  | Some true =>
      match fs_remove fs file_path with
      | inl fs' => (fs', answer_written (reply request c
                           (with_status RESPONSE_CODE_NO_CONTENT RESPONSE_MESSAGE_NO_CONTENT) []))
      | inr what =>
          (fs, answer_written
                 (reply request c (with_status RESPONSE_CODE_SERVER_ERROR RESPONSE_MESSAGE_SERVER_ERROR)
                    [op_memory (html_page (str "500 Server Error") (str "Server Error")
                                ++ str "<p>Could not delete ");
                     op_text (xml_encode (get_resource request)); op_text (str ".</p><p>"); op_text what;
                     op_memory (html_end (str ".</p>"))]))
      end
  end.

(** The path of a request; [None] when the option it needs is not set. *)
Definition request_path (relative_path : bytes) (s : file_service) : option bytes :=
  if bool_decide (relative_path = []) then
    (if bool_decide (m_file s = []) then None else Some (m_file s))
  else if bool_decide (m_directory s = []) then None
  else Some (path_append (m_directory s) relative_path).

(** [operator()]. *)
Definition handle_file_request fs (request : message) (c : connection) (s : file_service)
  : res (file_service * fs_state * file_answer) :=
  let relative_path := get_relative_resource (fsv_resource s) (get_resource request) in
  match request_path relative_path s with
  | None => Ok (s, fs, answer_written (send_not_found_response request c))
  | Some file_path =>
      if negb (starts (m_directory s) file_path) then
        Ok (s, fs, answer_written (send_forbidden (str " is not in the configured directory.</p>") request c))
      else
        match fs_is_directory fs file_path with
        | None => Ok (s, fs, answer_thrown)
        | Some true => Ok (s, fs, answer_written (send_forbidden (str " is a directory.</p>") request c))
        | Some false =>
            let method := get_method request in
            if bytes_eqb method REQUEST_METHOD_GET || bytes_eqb method REQUEST_METHOD_HEAD then
              let '(s, a) := handle_get fs request c relative_path file_path s in Ok (s, fs, a)
            else if bytes_eqb method REQUEST_METHOD_POST || bytes_eqb method REQUEST_METHOD_PUT
                    || bytes_eqb method REQUEST_METHOD_DELETE then
              if negb (m_writable s) then Ok (s, fs, answer_written (send_not_allowed request c))
              else if bytes_eqb method REQUEST_METHOD_DELETE then
                let '(fs, a) := handle_delete fs request c file_path in Ok (s, fs, a)
              else '(fs, a) ← handle_write_request fs request c file_path; Ok (s, fs, a)
            else Ok (s, fs, answer_written (send_not_implemented request c))
        end
  end.

End FileService.

(** ** The cache *)

Section Cache.
Context `{FileSystem}.
Implicit Types (fs : fs_state) (s : file_service) (f e : disk_file).

(** The contents that a file was seen to have with a size and a time.  A file can change and
    keep both. *)
Context (seen : bytes -> Z -> Z -> bytes -> Prop).

(** Every file can be read, as long as its size says, and is seen with its content; the
    entries of a directory are names in it. *)
Record fs_ok fs : Prop := mk_fs_ok {
  fo_files : forall p n, fs_file_size fs p = Some n ->
    exists data t, fs_read fs p = Some data /\ n = zlen data /\ fs_last_write_time fs p = Some t
                   /\ seen p n t data;
  fo_entries : forall d l p, fs_entries fs d = Some l -> p ∈ l ->
    exists name, name <> [] /\ SLASH ∉ name /\ p = path_append d name
}.

(** The buffer of [f], when it has one, holds a content that the file was seen to have with
    the size and the time of [f]. *)
Definition content_ok f : Prop := forall buf, m_file_content f = Some buf ->
  exists data, buf = Some <$> data /\ m_file_size f = zlen data
               /\ seen (m_file_path f) (m_file_size f) (m_last_modified f) data.

(** [f] has the size, the time and the date of the file as it is, and a content that it had
    with them. *)
Record current fs f : Prop := mk_current {
  cu_size : fs_file_size fs (m_file_path f) = Some (m_file_size f);
  cu_time : fs_last_write_time fs (m_file_path f) = Some (m_last_modified f);
  cu_date : m_last_modified_string f = file_date (m_last_modified f);
  cu_content : content_ok f
}.

(** An entry belongs to the path of its key, and its members agree with each other. *)
Record entry_ok s (relative_path : bytes) e : Prop := mk_entry_ok {
  eo_path : request_path relative_path s = Some (m_file_path e);
  eo_mime : m_mime_type e = find_mime_type (path_filename (m_file_path e));
  eo_date : m_last_modified e <> 0 -> m_last_modified_string e = file_date (m_last_modified e);
  eo_content : content_ok e
}.

Definition cache_ok s : Prop := map_Forall (entry_ok s) (m_cache_map s).

Lemma df_update_current fs f :
  fs_ok fs -> m_file_content f = None ->
  match df_update fs f with
  | (f', true) => current fs f' /\ m_file_path f' = m_file_path f /\ m_mime_type f' = m_mime_type f
                  /\ m_file_content f' = None
  | (f', false) => m_file_path f' = m_file_path f /\ m_mime_type f' = m_mime_type f /\ m_file_content f' = None
                   /\ m_last_modified f' = m_last_modified f
                   /\ m_last_modified_string f' = m_last_modified_string f
  end.
Proof.
  intros Hfs Hc. unfold df_update. destruct (fs_file_size fs (m_file_path f)) as [n|] eqn:En; [|done].
  destruct (fs_last_write_time fs (m_file_path f)) as [t|] eqn:Et; [|done].
  split; [|done]. split; [done..|]. intros buf. cbn. by rewrite Hc.
Qed.

Lemma df_read_current fs f :
  fs_ok fs -> fs_file_size fs (m_file_path f) = Some (m_file_size f) ->
  fs_last_write_time fs (m_file_path f) = Some (m_last_modified f) ->
  content_ok (df_read fs f) /\ m_file_path (df_read fs f) = m_file_path f
  /\ m_mime_type (df_read fs f) = m_mime_type f
  /\ m_file_size (df_read fs f) = m_file_size f /\ m_last_modified (df_read fs f) = m_last_modified f
  /\ m_last_modified_string (df_read fs f) = m_last_modified_string f.
Proof.
  intros Hfs Hn Ht. split; [|done]. intros buf Hb. cbn in Hb. injection Hb as <-.
  destruct (fo_files _ Hfs _ _ Hn) as (data & t & Hr & Hl & Ht' & Hs). cbn.
  rewrite Ht in Ht'. injection Ht' as <-. exists data. rewrite Hr. cbn [default]. split_and!; [|done..].
  assert (Z.to_nat (m_file_size f) = length data) as -> by (rewrite Hl; unfold zlen; lia).
  rewrite (take_ge data) by done. rewrite Nat.sub_diag. apply app_nil_r.
Qed.

Lemma read_if_cacheable fs s f :
  fs_ok fs -> current fs f ->
  let f' := if cacheable s f then df_read fs f else f in
  current fs f' /\ m_file_path f' = m_file_path f /\ m_mime_type f' = m_mime_type f.
Proof.
  intros Hfs [H1 H2 H3 H4]. destruct (cacheable s f); [|done].
  destruct (df_read_current fs f Hfs H1 H2) as (C & P & M & S & T & D).
  split; [|done]. split; rewrite ?P, ?S, ?T, ?D; done.
Qed.

Lemma no_content_ok f : content_ok (with_file_content None f).
Proof. by intros buf. Qed.

Lemma current_no_content fs f : current fs f -> current fs (with_file_content None f).
Proof. intros [H1 H2 H3 H4]. split; [done..|]. apply no_content_ok. Qed.

Lemma current_entry fs s rel f :
  current fs f -> request_path rel s = Some (m_file_path f) ->
  m_mime_type f = find_mime_type (path_filename (m_file_path f)) -> entry_ok s rel f.
Proof. intros [H1 H2 H3 H4] Hp Hm. by split. Qed.

(** Using an entry keeps it an entry, and gives the file as it is when the cache looks for
    updates. *)
Lemma refresh_entry_ok fs s rel e :
  fs_ok fs -> entry_ok s rel e ->
  match refresh_entry fs s e with
  | (f, Some b) => entry_ok s rel f /\ m_file_path f = m_file_path e
                   /\ (m_cache_setting s = 1 -> current fs f)
  | (f, None) => entry_ok s rel f /\ (fs_file_size fs (m_file_path e) = None)
  end.
Proof.
  intros Hfs [Hp Hm Hd Hc]. unfold refresh_entry. destruct (Z.eqb_spec (m_last_modified e) 0) as [E0|E0].
  - unfold df_update. destruct (fs_file_size fs (m_file_path e)) as [n|] eqn:En; [|by split].
    destruct (fo_files _ Hfs _ _ En) as (data & t & Hr & Hl & Ht & Hs). rewrite Ht.
    set (f := with_stamp n t (file_date t) e).
    assert (current fs (with_file_content None f)) as Hcu by (split; [done..|apply no_content_ok]).
    destruct (cacheable s f).
    + destruct (df_read_current fs f Hfs En Ht) as (C & P & M & S & T & D).
      assert (current fs (df_read fs f)) as Hcu' by (split; rewrite ?P, ?S, ?T, ?D; done).
      split; [|done]. apply (current_entry fs); [done|by rewrite P|by rewrite M, P].
    + split; [|done]. by apply (current_entry fs).
  - destruct (Z.eqb_spec (m_cache_setting s) 1) as [E1|E1]; [|by split; [|split]].
    unfold df_check_updated. destruct (fs_file_size fs (m_file_path e)) as [n|] eqn:En; [|by split].
    destruct (fo_files _ Hfs _ _ En) as (data & t & Hr & Hl & Ht & Hs). rewrite Ht. cbn [mbind option_bind].
    destruct ((t =? m_last_modified e) && (n =? m_file_size e)) eqn:Eu.
    + apply andb_true_iff in Eu as [Et%Z.eqb_eq Es%Z.eqb_eq]. rewrite Et in Ht. rewrite Es in En.
      split; [done|]. split; [done|]. intros _. by split; [| |apply Hd|].
    + set (f := with_stamp n t (file_date t) e).
      destruct (df_read_current fs f Hfs En Ht) as (C & P & M & S & T & D).
      assert (current fs (df_read fs f)) as Hcu' by (split; rewrite ?P, ?S, ?T, ?D; done).
      split; [|done]. apply (current_entry fs); [done|by rewrite P|by rewrite M, P].
Qed.

(** Two services with the same paths have the same entries. *)
Lemma cache_ok_with m s : map_Forall (entry_ok s) m -> cache_ok (with_cache m s).
Proof. intros Hm k e Hk. destruct (Hm k e Hk). by split. Qed.

Lemma entry_ok_no_content s rel f : entry_ok s rel f -> entry_ok s rel (with_file_content None f).
Proof. intros [H1 H2 H3 H4]. split; [done..|]. apply no_content_ok. Qed.

(** The settings are numbers, the directory has no slash at its end, and the entries are ok. *)
Record service_ok s : Prop := mk_service_ok {
  so_cache : cache_ok s;
  so_setting : 0 <= m_cache_setting s;
  so_scan : 0 <= m_scan_setting s;
  so_chunk : 0 <= m_max_chunk_size s;
  so_directory : last (m_directory s) <> Some SLASH
}.

(** What a request does not change. *)
Definition same_options s s' : Prop := exists m, s' = with_cache m s.

Lemma same_options_refl s : same_options s s.
Proof. exists (m_cache_map s). by destruct s. Qed.

(** What the cache answers. *)
Inductive cache_answer fs s (method ims rel : bytes) : option (response_type * disk_file) -> Prop :=
| ca_not_found :
    m_cache_map s !! rel = None -> m_scan_setting s = 1 \/ m_scan_setting s = 3 ->
    cache_answer fs s method ims rel (Some (RESPONSE_NOT_FOUND, new_disk_file))
| ca_undefined :
    m_cache_map s !! rel = None \/ m_cache_setting s = 0 /\ m_scan_setting s = 0 ->
    ~ (m_scan_setting s = 1 \/ m_scan_setting s = 3) ->
    cache_answer fs s method ims rel (Some (RESPONSE_UNDEFINED, new_disk_file))
| ca_thrown e :
    m_cache_map s !! rel = Some e -> fs_file_size fs (m_file_path e) = None ->
    cache_answer fs s method ims rel None
| ca_file e f :
    m_cache_map s !! rel = Some e -> m_file_path f = m_file_path e ->
    m_mime_type f = find_mime_type (path_filename (m_file_path f)) ->
    (m_cache_setting s <= 1 -> current fs f) -> (m_cache_setting s = 0 -> m_file_content f = None) ->
    cache_answer fs s method ims rel (Some (conditional method ims (m_last_modified_string f), f)).

Lemma cached_response_ok fs method ims rel s s' r :
  fs_ok fs -> service_ok s -> cached_response fs method ims rel s = (s', r) ->
  service_ok s' /\ same_options s s' /\ (m_cache_map s !! rel = None -> s' = s)
  /\ cache_answer fs s method ims rel r.
Proof.
  intros Hfs [Hs H0 H1 H2 H3] E. unfold cached_response in E.
  destruct ((0 <? m_cache_setting s) || (0 <? m_scan_setting s)) eqn:Eon.
  2:{ apply orb_false_iff in Eon as [E1%Z.ltb_ge E2%Z.ltb_ge]. injection E as <- <-.
      split; [done|]. split; [apply same_options_refl|]. split; [done|]. constructor; [right; lia|lia]. }
  destruct (m_cache_map s !! rel) as [e|] eqn:Ee.
  2:{ injection E as <- <-. split; [done|]. split; [apply same_options_refl|]. split; [done|].
      destruct ((m_scan_setting s =? 1) || (m_scan_setting s =? 3)) eqn:Es.
      - constructor; [done|]. apply orb_true_iff in Es as [?%Z.eqb_eq|?%Z.eqb_eq]; tauto.
      - apply orb_false_iff in Es as [?%Z.eqb_neq ?%Z.eqb_neq]. constructor; [by left|tauto]. }
  pose proof (Hs _ _ Ee) as He. destruct (Z.eqb_spec (m_cache_setting s) 0) as [E0|E0].
  - set (f0 := with_mime_type _ _) in E. pose proof (df_update_current fs f0 Hfs eq_refl) as Hu.
    destruct (df_update fs f0) as [f ok] eqn:Ef. injection E as <- <-.
    split; [done|]. split; [apply same_options_refl|]. split; [done|]. destruct ok.
    + destruct Hu as (Hc & Hp & Hm & Hn). apply (ca_file fs s method ims rel e f); [done|done| |done|done].
      rewrite Hm, Hp. apply He.
    + apply (ca_thrown fs s method ims rel e); [done|]. unfold df_update in Ef.
      change (m_file_path f0) with (m_file_path e) in Ef.
      destruct (fs_file_size fs (m_file_path e)) as [n|] eqn:En; [|done].
      destruct (fo_files _ Hfs _ _ En) as (data & t & _ & _ & Ht & _). by rewrite Ht in Ef.
  - pose proof (refresh_entry_ok fs s rel e Hfs He) as Hr.
    destruct (refresh_entry fs s e) as [f [b|]]; injection E as <- <-.
    + destruct Hr as (Hf & Hp & Hc). split; [split; [|done..]|].
      { apply cache_ok_with, map_Forall_insert_2; [|done]. case_if; [by apply entry_ok_no_content|done]. }
      split; [by eexists|]. split; [done|]. apply (ca_file fs s method ims rel e f); [done|done|apply Hf| |done].
      intros Hle. apply Hc. lia.
    + destruct Hr as [Hf Hn]. split; [split; [|done..]|].
      { by apply cache_ok_with, map_Forall_insert_2. }
      split; [by eexists|]. split; [done|]. by eapply ca_thrown.
Qed.

Lemma uncached_response_ok fs method ims rel p s s' r :
  fs_ok fs -> service_ok s -> request_path rel s = Some p ->
  uncached_response fs method ims rel p s = (s', r) ->
  service_ok s' /\ same_options s s'
  /\ ((r = None /\ fs_file_size fs p = None)
      \/ exists f, r = Some (conditional method ims (m_last_modified_string f), f) /\ m_file_path f = p
                   /\ m_mime_type f = find_mime_type (path_filename p) /\ current fs f
                   /\ (m_cache_setting s = 0 -> m_file_content f = None)).
Proof.
  intros Hfs [Hs H0 H1 H2 H3] Hp E. unfold uncached_response in E. set (f0 := with_mime_type _ _) in E.
  pose proof (df_update_current fs f0 Hfs eq_refl) as Hu.
  destruct (df_update fs f0) as [f ok] eqn:Ef. destruct ok; cbn [negb] in E.
  2:{ injection E as <- <-. split; [done|]. split; [apply same_options_refl|]. left. split; [done|].
      unfold df_update in Ef. change (m_file_path f0) with p in Ef. destruct (fs_file_size fs p) as [n|] eqn:En; [|done].
      destruct (fo_files _ Hfs _ _ En) as (data & t & _ & _ & Ht & _). by rewrite Ht in Ef. }
  destruct Hu as (Hc & Hpf & Hm & Hn). change (m_file_path f0) with p in Hpf.
  change (m_mime_type f0) with (find_mime_type (path_filename p)) in Hm.
  assert (forall f1, current fs f1 -> m_file_path f1 = p -> m_mime_type f1 = find_mime_type (path_filename p) ->
            entry_ok s rel f1) as Hent.
  { intros f1 Hc1 Hp1 Hm1. apply (current_entry fs); [done|by rewrite Hp1|by rewrite Hp1]. }
  destruct (conditional method ims (m_last_modified_string f)) eqn:Et;
    try (injection E as <- <-; split; [done|]; split; [apply same_options_refl|]; right; exists f; by rewrite Et).
  destruct (Z.eqb_spec (m_cache_setting s) 0) as [E0|E0]; injection E as <- <-.
  { split; [done|]. split; [apply same_options_refl|]. right. exists f. by rewrite Et. }
  destruct (read_if_cacheable fs s f Hfs Hc) as (Hc' & Hp' & Hm'). set (f' := if cacheable s f then _ else _) in *.
  split; [|split].
  - destruct (m_cache_map s !! rel); [done|]. split; [|done..]. apply cache_ok_with, map_Forall_insert_2; [|done].
    apply Hent; congruence.
  - destruct (m_cache_map s !! rel); [apply same_options_refl|by eexists].
  - right. exists f'. assert (m_last_modified_string f' = m_last_modified_string f) as ->.
    { unfold f'. by destruct (cacheable s f). }
    rewrite Et. split; [done|]. split; [congruence|]. by split; [congruence|].
Qed.

(** What a GET request for a file gives. *)
Inductive get_answer fs s (request : message) (c : connection) (rel p : bytes) : file_answer -> Prop :=
| ga_not_listed :
    m_cache_map s !! rel = None -> m_scan_setting s = 1 \/ m_scan_setting s = 3 ->
    get_answer fs s request c rel p (answer_written (send_not_found_response request c))
| ga_missing :
    fs_exists fs p <> Some true ->
    get_answer fs s request c rel p (answer_written (send_not_found_response request c))
| ga_thrown :
    fs_exists fs p = None \/ fs_file_size fs p = None ->
    get_answer fs s request c rel p answer_thrown
| ga_file f :
    m_file_path f = p -> m_mime_type f = find_mime_type (path_filename p) ->
    (m_cache_setting s <= 1 -> current fs f) -> (m_cache_setting s = 0 -> m_file_content f = None) ->
    get_answer fs s request c rel p
      (answer_type (conditional (get_method request) (get_header request HEADER_IF_MODIFIED_SINCE)
                      (m_last_modified_string f)) f request c s).

Lemma handle_get_ok fs request c rel p s s' a :
  fs_ok fs -> service_ok s -> request_path rel s = Some p ->
  handle_get fs request c rel p s = (s', a) ->
  service_ok s' /\ same_options s s' /\ get_answer fs s request c rel p a.
Proof.
  intros Hfs Hs Hp E. unfold handle_get in E. set (ims := get_header request _) in *.
  destruct (cached_response fs (get_method request) ims rel s) as [s1 r] eqn:E1.
  destruct (cached_response_ok _ _ _ _ _ _ _ Hfs Hs E1) as (Hs1 & Ho1 & Hsame & Hca).
  assert (request_path rel s1 = Some p) as Hp1 by (destruct Ho1 as [m ->]; done).
  destruct Hca as [Hn Hsc|Hn Hsc|e He Hsz|e f He Hpf Hm Hc Hz].
  - injection E as <- <-. split; [done|]. split; [done|]. by apply ga_not_listed.
  - destruct (fs_exists fs p) as [[]|] eqn:Ex.
    + destruct (uncached_response fs (get_method request) ims rel p s1) as [s2 r] eqn:E2. injection E as <- <-.
      destruct (uncached_response_ok _ _ _ _ _ _ _ _ Hfs Hs1 Hp1 E2) as (Hs2 & Ho2 & Hr).
      split; [done|]. split.
      { destruct Ho1 as [m1 ->], Ho2 as [m2 ->]. by exists m2. }
      destruct Hr as [[-> Hsz]|(f & -> & Hpf & Hm & Hc & Hz)].
      * apply ga_thrown. by right.
      * assert (answer_type (conditional (get_method request) ims (m_last_modified_string f)) f request c s2
                = answer_type (conditional (get_method request) ims (m_last_modified_string f)) f request c s) as ->.
        { destruct Ho1 as [m1 ->], Ho2 as [m2 ->]. by destruct (conditional _ _ _). }
        apply ga_file; [done..|]. destruct Ho1 as [m1 ->]. exact Hz.
    + injection E as <- <-. split; [done|]. split; [done|]. apply ga_missing. by rewrite Ex.
    + injection E as <- <-. split; [done|]. split; [done|]. apply ga_thrown. by left.
  - injection E as <- <-. split; [done|]. split; [done|]. apply ga_thrown. right.
    pose proof (eo_path _ _ _ (so_cache _ Hs _ _ He)) as Hpe. congruence.
  - pose proof (eo_path _ _ _ (so_cache _ Hs _ _ He)) as Hpe. rewrite Hp in Hpe. injection Hpe as Hpe.
    assert (get_answer fs s request c rel p
              (answer_type (conditional (get_method request) ims (m_last_modified_string f)) f request c s)) as Hga.
    { apply ga_file; [congruence| |done..]. by rewrite Hm, Hpf, Hpe. }
    destruct (conditional (get_method request) ims (m_last_modified_string f)) eqn:Et; rewrite ?Et in Hga;
      try (injection E as <- <-; split; [done|]; split; [done|]; destruct Ho1 as [m ->]; exact Hga).
    exfalso. revert Et. unfold conditional. repeat case_if; done.
Qed.

(** ** Starting *)

Lemma add_cache_entry_ok fs rel p b s s' :
  fs_ok fs -> service_ok s -> request_path rel s = Some p ->
  add_cache_entry fs rel p b s = Some s' -> service_ok s' /\ same_options s s'.
Proof.
  intros Hfs [Hs H0 H1 H2 H3] Hp E. unfold add_cache_entry in E. set (f0 := mk_disk_file _ _ _ _ _ _) in E.
  assert (forall f, entry_ok s rel f ->
            let s1 := match m_cache_map s !! rel with
                      | Some _ => s | None => with_cache (<[rel := f]> (m_cache_map s)) s end in
            service_ok s1 /\ same_options s s1) as Hadd.
  { intros f Hf. cbn zeta. destruct (m_cache_map s !! rel); [by split; [|apply same_options_refl]|].
    split; [|by eexists]. split; [|done..]. by apply cache_ok_with, map_Forall_insert_2. }
  destruct b.
  { injection E as <-. apply Hadd. split; [done|done|done|]. by intros buf. }
  pose proof (df_update_current fs f0 Hfs eq_refl) as Hu. destruct (df_update fs f0) as [f ok].
  destruct ok; [|done]. injection E as <-. destruct Hu as (Hc & Hpf & Hm & _).
  destruct (read_if_cacheable fs s f Hfs Hc) as (Hc' & Hp' & Hm'). apply Hadd.
  apply (current_entry fs); [done|by rewrite Hp', Hpf|by rewrite Hm', Hm, Hp', Hpf].
Qed.

End Cache.
