(* ===== verification/FileServing.v ===== *)
(** * Serving files

    Theorems about the file service of FileService: the sender of a file, the scan of the
    directory, the life of the service, what a request for a file is answered, and what changes
    files; with the deviations that the model shows and a file system for the witnesses. *)
From stdpp Require Import gmap.
From S2P Require Import Prelude CLib StringUtils Algorithm StdMap Resources Paths Dict Tribool.
From S2P Require Import HttpTypes Message ParserBase ParserHeaders ParserForms ParserBody Parser.
From S2P Require Import ParserSafety ParserStream ParserRoundTrip Connection Writer Users Replies.
From S2P Require Import Auth HttpServer Plugins PluginManager PluginServer.
From S2P Require Import FileService.

(** ** Sending a file *)

(** A writer whose caches are empty. *)
Definition plain_writer (m : message) (c : connection) (supported sending sent : bool) : writer :=
  mk_writer m c [] [] 0 true supported sending sent.

(** The buffers of the head of the response before a piece. *)
Definition piece_head (m : message) (c : connection) (sending sent : bool) (data : bytes) : list bytes :=
  if sent then []
  else snd (prepare_buffers_for_send (get_keep_alive c) sending (set_content_length (zlen data) m)).

(** The buffers of a piece. *)
Definition piece_body (final chunked : bool) (data : bytes) : list bytes :=
  (if chunked then [sprintf_lx (zlen data); STRING_CRLF; data; STRING_CRLF] else [data])
  ++ (if final && chunked then [str "0"; STRING_CRLF; STRING_CRLF] else []).

Lemma write_plain data m c supported sending sent :
  data <> [] -> zlen data <= LONG_MAX ->
  write_binary data (plain_writer m c supported sending sent)
  = mk_writer m c [data] [] (zlen data) true supported sending sent.
Proof.
  intros Hd Hz. unfold write_binary, plain_writer. pose proof (zlen_nonneg data) as Hn.
  destruct (Z.eqb_spec (zlen data) 0) as [E|E]; [by apply zlen_zero_iff in E|].
  unfold push_buffer. cbn. by rewrite u64_small by (unfold LONG_MAX in Hz; lia).
Qed.

Lemma send_plain final data m c supported sending sent :
  m_is_open c = true -> data <> [] -> zlen data <= LONG_MAX ->
  exists w m',
    send_more_data final (write_binary data (plain_writer m c supported sending sent)) = (w, true)
    /\ w_conn w = write_buffers (piece_head m c sending sent data
                                 ++ piece_body final (supported && sending) data) c
    /\ clear_writer w = plain_writer m' (w_conn w) supported sending true.
Proof.
  intros Ho Hd Hz. rewrite write_plain by done. unfold send_more_data. cbn [w_conn]. rewrite Ho.
  cbn [flush_content_stream w_stream_is_empty]. unfold prepare_write_buffers, prepare_message_buffers, content_buffers.
  writer_fields. assert (0 < zlen data) as Hp.
  { pose proof (zlen_nonneg data). destruct (Z.eq_dec (zlen data) 0) as [E|]; [by apply zlen_zero_iff in E|lia]. }
  rewrite (proj2 (Z.ltb_lt 0 (zlen data)) Hp). unfold piece_head, piece_body. destruct sent.
  - writer_fields. rewrite (proj2 (Z.ltb_lt 0 (zlen data)) Hp). eexists _, m. split; [reflexivity|]. by destruct supported, sending.
  - destruct (prepare_buffers_for_send _ sending _) as [m' head]. writer_fields.
    rewrite (proj2 (Z.ltb_lt 0 (zlen data)) Hp). eexists _, m'. split; [reflexivity|]. by destruct supported, sending.
Qed.

(** The body of a response in pieces, as the client sees it. *)
Definition pieces_text (supported : bool) (pieces : list bytes) : bytes :=
  if supported then chunked_body (pieces ≫= chunk_of) (str "0") else mjoin pieces.

Lemma piece_text_last (chunked : bool) (data : bytes) :
  data <> [] -> mjoin (piece_body true chunked data) = pieces_text chunked [data].
Proof.
  intros Hd. unfold piece_body, pieces_text. destruct chunked; [|done].
  unfold chunked_body. cbn [mbind list_bind app]. unfold chunk_of. rewrite bool_decide_false by done.
  cbn [mbind list_bind app]. unfold chunk_bytes, last_chunk, mjoin, list_join. by rewrite <- ?app_assoc.
Qed.

Lemma piece_text_more (chunked : bool) (data : bytes) pieces :
  data <> [] -> mjoin (piece_body false chunked data) ++ pieces_text chunked pieces
                = pieces_text chunked (data :: pieces).
Proof.
  intros Hd. unfold piece_body, pieces_text. destruct chunked; cbn [andb]; rewrite app_nil_r; [|by rewrite (mjoin_one data)].
  unfold chunked_body. rewrite bind_cons, bind_app, <- app_assoc. f_equal.
  rewrite <- mjoin_chunks. unfold chunk_of. by rewrite bool_decide_false by done.
Qed.

Section Sending.
Context `{FileSystem}.
Implicit Types (fs : fs_state) (s : file_sender).

(** [rest] is what is left to send of [data]. *)
Record sends fs (data rest : bytes) s : Prop := mk_sends {
  sn_size : m_file_size (m_disk_file s) = zlen data;
  sn_small : zlen data <= LONG_MAX;
  sn_rest : exists sent, data = sent ++ rest /\ m_bytes_sent s = zlen sent;
  sn_chunk : 0 <= snd_max_chunk_size s;
  sn_content :
    m_file_content (m_disk_file s) = Some (Some <$> data)
    \/ m_file_content (m_disk_file s) = None
       /\ (m_file_stream s = Some rest
           \/ m_file_stream s = None /\ rest = data /\ fs_read fs (m_file_path (m_disk_file s)) = Some data)
}.

Lemma initialised_some (data : bytes) : initialised (Some <$> data) = Ok data.
Proof. induction data as [|c data IH]; [done|]. cbn. by rewrite IH. Qed.

(** Reading the next piece. *)
Lemma next_content_ok fs data rest s n :
  sends fs data rest s -> 0 < n <= zlen rest ->
  exists stream,
    next_content fs n s = Ok (Some (take (Z.to_nat n) rest, stream))
    /\ (m_file_content (m_disk_file s) = Some (Some <$> data)
        \/ m_file_content (m_disk_file s) = None /\ stream = Some (drop (Z.to_nat n) rest)).
Proof.
  intros [Hs Hz (sent & Hd & Hb) _ Hc] Hn. unfold next_content. destruct Hc as [Hc|[Hc Hst]]; rewrite Hc.
  - exists (m_file_stream s). split; [|by left]. rewrite Hb. unfold zlen at 1 2. rewrite length_fmap, Hd, length_app.
    unfold zlen in Hn. rewrite (proj2 (Z.leb_le _ _)) by lia.
    rewrite <- fmap_drop, <- fmap_take, initialised_some. cbn [mbind res_bind].
    unfold zlen. rewrite Nat2Z.id, drop_app_length. done.
  - exists (Some (drop (Z.to_nat n) rest)). split; [|by right].
    assert (match m_file_stream s with
            | Some stream => Some stream
            | None => fs_read fs (m_file_path (m_disk_file s))
            end = Some rest) as ->.
    { destruct Hst as [->|(-> & -> & ->)]; done. }
    by rewrite (proj2 (Z.leb_le _ _)) by lia.
Qed.

(** The size of the next piece. *)
Definition piece_size (max : Z) (rest : bytes) : nat :=
  Z.to_nat (if (0 <? max) && (max <? zlen rest) then max else zlen rest).

Lemma piece_size_bounds max rest :
  rest <> [] -> 0 <= max -> (0 < piece_size max rest <= length rest)%nat.
Proof.
  intros Hr Hm. unfold piece_size. assert (0 < length rest)%nat by (destruct rest; [done|cbn; lia]).
  unfold zlen. destruct (0 <? max) eqn:E1; destruct (max <? _) eqn:E2; cbn [andb]; lia.
Qed.

(** One call of [send]: the next piece, and the operation of the writer for it. *)
Lemma file_send_step fs data rest s :
  sends fs data rest s -> rest <> [] ->
  let n := piece_size (snd_max_chunk_size s) rest in
  let w := write_binary (take n rest) (m_writer s) in
  let first := bool_decide (rest = data) in
  exists stream,
    file_send fs s
    = (let '(w, ok) := if bool_decide (drop n rest = []) then (if first then send w else send_final_chunk w)
                       else send_chunk w in
       let s' := mk_file_sender (m_disk_file s) w stream (snd_max_chunk_size s) (Z.of_nat n) (m_bytes_sent s) in
       Ok (if ok : bool then send_waiting s' else send_finished (w_conn w)))
    /\ forall w',
         sends fs data (drop n rest)
           (mk_file_sender (m_disk_file s) w' stream (snd_max_chunk_size s) (Z.of_nat n)
              (m_bytes_sent s + Z.of_nat n)).
Proof.
  intros Hs Hr n w first. pose proof (piece_size_bounds (snd_max_chunk_size s) rest Hr (sn_chunk _ _ _ _ Hs)) as Hn.
  fold n in Hn. destruct (sn_rest _ _ _ _ Hs) as (sent & Hd & Hb).
  destruct (next_content_ok fs data rest s (Z.of_nat n) Hs) as (stream & Hnc & Hst); [unfold zlen; lia|].
  rewrite Nat2Z.id in Hnc, Hst. exists stream. assert (zlen data = zlen sent + zlen rest) as Hl by (by rewrite Hd, zlen_app).
  split.
  - unfold file_send. rewrite (sn_size _ _ _ _ Hs), Hb, Hl.
    assert (0 < zlen rest) as Hp by (unfold zlen; lia).
    rewrite (proj2 (Z.leb_gt _ _)) by lia. replace (zlen sent + zlen rest - zlen sent) with (zlen rest) by lia.
    assert ((if (0 <? snd_max_chunk_size s) && (snd_max_chunk_size s <? zlen rest)
             then snd_max_chunk_size s else zlen rest) = Z.of_nat n) as ->.
    { unfold n, piece_size in *. destruct ((0 <? _) && _); [|unfold zlen; lia].
      pose proof (sn_chunk _ _ _ _ Hs). lia. }
    rewrite Hnc. cbn [mbind res_bind]. fold w.
    assert ((zlen sent + zlen rest <=? zlen sent + Z.of_nat n) = bool_decide (drop n rest = [])) as ->.
    { unfold zlen. case_bool_decide as E.
      - apply (f_equal length) in E. rewrite length_drop in E. cbn in E. lia.
      - apply Z.leb_gt. assert (0 < length (drop n rest))%nat; [by destruct (drop n rest); [|cbn; lia]|].
        rewrite length_drop in *. lia. }
    assert ((0 <? zlen sent) = negb first) as ->.
    { unfold first. case_bool_decide as E; cbn [negb].
      - assert (zlen sent = 0) by (rewrite E in Hl; lia). lia.
      - destruct sent; [done|]. apply Z.ltb_lt. rewrite zlen_cons. pose proof (zlen_nonneg sent). lia. }
    by destruct first.
  - intros w'. destruct Hs as [Hsz Hz _ Hc Hcn]. split; [done..| |done|].
    + exists (sent ++ take n rest). cbn. rewrite <- app_assoc, take_drop. split; [done|].
      rewrite zlen_app, Hb. f_equal. unfold zlen. rewrite length_take. lia.
    + cbn. destruct Hst as [?|[? ->]]; [by left|]. right. split; [done|by left].
Qed.

(** The completions of the write operations, when all of them succeed. *)
Definition no_errors (n : nat) : list bool := replicate n false.

Lemma sender_loop_finished fs errors c : sender_loop fs errors (send_finished c) = Ok (send_finished c).
Proof. by destruct errors. Qed.

(** A write operation that succeeds: the sender goes on, or the connection is finished. *)
Lemma sender_loop_step fs data rest s k :
  sends fs data rest (mk_file_sender (m_disk_file s) (clear_writer (m_writer s)) (m_file_stream s)
                        (snd_max_chunk_size s) (m_file_bytes_to_send s)
                        (m_bytes_sent s + m_file_bytes_to_send s)) ->
  sender_loop fs (no_errors (S k)) (send_waiting s)
  = if bool_decide (rest = []) then Ok (send_finished (w_conn (m_writer s)))
    else run_sender fs (no_errors k)
           (mk_file_sender (m_disk_file s) (clear_writer (m_writer s)) (m_file_stream s)
              (snd_max_chunk_size s) (m_file_bytes_to_send s) (m_bytes_sent s + m_file_bytes_to_send s)).
Proof.
  intros [Hs _ (sent & Hd & Hb) _ _]. cbn in Hs, Hb. cbn [no_errors replicate sender_loop]. unfold handle_write.
  rewrite Hs, Hb. assert ((zlen data <=? zlen sent) = bool_decide (rest = [])) as ->.
  { rewrite Hd, zlen_app. pose proof (zlen_nonneg rest). case_bool_decide as E; [subst; rewrite zlen_nil; lia|].
    rewrite <- zlen_zero_iff in E. lia. }
  case_bool_decide; [apply sender_loop_finished|]. unfold run_sender, no_errors.
  by rewrite <- Hb.
Qed.

(** The rest of a file, after its first piece. *)
Lemma rest_sent fs data : forall n rest s m c supported k,
  (length rest <= n)%nat -> (n <= k)%nat ->
  sends fs data rest s -> rest <> [] -> rest <> data ->
  m_writer s = plain_writer m c supported true true -> m_is_open c = true ->
  (supported = false -> m_lifecycle c = LIFECYCLE_CLOSE) ->
  exists pieces c',
    run_sender fs (no_errors k) s = Ok (send_finished c') /\ mjoin pieces = rest
    /\ Forall (fun d => d <> []) pieces
    /\ m_written c' = m_written c ++ pieces_text supported pieces /\ m_lifecycle c' = m_lifecycle c.
Proof.
  induction n as [|n IH]; intros rest s m c supported k Hn Hk Hs Hr Hd Hw Ho Hl.
  { destruct rest; [done|cbn in Hn; lia]. }
  destruct (file_send_step fs data rest s Hs Hr) as (stream & E & Hnext).
  pose proof (piece_size_bounds (snd_max_chunk_size s) rest Hr (sn_chunk _ _ _ _ Hs)) as Hp.
  set (p := piece_size _ _) in *. rewrite (bool_decide_false (rest = data)) in E by done.
  assert (take p rest <> []) as Hne by (destruct rest, p; [done|done|lia|done]).
  assert (zlen (take p rest) <= LONG_MAX) as Hz.
  { destruct (sn_rest _ _ _ _ Hs) as (sent & Hds & _). pose proof (sn_small _ _ _ _ Hs) as Hsm.
    rewrite Hds, zlen_app in Hsm. pose proof (zlen_nonneg sent). unfold zlen in *. rewrite length_take. lia. }
  destruct k as [|k]; [lia|]. unfold run_sender. rewrite E. clear E. rewrite Hw.
  destruct (bool_decide_reflect (drop p rest = [])) as [He|He].
  - destruct (send_plain true (take p rest) m c supported true true Ho Hne Hz) as (w & m' & Ew & Hc & _).
    assert (send_final_chunk (write_binary (take p rest) (plain_writer m c supported true true)) = (w, true)) as ->.
    { rewrite <- Ew, write_plain by done. done. }
    cbn [mbind res_bind]. rewrite (sender_loop_step fs data (drop p rest)) by apply Hnext. rewrite He. cbn [m_writer].
    rewrite bool_decide_true by done. exists [take p rest], (w_conn w). split; [done|].
    split; [rewrite mjoin_one; rewrite <- (take_drop p rest) at 2; by rewrite He, app_nil_r|].
    split; [by constructor|]. rewrite Hc. split; [|done]. cbn [write_buffers m_written piece_head app].
    by rewrite andb_true_r, piece_text_last.
  - destruct (send_plain false (take p rest) m (if supported then c else set_lifecycle LIFECYCLE_CLOSE c) supported
      true true ltac:(by destruct supported) Hne Hz) as (w & m' & Ew & Hc & Hcl).
    assert (send_chunk (write_binary (take p rest) (plain_writer m c supported true true)) = (w, true)) as ->.
    { rewrite <- Ew, !write_plain by done. by destruct supported. }
    cbn [mbind res_bind]. rewrite (sender_loop_step fs data (drop p rest)) by apply Hnext. cbn [m_writer].
    rewrite bool_decide_false by done.
    match goal with |- context [run_sender fs (no_errors k) ?x] => set (next := x) end.
    destruct (IH (drop p rest) next m' (w_conn w) supported k) as (pieces & c' & E & Hj & Hf & Hwr & Hlc);
      [| |apply Hnext|done| |exact Hcl| | |].
    + rewrite length_drop. lia.
    + lia.
    + intros Heq. apply (f_equal length) in Heq. rewrite length_drop in Heq.
      destruct (sn_rest _ _ _ _ Hs) as (sent & Hds & _). apply (f_equal length) in Hds. rewrite length_app in Hds. lia.
    + rewrite Hc. by destruct supported.
    + rewrite Hc. by destruct supported.
    + exists (take p rest :: pieces), c'. split; [exact E|]. split.
      { change (mjoin (take p rest :: pieces)) with (take p rest ++ mjoin pieces). by rewrite Hj, take_drop. }
      split; [by constructor|]. rewrite Hwr, Hlc, Hc. split.
      * destruct supported; cbn [write_buffers m_written set_lifecycle piece_head app]; rewrite <- app_assoc;
          by rewrite <- (piece_text_more _ (take p rest)).
      * destruct supported; [done|]. cbn. symmetry. by apply Hl.
Qed.


(** The response of a file. *)
Definition file_response (f : disk_file) (request : message) (c : connection) (max_chunk_size : Z) : message :=
  w_message (m_writer (new_file_sender f request c max_chunk_size)).

Definition supports_chunks (request : message) (c : connection) : bool :=
  w_client_supports_chunks (create_response_writer request c).

(** The head of the response of a file: with the length of the file or, when it is sent in
    pieces, with the chunked encoding if the client knows it. *)
Definition file_head (f : disk_file) (request : message) (c : connection) (max : Z) (in_pieces : bool) : bytes :=
  mjoin (snd (prepare_buffers_for_send
                (get_keep_alive c && (supports_chunks request c || negb in_pieces)) in_pieces
                (set_content_length (if in_pieces then max else m_file_size f) (file_response f request c max)))).

(** How the answer ends up on the connection. *)
Inductive file_written (f : disk_file) (request : message) (c : connection) (max : Z) (data : bytes)
  (c' : connection) : Prop :=
| written_whole :
    max = 0 \/ zlen data <= max ->
    m_written c' = m_written c ++ file_head f request c max false ++ data ->
    m_lifecycle c' = m_lifecycle c -> file_written f request c max data c'
| written_pieces pieces :
    0 < max < zlen data -> mjoin pieces = data -> Forall (fun d => d <> []) pieces ->
    m_written c' = m_written c ++ file_head f request c max true
                   ++ pieces_text (supports_chunks request c) pieces ->
    m_lifecycle c' = (if supports_chunks request c then m_lifecycle c else LIFECYCLE_CLOSE) ->
    file_written f request c max data c'.

(** The content of [f] is at hand: in the cache, or in the file. *)
Definition content_at_hand fs (f : disk_file) (data : bytes) : Prop :=
  m_file_size f = zlen data /\ zlen data <= LONG_MAX
  /\ (m_file_content f = Some (Some <$> data)
      \/ m_file_content f = None /\ fs_read fs (m_file_path f) = Some data).

Lemma new_sender_sends fs f request c max data :
  content_at_hand fs f data -> 0 <= max -> sends fs data data (new_file_sender f request c max).
Proof.
  intros (Hs & Hz & Hc) Hm. split; [done|done|by exists []|done|].
  cbn. destruct Hc as [?|[? ?]]; [by left|right; split; [done|by right]].
Qed.

Lemma file_response_length f request c max : m_content_length (file_response f request c max) = 0.
Proof.
  unfold file_response, new_file_sender, create_response_writer, new_response_writer_for, update_request_info.
  by destruct ((m_version_major request =? 1) && (1 <=? m_version_minor request)), (m_version_major request =? 0).
Qed.

(** A file without content: only the head is sent. *)
Lemma empty_file_sent fs f request c max k :
  m_is_open c = true -> m_file_size f = 0 ->
  exists c', run_sender fs (no_errors k) (new_file_sender f request c max) = Ok (send_finished c')
             /\ m_written c' = m_written c ++ file_head f request c max false
             /\ m_lifecycle c' = m_lifecycle c.
Proof.
  intros Ho Hs. unfold run_sender. set (s := new_file_sender f request c max).
  assert (file_send fs s = Ok (send_finished (w_conn (fst (send (m_writer s)))))) as ->.
  { unfold file_send. change (m_disk_file s) with f. by rewrite Hs. }
  cbn [mbind res_bind]. rewrite sender_loop_finished. eexists. split; [reflexivity|].
  set (m := file_response f request c max).
  change (m_writer s) with (plain_writer m c (supports_chunks request c) false false).
  unfold send, send_more_data, plain_writer. cbn [w_conn]. rewrite Ho. cbn [flush_content_stream w_stream_is_empty].
  unfold prepare_write_buffers, prepare_message_buffers, content_buffers, file_head.
  writer_fields. change (0 <? 0) with false. cbv iota. rewrite orb_true_r, andb_true_r, Hs. fold m.
  assert (m_content_length m = 0) as Hm by (apply file_response_length).
  replace (set_content_length 0 m) with m by (rewrite <- Hm; by destruct m).
  destruct (prepare_buffers_for_send _ _ m) as [m' head]. split; [|done]. cbn. by rewrite app_nil_r.
Qed.

(** When a file is sent in pieces. *)
Lemma first_piece max data :
  data <> [] -> 0 <= max ->
  (drop (piece_size max data) data = [] -> max = 0 \/ zlen data <= max)
  /\ (drop (piece_size max data) data <> [] ->
      0 < max < zlen data /\ zlen (take (piece_size max data) data) = max).
Proof.
  intros Hd Hm. unfold piece_size, zlen. rewrite length_take. split; intros He.
  - apply (f_equal length) in He. rewrite length_drop in He. cbn in He.
    destruct (0 <? max) eqn:E1; destruct (max <? _) eqn:E2; cbn [andb] in *; lia.
  - match type of He with drop ?n data <> [] => assert (length (drop n data) <> 0%nat) as Hl end.
    { by intros ?%length_zero_iff_nil. }
    rewrite length_drop in Hl. destruct (0 <? max) eqn:E1; destruct (max <? _) eqn:E2; cbn [andb] in *; lia.
Qed.

Lemma file_sent_whole fs f request c max data k :
  content_at_hand fs f data -> 0 <= max -> m_is_open c = true -> data <> [] ->
  drop (piece_size max data) data = [] ->
  exists c', run_sender fs (no_errors (S k)) (new_file_sender f request c max) = Ok (send_finished c')
             /\ file_written f request c max data c'.
Proof.
  intros Hf Hm Ho Hd He. pose proof (new_sender_sends fs f request c max data Hf Hm) as Hs.
  destruct (file_send_step fs data data _ Hs Hd) as (stream & E & Hnext).
  destruct (first_piece max data Hd Hm) as [Hmax _].
  cbn [snd_max_chunk_size new_file_sender] in E, Hnext. set (p := piece_size max data) in *.
  set (m := file_response f request c max). set (supported := supports_chunks request c).
  change (m_writer (new_file_sender f request c max)) with (plain_writer m c supported false false) in E.
  rewrite (bool_decide_true (data = data)), (bool_decide_true (drop p data = [])) in E by done.
  assert (take p data = data) as Ht by (rewrite <- (take_drop p data) at 2; by rewrite He, app_nil_r).
  rewrite Ht in E. destruct (send_plain false data m c supported false false Ho Hd (proj1 (proj2 Hf)))
    as (w & m' & Ew & Hc & _).
  unfold run_sender. rewrite E. unfold send. rewrite Ew. cbn [mbind res_bind].
  rewrite (sender_loop_step fs data (drop p data)) by apply Hnext.
  rewrite bool_decide_true by done. cbn [m_writer]. exists (w_conn w). split; [done|].
  apply written_whole; [by apply Hmax|rewrite Hc|by rewrite Hc].
  cbn [write_buffers m_written]. rewrite mjoin_app, andb_false_r. unfold piece_body, file_head. rewrite app_nil_r, mjoin_one.
  rewrite orb_true_r, andb_true_r. by rewrite (proj1 Hf).
Qed.

Lemma file_sent_in_pieces fs f request c max data k :
  content_at_hand fs f data -> 0 <= max -> m_is_open c = true -> data <> [] ->
  drop (piece_size max data) data <> [] -> (length data <= S k)%nat ->
  exists c', run_sender fs (no_errors (S k)) (new_file_sender f request c max) = Ok (send_finished c')
             /\ file_written f request c max data c'.
Proof.
  intros Hf Hm Ho Hd He Hk. pose proof (new_sender_sends fs f request c max data Hf Hm) as Hs.
  destruct (file_send_step fs data data _ Hs Hd) as (stream & E & Hnext).
  destruct (first_piece max data Hd Hm) as [_ Hmax]. pose proof (piece_size_bounds max data Hd Hm) as Hp.
  cbn [snd_max_chunk_size new_file_sender] in E, Hnext. set (p := piece_size max data) in *.
  destruct (Hmax He) as [Hlt Hpm]. set (m := file_response f request c max). set (supported := supports_chunks request c).
  change (m_writer (new_file_sender f request c max)) with (plain_writer m c supported false false) in E.
  rewrite (bool_decide_false (drop p data = [])) in E by done.
  assert (take p data <> []) as Hne by (destruct data, p; [done|done|lia|done]).
  destruct Hf as (Hsz & Hz & _). assert (zlen (take p data) <= LONG_MAX) as Hz' by lia.
  set (c1 := if supported then c else set_lifecycle LIFECYCLE_CLOSE c).
  destruct (send_plain false (take p data) m c1 supported true false ltac:(unfold c1; by destruct supported) Hne Hz')
    as (w & m' & Ew & Hc & Hcl).
  assert (send_chunk (write_binary (take p data) (plain_writer m c supported false false)) = (w, true)) as Esc.
  { rewrite <- Ew, !write_plain by done. unfold c1. by destruct supported. }
  unfold run_sender. rewrite E, Esc. cbn [mbind res_bind].
  rewrite (sender_loop_step fs data (drop p data)) by apply Hnext. cbn [m_writer]. rewrite bool_decide_false by done.
  match goal with |- context [run_sender fs (no_errors k) ?x] => set (next := x) end.
  assert (drop p data <> data) as Hdd.
  { intros Heq. apply (f_equal length) in Heq. rewrite length_drop in Heq. lia. }
  destruct (rest_sent fs data (length (drop p data)) (drop p data) next m' (w_conn w) supported k)
    as (pieces & c' & Er & Hj & Hne' & Hwr & Hlc);
    [done|rewrite length_drop; lia|apply Hnext|done|done|exact Hcl|rewrite Hc; unfold c1; by destruct supported..|].
  exists c'. split; [exact Er|]. apply (written_pieces _ _ _ _ _ _ (take p data :: pieces)); [done| |by constructor| |].
  - change (mjoin (take p data :: pieces)) with (take p data ++ mjoin pieces). by rewrite Hj, take_drop.
  - rewrite Hwr, Hc. cbn [write_buffers m_written]. rewrite mjoin_app, andb_true_r, <- !app_assoc, piece_text_more by done.
    unfold piece_head, file_head. rewrite Hpm. unfold c1. fold m supported.
    clearbody supported. by destruct supported; cbn [orb andb negb]; rewrite ?andb_true_r, ?andb_false_r.
  - rewrite Hlc, Hc. unfold c1. fold supported. clearbody supported. by destruct supported.
Qed.

(** The whole content of a file is sent, and the connection is finished. *)
Lemma file_sent fs f request c max data k :
  content_at_hand fs f data -> 0 <= max -> m_is_open c = true -> (length data <= k)%nat ->
  exists c', run_sender fs (no_errors k) (new_file_sender f request c max) = Ok (send_finished c')
             /\ file_written f request c max data c'.
Proof.
  intros Hf Hm Ho Hk. destruct (decide (data = [])) as [->|Hd].
  - destruct (empty_file_sent fs f request c max k Ho (proj1 Hf)) as (c' & E & Hw & Hl).
    exists c'. split; [exact E|]. apply written_whole; [by right|by rewrite app_nil_r|done].
  - destruct k as [|k]; [destruct data; [done|cbn in Hk; lia]|].
    destruct (decide (drop (piece_size max data) data = [])) as [He|He];
      [by apply file_sent_whole|by apply file_sent_in_pieces].
Qed.

End Sending.

(** ** The service *)

Section Service.
Context `{FileSystem} (seen : bytes -> Z -> Z -> bytes -> Prop).
Implicit Types (fs : fs_state) (s : file_service).

#[local] Abbreviation fs_ok := (fs_ok seen).
#[local] Abbreviation service_ok := (service_ok seen).

(** A path below the directory. *)
Definition below_directory s (d : bytes) : Prop :=
  exists r, r <> [] /\ hd_error r <> Some SLASH /\ last r <> Some SLASH /\ d = m_directory s ++ SLASH :: r.

Lemma path_append_plain p q :
  p <> [] -> last p <> Some SLASH -> q <> [] -> hd_error q <> Some SLASH -> path_append p q = p ++ SLASH :: q.
Proof.
  intros Hp Hl Hq Hn. destruct q as [|c q]; [done|]. unfold path_append.
  assert (is_slash c = false) as ->.
  { unfold is_slash. apply ceq_false. intros ->. by apply Hn. }
  rewrite bool_decide_false by done.
  destruct (last p) as [x|] eqn:El; [|by apply last_None in El]. cbn.
  assert (is_slash x = false) as ->; [|done]. unfold is_slash. apply ceq_false. congruence.
Qed.

Lemma head_last_plain (name : bytes) : SLASH ∉ name -> hd_error name <> Some SLASH /\ last name <> Some SLASH.
Proof.
  intros Hn. split; intros E; apply Hn; [destruct name; [done|]; injection E as ->; by constructor|].
  by apply last_Some_elem_of.
Qed.

Lemma last_after_slash (d name : bytes) : name <> [] -> last (d ++ SLASH :: name) = last name.
Proof.
  intros Hn. rewrite last_app, last_cons. destruct (last name) as [x|] eqn:E; [done|by apply last_None in E].
Qed.

(** An entry of the directory, or of a directory below it. *)
Lemma entry_below fs s d l p :
  fs_ok fs -> m_directory s <> [] -> last (m_directory s) <> Some SLASH ->
  d = m_directory s \/ below_directory s d -> fs_entries fs d = Some l -> p ∈ l -> below_directory s p.
Proof.
  intros Hfs Hd Hl Hb El Hp. destruct (fo_entries _ _ Hfs _ _ _ El Hp) as (name & Hn & Hs & ->).
  destruct (head_last_plain name Hs) as [Hh Hla]. destruct Hb as [->|(r & Hr & Hrh & Hrl & ->)].
  - exists name. by rewrite path_append_plain by done.
  - exists (r ++ SLASH :: name). rewrite path_append_plain; try done.
    + split; [by destruct r|]. split; [by destruct r|].
      split; [|by rewrite <- app_assoc].
      by rewrite last_after_slash.
    + by destruct (m_directory s).
    + by rewrite last_after_slash.
Qed.

(** The key that [scanDirectory] computes is the relative path of the request for the file. *)
Lemma below_key s p :
  m_directory s <> [] -> last (m_directory s) <> Some SLASH -> below_directory s p ->
  exists rel, substr p (length (m_directory s) + 1) (length p) = Ok rel /\ request_path rel s = Some p.
Proof.
  intros Hd Hl (r & Hr & Hh & _ & ->). exists r. unfold substr. rewrite length_app. cbn [length].
  rewrite (proj2 (Nat.ltb_ge _ _)) by lia.
  rewrite drop_app, drop_ge by lia. replace (length (m_directory s) + 1 - length (m_directory s))%nat with 1%nat by lia.
  cbn [app drop]. rewrite drop_0, take_ge by lia. split; [done|]. unfold request_path.
  by rewrite bool_decide_false, bool_decide_false, path_append_plain by done.
Qed.

Lemma scan_directory_ok fs : forall depth d s s' ok,
  fs_ok fs -> service_ok s -> m_directory s <> [] -> d = m_directory s \/ below_directory s d ->
  scan_directory depth fs d s = (s', ok) -> service_ok s' /\ same_options s s'.
Proof.
  intros depth. induction depth as [|depth IH]; intros d s s' ok Hfs Hs Hd Hb E.
  { injection E as <- <-. split; [done|apply same_options_refl]. }
  cbn [scan_directory] in E. destruct (fs_entries fs d) as [l|] eqn:El.
  2:{ injection E as <- <-. split; [done|apply same_options_refl]. }
  assert (forall p, p ∈ l -> below_directory s p) as Hl.
  { intros p. eapply entry_below; try done. by apply Hs. }
  clear El Hb. revert s s' ok Hs Hd Hl E. induction l as [|p l IHl]; intros s s' ok Hs Hd Hl E.
  { injection E as <- <-. split; [done|apply same_options_refl]. }
  assert (below_directory s p) as Hp by (apply Hl; by constructor).
  assert (forall s1 s2, service_ok s1 /\ same_options s s1 ->
            (service_ok s1 -> m_directory s1 <> [] -> (forall p, p ∈ l -> below_directory s1 p) ->
             service_ok s2 /\ same_options s1 s2) -> service_ok s2 /\ same_options s s2) as Hthen.
  { intros s1 s2 [Hs1 [m ->]] H2. destruct (H2 Hs1 Hd) as [Hs2 [m2 ->]].
    { intros q Hq. apply (Hl q). by constructor. }
    split; [done|]. by exists m2. }
  destruct (fs_is_directory fs p) as [[]|].
  - destruct (scan_directory depth fs p s) as [s1 ok1] eqn:E1.
    pose proof (IH p s s1 ok1 Hfs Hs Hd (or_intror Hp) E1) as H1. destruct ok1.
    + eapply Hthen; [exact H1|]. intros Hs1 Hd1 Hl1. by eapply IHl.
    + by injection E as <- <-.
  - destruct (below_key s p Hd (so_directory _ _ Hs) Hp) as (rel & Er & Hrel). rewrite Er in E.
    destruct (add_cache_entry fs rel p (m_scan_setting s =? 1) s) as [s1|] eqn:Ea.
    + eapply Hthen; [by eapply add_cache_entry_ok|]. intros Hs1 Hd1 Hl1. by eapply IHl.
    + injection E as <- <-. split; [done|apply same_options_refl].
  - injection E as <- <-. split; [done|apply same_options_refl].
Qed.

Lemma start_ok depth fs s s' ok :
  fs_ok fs -> service_ok s -> start depth fs s = (s', ok) -> service_ok s'.
Proof.
  intros Hfs Hs E. unfold start in E. destruct (m_scan_setting s =? 0); [by injection E as <- <-|].
  set (s1 := if _ : bool then _ else s) in E. assert (service_ok s1) as Hs1.
  { unfold s1. destruct (_ && _); [|done]. destruct Hs as [Hc H0 H1 H2 H3]. split; try done.
    intros rel e He. destruct (Hc rel e He). by split. }
  clearbody s1. clear Hs.
  destruct (if bool_decide (m_file s1 = []) then _ else _) as [s2|] eqn:Ef; [|by injection E as <- <-].
  assert (service_ok s2) as Hs2.
  { destruct (bool_decide_reflect (m_file s1 = [])) as [Hf|Hf]; [by injection Ef as <-|].
    apply (add_cache_entry_ok seen fs [] (m_file s1)) in Ef; [by apply Ef|done|done|].
    unfold request_path. by rewrite bool_decide_true, bool_decide_false by done. }
  case_bool_decide as Hd; [by injection E as <- <-|].
  eapply scan_directory_ok in E; [by apply E|done|done|done|by left].
Qed.

Lemma handle_file_request_ok fs request c s s' fs' a :
  fs_ok fs -> service_ok s -> handle_file_request fs request c s = Ok (s', fs', a) ->
  service_ok s' /\ same_options s s'.
Proof.
  intros Hfs Hs E. unfold handle_file_request in E. set (rel := get_relative_resource _ _) in E.
  destruct (request_path rel s) as [p|] eqn:Hp; [|by injection E as <- <- <-; split; [|apply same_options_refl]].
  assert (forall s' : file_service, s' = s -> service_ok s' /\ same_options s s') as Hsame.
  { intros ? ->. by split; [|apply same_options_refl]. }
  destruct (negb _); [by apply Hsame; injection E|].
  destruct (fs_is_directory fs p) as [[]|]; [by apply Hsame; injection E| |by apply Hsame; injection E].
  destruct (_ || bytes_eqb _ REQUEST_METHOD_HEAD).
  - destruct (handle_get fs request c rel p s) as [s1 a1] eqn:Eg. injection E as <- <- <-.
    destruct (handle_get_ok seen fs request c rel p s s1 a1 Hfs Hs Hp Eg) as (H1 & H2 & _). done.
  - apply Hsame. destruct (_ || bytes_eqb _ REQUEST_METHOD_DELETE); [|by injection E].
    destruct (negb _); [by injection E|]. destruct (bytes_eqb _ _).
    + destruct (handle_delete fs request c p). by injection E.
    + destruct (handle_write_request fs request c p) as [[]|]; [|done]. by injection E.
Qed.

(** ** The life of the service *)

Inductive service_op :=
| op_start (depth : nat) fs
| op_stop
| op_request fs (request : message) (c : connection).

Definition service_step s (op : service_op) : file_service :=
  match op with
  | op_start depth fs => fst (start depth fs s)
  | op_stop => stop s
  | op_request fs request c =>
      match handle_file_request fs request c s with Ok (s', _, _) => s' | Fault _ => s end
  end.

Definition op_ok (op : service_op) : Prop :=
  match op with op_start _ fs | op_request fs _ _ => fs_ok fs | op_stop => True end.

Lemma service_runs_ok ops s : service_ok s -> Forall op_ok ops -> service_ok (foldl service_step s ops).
Proof.
  intros Hs Hops. revert s Hs. induction Hops as [|op ops Hop _ IH]; intros s Hs; [done|].
  apply IH. destruct op as [depth fs| |fs request c]; cbn [service_step op_ok] in *.
  - destruct (start depth fs s) as [s' ok] eqn:E. by eapply start_ok.
  - destruct Hs. split; [|done..]. intros rel e He. change (m_cache_map (stop s)) with (∅ : gmap bytes disk_file) in He.
    by apply lookup_empty_Some in He.
  - destruct (handle_file_request fs request c s) as [[[s' fs'] a]|] eqn:E; [|done].
    by eapply handle_file_request_ok in E as [? _].
Qed.

(** A service whose options were set. *)
Record options_set s : Prop := mk_options_set {
  cf_cache : m_cache_map s = ∅;
  cf_settings : 0 <= m_cache_setting s /\ 0 <= m_scan_setting s /\ 0 <= m_max_chunk_size s;
  cf_directory : last (m_directory s) <> Some SLASH
}.

Lemma options_set_ok s : options_set s -> service_ok s.
Proof.
  intros [Hc (H1 & H2 & H3) Hd]. split; try done. intros rel e He. rewrite Hc in He.
  by apply lookup_empty_Some in He.
Qed.

(** The names of a relative path lead down: it does not start with a slash, which would make
    it replace the directory, and no name is dot-dot. *)
Definition leads_down (rel : bytes) : Prop := hd_error rel <> Some SLASH /\ str ".." ∉ split rel SLASH.

(** The file that a GET request names. *)
Record requests_file fs s (request : message) (p data : bytes) (t : Z) : Prop := mk_requests_file {
  rf_method : get_method request = REQUEST_METHOD_GET;
  rf_path : request_path (get_relative_resource (fsv_resource s) (get_resource request)) s = Some p;
  rf_down : leads_down (get_relative_resource (fsv_resource s) (get_resource request));
  rf_below : starts (m_directory s) p = true;
  rf_file : fs_exists fs p = Some true /\ fs_is_directory fs p = Some false;
  rf_data : fs_read fs p = Some data /\ fs_file_size fs p = Some (zlen data) /\ zlen data <= LONG_MAX;
  rf_time : fs_last_write_time fs p = Some t;
  rf_listed : (m_scan_setting s <> 1 /\ m_scan_setting s <> 3)
              \/ m_cache_map s !! get_relative_resource (fsv_resource s) (get_resource request) <> None;
  rf_modified : get_header request HEADER_IF_MODIFIED_SINCE <> file_date t
}.

Lemma current_at_hand fs f p data t :
  fs_ok fs -> current seen fs f -> m_file_path f = p -> fs_read fs p = Some data ->
  fs_file_size fs p = Some (zlen data) -> fs_last_write_time fs p = Some t -> zlen data <= LONG_MAX ->
  exists content,
    content_at_hand fs f content /\ seen p (zlen data) t content /\ zlen content = zlen data
    /\ (m_file_content f = None -> content = data) /\ m_last_modified_string f = file_date t.
Proof.
  intros Hfs [Hs Ht Hd Hc] Hp Hr Hz Htt Hl. rewrite Hp in *.
  destruct (fo_files _ _ Hfs _ _ Hz) as (data' & t' & Hr' & _ & Ht' & Hst).
  rewrite Hr in Hr'. injection Hr' as <-. rewrite Htt in Ht'. injection Ht' as <-.
  assert (m_file_size f = zlen data) as Hsz by congruence.
  assert (m_last_modified f = t) as Hmt by congruence. rewrite Hd, Hmt.
  destruct (m_file_content f) as [buf|] eqn:Eb.
  - destruct (Hc buf Eb) as (content & -> & Hl' & Hseen). rewrite Hsz, Hmt, Hp in *. exists content.
    split; [|by rewrite <- Hl']. split; [congruence|]. split; [lia|by left].
  - exists data. split; [|done]. split; [done|]. split; [done|]. right. split; [done|congruence].
Qed.

(** Whatever the service did before, and whatever happened to the files meanwhile, the
    sender of a GET request for a file sends a content that the file was seen to have with
    the size and the time that it has, the content that it has when nothing is cached. *)
Lemma get_sends_file ops s0 fs request c p data t k :
  options_set s0 -> Forall op_ok ops -> fs_ok fs ->
  let s := foldl service_step s0 ops in
  m_cache_setting s <= 1 -> requests_file fs s request p data t ->
  m_is_open c = true -> (length data <= k)%nat ->
  exists content s' f c',
    (seen p (zlen data) t content /\ zlen content = zlen data /\ (m_cache_setting s = 0 -> content = data))
    /\ handle_file_request fs request c s
      = Ok (s', fs, answer_sender (new_file_sender f request c (m_max_chunk_size s)))
    /\ run_sender fs (no_errors k) (new_file_sender f request c (m_max_chunk_size s)) = Ok (send_finished c')
    /\ file_written f request c (m_max_chunk_size s) content c'
    /\ m_mime_type f = find_mime_type (path_filename p) /\ m_last_modified_string f = file_date t
    /\ m_file_size f = zlen data.
Proof.
  intros H0 Hops Hfs s Hset [Hm Hp _ Hb [Hex Hdir] (Hr & Hsz & Hz) Ht Hlist Hmod] Ho Hk.
  assert (service_ok s) as Hs by (by apply service_runs_ok; [apply options_set_ok|]).
  set (rel := get_relative_resource _ _) in *. unfold handle_file_request. fold rel. rewrite Hp, Hb, Hdir, Hm.
  cbn [negb]. change (bytes_eqb REQUEST_METHOD_GET REQUEST_METHOD_GET) with true. cbn [orb].
  destruct (handle_get fs request c rel p s) as [s' a] eqn:Eg.
  destruct (handle_get_ok seen _ _ _ _ _ _ _ _ Hfs Hs Hp Eg) as (_ & _ & Ha).
  destruct Ha as [Hn Hsc|Hne|Hth|f Hpf Hmt Hcu Hn0]; [destruct Hlist as [[? ?]|?]; [lia|done]|congruence|destruct Hth; congruence|].
  destruct (current_at_hand fs f p data t Hfs (Hcu Hset) Hpf Hr Hsz Ht Hz) as (content & Hhand & Hseen & Hl & Hnc & Hdate).
  destruct (file_sent fs f request c (m_max_chunk_size s) content k Hhand (so_chunk _ _ Hs) Ho) as (c' & Erun & Hw).
  { unfold zlen in Hl. lia. }
  exists content, s', f, c'. split; [by auto|]. split; [|by destruct Hhand; rewrite <- Hl]. unfold conditional. rewrite Hdate, Hm.
  destruct (bytes_eqb_spec (file_date t) (get_header request HEADER_IF_MODIFIED_SINCE)) as [E|_]; [congruence|].
  done.
Qed.

(** C10: the file system is changed by nothing else than a POST, PUT or DELETE request on a
    writable service, for a path that starts with the configured directory and is not
    itself a directory: POST appends the content of the request to that file and PUT
    replaces it, when the file or the directory it would be in exists, and DELETE removes
    it, when it exists.  Every other request leaves the file system as it was, and a request that writes
    or removes leaves the cache as it was. *)
Theorem only_writes_change_files fs request c s s' fs' a :
  handle_file_request fs request c s = Ok (s', fs', a) ->
  fs' = fs
  \/ exists p,
       m_writable s = true /\ s' = s
       /\ request_path (get_relative_resource (fsv_resource s) (get_resource request)) s = Some p
       /\ starts (m_directory s) p = true /\ fs_is_directory fs p = Some false
       /\ ((get_method request = REQUEST_METHOD_DELETE /\ fs_exists fs p = Some true
            /\ fs_remove fs p = inl fs')
           \/ exists content append,
                get_method request = (if append : bool then REQUEST_METHOD_POST else REQUEST_METHOD_PUT)
                /\ read_content request = Ok content /\ fs' = fs_write fs append p content
                /\ (fs_exists fs p = Some true
                    \/ fs_exists fs p = Some false /\ fs_exists fs (parent_path p) = Some true)).
Proof.
  intros E. unfold handle_file_request in E. set (rel := get_relative_resource _ _) in *.
  destruct (request_path rel s) as [p|] eqn:Hp; [|left; by injection E].
  destruct (starts (m_directory s) p) eqn:Hst; cbn [negb] in E; [|left; by injection E].
  destruct (fs_is_directory fs p) as [[]|] eqn:Hd; [left; by injection E| |left; by injection E].
  destruct (_ || bytes_eqb _ REQUEST_METHOD_HEAD).
  { destruct (handle_get _ _ _ _ _ _). left. by injection E. }
  destruct (_ || bytes_eqb _ REQUEST_METHOD_DELETE) eqn:Hm; [|left; by injection E].
  destruct (m_writable s); cbn [negb] in E; [|left; by injection E].
  destruct (bytes_eqb_spec (get_method request) REQUEST_METHOD_DELETE) as [Hdel|Hdel].
  - unfold handle_delete in E. destruct (fs_exists fs p) as [[]|] eqn:Hx; [|left; by injection E..].
    destruct (fs_remove fs p) as [fs1|what] eqn:Hr; [|left; by injection E].
    injection E as <- <- <-. right. exists p. split_and!; try done. by left.
  - unfold handle_write_request in E. destruct (fs_exists fs p) as [existed|] eqn:Hx; [|left; by injection E].
    destruct (if existed then Some false else negb <$> fs_exists fs (parent_path p)) as [[]|] eqn:Hpar;
      [left; by injection E| |left; by injection E].
    destruct (read_content request) as [content|] eqn:Hc; [|done]. cbn [mbind res_bind] in E.
    set (append := bytes_eqb (get_method request) REQUEST_METHOD_POST) in *.
    assert (s' = s /\ fs' = fs_write fs append p content) as [-> ->].
    { destruct (fs_exists (fs_write fs append p content) p) as [[]|]; by injection E. }
    right. exists p. split_and!; try done. right. exists content, append. split; [|split_and!; try done].
    + unfold append. destruct (bytes_eqb_spec (get_method request) REQUEST_METHOD_POST) as [|Hpost]; [done|].
      destruct (bytes_eqb_spec (get_method request) REQUEST_METHOD_PUT); [done|].
      by destruct (bytes_eqb_spec (get_method request) REQUEST_METHOD_DELETE).
    + destruct existed; [by left|right]. split; [done|]. by destruct (fs_exists fs (parent_path p)) as [[]|].
Qed.

(** ** Deviations *)

(** The check that the file is in the directory looks at the text of the path, which is
    not normalised: it refuses no path that the service makes from its directory, with dot-dot in it
    or not. *)
Lemma dot_dot_not_refused s rel p :
  m_directory s <> [] -> last (m_directory s) <> Some SLASH -> rel <> [] -> hd_error rel <> Some SLASH ->
  request_path rel s = Some p -> p = m_directory s ++ SLASH :: rel /\ starts (m_directory s) p = true.
Proof.
  intros Hd Hl Hr Hh Hp. unfold request_path in Hp. rewrite !bool_decide_false in Hp by done. injection Hp as <-.
  rewrite path_append_plain by done. split; [done|]. apply starts_app.
Qed.

(** A file that can be found and not be opened gets a buffer that nothing was written to, and the buffer
    is sent. *)
Lemma unreadable_file_sent fs f request c n :
  fs_read fs (m_file_path f) = None -> 0 < n -> m_file_size f = n ->
  run_sender fs [] (new_file_sender (df_read fs f) request c 0) = Fault undefined_behaviour.
Proof.
  intros Hr Hn Hs. unfold run_sender, file_send, next_content, df_read. cbn [m_disk_file new_file_sender m_file_size with_file_content
    m_file_content m_bytes_sent snd_max_chunk_size]. rewrite Hr, Hs. cbn [default]. rewrite take_nil. cbn [fmap list_fmap app length].
  rewrite Nat.sub_0_r, (proj2 (Z.leb_gt _ _)) by done. change (0 <? 0) with false. cbn [andb]. rewrite Z.sub_0_r.
  unfold zlen. rewrite length_replicate, Z2Nat.id, Z.add_0_l, Z.leb_refl by lia. change (Z.to_nat 0) with 0%nat.
  rewrite drop_0, take_ge by (rewrite length_replicate; lia). destruct (Z.to_nat n) eqn:E; [lia|]. reflexivity.
Qed.

(** A sender that cannot open its file returns, and nothing finishes the connection. *)
Lemma sender_leaves_connection fs f request c max errors :
  m_file_content f = None -> fs_read fs (m_file_path f) = None -> 0 < m_file_size f ->
  run_sender fs errors (new_file_sender f request c max)
  = Ok (send_given_up (new_file_sender f request c max)).
Proof.
  intros Hc Hr Hs. unfold run_sender, file_send, next_content. cbn [m_disk_file new_file_sender m_bytes_sent m_file_stream].
  rewrite (proj2 (Z.leb_gt _ _)), Hc, Hr by done. cbn [mbind res_bind]. by destruct errors.
Qed.

(** A file that was removed is not found if it is not in the cache; if it is, the request
    ends with an exception. *)
Lemma removed_file_throws fs request c rel e s :
  m_cache_map s !! rel = Some e -> m_cache_setting s = 1 -> fs_file_size fs (m_file_path e) = None ->
  snd (handle_get fs request c rel (m_file_path e) s) = answer_thrown.
Proof.
  intros He Hs Hz. unfold handle_get, cached_response. rewrite He, Hs. cbn [Z.ltb Z.compare orb].
  change (0 <? 1) with true. cbn [orb]. change (1 =? 0) with false. cbv iota. unfold refresh_entry, df_update, df_check_updated.
  rewrite Hs, Hz. by destruct (m_last_modified e =? 0).
Qed.

End Service.

(** ** What the files had in the life of a service *)

Section History.
Context `{FileSystem}.
Implicit Types (fs : fs_state).

(** Every file can be read, as long as its size says, and has a time; the entries of a
    directory are names in it. *)
Record files_ok fs : Prop := mk_files_ok {
  fok_files : forall p n, fs_file_size fs p = Some n ->
    exists data t, fs_read fs p = Some data /\ n = zlen data /\ fs_last_write_time fs p = Some t;
  fok_entries : forall d l p, fs_entries fs d = Some l -> p ∈ l ->
    exists name, name <> [] /\ SLASH ∉ name /\ p = path_append d name
}.

(** The file systems that the service saw. *)
Definition files_of (ops : list service_op) : list fs_state :=
  ops ≫= (fun op => match op with op_start _ fs | op_request fs _ _ => [fs] | op_stop => [] end).

(** In one of these file systems the file has this size, this time and this content. *)
Definition file_had (history : list fs_state) (p : bytes) (n t : Z) (data : bytes) : Prop :=
  exists fs, fs ∈ history /\ fs_file_size fs p = Some n /\ fs_last_write_time fs p = Some t
             /\ fs_read fs p = Some data.

Lemma files_ok_seen history fs : fs ∈ history -> files_ok fs -> fs_ok (file_had history) fs.
Proof.
  intros Hin [Hf He]. split; [|done]. intros p n Hn. destruct (Hf p n Hn) as (data & t & Hr & Hl & Ht).
  exists data, t. split_and!; [done..|]. by exists fs.
Qed.

Lemma history_ok fs ops :
  Forall files_ok (fs :: files_of ops) ->
  Forall (op_ok (file_had (fs :: files_of ops))) ops /\ fs_ok (file_had (fs :: files_of ops)) fs.
Proof.
  intros Hok. assert (forall fs', fs' ∈ fs :: files_of ops -> fs_ok (file_had (fs :: files_of ops)) fs') as Hin.
  { intros fs' Hin. apply files_ok_seen; [done|]. by apply (proj1 (Forall_forall _ _) Hok). }
  split; [|apply Hin; by constructor]. apply Forall_forall. intros op Hop.
  destruct op as [depth fs'| |fs' request c]; cbn [op_ok]; [|done|];
    (apply Hin, elem_of_cons; right; apply list_elem_of_bind; eexists; split; [|exact Hop]; by constructor).
Qed.

End History.

(** ** Witnesses *)

Section Sample.

Inductive version := first_version | touched_version | second_version.

Definition sample_file : bytes := str "/www/a.txt".

Definition sample_content (v : version) : bytes :=
  match v with first_version => str "hello" | touched_version => str "HELLO" | second_version => str "hello, world" end.

Definition sample_time (v : version) : Z := match v with second_version => 9 | _ => 7 end.

Definition sample_write_time (v : version) (p : bytes) : option Z :=
  if bytes_eqb p sample_file then Some (sample_time v) else None.

Lemma sample_times v p t : sample_write_time v p = Some t -> - 2 ^ 63 <= t * 1000000000 <= 2 ^ 63.
Proof. unfold sample_write_time. case_match; [|done]. intros [= <-]. by destruct v. Qed.

(** A file system with one file, in three versions; two of them have the same size and time. *)
#[local] Instance sample_file_system : FileSystem := {
  fs_state := version;
  fs_exists _ p := Some (bytes_eqb p sample_file || bytes_eqb p (str "/www"));
  fs_is_directory _ p := Some (bytes_eqb p (str "/www"));
  fs_file_size v p := if bytes_eqb p sample_file then Some (zlen (sample_content v)) else None;
  fs_last_write_time := sample_write_time;
  fs_read v p := if bytes_eqb p sample_file then Some (sample_content v) else None;
  fs_write _ _ _ _ := second_version;
  fs_remove _ _ := inr (str "not permitted");
  fs_entries _ p := if bytes_eqb p (str "/www") then Some [sample_file] else None;
  fs_times := sample_times
}.

Lemma sample_files_ok v : files_ok v.
Proof.
  split.
  - intros p n. cbn [fs_file_size fs_read fs_last_write_time sample_file_system]. destruct (bytes_eqb_spec p sample_file) as [->|]; [|done]. intros [= <-].
    exists (sample_content v), (sample_time v). done.
  - intros d l p. cbn [fs_entries sample_file_system]. destruct (bytes_eqb_spec d (str "/www")) as [->|]; [|done]. intros [= <-] Hp.
    apply list_elem_of_singleton in Hp as ->. exists (str "a.txt"). split; [done|]. split; [|done].
    intros H. by repeat (apply elem_of_cons in H as [H|H]; [discriminate|]); apply elem_of_nil in H.
Qed.

Definition old_files : fs_state := first_version.
Definition touched_files : fs_state := touched_version.
Definition new_files : fs_state := second_version.

Definition sample_service : file_service :=
  with_limits 0 5 (with_settings 1 2 (with_paths (str "/www") [] (with_writable true (new_file_service (str "/files"))))).

Definition sample_request (method : bytes) : message := set_method method (set_resource (str "/files/a.txt") new_request).

(** The file is in the cache, as it was, when it is asked for. *)
Lemma only_writes_change_files_witness :
  exists s' c',
    handle_file_request old_files (sample_request REQUEST_METHOD_PUT) (new_connection []) sample_service
      = Ok (s', new_files, answer_written c')
    /\ (new_files = old_files
        \/ exists p,
             m_writable sample_service = true /\ s' = sample_service
             /\ request_path (str "a.txt") sample_service = Some p
             /\ starts (m_directory sample_service) p = true).
Proof.
  eexists _, _. split; [vm_compute; reflexivity|]. edestruct (only_writes_change_files old_files
    (sample_request REQUEST_METHOD_PUT) (new_connection []) sample_service) as [H|(p & H1 & H2 & H3 & H4 & _)];
    [vm_compute; reflexivity|left; exact H|right; exists p; auto].
Defined.

(** A file that was changed within a second and kept its size is answered with the content that it
    had before. *)
Lemma unnoticed_change_served :
  exists s' f c',
    handle_file_request touched_files (sample_request REQUEST_METHOD_GET) (new_connection [])
      (foldl service_step sample_service [op_start 3 old_files])
    = Ok (s', touched_files, answer_sender (new_file_sender f (sample_request REQUEST_METHOD_GET) (new_connection []) 5))
    /\ run_sender touched_files (no_errors 1)
         (new_file_sender f (sample_request REQUEST_METHOD_GET) (new_connection []) 5) = Ok (send_finished c')
    /\ str "hello" `suffix_of` m_written c' /\ fs_read touched_files sample_file = Some (str "HELLO").
Proof.
  eexists _, (mk_disk_file sample_file (Some (Some <$> str "hello")) 5 7 (file_date 7) (str "text/plain")), _.
  split; [vm_compute; reflexivity|]. split; [vm_compute; reflexivity|]. split; [|reflexivity].
  apply (bool_decide_unpack _). vm_compute. reflexivity.
Qed.

(** The scan takes one character too many from the paths below a directory whose name
    ends with a slash. *)
Lemma slash_directory_misnamed rel p (fs : fs_state) b s s' :
  m_directory s = str "/www/" -> p = str "/www/a.txt" ->
  substr p (length (m_directory s) + 1) (length p) = Ok rel -> add_cache_entry fs rel p b s = Some s' ->
  rel = str ".txt" /\ m_cache_map s' !! str "a.txt" = m_cache_map s !! str "a.txt".
Proof.
  intros Hd -> Hr Ha. rewrite Hd in Hr. injection Hr as <-. split; [done|]. unfold add_cache_entry in Ha.
  set (f0 := mk_disk_file _ _ _ _ _ _) in Ha. change (drop _ _) with (str ".txt") in Ha.
  assert (forall f, m_cache_map
    (match m_cache_map s !! str ".txt" with
     | Some _ => s | None => with_cache (<[str ".txt" := f]> (m_cache_map s)) s end) !! str "a.txt"
    = m_cache_map s !! str "a.txt") as Hadd.
  { intros f. destruct (m_cache_map s !! str ".txt"); [done|]. cbn [m_cache_map with_cache].
    by rewrite lookup_insert_ne by done. }
  destruct b; [injection Ha as <-; apply Hadd|]. destruct (df_update fs f0) as [f ok]. destruct ok; [|done].
  injection Ha as <-. apply Hadd.
Qed.

(** A path in a directory whose name only starts like that of the configured one. *)
Lemma sibling_directory_not_refused :
  let s := with_paths (str "/www") [] (new_file_service (str "/files")) in
  request_path (get_relative_resource (fsv_resource s) (str "/files//www-private/x")) s = Some (str "/www-private/x")
  /\ starts (m_directory s) (str "/www-private/x") = true.
Proof. split; vm_compute; reflexivity. Qed.

End Sample.
