(* ===== verification/FileClient.v ===== *)
(** * A client of the file service

    The composition of the file service, the response writer and the response parser: what the
    sender of a file writes ([FileServing]) is parsed by a client, a response parser of this
    library ([Parser]), back to the content of the file. *)
From S2P Require Import Prelude CLib StringUtils Dict StdMap HttpTypes Message Dates.
From S2P Require Import ParserBase ParserHeaders ParserBody Parser ParserSafety ParserRoundTrip.
From S2P Require Import Connection Tribool Writer Users Replies Paths FileService FileServing.
From stdpp Require Import gmap.
#[local] Open Scope Z_scope.

(** ** The response *)

(** A client that speaks HTTP/1.1 and keeps its connection. *)
Record modern_client (request : message) (c : connection) : Prop := mk_modern_client {
  mc_major : m_version_major request = 1;
  mc_minor : m_version_minor request = 1;
  mc_keep_alive : get_keep_alive c = true
}.

(** The response to a GET request, before its length is known. *)
Definition client_response (mime date : bytes) : message :=
  with_status RESPONSE_CODE_OK RESPONSE_MESSAGE_OK
    (add_header HEADER_LAST_MODIFIED date
       (set_content_type mime (set_chunks_supported true (new_response REQUEST_METHOD_GET)))).

(** A response that has a content. *)
Definition with_content (data : bytes) (m : message) : message :=
  with_m_content_buf (Some <$> data) (set_content_length (zlen data) m).

Abbreviation whole_response mime date data := (with_content data (client_response mime date)).

Lemma with_content_sendable data m :
  chunkable m -> has_header m HEADER_TRANSFER_ENCODING = false -> m_do_not_send_content_length m = false ->
  zlen data < 2 ^ 64 - 1 -> sendable data (with_content data m).
Proof. intros [? ? ? ? ?] He Hl Hz. split; try done. by apply read_content_full. Qed.

Lemma content_head data m :
  chunkable m ->
  mjoin (snd (prepare_buffers_for_send true false (set_content_length (zlen data) m))) ++ data
  = message_text data (with_content data m).
Proof.
  intros [Hf Hc _ _ _]. rewrite message_text_head. rewrite prepared_head by done. f_equal. destruct m; cbn.
  unfold sent_headers, prepare_headers_for_send; cbn. by case_match.
Qed.

Lemma with_content_view data m :
  m_kind (with_content data m) = m_kind m /\ m_headers (with_content data m) = m_headers m.
Proof. done. Qed.

Lemma same_start_kind m' m m2 : same_start m' m -> m_kind m = m_kind m2 -> same_start m' m2.
Proof. unfold same_start. intros H E. by rewrite <- E. Qed.

Lemma is_multipart_headers m m2 : m_headers m = m_headers m2 -> is_multipart m = is_multipart m2.
Proof. unfold is_multipart, get_header. by intros ->. Qed.

Lemma file_response_eq f request c max :
  get_method request = REQUEST_METHOD_GET -> modern_client request c ->
  file_response f request c max = client_response (m_mime_type f) (m_last_modified_string f)
  /\ supports_chunks request c = true.
Proof.
  intros Hm [H1 H2 _].
  unfold file_response, supports_chunks, new_file_sender, create_response_writer, new_response_writer_for.
  rewrite Hm, H1, H2. split; reflexivity.
Qed.

(** The types of the table, and the type of other files, are fit for a header. *)
Definition plain_type (mime : bytes) : bool :=
  forallb value_char mime && (zlen mime <=? HEADER_VALUE_MAX)
  && negb (has_prefix mime CONTENT_TYPE_MULTIPART_FORM_DATA).

Lemma plain_type_ok mime :
  plain_type mime = true ->
  bounded value_char HEADER_VALUE_MAX mime /\ has_prefix mime CONTENT_TYPE_MULTIPART_FORM_DATA = false.
Proof.
  unfold plain_type. rewrite !andb_true_iff, negb_true_iff, Z.leb_le, forallb_forall. intros [[Hc Hz] Hp].
  split; [|done]. split; [|done]. apply Forall_forall. intros c Hin. by apply Hc, list_elem_of_In.
Qed.

Lemma mime_type_plain name : plain_type (find_mime_type name) = true.
Proof.
  unfold find_mime_type. set (e := to_lower _). clearbody e.
  assert (Forall (fun kv => plain_type (snd kv) = true) mime_types) as H by (repeat (constructor; [by vm_compute|]); constructor).
  destruct (map_find e mime_types) as [v|] eqn:E; [|by vm_compute].
  apply map_find_elem in E. by apply (proj1 (Forall_forall _ _) H _ E).
Qed.

Section Response.
Variables (mime date : bytes).
Hypothesis Hmime : plain_type mime = true.
Hypothesis Hdate : bounded value_char HEADER_VALUE_MAX date.

#[local] Abbreviation response := (client_response mime date).

Lemma client_response_headers :
  m_headers response = [(HEADER_CONTENT_TYPE, mime); (HEADER_LAST_MODIFIED, date)].
Proof. reflexivity. Qed.

Lemma client_headers_ok : Forall header_ok (m_headers response).
Proof.
  rewrite client_response_headers. destruct (plain_type_ok _ Hmime) as [Hm _].
  repeat constructor; cbn [fst snd]; try done; try apply Hm; try apply Hdate; by vm_compute.
Qed.

Lemma client_start_line_ok : start_line_ok response.
Proof. vm_compute. repeat split; try discriminate; repeat constructor. Qed.

Lemma client_multipart : is_multipart response = false.
Proof. apply plain_type_ok, Hmime. Qed.

Lemma client_chunkable : chunkable response.
Proof. split; try reflexivity; [apply client_start_line_ok|apply client_headers_ok]. Qed.

Lemma whole_sendable data : zlen data < 2 ^ 64 - 1 -> sendable data (whole_response mime date data).
Proof. apply with_content_sendable; [apply client_chunkable|by vm_compute|reflexivity]. Qed.

(** ** What the client reads *)

(** The client, a new parser for responses, takes a response with status 200 from the front
    of what it receives. *)
Record client_reads (text rest : bytes) (max : Z) (data : bytes) (p' : parser) (m' : message) : Prop :=
  mk_client_reads {
  cr_parsed :
    parse (with_m_read (text ++ rest) (new_parser false max)) (new_response REQUEST_METHOD_GET) None
    = Some (Ok (true_value, p', m', None));
  cr_rest : m_read p' = rest;
  cr_valid : m_is_valid m' = true;
  cr_status : same_start m' (new_response REQUEST_METHOD_GET);
  cr_content : read_content m' = Ok data;
  cr_type : get_header m' HEADER_CONTENT_TYPE = mime;
  cr_date : get_header m' HEADER_LAST_MODIFIED = date
}.

(** The headers of the response, when only others are added. *)
Lemma client_header hs m' key v :
  get_header response key = v -> m_headers m' = hs -> equal_range hs key = equal_range (m_headers response) key ->
  get_header m' key = v.
Proof. intros <- H1 H2. unfold get_header. by rewrite !get_value_range, H1, H2. Qed.

Lemma whole_read data rest max :
  zlen data <= max < 2 ^ 64 - 1 ->
  exists p' m',
    client_reads (mjoin (snd (prepare_buffers_for_send true false (set_content_length (zlen data) response))) ++ data)
      rest max data p' m'.
Proof.
  intros Hmax. assert (sendable data (whole_response mime date data)) as Hs by (apply whole_sendable; lia).
  destruct (parse_of_text data rest (whole_response mime date data) max
    (m_kind (new_response REQUEST_METHOD_GET)) Hs) as (p' & m' & Ep & Hr & Hv & _ & [Ha Hc]);
    [unfold expects_content; by rewrite (proj1 (with_content_view data response))
    |rewrite (is_multipart_headers _ response) by apply with_content_view; apply client_multipart|lia|].
  exists p', m'. split; [|done|done| |done| |].
  - rewrite content_head by apply client_chunkable. exact Ep.
  - eapply same_start_kind; [apply (ar_start _ _ _ Ha)|]. by rewrite (proj1 (with_content_view data response)).
  - eapply client_header; [reflexivity|apply (ar_headers _ _ _ Ha)|]. rewrite (sent_headers_range data) by exact Hs.
    by rewrite equal_range_change_value.
  - eapply client_header; [reflexivity|apply (ar_headers _ _ _ Ha)|]. rewrite (sent_headers_range data) by exact Hs.
    by rewrite equal_range_change_value.
Qed.

Lemma pieces_read pieces n rest max :
  Forall (fun data => zlen data <= LONG_MAX) pieces -> zlen (mjoin pieces) <= max < 2 ^ 64 - 1 ->
  exists p' m',
    client_reads (mjoin (snd (prepare_buffers_for_send true true (set_content_length n response)))
                  ++ pieces_text true pieces) rest max (mjoin pieces) p' m'.
Proof.
  intros Hp Hmax. destruct (chunks_ok pieces Hp) as [Hcs Hb]. rewrite <- Hb in *. pose proof client_chunkable as Hm.
  destruct (parse_loop_of_chunks true _ rest response max (m_kind (new_response REQUEST_METHOD_GET)) Hm
    ltac:(reflexivity) Hcs Hmax) as (total & p2 & m2 & El & Hr & Hq & Hrec). rewrite app_assoc in El.
  eapply parse_after_loop in El; [|done|done|exact Hrec|].
  2: { rewrite (chunked_multipart _ _ _ Hm (proj1 Hrec)). apply client_multipart. }
  destruct El as (p' & m' & Ep & Hr' & Hv & _ & [Ha Hc]). exists p', m'. split; [|congruence|done| |done| |].
  - rewrite chunked_head by done. exact Ep.
  - eapply same_start_kind; [apply (ar_start _ _ _ Ha)|reflexivity].
  - eapply client_header; [reflexivity|apply (ar_headers _ _ _ Ha)|]. rewrite chunked_headers_eq by done.
    by rewrite !equal_range_change_value.
  - eapply client_header; [reflexivity|apply (ar_headers _ _ _ Ha)|]. rewrite chunked_headers_eq by done.
    by rewrite !equal_range_change_value.
Qed.

End Response.

(** ** The service and its client *)

Section Client.
Context `{FileSystem}.

Lemma pieces_bounded (pieces : list bytes) n :
  zlen (mjoin pieces) <= n -> Forall (fun data => zlen data <= n) pieces.
Proof.
  induction pieces as [|d pieces IH]; [constructor|].
  change (mjoin (d :: pieces)) with (d ++ mjoin pieces). rewrite zlen_app. intros Hz.
  pose proof (zlen_nonneg d). pose proof (zlen_nonneg (mjoin pieces)). constructor; [lia|apply IH; lia].
Qed.

Lemma file_head_eq f request c max in_pieces mime date :
  file_response f request c max = client_response mime date -> supports_chunks request c = true ->
  get_keep_alive c = true ->
  file_head f request c max in_pieces
  = mjoin (snd (prepare_buffers_for_send true in_pieces
                  (set_content_length (if in_pieces then max else m_file_size f) (client_response mime date)))).
Proof. intros Hr Hs Hk. unfold file_head. rewrite Hr, Hs, Hk. reflexivity. Qed.

(** What the sender wrote is read by the client. *)
Lemma written_file_read f request c max_chunk data c' mime date rest max :
  get_method request = REQUEST_METHOD_GET -> modern_client request c ->
  m_mime_type f = mime -> m_last_modified_string f = date ->
  plain_type mime = true -> bounded value_char HEADER_VALUE_MAX date ->
  m_file_size f = zlen data -> zlen data <= LONG_MAX -> zlen data <= max < 2 ^ 64 - 1 ->
  file_written f request c max_chunk data c' ->
  exists text p' m', m_written c' = m_written c ++ text /\ m_lifecycle c' = m_lifecycle c
                     /\ client_reads mime date text rest max data p' m'.
Proof.
  intros Hm Hmc Et Ed Hmime Hdate Hsz Hl Hmax Hw.
  destruct (file_response_eq f request c max_chunk Hm Hmc) as [Er Esup]. rewrite Et, Ed in Er.
  destruct Hw as [_ Ew Ec|pieces Hp Hj Hne Ew Ec];
    rewrite (file_head_eq _ _ _ _ _ _ _ Er Esup (mc_keep_alive _ _ Hmc)) in Ew; cbv iota in Ew.
  - destruct (whole_read mime date Hmime Hdate data rest max Hmax) as (p' & m' & Hr).
    rewrite Hsz in Ew. eexists _, p', m'. split; [exact Ew|]. by split.
  - rewrite Esup in Ew, Ec. subst data.
    destruct (pieces_read mime date Hmime Hdate pieces max_chunk rest max) as (p' & m' & Hr);
      [by apply pieces_bounded|done|].
    eexists _, p', m'. split; [exact Ew|]. by split.
Qed.


End Client.

(** ** Witness *)

#[local] Existing Instance sample_file_system.

(** The request of a client that speaks HTTP/1.1, on a connection that it keeps. *)
Definition kept_connection : connection := set_lifecycle LIFECYCLE_KEEPALIVE (new_connection []).

