(* ===== verification/TcpStream.v ===== *)
(** * TCP streams

    Models [tcp::stream_buffer] (include/pion/tcp/stream.hpp), a [std::streambuf] over a
    connection, with the functions of the base class that use the get and the put area, and
    the loop of [connection::connect] over the addresses of a host.  How the asynchronous
    operations of the socket end is an input; a function that waits for an operation which
    never ends is a [Deadlock].  The functions wait for an operation without looking whether it
    has ended, and the standard library may end such a wait at any time; how every wait
    ends is an input, too.  An access outside of a buffer, one to a buffer that an operation
    which was not waited for is using, and a second operation of the same kind beside it are a
    [Crash]. *)
From S2P Require Import Prelude Outcomes CLib Connection.

(** ** State *)

Definition PUT_BACK_MAX : nat := 10.
Definition WRITE_BUFFER_SIZE : nat := Z.to_nat 8192.

Lemma sizes : (100 < READ_BUFFER_SIZE)%nat /\ PUT_BACK_MAX = 10%nat /\ (1 < WRITE_BUFFER_SIZE)%nat.
Proof. unfold READ_BUFFER_SIZE, WRITE_BUFFER_SIZE. split; [lia|]. split; [done|lia]. Qed.

(** The proofs need no more about the sizes; tactics are not to compute them in unary. *)
#[local] Opaque READ_BUFFER_SIZE WRITE_BUFFER_SIZE.

(** How a write operation ends: everything was sent, or it failed after some of the bytes. *)
Inductive write_event := write_done | write_failed (sent : nat).

(** How a wait ends: with the end of its operation, without a reason, or with the end of an
    operation that was started before it; and whether an operation started before has ended
    when the new one starts. *)
Inductive wake_kind := wait_ended | woken_early | woken_by_other.

Record wake := mk_wake { wk_settled : bool; wk_kind : wake_kind }.

(** An operation that was not waited for: a write of [data], or a read. *)
Inductive late_op := late_write (data : bytes) | late_read.

(** The get area is given by offsets into the connection's read buffer; of the write buffer the
    model has the bytes between [pbase] and [pptr]. *)
Record stream_buffer := mk_stream_buffer {
  m_conn_ptr : connection;
  sb_eback : nat;
  sb_gptr : nat;
  sb_egptr : nat;
  sb_pending : bytes;
  m_async_error : bool;
  m_bytes_transferred : nat;
  sb_writes : list write_event;  (* how the next write operations end *)
  sb_reads : list read_event;  (* and the next read operations *)
  sb_wakes : list wake;  (* how the next waits end; later ones with their operation *)
  sb_late : list late_op  (* operations that were not waited for *)
}.

(** The constructor, with [setup_buffers]. *)
Definition new_stream_buffer (c : connection) (writes : list write_event) (reads : list read_event)
  (wakes : list wake) : stream_buffer :=
  mk_stream_buffer c PUT_BACK_MAX PUT_BACK_MAX PUT_BACK_MAX [] false 0 writes reads wakes [].

Definition sb_with_conn (c : connection) s : stream_buffer :=
  mk_stream_buffer c (sb_eback s) (sb_gptr s) (sb_egptr s) (sb_pending s) (m_async_error s)
    (m_bytes_transferred s) (sb_writes s) (sb_reads s) (sb_wakes s) (sb_late s).
Definition setg (eback gptr egptr : nat) s : stream_buffer :=
  mk_stream_buffer (m_conn_ptr s) eback gptr egptr (sb_pending s) (m_async_error s)
    (m_bytes_transferred s) (sb_writes s) (sb_reads s) (sb_wakes s) (sb_late s).
Definition gbump (n : nat) s : stream_buffer := setg (sb_eback s) (sb_gptr s + n) (sb_egptr s) s.
Definition set_pending (data : bytes) s : stream_buffer :=
  mk_stream_buffer (m_conn_ptr s) (sb_eback s) (sb_gptr s) (sb_egptr s) data (m_async_error s)
    (m_bytes_transferred s) (sb_writes s) (sb_reads s) (sb_wakes s) (sb_late s).

(** [operation_finished]. *)
Definition operation_finished (error : bool) (transferred : nat) s : stream_buffer :=
  mk_stream_buffer (m_conn_ptr s) (sb_eback s) (sb_gptr s) (sb_egptr s) (sb_pending s) error transferred
    (sb_writes s) (sb_reads s) (sb_wakes s) (sb_late s).
Definition sb_with_events (writes : list write_event) (reads : list read_event) s : stream_buffer :=
  mk_stream_buffer (m_conn_ptr s) (sb_eback s) (sb_gptr s) (sb_egptr s) (sb_pending s) (m_async_error s)
    (m_bytes_transferred s) writes reads (sb_wakes s) (sb_late s).
Definition sb_with_waits (wakes : list wake) (late : list late_op) s : stream_buffer :=
  mk_stream_buffer (m_conn_ptr s) (sb_eback s) (sb_gptr s) (sb_egptr s) (sb_pending s) (m_async_error s)
    (m_bytes_transferred s) (sb_writes s) (sb_reads s) wakes late.

(** ** The operations of the socket *)

(** Storing at an offset of the read buffer ([memmove], or a read operation). *)
Definition overwrite (pos : nat) (data buf : bytes) : bytes :=
  take pos buf ++ data ++ drop (pos + length data) buf.

Definition store_at (pos : nat) (data : bytes) (c : connection) : connection :=
  mk_connection (m_lifecycle c) (overwrite pos data (m_read_buffer c)) (m_read_position c) (m_is_open c)
    (m_written c).

(** The end of a write operation, and of a read operation into the read buffer behind the
    bytes that can be put back; [None] if it never ends. *)
Definition finish_write (data : bytes) s : option stream_buffer :=
  match sb_writes s with
  | [] => None
  | e :: writes =>
      let '(error, n) := match e with
                         | write_done => (false, length data)
                         | write_failed sent => (true, min sent (length data - 1))
                         end in
      Some (operation_finished error n
              (sb_with_events writes (sb_reads s) (sb_with_conn (write_buffers [take n data] (m_conn_ptr s)) s)))
  end.

Definition finish_read s : option stream_buffer :=
  match sb_reads s with
  | [] => None
  | e :: reads =>
      let s := sb_with_events (sb_writes s) reads s in
      Some
        match e with
        | read_failed => operation_finished true 0 s
        | read_data data =>
            let data := take (READ_BUFFER_SIZE - PUT_BACK_MAX) data in
            operation_finished false (length data) (sb_with_conn (store_at PUT_BACK_MAX data (m_conn_ptr s)) s)
        end
  end.

Definition finish_op (op : late_op) : stream_buffer -> option stream_buffer :=
  match op with late_write data => finish_write data | late_read => finish_read end.

Definition same_kind (a b : late_op) : bool :=
  match a, b with late_write _, late_write _ | late_read, late_read => true | _, _ => false end.

Definition add_late (op : late_op) s : stream_buffer := sb_with_waits (sb_wakes s) (sb_late s ++ [op]) s.

(** The end of the operations that were not waited for, in their order. *)
Definition settle s : stream_buffer :=
  foldl (fun s op => default (add_late op s) (finish_op op s)) (sb_with_waits (sb_wakes s) [] s) (sb_late s).

(** The input for the next wait. *)
Definition next_wake s : wake * stream_buffer :=
  match sb_wakes s with
  | [] => (mk_wake true wait_ended, s)
  | w :: wakes => (w, sb_with_waits wakes (sb_late s) s)
  end.

(** An asynchronous operation and the wait: [m_bytes_transferred] is set to 0 and the
    operation is started. *)
Definition start_and_wait (op : late_op) : comp stream_buffer unit := fun s =>
  let '(w, s) := next_wake s in
  let s := if wk_settled w then settle s else s in
  if existsb (same_kind op) (sb_late s) then Crash
  else
    let s := operation_finished (m_async_error s) 0 s in
    let ends r := match r with Some s => Done tt s | None => Deadlock end in
    match wk_kind w, sb_late s with
    | wait_ended, _ => ends (finish_op op s)
    | woken_by_other, other :: late => ends (add_late op <$> finish_op other (sb_with_waits (sb_wakes s) late s))
    | _, _ => Done tt (add_late op s)
    end.

Definition write_and_wait (data : bytes) : comp stream_buffer unit := start_and_wait (late_write data).
Definition read_and_wait : comp stream_buffer unit := start_and_wait late_read.

(** A read operation that still goes on writes to the buffer behind the bytes that can be put
    back; [pos] is the end of what is accessed. *)
Definition read_races (pos : nat) s : bool := (PUT_BACK_MAX <? pos)%nat && existsb (same_kind late_read) (sb_late s).

(** ** Output *)

(** [flush_output]: the number of bytes sent, or [None] for [eof]. *)
Definition flush_output : comp stream_buffer (option nat) :=
  pending ← gets sb_pending;
  if bool_decide (pending = []) then mret (Some 0%nat)
  else
    write_and_wait pending;;
    n ← gets m_bytes_transferred;
    (if (length pending <? n)%nat then crash
     else modify (fun s => set_pending (take (length (sb_pending s) - n) (sb_pending s)) s));;
    error ← gets m_async_error;
    mret (if error : bool then None else Some n).

(** [overflow]: whether it does not return [eof]. *)
Definition overflow (c : option char) : comp stream_buffer bool :=
  (match c with
   | None => mret tt
   | Some c =>
       n ← gets (fun s => length (sb_pending s));
       if (n <? WRITE_BUFFER_SIZE)%nat then modify (fun s => set_pending (sb_pending s ++ [c]) s) else crash
   end);;
  r ← flush_output;
  mret (bool_decide (is_Some r)).

(** [xsputn]: the number of bytes written. *)
Definition xsputn (data : bytes) : comp stream_buffer nat :=
  pending ← gets sb_pending;
  let bytes_available := Z.of_nat WRITE_BUFFER_SIZE - 1 - zlen pending in
  if zlen data <=? bytes_available then
    modify (set_pending (pending ++ data));; mret (length data)
  else
    let n := Z.to_nat bytes_available in
    modify (set_pending (pending ++ take n data));;
    r ← flush_output;
    match r with
    | None => mret 0%nat
    | Some _ =>
        if bytes_available <? 0 then crash  (* the bytes before the data are read *)
        else if (WRITE_BUFFER_SIZE - 1 <=? length (drop n data))%nat then
          write_and_wait (drop n data);;
          sent ← gets m_bytes_transferred;
          mret (n + sent)%nat
        else
          rest ← gets sb_pending;
          (* what was not sent is in use by its operation *)
          if bool_decide (rest = []) then modify (set_pending (drop n data));; mret (length data) else crash
    end.

(** [sync], and the destructor: whether it returns 0. *)
Definition sync : comp stream_buffer bool := r ← flush_output; mret (bool_decide (is_Some r)).

(** [sputc] of the base class. *)
Definition sputc (c : char) : comp stream_buffer bool :=
  n ← gets (fun s => length (sb_pending s));
  if (n <? WRITE_BUFFER_SIZE - 1)%nat then modify (fun s => set_pending (sb_pending s ++ [c]) s);; mret true
  else overflow (Some c).

(** ** Input *)

(** A byte of the read buffer. *)
Definition buffer_at (pos : nat) : comp stream_buffer char := fun s =>
  if read_races (S pos) s then Crash
  else match m_read_buffer (m_conn_ptr s) !! pos with Some c => Done c s | None => Crash end.

(** The bytes of a part of it. *)
Definition buffer_part (first last : nat) : comp stream_buffer bytes := fun s =>
  if (first <? last)%nat && read_races last s then Crash else Done (buffer_slice (m_conn_ptr s) first last) s.

(** [underflow]: the next character, or [None] for [eof]. *)
Definition underflow : comp stream_buffer (option char) :=
  s ← gets id;
  if (sb_gptr s <? sb_egptr s)%nat then c ← buffer_at (sb_gptr s); mret (Some c)
  else
    let put_back_num := min (sb_gptr s - sb_eback s) PUT_BACK_MAX in
    last ← buffer_part (sb_gptr s - put_back_num) (sb_gptr s);
    modify (fun s => sb_with_conn (store_at (PUT_BACK_MAX - put_back_num) last (m_conn_ptr s)) s);;
    read_and_wait;;
    error ← gets m_async_error;
    if error : bool then mret None
    else
      n ← gets m_bytes_transferred;
      modify (setg (PUT_BACK_MAX - put_back_num) PUT_BACK_MAX (PUT_BACK_MAX + n));;
      c ← buffer_at PUT_BACK_MAX;
      mret (Some c).

(** [xsgetn]; every turn but the last ends a read operation. *)
Fixpoint xsgetn_loop (fuel n : nat) (data : bytes) : comp stream_buffer bytes :=
  match fuel with
  | O => fun s => Deadlock
  | S fuel' =>
      match n with
      | O => mret data
      | _ =>
          s ← gets id;
          let k := min (sb_egptr s - sb_gptr s) n in
          next ← buffer_part (sb_gptr s) (sb_gptr s + k);
          modify (gbump k);;
          if (n - k =? 0)%nat then mret (data ++ next)
          else
            c ← underflow;
            match c with
            | None => mret (data ++ next)
            | Some _ => xsgetn_loop fuel' (n - k) (data ++ next)
            end
      end
  end.

Definition xsgetn (n : nat) : comp stream_buffer bytes :=
  fuel ← gets (fun s => 2 + length (sb_reads s))%nat; xsgetn_loop fuel n [].

(** [sgetc], [sbumpc] (with [uflow]) and [sungetc] (with [pbackfail]) of the base class. *)
Definition sgetc : comp stream_buffer (option char) :=
  s ← gets id;
  if (sb_gptr s <? sb_egptr s)%nat then c ← buffer_at (sb_gptr s); mret (Some c) else underflow.

Definition sbumpc : comp stream_buffer (option char) :=
  s ← gets id;
  if (sb_gptr s <? sb_egptr s)%nat then c ← buffer_at (sb_gptr s); modify (gbump 1);; mret (Some c)
  else c ← underflow; match c with None => mret None | Some c => modify (gbump 1);; mret (Some c) end.

Definition sungetc : comp stream_buffer (option char) :=
  s ← gets id;
  if (sb_eback s <? sb_gptr s)%nat then
    modify (setg (sb_eback s) (sb_gptr s - 1) (sb_egptr s));;
    c ← buffer_at (sb_gptr s - 1); mret (Some c)
  else mret None.

(** ** Connecting to a host *)

(** [connection::connect] with a name: the addresses are tried in turn, and the connection is closed
    after each that fails; the error is that of the last.  The connect of one address is the
    socket's. *)
Fixpoint connect_loop {E A} (connect : A -> connection -> option E * connection) (endpoints : list A)
  (ec : option E) (c : connection) : option E * connection :=
  match ec, endpoints with
  | Some e, ep :: endpoints' =>
      let '(ec, c) := connect ep c in
      connect_loop connect endpoints' ec (match ec with Some _ => close c | None => c end)
  | _, _ => (ec, c)
  end.

Definition connect_host {E A} (connect : A -> connection -> option E * connection) (host_not_found : E)
  (resolved : E + list A) (c : connection) : option E * connection :=
  match resolved with
  | inl e => (Some e, c)
  | inr endpoints => connect_loop connect endpoints (Some host_not_found) c
  end.

(** ** Waits that end with their operation *)

(** No wait ends before its operation, and none has. *)
Definition quiet (s : stream_buffer) : Prop :=
  sb_late s = [] /\ Forall (fun w => wk_kind w = wait_ended) (sb_wakes s).

(** The state in which the operation ends. *)
Definition waiting (s : stream_buffer) : stream_buffer :=
  operation_finished (m_async_error s) 0 (sb_with_waits (tail (sb_wakes s)) [] s).

Lemma waiting_quiet s : quiet s -> quiet (waiting s).
Proof.
  intros [_ Hw]. split; [done|]. cbn [waiting operation_finished sb_with_waits sb_wakes].
  by destruct Hw.
Qed.

Lemma start_and_wait_quiet op s :
  quiet s ->
  start_and_wait op s = match finish_op op (waiting s) with Some s' => Done tt s' | None => Deadlock end.
Proof.
  intros [Hl Hw]. unfold start_and_wait, next_wake.
  assert (forall q, sb_late q = [] -> settle q = q) as Hs.
  { intros q Hq. unfold settle. rewrite Hq. destruct q; cbn in *. by rewrite Hq. }
  destruct (sb_wakes s) as [|w wakes] eqn:Ew.
  - cbn [wk_settled wk_kind]. rewrite Hs by done. rewrite Hl. cbn [existsb]. unfold waiting. rewrite Ew. cbn [tail].
    replace (sb_with_waits [] [] s) with s by (destruct s; cbn in *; by subst). done.
  - apply Forall_cons in Hw as [Hk _]. rewrite Hk. unfold waiting. rewrite Ew, Hl. cbn [tail].
    set (s1 := sb_with_waits _ _ s). destruct (wk_settled w); rewrite ?Hs by done; done.
Qed.

(** ** Output is a queue *)

(** What was sent and what is still in the write buffer. *)
Definition sb_output (s : stream_buffer) : bytes := m_written (m_conn_ptr s) ++ sb_pending s.

(** From [s] to [s'] at most [k] write operations ended, all of them well. *)
Definition writes_done (k : nat) (s s' : stream_buffer) : Prop := exists used,
  sb_writes s = used ++ sb_writes s' /\ (length used <= k)%nat /\ Forall (eq write_done) used.

Lemma writes_done_none k s s' : sb_writes s = sb_writes s' -> writes_done k s s'.
Proof. intros E. exists []. split; [done|]. split; [cbn; lia|done]. Qed.

Lemma writes_done_one k s s' : sb_writes s = write_done :: sb_writes s' -> writes_done (S k) s s'.
Proof. intros E. exists [write_done]. split; [done|]. split; [cbn; lia|by repeat constructor]. Qed.

Lemma writes_done_trans k1 k2 s1 s2 s3 :
  writes_done k1 s1 s2 -> writes_done k2 s2 s3 -> writes_done (k1 + k2) s1 s3.
Proof.
  intros (u1 & E1 & L1 & F1) (u2 & E2 & L2 & F2). exists (u1 ++ u2). rewrite E1, E2, length_app, <- app_assoc.
  split; [done|]. split; [lia|by apply Forall_app].
Qed.

Lemma writes_done_exists k s s' : writes_done k s s' -> Exists (fun e => e <> write_done) (sb_writes s') ->
  Exists (fun e => e <> write_done) (sb_writes s).
Proof. intros (u & -> & _) H. apply Exists_app. by right. Qed.

Lemma writes_done_length k s s' : writes_done k s s' -> (length (sb_writes s) <= k + length (sb_writes s'))%nat.
Proof. intros (u & -> & L & _). rewrite length_app. lia. Qed.

(** The write buffer has room for one more character. *)
Definition out_ok (s : stream_buffer) : Prop := (length (sb_pending s) < WRITE_BUFFER_SIZE)%nat /\ quiet s.

(** What a function does with the put area: on success everything is sent or in the buffer and
    at most [k] write operations were needed, all of which succeeded; after a failure what was
    sent is a beginning of it; it waits for ever only for the end of a write operation, and
    never leaves its buffer. *)
Definition puts (k : nat) (s : stream_buffer) (data : bytes) (r : outcome stream_buffer bool) : Prop :=
  match r with
  | Done true s' =>
      sb_output s' = sb_output s ++ data /\ out_ok s' /\ writes_done k s s'
  | Done false s' => m_written (m_conn_ptr s') `prefix_of` sb_output s ++ data /\ Exists (fun e => e <> write_done) (sb_writes s)
  | Deadlock => (length (sb_writes s) < k)%nat
  | _ => False
  end.

Lemma puts_weaken k k' s data r : puts k s data r -> (k <= k')%nat -> puts k' s data r.
Proof.
  intros H Hk. destruct r as [[] s'| | |]; cbn in *; try done; [|lia]. destruct H as (H1 & H2 & u & H3 & H4 & H5).
  split; [done|]. split; [done|]. exists u. split; [done|]. split; [lia|done].
Qed.

Lemma puts_bind k1 k2 s data1 data2 (m1 m2 : comp stream_buffer bool) :
  puts k1 s data1 (m1 s) -> (forall s', out_ok s' -> puts k2 s' data2 (m2 s')) ->
  puts (k1 + k2) s (data1 ++ data2) ((ok ← m1; if ok : bool then m2 else mret false) s).
Proof.
  intros H1 H2. unfold mbind, comp_bind. destruct (m1 s) as [[] s1| | |]; cbn in H1; try done; [| |cbn; lia].
  - destruct H1 as (E1 & L1 & U1). specialize (H2 s1 L1).
    destruct (m2 s1) as [[] s2| | |]; cbn in *; try done.
    + destruct H2 as (E2 & L2 & U2). split; [by rewrite E2, E1, <- app_assoc|]. split; [done|]. by eapply writes_done_trans.
    + rewrite E1, <- app_assoc in H2. destruct H2 as [H2 H3]. split; [done|]. by apply (writes_done_exists _ _ _ U1).
    + apply writes_done_length in U1. lia.
  - cbn. destruct H1 as [H1 H1']. split; [|done]. rewrite app_assoc. by apply prefix_app_r.
Qed.

(** The write operation for a buffer. *)
Lemma write_and_wait_spec data s :
  quiet s ->
  match write_and_wait data s with
  | Done _ s' =>
      exists e, sb_writes s = e :: sb_writes s'
        /\ m_written (m_conn_ptr s') = m_written (m_conn_ptr s) ++ take (m_bytes_transferred s') data
        /\ sb_pending s' = sb_pending s /\ quiet s'
        /\ (if m_async_error s' then e <> write_done /\ (data <> [] -> (m_bytes_transferred s' < length data)%nat) else e = write_done /\ m_bytes_transferred s' = length data)
  | Deadlock => sb_writes s = []
  | _ => False
  end.
Proof.
  intros Hq. unfold write_and_wait. rewrite start_and_wait_quiet by done. apply waiting_quiet in Hq.
  unfold finish_op, finish_write. change (sb_writes (waiting s)) with (sb_writes s).
  destruct (sb_writes s) as [|[|n] es] eqn:E; [done|..].
  - exists write_done. cbn. rewrite app_nil_r, take_ge by done. split_and!; done || apply Hq.
  - exists (write_failed n). cbn. rewrite app_nil_r. split_and!; try done; try apply Hq.
    intros Hd. destruct data; [done|cbn; lia].
Qed.

(** [flush_output], whatever is in the buffer. *)
Lemma flush_output_spec s :
  quiet s ->
  match flush_output s with
  | Done (Some _) s' =>
      m_written (m_conn_ptr s') = sb_output s /\ (sb_pending s' = [] /\ quiet s') /\ writes_done 1 s s'
  | Done None s' => m_written (m_conn_ptr s') `prefix_of` sb_output s /\ Exists (fun e => e <> write_done) (sb_writes s)
  | Deadlock => sb_writes s = []
  | _ => False
  end.
Proof.
  intros Hq. unfold flush_output, gets, mbind, comp_bind. unfold sb_output. case_bool_decide as Hp.
  - cbn. rewrite Hp, app_nil_r. split; [done|]. split; [done|]. by apply writes_done_none.
  - pose proof (write_and_wait_spec (sb_pending s) s Hq) as H. destruct (write_and_wait _ s) as [[] s1| | |]; try done.
    destruct H as (e & He & Hw & Hpe & Hq1 & Herr).
    assert (m_bytes_transferred s1 <= length (sb_pending s))%nat as Hn.
    { destruct (m_async_error s1); destruct Herr as [_ Hn]; [specialize (Hn Hp); lia|by rewrite Hn]. }
    rewrite (proj2 (Nat.ltb_ge _ _) Hn). unfold modify. cbn [m_async_error set_pending m_bytes_transferred].
    destruct (m_async_error s1); cbn.
    + destruct Herr as [Herr _]. rewrite Hw. split; [apply prefix_app, prefix_take|]. rewrite He. by constructor.
    + destruct Herr as [-> Hn']. rewrite Hw, Hn', Hpe, Nat.sub_diag, take_ge by done. split; [done|]. split; [done|].
      by apply writes_done_one.
Qed.

Lemma sync_puts s : quiet s -> puts 1 s [] (sync s).
Proof.
  intros Hq. unfold sync, mbind, comp_bind. pose proof (flush_output_spec s Hq) as H.
  destruct (flush_output s) as [[n|] s'| | |]; try done.
  - destruct H as (Hw & [Hp Hq'] & Hu). cbn. unfold sb_output at 1. rewrite Hw, Hp, !app_nil_r. split; [done|].
    split; [split; [rewrite Hp; cbn [length]; destruct sizes; lia|done]|done].
  - cbn. by rewrite app_nil_r.
  - cbn. rewrite H. cbn. lia.
Qed.

Lemma push_output data s : sb_output (set_pending (sb_pending s ++ data) s) = sb_output s ++ data.
Proof. unfold sb_output. cbn. by rewrite app_assoc. Qed.

Lemma sputc_puts c s : out_ok s -> puts 1 s [c] (sputc c s).
Proof.
  intros [Hl Hq]. unfold sputc, gets, mbind, comp_bind. destruct (Nat.ltb_spec (length (sb_pending s)) (WRITE_BUFFER_SIZE - 1)) as [Hlt|Hge].
  - cbn. rewrite push_output. split; [done|]. split; [|by apply writes_done_none]. split; [|done].
    cbn [sb_pending set_pending]. rewrite length_app. cbn [length]. lia.
  - unfold overflow, gets, mbind, comp_bind. rewrite (proj2 (Nat.ltb_lt _ _) Hl). unfold modify.
    pose proof (sync_puts (set_pending (sb_pending s ++ [c]) s) Hq) as H.
    unfold puts in *. rewrite push_output, app_nil_r in H. exact H.
Qed.

Lemma xsputn_puts data s :
  out_ok s ->
  puts 2 s data ((n ← xsputn data; mret (n =? length data)%nat) s).
Proof.
  intros [Hl Hq]. unfold xsputn, gets, mbind, comp_bind. set (avail := Z.of_nat WRITE_BUFFER_SIZE - 1 - zlen (sb_pending s)).
  assert (0 <= avail) as Ha by (unfold avail, zlen; lia).
  destruct (Z.leb_spec (zlen data) avail) as [Hle|Hgt].
  - unfold modify. cbn. rewrite Nat.eqb_refl, push_output.
    split; [done|]. split; [|by apply writes_done_none]. split; [|done]. cbn [sb_pending set_pending].
    rewrite length_app. unfold zlen, avail, zlen in *. lia.
  - set (n := Z.to_nat avail). unfold modify. set (s1 := set_pending _ s).
    assert (sb_output s1 = sb_output s ++ take n data) as E1 by apply push_output.
    pose proof (flush_output_spec s1 Hq) as H. destruct (flush_output s1) as [[r|] s2|s2| |]; [| |destruct H| |destruct H].
    + destruct H as (Hw & [Hp Hq2] & Hu). change (writes_done 1 s s2) in Hu. rewrite (proj2 (Z.ltb_ge avail 0) Ha).
      assert (n <= length data)%nat as Hn by (unfold n, zlen in *; lia).
      destruct (Nat.leb_spec (WRITE_BUFFER_SIZE - 1) (length (drop n data))) as [Hbig|Hsmall].
      * pose proof (write_and_wait_spec (drop n data) s2 Hq2) as Hws.
        destruct (write_and_wait (drop n data) s2) as [[] s3|s3| |]; [|destruct Hws| |destruct Hws]; cbn.
        -- destruct Hws as (e & He & Hw3 & Hp3 & Hq3 & Herr). 
           assert (m_written (m_conn_ptr s3) = sb_output s ++ take n data ++ take (m_bytes_transferred s3) (drop n data)) as Hw'.
           { rewrite Hw3, Hw, E1, <- app_assoc. reflexivity. }
           destruct (Nat.eqb_spec (n + m_bytes_transferred s3) (length data)) as [Heq|Hne].
           ++ assert (take n data ++ take (m_bytes_transferred s3) (drop n data) = data) as Hd.
              { rewrite (take_ge (drop n data)) by (rewrite length_drop; lia). apply take_drop. }
              rewrite Hd in Hw'. unfold sb_output at 1. rewrite Hp3, Hp, app_nil_r, Hw'. split; [done|].
              split; [split; [rewrite Hp3, Hp; cbn [length]; destruct sizes; lia|done]|].
              eapply (writes_done_trans 1 1); [exact Hu|]. apply writes_done_one. rewrite He. f_equal.
              destruct (m_async_error s3); [|by destruct Herr]. destruct Herr as [_ Hlt].
              rewrite length_drop in Hlt. destruct (drop n data) eqn:Ed; [destruct sizes; cbn [length] in Hbig; lia|].
              specialize (Hlt ltac:(done)). lia.
           ++ rewrite Hw'. split.
              { apply prefix_app. rewrite <- (take_drop n data) at 3. apply prefix_app, prefix_take. }
              apply (writes_done_exists _ _ _ Hu). rewrite He. constructor.
              destruct (m_async_error s3); [by destruct Herr|]. destruct Herr as [_ Hn3]. rewrite Hn3, length_drop in Hne. lia.
        -- apply writes_done_length in Hu. rewrite Hws in Hu. cbn in Hu. lia.
      * rewrite bool_decide_true by done. unfold modify. cbn. rewrite Nat.eqb_refl. unfold sb_output at 1. cbn. rewrite Hw, E1, <- app_assoc, take_drop.
        split; [done|]. split; [split; [cbn; lia|exact Hq2]|].
        exact (writes_done_trans 1 1 _ _ _ Hu (writes_done_none 1 _ _ eq_refl)).
    + cbn. rewrite E1 in H. destruct data as [|c data]; [unfold zlen in Hgt; cbn in Hgt; lia|]. cbn.
      destruct H as [H1 H2]. split; [|done]. etrans; [exact H1|]. apply prefix_app. apply prefix_take.
    + cbn. change (sb_writes s1) with (sb_writes s) in H. rewrite H. cbn. lia.
Qed.

(** A program that writes to the stream; it stops at the first failure, as [basic_ostream] does
    when its bad bit is set. *)
Inductive put_op := put_char (c : char) | put_bytes (data : bytes) | put_flush.

Definition put_data (op : put_op) : bytes :=
  match op with put_char c => [c] | put_bytes data => data | put_flush => [] end.

Definition run_put (op : put_op) : comp stream_buffer bool :=
  match op with
  | put_char c => sputc c
  | put_bytes data => n ← xsputn data; mret (n =? length data)%nat
  | put_flush => sync
  end.

Fixpoint run_puts (ops : list put_op) : comp stream_buffer bool :=
  match ops with
  | [] => mret true
  | op :: ops' => ok ← run_put op; if ok : bool then run_puts ops' else mret false
  end.

Lemma run_put_puts op s : out_ok s -> puts 2 s (put_data op) (run_put op s).
Proof.
  intros Hl. destruct op; [|by apply xsputn_puts|].
  - eapply puts_weaken; [by apply sputc_puts|lia].
  - eapply puts_weaken; [apply sync_puts, Hl|lia].
Qed.

Lemma run_puts_puts ops s :
  out_ok s -> puts (2 * length ops) s (ops ≫= put_data) (run_puts ops s).
Proof.
  revert s. induction ops as [|op ops IH]; intros s Hl.
  - cbn. rewrite app_nil_r. split; [done|]. split; [done|by apply writes_done_none].
  - cbn [run_puts]. rewrite bind_cons. eapply puts_weaken; [apply (puts_bind 2 (2 * length ops))|cbn [length]; lia].
    + by apply run_put_puts.
    + apply IH.
Qed.

Lemma run_puts_app ops1 ops2 s :
  run_puts (ops1 ++ ops2) s = (ok ← run_puts ops1; if ok : bool then run_puts ops2 else mret false) s.
Proof.
  revert s. induction ops1 as [|op ops1 IH]; intros s; [done|]. cbn [run_puts app]. unfold mbind, comp_bind in *.
  destruct (run_put op s) as [[] s1| | |]; [apply IH|done..].
Qed.

(** After a flush the buffer is empty. *)
Lemma flushed_at_end ops s s' : out_ok s -> run_puts ops s = Done true s' -> last ops = Some put_flush -> sb_pending s' = [].
Proof.
  intros Hok E Hl. apply last_Some in Hl as [ops' ->]. rewrite run_puts_app in E. unfold mbind, comp_bind in E.
  pose proof (run_puts_puts ops' s Hok) as H1. destruct (run_puts ops' s) as [[] s1| | |]; try done.
  destruct H1 as (_ & [_ Hq] & _). cbn [run_puts run_put] in E.
  unfold sync, mbind, comp_bind in E. pose proof (flush_output_spec s1 Hq) as H.
  destruct (flush_output s1) as [[n|] s2| | |]; try done. cbn in E. injection E as <-. apply H.
Qed.

(** No wait of a stream ends before its operation. *)
Definition no_early_wake (wakes : list wake) : Prop := Forall (fun w => wk_kind w = wait_ended) wakes.

Lemma new_out_ok c writes reads wakes : no_early_wake wakes -> out_ok (new_stream_buffer c writes reads wakes).
Proof. intros Hw. split; [cbn [new_stream_buffer sb_pending length]; destruct sizes; lia|by split]. Qed.

(** The output of a stream arrives whole and in order, when no wait ends before its operation.  A program that writes single
    characters, blocks of any length and flushes, and stops at the first failure, never
    writes outside of the stream's buffer.  When it comes to its end, what was sent and what is
    still in the buffer is all that it wrote, and nothing is left in the buffer after a flush; if it has to
    stop, what was sent is a beginning of it, and a write operation has failed; and it waits for ever only if
    one of the at most two write operations for each of its steps never ends. *)
Theorem stream_output ops c writes reads wakes :
  no_early_wake wakes ->
  match run_puts ops (new_stream_buffer c writes reads wakes) with
  | Done true s' =>
      m_written (m_conn_ptr s') ++ sb_pending s' = m_written c ++ (ops ≫= put_data)
      /\ (length (sb_pending s') < WRITE_BUFFER_SIZE)%nat
      /\ (last ops = Some put_flush -> sb_pending s' = [])
  | Done false s' =>
      m_written (m_conn_ptr s') `prefix_of` m_written c ++ (ops ≫= put_data) /\ ~ Forall (eq write_done) writes
  | Deadlock => (length writes < 2 * length ops)%nat
  | _ => False
  end.
Proof.
  intros Hwk. set (s := new_stream_buffer c writes reads wakes).
  pose proof (new_out_ok c writes reads wakes Hwk : out_ok s) as Hl.
  pose proof (run_puts_puts ops s Hl) as H. change (sb_writes s) with writes in H.
  destruct (run_puts ops s) as [[] s'| | |] eqn:E; cbn in H; try done.
  - destruct H as (Ho & [Hp _] & _). change (sb_output s) with (m_written c ++ []) in Ho. rewrite app_nil_r in Ho.
    split; [exact Ho|]. split; [done|]. intros Hlast. by eapply flushed_at_end.
  - destruct H as [Ho He]. change (sb_output s) with (m_written c ++ []) in Ho. rewrite app_nil_r in Ho. split; [done|].
    intros Hall. apply Exists_exists in He as (e & Hin & Hne). apply Hne. symmetry. by eapply Forall_forall in Hall.
Qed.

(** ** Input is a tape *)

(** A program that reads from the stream; it stops when it gets less than it asked for. *)
Inductive get_op := get_peek | get_char | get_bytes (n : nat).

Definition wanted (op : get_op) : nat := match op with get_bytes n => n | _ => 1%nat end.
Definition consumes (op : get_op) : nat := match op with get_peek => 0%nat | op => wanted op end.

Definition run_get (op : get_op) : comp stream_buffer bytes :=
  match op with
  | get_peek => c ← sgetc; mret (option_list c)
  | get_char => c ← sbumpc; mret (option_list c)
  | get_bytes n => xsgetn n
  end.

(** The answers, and whether none of them was too short. *)
Fixpoint run_gets (ops : list get_op) : comp stream_buffer (list bytes * bool) :=
  match ops with
  | [] => mret ([], true)
  | op :: ops' =>
      answer ← run_get op;
      if (length answer <? wanted op)%nat then mret ([answer], false)
      else r ← run_gets ops'; mret (answer :: fst r, snd r)
  end.

(** The same program on a tape. *)
Fixpoint tape_gets (ops : list get_op) (tape : bytes) : list bytes * bool * nat :=
  match ops with
  | [] => ([], true, 0%nat)
  | op :: ops' =>
      let answer := take (wanted op) tape in
      if (length answer <? wanted op)%nat then ([answer], false, 0%nat)
      else let '(answers, more, n) := tape_gets ops' (drop (consumes op) tape) in
           (answer :: answers, more, consumes op + n)%nat
  end.

(** What arrives before a read operation fails. *)
Fixpoint arriving (reads : list read_event) : bytes :=
  match reads with
  | read_data data :: reads' => take (READ_BUFFER_SIZE - PUT_BACK_MAX) data ++ arriving reads'
  | _ => []
  end.

(** A read operation that succeeds gives something. *)
Definition gives (e : read_event) : Prop := match e with read_data data => data <> [] | read_failed => True end.

Definition slice (a b : nat) (buf : bytes) : bytes := take (b - a) (drop a buf).

Definition get_area (s : stream_buffer) : bytes := slice (sb_gptr s) (sb_egptr s) (m_read_buffer (m_conn_ptr s)).
Definition back_area (s : stream_buffer) : bytes := slice (sb_eback s) (sb_gptr s) (m_read_buffer (m_conn_ptr s)).

Definition future (s : stream_buffer) : bytes := get_area s ++ arriving (sb_reads s).

(** The get area lies in the buffer, and before it are the last characters that were read, ten
    if there were so many. *)
Record input_ok (past : bytes) (s : stream_buffer) : Prop := mk_input_ok {
  io_buffer : length (m_read_buffer (m_conn_ptr s)) = READ_BUFFER_SIZE;
  io_order : (sb_eback s <= sb_gptr s <= sb_egptr s)%nat /\ (sb_egptr s <= READ_BUFFER_SIZE)%nat;
  io_back : back_area s `suffix_of` past;
  io_reads : Forall gives (sb_reads s);
  io_quiet : quiet s
}.

Definition room (past : bytes) (s : stream_buffer) : Prop :=
  (min PUT_BACK_MAX (length past) <= sb_gptr s - sb_eback s)%nat.

Lemma length_slice a b buf : (b <= length buf)%nat -> length (slice a b buf) = (b - a)%nat.
Proof. intros Hb. unfold slice. rewrite length_take, length_drop. lia. Qed.

Lemma slice_split a b d buf : (a <= b <= d)%nat -> slice a d buf = slice a b buf ++ slice b d buf.
Proof.
  intros H. unfold slice. replace (d - a)%nat with ((b - a) + (d - b))%nat by lia.
  rewrite <- (take_drop (b - a) (take (b - a + (d - b)) (drop a buf))) at 1. rewrite take_take, Nat.min_l by lia. f_equal.
  rewrite <- take_drop_commute, drop_drop. do 2 f_equal. lia.
Qed.

Lemma slice_lookup a b buf : (a < b <= length buf)%nat -> exists c, buf !! a = Some c /\ slice a b buf = c :: slice (S a) b buf.
Proof.
  intros H. destruct (lookup_lt_is_Some_2 buf a) as [c Hc]; [lia|]. exists c. split; [done|]. unfold slice.
  rewrite (drop_S buf c a Hc). by replace (b - a)%nat with (S (b - S a)) by lia.
Qed.

Lemma length_overwrite pos data buf : (pos + length data <= length buf)%nat -> length (overwrite pos data buf) = length buf.
Proof. intros H. unfold overwrite. rewrite !length_app, length_take, length_drop. lia. Qed.

Lemma slice_overwritten pos data buf :
  (pos + length data <= length buf)%nat -> slice pos (pos + length data) (overwrite pos data buf) = data.
Proof.
  intros H. unfold slice, overwrite. rewrite drop_app_ge by (rewrite length_take; lia).
  rewrite length_take, Nat.min_l by lia. rewrite Nat.sub_diag, drop_0. replace (pos + length data - pos)%nat with (length data) by lia.
  apply take_app_length.
Qed.

Lemma slice_before pos data a b buf :
  (b <= pos <= length buf)%nat -> slice a b (overwrite pos data buf) = slice a b buf.
Proof.
  intros H. unfold slice, overwrite. destruct (decide (a <= b)%nat) as [Hab|Hab].
  - rewrite drop_app_le by (rewrite length_take; lia). rewrite take_app_le by (rewrite length_drop, length_take; lia).
    rewrite !take_drop_commute, take_take. do 2 f_equal. lia.
  - by replace (b - a)%nat with 0%nat by lia.
Qed.

(** The buffer after [underflow]: the last characters moved to the front, and the new ones. *)
Lemma refill_spec (g pb : nat) (d buf : bytes) :
  length buf = READ_BUFFER_SIZE -> (pb <= g <= length buf)%nat -> (pb <= PUT_BACK_MAX)%nat ->
  (PUT_BACK_MAX + length d <= READ_BUFFER_SIZE)%nat ->
  let buf' := overwrite PUT_BACK_MAX d (overwrite (PUT_BACK_MAX - pb) (slice (g - pb) g buf) buf) in
  length buf' = READ_BUFFER_SIZE /\ slice (PUT_BACK_MAX - pb) PUT_BACK_MAX buf' = slice (g - pb) g buf
  /\ slice PUT_BACK_MAX (PUT_BACK_MAX + length d) buf' = d.
Proof.
  intros Hb Hg Hp Hd buf'. destruct sizes as (HB & HP & _). set (lst := slice (g - pb) g buf) in *.
  assert (length lst = pb) as Hl by (unfold lst; rewrite length_slice by lia; lia).
  assert (length (overwrite (PUT_BACK_MAX - pb) lst buf) = READ_BUFFER_SIZE) as H1 by (rewrite length_overwrite; lia).
  unfold buf'. split; [rewrite length_overwrite; lia|]. split; [|apply slice_overwritten; lia].
  rewrite slice_before by lia. replace PUT_BACK_MAX with (PUT_BACK_MAX - pb + length lst)%nat at 2 by lia.
  apply slice_overwritten. lia.
Qed.

(** What [underflow] leaves when it has read [d]. *)
Definition refilled (d : bytes) (reads : list read_event) (s : stream_buffer) : stream_buffer :=
  let pb := min (sb_gptr s - sb_eback s) PUT_BACK_MAX in
  let lst := slice (sb_gptr s - pb) (sb_gptr s) (m_read_buffer (m_conn_ptr s)) in
  mk_stream_buffer (store_at PUT_BACK_MAX d (store_at (PUT_BACK_MAX - pb) lst (m_conn_ptr s)))
    (PUT_BACK_MAX - pb) PUT_BACK_MAX (PUT_BACK_MAX + length d) (sb_pending s) false (length d) (sb_writes s) reads
    (tail (sb_wakes s)) [].

Lemma refilled_ok past d reads s :
  input_ok past s -> (length d <= READ_BUFFER_SIZE - PUT_BACK_MAX)%nat -> Forall gives reads ->
  input_ok past (refilled d reads s) /\ get_area (refilled d reads s) = d
  /\ (room past s -> room past (refilled d reads s)).
Proof.
  intros [Hb Ho Hk Hr Hq] Hd Hf. destruct sizes as (HB & HP & _). set (pb := min (sb_gptr s - sb_eback s) PUT_BACK_MAX).
  destruct (refill_spec (sb_gptr s) pb d (m_read_buffer (m_conn_ptr s))) as (H1 & H2 & H3); [lia..|].
  split; [|split; [exact H3|]].
  - split; [exact H1|cbn [sb_eback sb_gptr sb_egptr refilled]; lia| |exact Hf|exact (waiting_quiet s Hq)].
    change (back_area (refilled d reads s)) with (slice (PUT_BACK_MAX - pb) PUT_BACK_MAX
      (overwrite PUT_BACK_MAX d (overwrite (PUT_BACK_MAX - pb)
         (slice (sb_gptr s - pb) (sb_gptr s) (m_read_buffer (m_conn_ptr s))) (m_read_buffer (m_conn_ptr s))))).
    rewrite H2. etrans; [|exact Hk]. unfold back_area. rewrite (slice_split (sb_eback s) (sb_gptr s - pb)) by lia. by eexists.
  - unfold room. cbn [sb_eback sb_gptr refilled]. lia.
Qed.

Definition no_failure (s : stream_buffer) : Prop := Forall (fun e => e <> read_failed) (sb_reads s).

(** Reading more: the get area is empty before. *)
Lemma underflow_spec past s :
  input_ok past s -> sb_gptr s = sb_egptr s ->
  match underflow s with
  | Done (Some c) s' =>
      input_ok past s' /\ future s' = future s /\ (exists l, get_area s' = c :: l)
      /\ (room past s -> room past s') /\ (length (sb_reads s') < length (sb_reads s))%nat /\ (no_failure s' <-> no_failure s)
  | Done None s' => future s = [] /\ ~ no_failure s
  | Deadlock => future s = [] /\ no_failure s
  | _ => False
  end.
Proof.
  intros Hok Heq. assert (future s = arriving (sb_reads s)) as Hfut.
  { unfold future, get_area, slice. by rewrite Heq, Nat.sub_diag. }
  pose proof (io_quiet _ _ Hok) as Hq. pose proof Hq as [Hlate _].
  unfold underflow, gets, mbind, comp_bind. cbn [id]. rewrite (proj2 (Nat.ltb_ge _ _)) by lia.
  unfold buffer_part at 1, read_races. rewrite Hlate. cbn [existsb]. rewrite !andb_false_r.
  unfold no_failure, modify at 1, read_and_wait. rewrite start_and_wait_quiet by exact Hq.
  unfold finish_op, finish_read. cbn [sb_reads sb_with_conn waiting operation_finished sb_with_waits].
  pose proof (io_reads _ _ Hok) as Hr.
  rewrite Hfut. destruct (sb_reads s) as [|[data|] reads]; [by split| |].
  2: { cbn. split; [done|]. intros Hf. by apply Forall_cons_1 in Hf as [Hf _]. }
  apply Forall_cons_1 in Hr as [Hd Hr]. cbn [gives] in Hd. set (d := take _ data).
  assert (0 < length d <= READ_BUFFER_SIZE - PUT_BACK_MAX)%nat as Hdl.
  { destruct sizes as (? & ? & _). unfold d. rewrite length_take. destruct data; [done|cbn [length]; lia]. }
  destruct (refilled_ok past d reads s Hok) as (H1 & H2 & H3); [lia|done|].
  destruct (slice_lookup PUT_BACK_MAX (PUT_BACK_MAX + length d) (m_read_buffer (m_conn_ptr (refilled d reads s)))) as (c & Hc & Hs).
  { rewrite (io_buffer _ _ H1). lia. }
  cbn [m_async_error operation_finished]. unfold modify, buffer_at, read_races.
  match goal with |- context [setg ?a ?b ?c ?x] => change (setg a b c x) with (refilled d reads s) end.
  cbn [existsb refilled sb_late]. rewrite andb_false_r. fold (refilled d reads s).
  rewrite Hc. cbn [mret comp_ret]. split_and!; [done|unfold future; by rewrite H2| |done|cbn; lia|].
  - eexists. exact Hs.
  - cbn [sb_reads refilled]. split; [by constructor|]. by intros [_ Hf]%Forall_cons_1.
Qed.

(** Taking characters from the get area. *)
Lemma gbump_ok past s k :
  input_ok past s -> (k <= sb_egptr s - sb_gptr s)%nat ->
  let taken := slice (sb_gptr s) (sb_gptr s + k) (m_read_buffer (m_conn_ptr s)) in
  input_ok (past ++ taken) (gbump k s) /\ length taken = k /\ future s = taken ++ future (gbump k s)
  /\ (room past s -> room (past ++ taken) (gbump k s)).
Proof.
  intros [Hb Ho Hk Hr Hq] Hle taken. assert (length taken = k) as Hl by (unfold taken; rewrite length_slice by lia; lia).
  split_and!; try done.
  - split; [done|cbn; lia| |done|done]. unfold back_area in *. cbn [sb_eback sb_gptr gbump setg m_conn_ptr].
    rewrite (slice_split (sb_eback s) (sb_gptr s)) by lia. destruct Hk as [pre ->]. exists pre. by rewrite <- app_assoc.
  - unfold future, get_area. cbn [sb_egptr sb_gptr gbump setg m_conn_ptr sb_reads]. rewrite app_assoc. f_equal. apply slice_split. lia.
  - unfold room. cbn [sb_eback sb_gptr gbump setg]. rewrite length_app, Hl. lia.
Qed.

(** What a function that reads does with the tape. *)
Definition gets_from (past : bytes) (s : stream_buffer) (want consume : nat) (r : outcome stream_buffer bytes) : Prop :=
  match r with
  | Done answer s' =>
      answer = take want (future s)
      /\ (if (length answer <? want)%nat then ~ no_failure s
          else input_ok (past ++ take consume (future s)) s' /\ future s' = drop consume (future s)
               /\ (room past s -> room (past ++ take consume (future s)) s') /\ (no_failure s' <-> no_failure s))
  | Deadlock => (length (future s) < want)%nat /\ no_failure s
  | _ => False
  end.

Lemma get_area_cons past s :
  input_ok past s -> (sb_gptr s < sb_egptr s)%nat ->
  exists c l, buffer_at (sb_gptr s) s = Done c s /\ get_area s = c :: l.
Proof.
  intros [Hb Ho _ _ [Hl _]] Hlt. destruct (slice_lookup (sb_gptr s) (sb_egptr s) (m_read_buffer (m_conn_ptr s))) as (c & Hc & Hs); [lia|].
  exists c, (slice (S (sb_gptr s)) (sb_egptr s) (m_read_buffer (m_conn_ptr s))). unfold buffer_at, read_races.
  rewrite Hl. cbn [existsb]. by rewrite andb_false_r, Hc.
Qed.

Lemma get_area_bump past s c l :
  input_ok past s -> get_area s = c :: l ->
  input_ok (past ++ [c]) (gbump 1 s) /\ future (gbump 1 s) = l ++ arriving (sb_reads s)
  /\ (room past s -> room (past ++ [c]) (gbump 1 s)).
Proof.
  intros Hok Hg. assert (1 <= sb_egptr s - sb_gptr s)%nat as Hlt.
  { apply (f_equal length) in Hg. unfold get_area in Hg. destruct Hok as [Hb Ho _ _ _]. rewrite length_slice in Hg by lia. cbn in Hg. lia. }
  destruct (gbump_ok past s 1 Hok Hlt) as (H1 & H2 & H3 & H4). set (taken := slice _ _ _) in *.
  assert (taken = [c] /\ future (gbump 1 s) = l ++ arriving (sb_reads s)) as [-> Hf].
  { unfold future at 1 in H3. rewrite Hg in H3. destruct taken as [|x [|]]; [done| |done]. cbn [app] in H3. by injection H3 as -> ->. }
  done.
Qed.

Lemma gets_from_done past s want consume answer s' :
  answer = take want (future s) -> length answer = want -> input_ok (past ++ take consume (future s)) s' ->
  future s' = drop consume (future s) -> (room past s -> room (past ++ take consume (future s)) s') ->
  (no_failure s' <-> no_failure s) -> gets_from past s want consume (Done answer s').
Proof. intros Ha Hl H1 H2 H3 H4. unfold gets_from. split; [done|]. by rewrite Hl, Nat.ltb_irrefl. Qed.

(** The first character of the tape, without and with taking it. *)
Lemma gets_first past s s' c l :
  input_ok past s' -> get_area s' = c :: l -> future s' = future s -> (room past s -> room past s') ->
  (no_failure s' <-> no_failure s) ->
  gets_from past s 1 0 (Done [c] s') /\ gets_from past s 1 1 (Done [c] (gbump 1 s')).
Proof.
  intros Hok Hg Hf Hr Hn. assert (future s = c :: l ++ arriving (sb_reads s')) as E by (rewrite <- Hf; unfold future; by rewrite Hg).
  destruct (get_area_bump past s' c l Hok Hg) as (H1 & H2 & H3).
  split; apply gets_from_done; rewrite ?E; cbn [take drop app length]; rewrite ?take_0, ?drop_0, ?app_nil_r; try done.
  - by rewrite Hf.
  - auto.
Qed.

Lemma sgetc_gets past s :
  input_ok past s -> gets_from past s 1 0 ((c ← sgetc; mret (option_list c)) s).
Proof.
  intros Hok. unfold sgetc, gets, mbind, comp_bind. cbn [id]. destruct (Nat.ltb_spec (sb_gptr s) (sb_egptr s)) as [Hlt|Hge].
  - destruct (get_area_cons past s Hok Hlt) as (c & l & -> & Hg). by apply (gets_first past s s c l).
  - assert (sb_gptr s = sb_egptr s) as Heq by (pose proof (io_order _ _ Hok); lia).
    pose proof (underflow_spec past s Hok Heq) as H. destruct (underflow s) as [[c|] s'| | |]; try done.
    + destruct H as (H1 & H2 & (l & Hg) & H4 & _ & H5). by apply (gets_first past s s' c l).
    + destruct H as [Hf Hn]. cbn. by rewrite Hf.
    + destruct H as [Hf Hn]. cbn. rewrite Hf. split; [cbn; lia|done].
Qed.

Lemma sbumpc_gets past s :
  input_ok past s -> gets_from past s 1 1 ((c ← sbumpc; mret (option_list c)) s).
Proof.
  intros Hok. unfold sbumpc, gets, mbind, comp_bind. cbn [id]. destruct (Nat.ltb_spec (sb_gptr s) (sb_egptr s)) as [Hlt|Hge].
  - destruct (get_area_cons past s Hok Hlt) as (c & l & -> & Hg). by apply (gets_first past s s c l).
  - assert (sb_gptr s = sb_egptr s) as Heq by (pose proof (io_order _ _ Hok); lia).
    pose proof (underflow_spec past s Hok Heq) as H. destruct (underflow s) as [[c|] s'| | |]; try done.
    + destruct H as (H1 & H2 & (l & Hg) & H4 & _ & H5). by apply (gets_first past s s' c l).
    + destruct H as [Hf Hn]. cbn. by rewrite Hf.
    + destruct H as [Hf Hn]. cbn. rewrite Hf. split; [cbn; lia|done].
Qed.

Lemma buffer_part_quiet a b s : quiet s -> buffer_part a b s = Done (slice a b (m_read_buffer (m_conn_ptr s))) s.
Proof. intros [Hl _]. unfold buffer_part, read_races. rewrite Hl. cbn [existsb]. by rewrite !andb_false_r. Qed.

(** The loop of [xsgetn] only appends to what it has. *)
Lemma xsgetn_loop_acc fuel : forall n data s,
  xsgetn_loop fuel n data s
  = match xsgetn_loop fuel n [] s with
    | Done answer s' => Done (data ++ answer) s'
    | r => r
    end.
Proof.
  induction fuel as [|fuel IH]; intros n data s; [done|]. destruct n as [|n]; [cbn; by rewrite app_nil_r|].
  cbn [xsgetn_loop]. unfold gets, mbind, comp_bind, modify. cbn [id]. set (k := min _ _).
  destruct (buffer_part _ _ s) as [taken s1|s1| |]; [|done..].
  destruct (_ =? 0)%nat; [done|]. destruct (underflow _) as [[c|] s2| | |]; try done.
  rewrite IH, (IH _ ([] ++ taken)). destruct (xsgetn_loop fuel _ [] s2); try done. cbn [app]. by rewrite app_assoc.
Qed.

(** The rest of an answer, after [taken]. *)
Lemma gets_from_after past taken s s1 s2 n r :
  future s = taken ++ future s1 -> future s2 = future s1 -> (room past s -> room (past ++ taken) s2) ->
  (no_failure s2 <-> no_failure s) -> gets_from (past ++ taken) s2 n n r ->
  gets_from past s (length taken + n) (length taken + n)
    match r with
    | Done answer s' => Done (taken ++ answer) s' | Thrown s' => Thrown s' | Deadlock => Deadlock | Crash => Crash
    end.
Proof.
  intros Hf Hf2 Hr Hn H. rewrite <- Hf2 in Hf. destruct r as [answer s'| | |]; try done.
  - destruct H as [-> H]. unfold gets_from. rewrite Hf, take_app_add, drop_app_add. split; [done|].
    rewrite length_app. replace (length taken + _ <? length taken + n)%nat with (length (take n (future s2)) <? n)%nat
      by (apply Bool.eq_iff_eq_true; rewrite !Nat.ltb_lt; lia).
    destruct (_ <? n)%nat; [by rewrite <- Hn|]. destruct H as (H1 & H2 & H3 & H4). rewrite app_assoc.
    split; [done|]. split; [done|]. split; [auto|by rewrite H4].
  - destruct H as [H1 H2]. split; [rewrite Hf, length_app; lia|by apply Hn].
Qed.

Lemma xsgetn_loop_gets fuel : forall n past s,
  input_ok past s -> (length (sb_reads s) < fuel)%nat -> gets_from past s n n (xsgetn_loop fuel n [] s).
Proof.
  induction fuel as [|fuel IH]; intros n past s Hok Hfuel; [lia|].
  destruct n as [|n]; [apply gets_from_done; rewrite ?take_0, ?drop_0, ?app_nil_r; done|].
  cbn [xsgetn_loop]. unfold gets, mbind, comp_bind, modify. cbn [id app].
  set (k := min (sb_egptr s - sb_gptr s) (S n)). rewrite buffer_part_quiet by apply (io_quiet _ _ Hok).
  destruct (gbump_ok past s k Hok ltac:(lia)) as (G1 & G2 & G3 & G4). set (taken := slice _ _ _) in *.
  set (s1 := gbump k s) in *. destruct (Nat.eqb_spec (S n - k) 0) as [E|E].
  - assert (k = S n) as Hk by lia.
    apply gets_from_done; [|lia|..|done]; rewrite G3, ?take_app_length', ?drop_app_length' by lia; done.
  - assert (sb_gptr s1 = sb_egptr s1) as Heq.
    { pose proof (io_order _ _ Hok). cbn [s1 gbump setg sb_gptr sb_egptr]. lia. }
    pose proof (underflow_spec _ s1 G1 Heq) as H. destruct (underflow s1) as [[c|] s2| | |]; try done.
    + destruct H as (H1 & H2 & _ & H4 & Hlen & H5). change (sb_reads s1) with (sb_reads s) in Hlen.
      rewrite xsgetn_loop_acc. replace (S n) with (length taken + (S n - k))%nat at 1 2 by lia.
      apply (gets_from_after past taken s s1 s2 (S n - k)); auto. apply IH; [done|lia].
    + destruct H as [Hf Hn]. rewrite Hf, app_nil_r in G3. unfold mret, comp_ret, gets_from. rewrite G3, take_ge by lia.
      by rewrite (proj2 (Nat.ltb_lt (length taken) (S n))) by lia.
    + destruct H as [Hf Hn]. rewrite Hf, app_nil_r in G3. split; [rewrite G3; lia|done].
Qed.

Lemma run_get_gets op past s : input_ok past s -> gets_from past s (wanted op) (consumes op) (run_get op s).
Proof.
  intros Hok. destruct op as [| |n]; [by apply sgetc_gets|by apply sbumpc_gets|].
  cbn [run_get wanted consumes]. unfold xsgetn, gets, mbind, comp_bind. apply xsgetn_loop_gets; [done|lia].
Qed.

(** ** Putting characters back *)

Fixpoint ungets (k : nat) : comp stream_buffer (list char) :=
  match k with
  | O => mret []
  | S k' => c ← sungetc; match c with None => mret [] | Some c => l ← ungets k'; mret (c :: l) end
  end.

Lemma sungetc_spec past c s :
  input_ok (past ++ [c]) s -> (sb_eback s < sb_gptr s)%nat ->
  exists s', sungetc s = Done (Some c) s' /\ input_ok past s' /\ future s' = c :: future s
             /\ (sb_gptr s' - sb_eback s' = sb_gptr s - sb_eback s - 1)%nat /\ sb_reads s' = sb_reads s.
Proof.
  intros [Hb Ho Hk Hr Hq] Hlt. set (buf := m_read_buffer (m_conn_ptr s)) in *.
  destruct (slice_lookup (sb_gptr s - 1) (sb_gptr s) buf) as (x & Hx & Hs); [rewrite Hb; lia|].
  assert (slice (S (sb_gptr s - 1)) (sb_gptr s) buf = []) as E0.
  { unfold slice. by replace (sb_gptr s - S (sb_gptr s - 1))%nat with 0%nat by lia. }
  rewrite E0 in Hs. unfold back_area in Hk. fold buf in Hk. 
  rewrite (slice_split (sb_eback s) (sb_gptr s - 1)) in Hk by lia. rewrite Hs in Hk. destruct Hk as [pre Hpre].
  rewrite app_assoc in Hpre. apply app_inj_tail in Hpre as [Hpast ->].
  unfold sungetc, gets, mbind, comp_bind, modify. cbn [id]. rewrite (proj2 (Nat.ltb_lt _ _) Hlt).
  unfold buffer_at, read_races. cbn [m_conn_ptr setg sb_late]. rewrite (proj1 Hq). cbn [existsb]. rewrite andb_false_r.
  fold buf. rewrite Hx. eexists. split; [reflexivity|]. split_and!.
  - split; [done|cbn; lia| |done|done]. unfold back_area. cbn. fold buf. exists pre. exact Hpast.
  - unfold future, get_area. cbn [sb_gptr sb_egptr m_conn_ptr sb_reads setg]. fold buf. rewrite (slice_split (sb_gptr s - 1) (sb_gptr s)) by lia. rewrite Hs. done.
  - cbn. lia.
  - done.
Qed.

Lemma ungets_spec k : forall past s,
  input_ok past s -> (k <= length past)%nat -> (k <= sb_gptr s - sb_eback s)%nat ->
  exists s', ungets k s = Done (take k (rev past)) s' /\ input_ok (take (length past - k) past) s'
             /\ future s' = drop (length past - k) past ++ future s.
Proof.
  induction k as [|k IH]; intros past s Hok Hp Hr.
  - exists s. rewrite Nat.sub_0_r, take_0, drop_all, take_ge by lia. done.
  - destruct past as [|c past _] using rev_ind; [cbn in Hp; lia|]. rewrite length_app in Hp. cbn in Hp.
    destruct (sungetc_spec past c s Hok) as (s1 & E & H1 & H2 & H3 & _); [lia|].
    destruct (IH past s1 H1) as (s2 & E2 & H4 & H5); [lia..|].
    exists s2. cbn [ungets]. unfold mbind, comp_bind. rewrite E, E2. rewrite rev_app_distr, length_app. cbn [rev app take length].
    replace (length past + 1 - S k)%nat with (length past - k)%nat by lia.
    rewrite take_app_le, drop_app_le by lia. split; [done|]. split; [done|]. by rewrite H5, H2, <- app_assoc.
Qed.

(** ** A whole program *)

Lemma run_gets_spec ops : forall past s, input_ok past s ->
  let '(answers, more, n) := tape_gets ops (future s) in
  match run_gets ops s with
  | Done r s' =>
      r = (answers, more)
      /\ (if more : bool then input_ok (past ++ take n (future s)) s' /\ (room past s -> room (past ++ take n (future s)) s')
                             /\ (n <= length (future s))%nat
          else ~ no_failure s)
  | Deadlock => more = false /\ no_failure s
  | _ => False
  end.
Proof.
  induction ops as [|op ops IH]; intros past s Hok.
  { cbn. rewrite take_0, app_nil_r. split; [done|]. split; [done|]. split; [done|lia]. }
  cbn [tape_gets run_gets]. unfold mbind, comp_bind. pose proof (run_get_gets op past s Hok) as H.
  destruct (run_get op s) as [answer s1| | |]; try done.
  - destruct H as [Ha H]. rewrite <- Ha. destruct (length answer <? wanted op)%nat eqn:Hlt; [by split|].
    destruct H as (H1 & H2 & H3 & H4). specialize (IH _ s1 H1). rewrite H2 in IH.
    assert (consumes op <= length (future s))%nat as Hc.
    { apply Nat.ltb_ge in Hlt. rewrite Ha, length_take in Hlt. destruct op; cbn [consumes wanted] in *; lia. }
    destruct (tape_gets ops (drop (consumes op) (future s))) as [[answers more] n].
    destruct (run_gets ops s1) as [r s2| | |]; try done.
    + destruct IH as [-> IH]. cbn. split; [done|]. destruct more; [|by rewrite <- H4].
      destruct IH as (I1 & I2 & I3). rewrite <- app_assoc, take_take_drop in I1, I2. rewrite length_drop in I3.
      split; [done|]. split; [auto|lia].
    + destruct IH as [-> IH]. split; [done|by apply H4].
  - destruct H as [Hlt Hn]. rewrite (proj2 (Nat.ltb_lt _ _)) by (rewrite length_take; lia). done.
Qed.

Lemma new_input_ok c writes reads wakes :
  length (m_read_buffer c) = READ_BUFFER_SIZE -> Forall gives reads -> no_early_wake wakes ->
  input_ok [] (new_stream_buffer c writes reads wakes) /\ room [] (new_stream_buffer c writes reads wakes)
  /\ future (new_stream_buffer c writes reads wakes) = arriving reads.
Proof.
  intros Hb Hr Hw. destruct sizes as (HB & HP & _). split; [|split; [unfold room; cbn [length]; lia|]].
  - split; [done|cbn [new_stream_buffer sb_eback sb_gptr sb_egptr]; lia| |done|by split].
    unfold back_area, slice. cbn [new_stream_buffer sb_eback sb_gptr m_conn_ptr]. by rewrite Nat.sub_diag.
  - unfold future, get_area, slice. cbn [new_stream_buffer sb_egptr sb_gptr m_conn_ptr]. by rewrite Nat.sub_diag.
Qed.

(** C13: the input of a stream is the sequence of characters that arrive, when no wait ends
    before its operation.  However the data is
    cut into read operations, a program that looks at, takes and reads any numbers of
    characters gets exactly what it would get from a tape with these characters; it gets less only when a read
    operation has failed, and waits for ever only when no more arrives.  After it, up to ten of the
    characters it took can be put back one by one, the last one first, and are then read again. *)
Theorem stream_input ops c writes reads wakes :
  length (m_read_buffer c) = READ_BUFFER_SIZE -> Forall gives reads -> no_early_wake wakes ->
  let '(answers, more, n) := tape_gets ops (arriving reads) in
  match run_gets ops (new_stream_buffer c writes reads wakes) with
  | Done r s' =>
      r = (answers, more)
      /\ (if more : bool then
            forall k, (k <= min PUT_BACK_MAX n)%nat -> exists s1 s2,
              ungets k s' = Done (take k (rev (take n (arriving reads)))) s1
              /\ xsgetn k s1 = Done (drop (n - k) (take n (arriving reads))) s2
          else read_failed ∈ reads)
  | Deadlock => more = false /\ read_failed ∉ reads
  | _ => False
  end.
Proof.
  intros Hb Hr Hwk. destruct (new_input_ok c writes reads wakes Hb Hr Hwk) as (Hok & Hroom & Hf).
  pose proof (run_gets_spec ops [] _ Hok) as H. rewrite Hf in H. set (s := new_stream_buffer c writes reads wakes) in *.
  assert (no_failure s <-> read_failed ∉ reads) as Hnf.
  { unfold no_failure. change (sb_reads s) with reads. rewrite Forall_forall. split; [by intros Hn Hi; apply (Hn _ Hi)|].
    by intros Hn e Hi ->. }
  destruct (tape_gets ops (arriving reads)) as [[answers more] n]. destruct (run_gets ops s) as [r s'| | |]; try done.
  - destruct H as [-> H]. split; [done|]. destruct more.
    2: { destruct (decide (read_failed ∈ reads)); [done|]. exfalso. by apply H, Hnf. }
    destruct H as (H1 & H2 & H3). cbn [app] in H1, H2. specialize (H2 Hroom). unfold room in H2. intros k Hk.
    assert (length (take n (arriving reads)) = n) as Hn by (rewrite length_take; lia). rewrite Hn in H2.
    destruct (ungets_spec k _ s' H1) as (s1 & E1 & G1 & G2); [lia..|]. rewrite Hn in *.
    pose proof (run_get_gets (get_bytes k) _ s1 G1) as Hg. cbn [run_get wanted consumes] in Hg. unfold gets_from in Hg. rewrite G2 in Hg.
    set (back := drop (n - k) (take n (arriving reads))) in *. assert (length back = k) as Hbk by (unfold back; rewrite length_drop; lia).
    destruct (xsgetn k s1) as [answer s2| | |] eqn:Eg; try done.
    + destruct Hg as [-> _]. exists s1, s2. split; [done|]. rewrite Eg. by rewrite take_app_length' by lia.
    + destruct Hg as [Hg _]. rewrite length_app in Hg. lia.
  - destruct H as [-> H]. split; [done|]. by apply Hnf.
Qed.

(** C11: two streams over a connection carry what is written, when no wait of theirs ends before
    its operation.  When the write operations of one stream succeed, a program that writes any characters and blocks to it and ends with a
    flush comes to its end and has sent exactly what it wrote; and however the network cuts
    this, a program that reads from the stream at the other end gets what it asks for,
    character for character, as long as it asks for no more than was written. *)
Theorem stream_exchange ops gets answers n c1 writes1 reads1 wakes1 c2 writes2 wakes2 pieces :
  no_early_wake wakes1 -> no_early_wake wakes2 ->
  Forall (eq write_done) writes1 -> (2 * (length ops + 1) <= length writes1)%nat ->
  length (m_read_buffer c2) = READ_BUFFER_SIZE ->
  Forall (fun p => p <> [] /\ (length p <= READ_BUFFER_SIZE - PUT_BACK_MAX)%nat) pieces ->
  mjoin pieces = ops ≫= put_data -> tape_gets gets (ops ≫= put_data) = (answers, true, n) ->
  exists s1 s2,
    run_puts (ops ++ [put_flush]) (new_stream_buffer c1 writes1 reads1 wakes1) = Done true s1
    /\ m_written (m_conn_ptr s1) = m_written c1 ++ mjoin pieces /\ sb_pending s1 = []
    /\ run_gets gets (new_stream_buffer c2 writes2 (read_data <$> pieces) wakes2) = Done (answers, true) s2.
Proof.
  intros Hwk1 Hwk2 Hw Hlen Hb Hp Hj Ht. set (s := new_stream_buffer c1 writes1 reads1 wakes1).
  pose proof (new_out_ok c1 writes1 reads1 wakes1 Hwk1 : out_ok s) as Hl.
  pose proof (run_puts_puts (ops ++ [put_flush]) s Hl) as H. rewrite bind_app, length_app in H.
  change ([put_flush] ≫= put_data) with ([] : bytes) in H. rewrite app_nil_r in H. change (sb_writes s) with writes1 in H.
  destruct (run_puts (ops ++ [put_flush]) s) as [[] s1| | |] eqn:E; cbn [puts] in H; try done.
  2: { destruct H as [_ He]. apply Exists_exists in He as (e & Hi & Hne). exfalso. apply Hne. symmetry. by eapply Forall_forall in Hw. }
  2: { change (sb_writes s) with writes1 in H. cbn [length] in H. lia. }
  assert (sb_pending s1 = []) as Hnil by (apply (flushed_at_end _ _ _ Hl E); by rewrite last_snoc).
  assert (arriving (read_data <$> pieces) = mjoin pieces) as Harr.
  { clear -Hp. induction Hp as [|p ps [_ Hp] _ IH]; [done|]. cbn. rewrite IH, take_ge by done. done. }
  assert (Forall gives (read_data <$> pieces)) as Hg by (apply Forall_fmap; eapply Forall_impl; [exact Hp|]; by intros p [? _]).
  destruct (new_input_ok c2 writes2 (read_data <$> pieces) wakes2 Hb Hg Hwk2) as (Hok & _ & Hf).
  pose proof (run_gets_spec gets [] _ Hok) as Hgets. rewrite Hf, Harr, Hj, Ht in Hgets.
  destruct (run_gets gets _) as [r s2| | |]; try done; [|by destruct Hgets].
  destruct Hgets as [-> _]. exists s1, s2. split; [done|]. destruct H as (Ho & _). unfold sb_output in Ho.
  rewrite Hnil, !app_nil_r in Ho. by rewrite Hj.
Qed.

(** ** Witnesses *)

#[local] Transparent READ_BUFFER_SIZE WRITE_BUFFER_SIZE.

Definition sample_connection : connection := new_connection (replicate READ_BUFFER_SIZE NUL).

Lemma sample_connection_buffer : length (m_read_buffer sample_connection) = READ_BUFFER_SIZE.
Proof. apply length_replicate. Qed.

Lemma stream_input_witness :
  match run_gets [get_char; get_peek; get_bytes 3]
          (new_stream_buffer sample_connection [] [read_data (str "he"); read_data (str "llo")] [mk_wake false wait_ended]) with
  | Done r s' =>
      r = ([str "h"; str "e"; str "ell"], true)
      /\ forall k, (k <= 4)%nat -> exists s1 s2, ungets k s' = Done (take k (str "lleh")) s1
                                                /\ xsgetn k s1 = Done (drop (4 - k) (str "hell")) s2
  | Deadlock => True = False
  | _ => False
  end.
Proof.
  pose proof (stream_input [get_char; get_peek; get_bytes 3] sample_connection [] [read_data (str "he"); read_data (str "llo")]
    [mk_wake false wait_ended] sample_connection_buffer ltac:(by repeat constructor) ltac:(by repeat constructor)) as H.
  assert (arriving [read_data (str "he"); read_data (str "llo")] = str "hello") as Ea by (vm_compute; reflexivity).
  rewrite Ea in H.
  assert (tape_gets [get_char; get_peek; get_bytes 3] (str "hello") = ([str "h"; str "e"; str "ell"], true, 4%nat)) as Et
    by (vm_compute; reflexivity).
  rewrite Et in H. cbn iota beta in H.
  destruct (run_gets _ _) as [r s'| | |]; [|exact H| |exact H].
  - destruct H as [H1 H2]. split; [exact H1|]. intros k Hk. exact (H2 k Hk).
  - destruct H as [H _]. discriminate H.
Defined.

Lemma stream_exchange_witness :
  exists s1 s2,
    run_puts ([put_bytes (str "hello"); put_char SP; put_bytes (str "world")] ++ [put_flush])
      (new_stream_buffer sample_connection (replicate 8 write_done) [] []) = Done true s1
    /\ run_gets [get_bytes 6; get_char]
         (new_stream_buffer sample_connection [] (read_data <$> [str "hel"; str "lo wo"; str "rld"]) [])
       = Done ([str "hello "; str "w"], true) s2.
Proof.
  destruct (stream_exchange [put_bytes (str "hello"); put_char SP; put_bytes (str "world")] [get_bytes 6; get_char]
    [str "hello "; str "w"] 7 sample_connection (replicate 8 write_done) [] [] sample_connection [] []
    [str "hel"; str "lo wo"; str "rld"]) as (s1 & s2 & H1 & _ & _ & H4).
  - constructor.
  - constructor.
  - repeat constructor.
  - apply Nat.le_refl.
  - apply sample_connection_buffer.
  - destruct sizes as (HB & HP & _).
    repeat (constructor; [split; [discriminate|apply (Nat.le_trans _ 10); [apply Nat.leb_le; reflexivity|lia]]|]). constructor.
  - reflexivity.
  - reflexivity.
  - exists s1, s2. auto.
Defined.

(** ** Deviations *)

(** A flush that fails moves the end of the write buffer back by the bytes that were sent, so
    it is the last bytes that are dropped: the next flush sends the first ones again. *)
Lemma failed_flush_sends_again :
  let s := set_pending (str "abcd") (new_stream_buffer (new_connection []) [write_failed 2; write_done] [] []) in
  exists s1 s2, sync s = Done false s1 /\ sync s1 = Done true s2 /\ m_written (m_conn_ptr s2) = str "abab".
Proof. eexists _, _. split; [vm_compute; reflexivity|]. split; vm_compute; reflexivity. Qed.

(** When a flush of the full buffer fails and nothing was sent, the next character is written
    behind the buffer, and the next block is read from before its start. *)
Lemma full_buffer_overrun c data s :
  length (sb_pending s) = WRITE_BUFFER_SIZE -> quiet s ->
  sputc c s = Crash
  /\ forall writes, sb_writes s = write_done :: writes -> xsputn data s = Crash.
Proof.
  intros Hl Hq. destruct sizes as (_ & _ & HW). split.
  - unfold sputc, overflow, gets, mbind, comp_bind. rewrite Hl, (proj2 (Nat.ltb_ge _ _)) by lia.
    cbn beta iota. by rewrite Hl, Nat.ltb_irrefl.
  - intros writes Hw. unfold xsputn, gets, mbind, comp_bind, modify. set (avail := Z.of_nat WRITE_BUFFER_SIZE - 1 - zlen (sb_pending s)).
    assert (avail = -1) as Ha by (unfold avail, zlen; lia). pose proof (zlen_nonneg data).
    rewrite Ha, (proj2 (Z.leb_gt _ _)) by lia. change (Z.to_nat (-1)) with 0%nat. rewrite take_0, app_nil_r.
    unfold flush_output, gets, mbind, comp_bind. cbn [sb_pending set_pending].
    rewrite bool_decide_false by (intros E; rewrite E in Hl; cbn in Hl; lia).
    unfold write_and_wait. rewrite start_and_wait_quiet by exact Hq. unfold finish_op, finish_write.
    cbn [sb_writes set_pending waiting operation_finished sb_with_waits]. rewrite Hw.
    cbn [m_bytes_transferred operation_finished]. rewrite Nat.ltb_irrefl. reflexivity.
Qed.

(** After a read operation that fails, some of the characters that can be put back are not those
    that were read. *)
Lemma failed_read_spoils_put_back :
  let s := new_stream_buffer sample_connection []
             [read_data (str "abcdefghijkl"); read_data (str "xy"); read_failed] [] in
  let read := n ← xsgetn 12; m ← xsgetn 2; c ← sgetc; mret (n ++ m, c) in
  exists s1 s2, read s = Done (str "abcdefghijklxy", None) s1 /\ ungets 3 s1 = Done (str "yxy") s2.
Proof. eexists _, _. split; [vm_compute; reflexivity|vm_compute; reflexivity]. Qed.

(** When the wait of a flush ends early the flush succeeds with nothing sent, and the next flush
    sends the same bytes again; if the first operation still goes on then, there are two. *)
Lemma early_wake_sends_twice :
  let program settled := new_stream_buffer (new_connection []) [write_done; write_done] []
                           [mk_wake true woken_early; mk_wake settled wait_ended] in
  let run := put_bytes (str "abcd") :: [put_flush; put_flush] in
  (exists s, run_puts run (program true) = Done true s /\ m_written (m_conn_ptr s) = str "abcdabcd")
  /\ run_puts run (program false) = Crash.
Proof. split; [eexists; split; vm_compute; reflexivity|vm_compute; reflexivity]. Qed.

(** When the wait of a read ends early the first character of the buffer is taken while the
    operation may be writing to it. *)
Lemma early_wake_races w s :
  sb_gptr s = sb_egptr s -> m_async_error s = false ->
  underflow (sb_with_waits [mk_wake w woken_early] [] s) = Crash.
Proof.
  intros Heq He. unfold underflow, gets, mbind, comp_bind. cbn [id sb_gptr sb_egptr sb_with_waits].
  rewrite (proj2 (Nat.ltb_ge _ _)) by lia. unfold buffer_part at 1, read_races. cbn [sb_late sb_with_waits existsb].
  rewrite !andb_false_r. unfold modify, read_and_wait, start_and_wait, next_wake. cbn. destruct w; cbn; by rewrite He.
Qed.

(** ** Connecting to a host tries every address *)

(** The result of [connect] with a name is that of the first address that can be connected, or
    else that of the last address, with a connection that is closed again; a name without
    addresses is a host that was not found. *)
Lemma connect_host_tries {E A} (connect : A -> connection -> option E * connection) host_not_found endpoints c :
  let r := connect_host connect host_not_found (inr endpoints) c in
  match fst r with
  | None => exists pre ep post c', endpoints = pre ++ ep :: post /\ connect ep c' = (None, snd r)
  | Some e => endpoints = [] /\ e = host_not_found /\ snd r = c
              \/ exists ep c' c2, last endpoints = Some ep /\ connect ep c' = (Some e, c2) /\ snd r = close c2
  end.
Proof.
  cbn. generalize host_not_found as e0. revert c. induction endpoints as [|ep endpoints IH]; intros c e0; cbn; [by left|].
  destruct (connect ep c) as [[e|] c2] eqn:Ec.
  - specialize (IH (close c2) e). destruct (connect_loop _ _ _ _) as [[e'|] c3]; cbn in *.
    + right. destruct IH as [(-> & -> & ->)|(ep' & c' & c4 & Hl & Hc & Hr)].
      * by exists ep, c, c2.
      * exists ep', c', c4. destruct endpoints; [done|]. by split_and!.
    + destruct IH as (pre & ep' & post & c' & -> & Hc). by exists (ep :: pre), ep', post, c'.
  - assert (connect_loop connect endpoints None c2 = (None, c2)) as -> by (by destruct endpoints).
    by exists [], ep, endpoints, c.
Qed.
