(* ===== verification/Services.v ===== *)
(** * The other web services

    Models the services that answer with a page about the request (services/EchoService.cpp,
    CookieService.cpp, HelloService.cpp, AllowNothingService.cpp) and the one that shows the
    latest log messages (services/LogService.cpp), with the appender that keeps them; the
    text of a message is made by the logging library. *)
From S2P Require Import Prelude CLib StringUtils Dict Tribool HttpTypes Message ParserBase.
From S2P Require Import ParserHeaders ParserForms ParserBody Parser ParserSafety ParserStream.
From S2P Require Import ParserRoundTrip Connection Writer Replies.

Definition texts (l : list bytes) : list write_op := op_text <$> l.
Definition memory_line (s : bytes) : list write_op := [op_memory s; op_memory STRING_CRLF].

(** ** The echo service *)

(** [writeDictionaryTerm]. *)
Definition write_dictionary_term (kv : bytes * bytes) : list write_op :=
  texts [fst kv; HEADER_NAME_VALUE_DELIMITER; snd kv; STRING_CRLF].

(** A heading with the terms of a dictionary. *)
Definition write_dictionary (heading : bytes) (d : ihash_multimap) : list write_op :=
  memory_line heading ++ [op_memory STRING_CRLF] ++ (d ≫= write_dictionary_term) ++ [op_memory STRING_CRLF].

Definition get_query_string (m : message) : bytes :=
  match m_kind m with KRequest r => rq_query_string r | KResponse _ => [] end.
Definition get_queries (m : message) : ihash_multimap :=
  match m_kind m with KRequest r => rq_query_params r | KResponse _ => [] end.

(** The page; the content is read from the buffer of the request. *)
Definition echo_parts (m : message) : res (list write_op) :=
  content ← (if m_content_length m =? 0 then Ok []
             else data ← read_content m;
                  Ok (memory_line data ++ [op_memory STRING_CRLF]));
  Ok (memory_line (str "[Request Echo]") ++ [op_memory STRING_CRLF]
      ++ texts [str "Request method: "; get_method m; STRING_CRLF;
                str "Resource originally requested: "; get_original_resource m; STRING_CRLF;
                str "Resource delivered: "; get_resource m; STRING_CRLF;
                str "Query string: "; get_query_string m; STRING_CRLF;
                str "HTTP version: "; to_string (m_version_major m); str "."; to_string (m_version_minor m); STRING_CRLF;
                str "Content length: "; to_string (m_content_length m); STRING_CRLF; STRING_CRLF]
      ++ write_dictionary (str "[Request Headers]") (m_headers m)
      ++ write_dictionary (str "[Query Parameters]") (get_queries m)
      ++ write_dictionary (str "[Cookie Parameters]") (m_cookie_params m)
      ++ memory_line (str "[POST Content]") ++ [op_memory STRING_CRLF] ++ content
      ++ match get_user_record m with
         | None => []
         | Some user => memory_line (str "[USER Info]") ++ [op_memory STRING_CRLF]
                        ++ texts [str "User authenticated, username: "; user] ++ [op_memory STRING_CRLF]
         end).

Definition echo_service (m : message) (c : connection) : res connection :=
  parts ← echo_parts m; Ok (reply m c (set_content_type CONTENT_TYPE_TEXT) parts).

(** ** The cookie service *)

Definition DQUOTE : char := x22.

Definition HEADER_HTML : bytes :=
  str "<html>" ++ [LF] ++ str "<head>" ++ [LF] ++ str "<title>Cookie Service</title>" ++ [LF]
  ++ str "</head>" ++ [LF] ++ str "<body>" ++ [LF; LF] ++ str "<h1>Cookie Service</h1>" ++ [LF].
Definition FOOTER_HTML : bytes := [LF] ++ str "</body>" ++ [LF] ++ str "</html>" ++ [LF].

(** A paragraph between empty lines. *)
Definition notice (s : bytes) : bytes := [LF] ++ str "<p>[" ++ s ++ str "]</p>" ++ [LF; LF].

(** The action of the query: the change of the response, and the paragraph. *)
Definition cookie_action (m : message) : (message -> message) * bytes :=
  if negb (has_key (get_queries m) (str "action")) then (id, [])
  else if bytes_eqb (get_query m (str "action")) (str "Add Cookie") then
    let cookie_name := get_query m (str "cookie_name") in
    let cookie_value := get_query m (str "cookie_value") in
    if bool_decide (cookie_name = []) || bool_decide (cookie_value = []) then
      (id, notice (str "Error: You must specify a name and value to add a cookie"))
    else (set_cookie cookie_name cookie_value (str "/") None,
          notice (str "Added cookie " ++ cookie_name ++ str "=" ++ cookie_value))
  else if bytes_eqb (get_query m (str "action")) (str "delete") then
    let cookie_name := get_query m (str "cookie_name") in
    if bool_decide (cookie_name = []) then
      (id, notice (str "Error: You must specify a name to delete a cookie"))
    else (delete_set_cookie cookie_name (str "/"), notice (str "Deleted cookie " ++ cookie_name))
  else (id, notice (str "Error: Unrecognized action")).

Definition cookie_headers (m : message) : bytes :=
  if has_header m HEADER_COOKIE then
    [LF] ++ str "<h2>Cookie Headers</h2>" ++ [LF] ++ str "<ul>" ++ [LF]
    ++ (equal_range (m_headers m) HEADER_COOKIE ≫= fun kv => str "<li>Cookie: " ++ snd kv ++ [LF])
    ++ str "</ul>" ++ [LF; LF]
  else [LF] ++ str "<h2>No Cookie Headers</h2>" ++ [LF; LF].

Definition cookie_variables (m : message) : bytes :=
  if bool_decide (m_cookie_params m = []) then [LF] ++ str "<h2>No Cookie Variables</h2>" ++ [LF; LF]
  else
    [LF] ++ str "<h2>Cookie Variables</h2>" ++ [LF] ++ str "<ul>" ++ [LF]
    ++ (m_cookie_params m ≫= fun kv =>
          str "<li>" ++ fst kv ++ str ": " ++ snd kv ++ str " <a href=" ++ [DQUOTE] ++ get_resource m
          ++ str "?action=delete&cookie_name=" ++ fst kv ++ [DQUOTE] ++ str ">[Delete]</a>" ++ [LF])
    ++ str "</ul>" ++ [LF; LF].

Definition cookie_form (m : message) : bytes :=
  let quoted s := [DQUOTE] ++ s ++ [DQUOTE] in
  [LF] ++ str "<h2>Add Cookie</h2>" ++ [LF]
  ++ str "<p><form action=" ++ quoted (get_resource m) ++ str " method=" ++ quoted (str "POST") ++ str ">" ++ [LF]
  ++ str "Name: <input type=" ++ quoted (str "text") ++ str " name=" ++ quoted (str "cookie_name") ++ str "><br />" ++ [LF]
  ++ str "Value: <input type=" ++ quoted (str "text") ++ str " name=" ++ quoted (str "cookie_value") ++ str "><br />" ++ [LF]
  ++ str "<input type=" ++ quoted (str "submit") ++ str " name=" ++ quoted (str "action") ++ str " value="
  ++ quoted (str "Add Cookie") ++ str "></p>" ++ [LF] ++ str "</form>" ++ [LF; LF].

Definition cookie_service (m : message) (c : connection) : connection :=
  let '(edit, paragraph) := cookie_action m in
  reply m c (fun r => edit (set_content_type CONTENT_TYPE_HTML r))
    ([op_memory HEADER_HTML]
     ++ texts [paragraph; cookie_headers m; cookie_variables m; cookie_form m] ++ [op_memory FOOTER_HTML]).

(** ** The services with one page *)

Definition hello_service (m : message) (c : connection) : connection :=
  reply m c id (memory_line (str "<html><body>Hello World!</body></html>") ++ [op_memory STRING_CRLF]).

Definition allow_nothing_service (m : message) (c : connection) : connection :=
  reply m c
    (fun r => add_header (str "Allow") (str "GET")
                (with_status RESPONSE_CODE_METHOD_NOT_ALLOWED RESPONSE_MESSAGE_METHOD_NOT_ALLOWED r))
    (memory_line (str "<html><body>No, you can't.</body></html>") ++ [op_memory STRING_CRLF]).

(** ** The log service *)

(** [LogServiceAppender]; the counters are [unsigned int]. *)
Record log_appender := mk_log_appender { m_max_events : Z; m_num_events : Z; m_log_events : list bytes }.

Definition DEFAULT_MAX_EVENTS : Z := 25.

Definition new_log_appender : log_appender := mk_log_appender DEFAULT_MAX_EVENTS 0 [].

Definition set_max_events (n : Z) (a : log_appender) : log_appender :=
  mk_log_appender (u32 n) (m_num_events a) (m_log_events a).

(** The loop of [addLogString]; [None] when it erases from an empty list. *)
Fixpoint drop_events (fuel : nat) (a : log_appender) : option log_appender :=
  if m_max_events a <? m_num_events a then
    match fuel, m_log_events a with
    | S fuel', _ :: events => drop_events fuel' (mk_log_appender (m_max_events a) (u32 (m_num_events a - 1)) events)
    | _, _ => None
    end
  else Some a.

Definition add_log_string (s : bytes) (a : log_appender) : option log_appender :=
  let events := m_log_events a ++ [s] in
  drop_events (length events) (mk_log_appender (m_max_events a) (u32 (m_num_events a + 1)) events).

(** What the library was compiled with; only the logging libraries make an appender known. *)
Inductive log_support := log_library | log_disabled | log_ostream.

(** [writeLogEvents]. *)
Definition write_log_events (support : log_support) (a : log_appender) : list write_op :=
  match support with
  | log_library => texts (m_log_events a)
  | log_disabled => texts [str "Logging is disabled."; STRING_CRLF]
  | log_ostream => texts [str "Using ostream logging."; STRING_CRLF]
  end.

Definition log_service (support : log_support) (a : log_appender) (m : message) (c : connection) : connection :=
  reply m c (set_content_type CONTENT_TYPE_TEXT) (write_log_events support a).

Lemma drop_events_spec fuel : forall a n,
  m_num_events a = Z.of_nat (length (m_log_events a)) -> m_max_events a = Z.of_nat n ->
  m_num_events a < 2 ^ 32 -> (length (m_log_events a) <= fuel)%nat ->
  exists events, drop_events fuel a = Some (mk_log_appender (m_max_events a) (Z.of_nat (length events)) events)
                 /\ events = drop (length (m_log_events a) - n) (m_log_events a).
Proof.
  induction fuel as [|fuel IH]; intros [mx num events] n Hn Hm Hlt Hf; cbn in *.
  - destruct events; [|cbn in Hf; lia]. exists []. cbn in Hn. subst. by rewrite (proj2 (Z.ltb_ge _ _)) by lia.
  - destruct (Z.ltb_spec mx num) as [Hgt|Hle].
    + destruct events as [|e events]; [cbn in Hn; lia|]. cbn [length] in *.
      rewrite u32_small by lia.
      destruct (IH (mk_log_appender mx (num - 1) events) n) as (ev & E & Hev); cbn; try lia.
      exists ev. cbn in *. split; [exact E|]. rewrite Hev. by replace (S (length events) - n)%nat with (S (length events - n)) by lia.
    + exists events. subst num. split; [done|]. by replace (length events - n)%nat with 0%nat by lia.
Qed.

Lemma add_log_string_spec s a n :
  m_num_events a = Z.of_nat (length (m_log_events a)) -> m_max_events a = Z.of_nat n ->
  m_num_events a < 2 ^ 32 - 1 ->
  add_log_string s a =
    Some (let events := drop (S (length (m_log_events a)) - n) (m_log_events a ++ [s]) in
          mk_log_appender (m_max_events a) (Z.of_nat (length events)) events).
Proof.
  intros Hn Hm Hlt. unfold add_log_string. rewrite u32_small by lia.
  assert (Hl : length (m_log_events a ++ [s]) = S (length (m_log_events a))) by (rewrite length_app; cbn; lia).
  destruct (drop_events_spec (length (m_log_events a ++ [s]))
              (mk_log_appender (m_max_events a) (m_num_events a + 1) (m_log_events a ++ [s])) n)
    as (ev & -> & ->); cbn [m_num_events m_max_events m_log_events]; try lia.
  by rewrite Hl.
Qed.

(** The operations of an appender while it is in use. *)
Inductive log_op :=
  | log_add (s : bytes)
  | log_limit (n : Z).

Definition log_step (o : log_op) (a : log_appender) : option log_appender :=
  match o with log_add s => add_log_string s a | log_limit n => Some (set_max_events n a) end.

Fixpoint log_run (ops : list log_op) (a : log_appender) : option log_appender :=
  match ops with [] => Some a | o :: ops' => a' ← log_step o a; log_run ops' a' end.

(** The messages of a run, the latest last. *)
Definition log_strings (ops : list log_op) : list bytes :=
  ops ≫= fun o => match o with log_add s => [s] | log_limit _ => [] end.

(** The limit that holds after a run. *)
Fixpoint limit_after (ops : list log_op) (n : Z) : Z :=
  match ops with
  | [] => n
  | log_add _ :: ops' => limit_after ops' n
  | log_limit n' :: ops' => limit_after ops' n'
  end.

Definition limit_fits (o : log_op) : Prop :=
  match o with log_add _ => True | log_limit n => 0 <= n < 2 ^ 32 - 1 end.

(** What a run keeps: the latest messages, counted; [n] is the limit. *)
Definition appender_has (n : Z) (all : list bytes) (a : log_appender) : Prop :=
  m_max_events a = n /\ 0 <= n < 2 ^ 32 - 1
  /\ m_num_events a = Z.of_nat (length (m_log_events a))
  /\ m_num_events a < 2 ^ 32 - 1
  /\ m_log_events a `suffix_of` all.

Lemma appender_has_add s n all a :
  appender_has n all a ->
  exists a', add_log_string s a = Some a' /\ appender_has n (all ++ [s]) a' /\ m_num_events a' <= n.
Proof.
  intros (Hm & Hn & Hc & Hb & pre & Hs).
  rewrite (add_log_string_spec s a (Z.to_nat n)) by lia. eexists. split; [reflexivity|].
  set (k := (S (length (m_log_events a)) - Z.to_nat n)%nat).
  assert (Hl : Z.of_nat (length (drop k (m_log_events a ++ [s]))) <= n).
  { rewrite length_drop, length_app. cbn. lia. }
  split; [|exact Hl]. unfold appender_has. cbn. split_and!; try lia.
  exists (pre ++ take k (m_log_events a ++ [s])). by rewrite <- app_assoc, take_drop, app_assoc, <- Hs.
Qed.

Lemma log_run_has ops : forall n all a, Forall limit_fits ops -> appender_has n all a ->
  exists a', log_run ops a = Some a' /\ appender_has (limit_after ops n) (all ++ log_strings ops) a'.
Proof.
  induction ops as [|[s|k] ops IH]; intros n all a Hf Ha; cbn.
  - exists a. by rewrite app_nil_r.
  - inversion_clear Hf as [|? ? _ Hf']. destruct (appender_has_add s n all a Ha) as (a1 & -> & H1 & _).
    destruct (IH _ _ _ Hf' H1) as (a' & E & H'). exists a'. split; [exact E|]. by rewrite <- app_assoc in H'.
  - inversion_clear Hf as [|? ? Hk Hf']. cbn in Hk. destruct Ha as (Hm & Hn & Hc & Hb & Hs).
    destruct (IH k all (set_max_events k a) Hf') as (a' & E & H').
    { unfold appender_has. cbn. rewrite u32_small by lia. by split_and!; try lia. }
    exists a'. by split.
Qed.

Lemma log_run_app ops1 ops2 a :
  log_run (ops1 ++ ops2) a = (a' ← log_run ops1 a; log_run ops2 a').
Proof. revert a. induction ops1 as [|o ops1 IH]; intros a; cbn; [done|]. destruct (log_step o a); cbn; auto. Qed.

Lemma new_appender_has : appender_has DEFAULT_MAX_EVENTS [] new_log_appender.
Proof. unfold appender_has. cbn. split_and!; try (unfold DEFAULT_MAX_EVENTS; lia). by exists []. Qed.

(** Whatever messages are logged and whatever limits are set in between (short of the
    largest [unsigned int]), the appender never erases from an empty list: its counter is
    the number of its events, which are the latest messages in the order of their arrival,
    and once a message has been logged there are no more of them than the limit in force. *)
Theorem log_keeps_latest (ops : list log_op) (s : bytes) (Hf : Forall limit_fits ops) :
  exists a, log_run (ops ++ [log_add s]) new_log_appender = Some a
    /\ m_num_events a = Z.of_nat (length (m_log_events a))
    /\ m_log_events a `suffix_of` log_strings ops ++ [s]
    /\ m_num_events a <= m_max_events a
    /\ m_max_events a = limit_after ops DEFAULT_MAX_EVENTS.
Proof.
  destruct (log_run_has ops _ _ _ Hf new_appender_has) as (a1 & E & H1).
  destruct (appender_has_add s _ _ _ H1) as (a & Ea & (Hm & _ & Hc & _ & Hs) & Hle).
  exists a. rewrite log_run_app, E. cbn. rewrite Ea. cbn. by rewrite Hm.
Qed.

Lemma log_keeps_latest_witness :
  exists a, log_run ([log_limit 2; log_add (str "a"); log_add (str "b")] ++ [log_add (str "c")]) new_log_appender = Some a
    /\ m_num_events a = Z.of_nat (length (m_log_events a))
    /\ m_log_events a `suffix_of` log_strings [log_limit 2; log_add (str "a"); log_add (str "b")] ++ [str "c"]
    /\ m_num_events a <= m_max_events a
    /\ m_max_events a = limit_after [log_limit 2; log_add (str "a"); log_add (str "b")] DEFAULT_MAX_EVENTS.
Proof.
  apply (log_keeps_latest [log_limit 2; log_add (str "a"); log_add (str "b")] (str "c")).
  constructor; [split; [lia|reflexivity]|]. repeat constructor.
Defined.

(** ** Where the cookie service trusts its request *)

Definition cookie_request (cookie_name cookie_value : bytes) : message :=
  add_query (str "cookie_value") cookie_value
    (add_query (str "cookie_name") cookie_name
       (add_query (str "action") (str "Add Cookie") new_request)).

(** [deviation] A name and a value are written into the page as they are: markup in the
    query of the request is markup of the page. *)
Lemma cookie_page_injects_markup :
  let script := str "<script>alert(1)</script>" in
  exists before after_,
    snd (cookie_action (cookie_request (str "a") script)) = before ++ script ++ after_.
Proof. exists ([LF] ++ str "<p>[Added cookie a="), (str "]</p>" ++ [LF; LF]). vm_compute. reflexivity. Qed.

(** [deviation] and they are sent in a header: a line break in the value of the query
    begins a header of the response that the service did not write. *)
Lemma cookie_value_splits_header :
  let value := str "x" ++ [CR; LF] ++ str "X-Injected: 1" ++ [CR; LF] ++ str "Y: " in
  let r := fst (cookie_action (cookie_request (str "a") value)) (new_response (str "GET")) in
  exists before after_,
    concat (append_headers r) = before ++ [CR; LF] ++ str "X-Injected: 1" ++ [CR; LF] ++ after_.
Proof.
  intros value r. exists (take 16 (concat (append_headers r))), (drop 33 (concat (append_headers r))).
  vm_compute. reflexivity.
Qed.
