(* ===== verification/AdminRights.v ===== *)
(** * Administrative rights

    Models [pion::admin_rights] (src/admin_rights.cpp): an object takes the rights of the
    administrator for as long as it lives, under a lock that all objects share, and the
    functions that switch to a user or a group look for its identifier in a system file.  The
    identity of the process and the system calls that change it are parameters. *)
From S2P Require Import Prelude CLib StringUtils.

Definition ADMIN_USER_ID : Z := 0.

(** The conversion to [int16_t]. *)
Definition s16 (z : Z) : Z := u16 (z + 2 ^ 15) - 2 ^ 15.

(** ** Looking for an identifier *)

Definition isdigit (c : char) : bool := bool_decide (is_Some (digit_value 10 c)).

(** [regex_match] with ["\\d+"]. *)
Definition just_numbers (s : bytes) : bool :=
  negb (bool_decide (s = [])) && forallb isdigit s.

(** The lines that [getline] gives. *)
Fixpoint lines_loop (line s : bytes) : list bytes :=
  match s with
  | [] => if bool_decide (line = []) then [] else [line]
  | c :: s' => if c =c LF then line :: lines_loop [] s' else lines_loop (line ++ [c]) s'
  end.
Definition getlines (s : bytes) : list bytes := lines_loop [] s.

(** What a line says: nothing, or the last word about [name]. *)
Definition line_id (name line : bytes) : option (res Z) :=
  match split line ":"%byte with
  | first :: tokens =>
      if bytes_eqb first name then
        Some match tokens with
             | _ :: token :: _ => if just_numbers token then stoi token else Ok (-1)
             | _ => Ok (-1)
             end
      else None
  | [] => None
  end.

(** [find_system_id]; [file] is the text of the file, if it can be opened. *)
Definition find_system_id (file : option bytes) (name : bytes) : res Z :=
  if just_numbers name then stoi name
  else match file with
       | None => Ok (-1)
       | Some text => default (Ok (-1)) (head (omap (line_id name) (getlines text)))
       end.

(** ** The rights *)

Record admin_rights := mk_admin_rights { m_user_id : Z; m_has_rights : bool; m_owns_lock : bool }.

Section Process.
(** The identity of the process. [seteuid] and [setegid] tell whether they succeed. *)
Context {proc : Type} (geteuid getegid : proc -> Z) (seteuid setegid : Z -> proc -> bool * proc).

(** A process with its objects; whether the shared lock is held. *)
Record rights_world := mk_rights_world {
  rw_proc : proc;
  rw_locked : bool;
  rw_objects : list admin_rights
}.

(** The constructor, once it has the lock. *)
Definition upgrade (p : proc) : admin_rights * proc :=
  let user_id := s16 (geteuid p) in
  let '(ok, p) := seteuid (u32 ADMIN_USER_ID) p in
  (mk_admin_rights user_id ok ok, p).

(** [release], and the destructor. *)
Definition release (a : admin_rights) (p : proc) : admin_rights * proc :=
  if m_has_rights a then
    let '(_, p) := seteuid (u32 (m_user_id a)) p in
    (mk_admin_rights (m_user_id a) false false, p)
  else (a, p).

(** What the threads do: each step of a thread is done under the lock.  [None]: the thread
    waits for the lock, or the object is not there. *)
Inductive rights_op := rights_take | rights_release (i : nat).

Definition rights_step (op : rights_op) (w : rights_world) : option rights_world :=
  match op with
  | rights_take =>
      if rw_locked w then None
      else let '(a, p) := upgrade (rw_proc w) in
           Some (mk_rights_world p (m_owns_lock a) (rw_objects w ++ [a]))
  | rights_release i =>
      a ← rw_objects w !! i;
      let '(a', p) := release a (rw_proc w) in
      Some (mk_rights_world p (if m_has_rights a then false else rw_locked w)
              (<[i := a']> (rw_objects w)))
  end.

Fixpoint rights_run (ops : list rights_op) (w : rights_world) : option rights_world :=
  match ops with [] => Some w | op :: ops' => w' ← rights_step op w; rights_run ops' w' end.

(** [run_as_user] and [run_as_group]; [passwd] and [group] are the texts of the files. *)
Definition run_as (set_id : Z -> proc -> bool * proc) (get_id : proc -> Z) (file : option bytes) (name : bytes)
  (p : proc) : res (Z * proc) :=
  id ← find_system_id file name;
  if negb (id =? -1) then
    let '(ok, p) := set_id (u32 id) p in Ok (if ok : bool then id else -1, p)
  else Ok (get_id p, p).
Definition run_as_user (passwd : option bytes) := run_as seteuid geteuid passwd.
Definition run_as_group (group : option bytes) := run_as setegid getegid group.

(** ** One owner at a time *)

(** The system calls as POSIX has them: [seteuid] sets the identity it is given or changes
    nothing, and an administrator can take any. *)
Hypothesis seteuid_sets : forall id p p', seteuid id p = (true, p') -> geteuid p' = id.
Hypothesis seteuid_fails : forall id p p', seteuid id p = (false, p') -> geteuid p' = geteuid p.
Hypothesis admin_may : forall id p, geteuid p = ADMIN_USER_ID -> 0 <= id < 2 ^ 32 - 1 -> fst (seteuid id p) = true.

(** Of the objects none has rights, and the process has its own identity [u]; or one has,
    and the process is the administrator. *)
Definition idle (u : Z) (w : rights_world) : Prop :=
  rw_locked w = false /\ geteuid (rw_proc w) = u
  /\ Forall (fun a => m_has_rights a = false) (rw_objects w).

Definition held_by (i : nat) (w : rights_world) : Prop :=
  rw_locked w = true /\ geteuid (rw_proc w) = ADMIN_USER_ID
  /\ forall j a, rw_objects w !! j = Some a -> m_has_rights a = bool_decide (i = j).

Definition rights_ok (u : Z) (w : rights_world) : Prop :=
  Forall (fun a => m_user_id a = u) (rw_objects w)
  /\ (idle u w \/ exists i, (i < length (rw_objects w))%nat /\ held_by i w).

Section Small.
Context (u : Z) (Hu : 0 <= u < 2 ^ 15).

Lemma s16_small : s16 u = u.
Proof. unfold s16, u16. rewrite Z.mod_small; lia. Qed.

Lemma take_ok w : Forall (fun a => m_user_id a = u) (rw_objects w) -> idle u w ->
  exists w', rights_step rights_take w = Some w' /\ rights_ok u w'.
Proof.
  intros Hids (Hl & He & Hn). unfold rights_step, upgrade. rewrite Hl, He, s16_small.
  change (u32 ADMIN_USER_ID) with ADMIN_USER_ID.
  destruct (seteuid ADMIN_USER_ID (rw_proc w)) as [[|] p] eqn:E; eexists; (split; [reflexivity|]).
  - split; [apply Forall_app; by repeat constructor|]. right. exists (length (rw_objects w)).
    split; [cbn; rewrite length_app; cbn; lia|]. split_and!; [done|by apply (seteuid_sets _ _ _ E)|].
    cbn. intros j a [Ha|[Hj Ha]]%lookup_app_Some.
    + rewrite Forall_lookup in Hn. rewrite (Hn _ _ Ha). apply lookup_lt_Some in Ha.
      symmetry. apply bool_decide_eq_false. lia.
    + apply list_lookup_singleton_Some in Ha as [Hj' <-]. symmetry. apply bool_decide_eq_true. lia.
  - split; [apply Forall_app; by repeat constructor|]. left.
    split_and!; [done|cbn; by rewrite (seteuid_fails _ _ _ E)|]. apply Forall_app. by repeat constructor.
Qed.

Lemma release_idle_ok i w w' : Forall (fun a => m_user_id a = u) (rw_objects w) -> idle u w ->
  rights_step (rights_release i) w = Some w' -> w' = w.
Proof.
  intros Hids (Hl & He & Hn). unfold rights_step. destruct (rw_objects w !! i) as [a|] eqn:Ha; [|done]. cbn.
  rewrite Forall_lookup in Hn. unfold release. rewrite (Hn _ _ Ha). rewrite list_insert_id by done.
  intros [= <-]. by destruct w.
Qed.

Lemma release_held_ok i w : Forall (fun a => m_user_id a = u) (rw_objects w) ->
  (i < length (rw_objects w))%nat -> held_by i w ->
  exists w', rights_step (rights_release i) w = Some w' /\ rights_ok u w' /\ idle u w'.
Proof.
  intros Hids Hi (Hl & He & Hh). destruct (lookup_lt_is_Some_2 _ _ Hi) as [a Ha].
  unfold rights_step. rewrite Ha. cbn. unfold release. rewrite (Hh _ _ Ha), bool_decide_true by done.
  assert (m_user_id a = u) as Hua by (rewrite Forall_lookup in Hids; by apply (Hids i)).
  rewrite Hua, u32_small by lia. pose proof (admin_may u (rw_proc w) He ltac:(lia)) as Hok.
  destruct (seteuid u (rw_proc w)) as [ok p] eqn:E. cbn in Hok. subst ok.
  set (w' := mk_rights_world _ _ _). assert (idle u w') as Hidle.
  { split_and!; [done|by apply (seteuid_sets _ _ _ E)|]. apply Forall_lookup. intros j b. cbn.
    intros [(<- & <- & _)|[Hne Hb]]%list_lookup_insert_Some; [done|]. rewrite (Hh _ _ Hb). by apply bool_decide_eq_false. }
  exists w'. split_and!; [done| |done]. split; [|by left]. by apply Forall_insert.
Qed.

Lemma release_other_ok i j w w' : held_by i w -> j <> i ->
  rights_step (rights_release j) w = Some w' -> w' = w.
Proof.
  intros (Hl & He & Hh) Hne. unfold rights_step. destruct (rw_objects w !! j) as [a|] eqn:Ha; [|done]. cbn.
  unfold release. rewrite (Hh _ _ Ha), bool_decide_false by done. rewrite list_insert_id by done.
  intros [= <-]. by destruct w.
Qed.

Lemma rights_step_ok op w w' : rights_ok u w -> rights_step op w = Some w' -> rights_ok u w'.
Proof.
  intros Hw E. pose proof Hw as [Hids [Hidle|(i & Hi & Hh)]]; destruct op as [|j].
  - destruct (take_ok w Hids Hidle) as (w1 & E1 & H1). congruence.
  - by rewrite (release_idle_ok j w w').
  - cbn in E. destruct Hh as [Hl _]. by rewrite Hl in E.
  - destruct (decide (j = i)) as [->|Hne].
    + destruct (release_held_ok i w Hids Hi Hh) as (w1 & E1 & H1 & _). congruence.
    + by rewrite (release_other_ok i j w w').
Qed.

Lemma rights_run_ok ops : forall w w', rights_ok u w -> rights_run ops w = Some w' -> rights_ok u w'.
Proof.
  induction ops as [|op ops IH]; intros w w' Hw; cbn; [congruence|].
  destruct (rights_step op w) as [w1|] eqn:E; [|done]. cbn. apply IH. by apply (rights_step_ok op w).
Qed.
End Small.

(** C12: rights are exclusive and end.  In a process whose identity [u] fits [int16_t],
    whatever objects are made and released: either no object has rights and the process has
    its own identity, and then the next object is made at once; or exactly one object has
    rights, the process is the administrator, any other object waits, and the release of that
    one gives the process its own identity back and lets the next object in. *)
Theorem rights_exclusive u p ops w (Hu : 0 <= u < 2 ^ 15) (Hp : geteuid p = u)
  (Hrun : rights_run ops (mk_rights_world p false []) = Some w) :
  (idle u w /\ is_Some (rights_step rights_take w))
  \/ exists i, held_by i w /\ rights_step rights_take w = None
       /\ exists w', rights_step (rights_release i) w = Some w' /\ idle u w'
                     /\ is_Some (rights_step rights_take w').
Proof.
  assert (rights_ok u w) as [Hids [Hidle|(i & Hi & Hh)]].
  { apply (rights_run_ok u Hu ops _ _) in Hrun; [done|]. split; [constructor|]. left. by repeat constructor. }
  - left. split; [done|]. destruct (take_ok u Hu w Hids Hidle) as (w' & -> & _). by eexists.
  - right. exists i. split; [done|]. split; [unfold rights_step; by rewrite (proj1 Hh)|].
    destruct (release_held_ok u Hu i w Hids Hi Hh) as (w' & E & [Hids' _] & Hidle'). exists w'.
    split_and!; [done..|]. destruct (take_ok u Hu w' Hids' Hidle') as (w2 & -> & _). by eexists.
Qed.
End Process.

(** ** A process *)

(** The identities of a POSIX process: the effective one, the real one and the saved one. *)
Record identity := mk_identity { effective : Z; real : Z; saved : Z }.

Definition posix_seteuid (id : Z) (p : identity) : bool * identity :=
  if (id <? 2 ^ 32 - 1) && ((effective p =? 0) || (id =? real p) || (id =? saved p)) then
    (true, mk_identity id (real p) (saved p))
  else (false, p).

Lemma posix_seteuid_sets id p p' : posix_seteuid id p = (true, p') -> effective p' = id.
Proof. unfold posix_seteuid. case_if; [|done]. by intros [= <-]. Qed.

Lemma posix_seteuid_fails id p p' : posix_seteuid id p = (false, p') -> effective p' = effective p.
Proof. unfold posix_seteuid. case_if; [done|]. by intros [= <-]. Qed.

Lemma posix_admin_may id p :
  effective p = ADMIN_USER_ID -> 0 <= id < 2 ^ 32 - 1 -> fst (posix_seteuid id p) = true.
Proof. unfold ADMIN_USER_ID, posix_seteuid. intros -> Hid. by rewrite (proj2 (Z.ltb_lt _ _)) by lia. Qed.

(** A program that belongs to the administrator and is run by the user 1000. *)
Definition setuid_program : identity := mk_identity 1000 1000 0.

Lemma rights_exclusive_witness :
  exists w, rights_run effective posix_seteuid [rights_take; rights_release 0; rights_take]
              (mk_rights_world setuid_program false []) = Some w
    /\ ((idle effective 1000 w /\ is_Some (rights_step effective posix_seteuid rights_take w))
        \/ exists i, held_by effective i w /\ rights_step effective posix_seteuid rights_take w = None
             /\ exists w', rights_step effective posix_seteuid (rights_release i) w = Some w'
                           /\ idle effective 1000 w'
                           /\ is_Some (rights_step effective posix_seteuid rights_take w')).
Proof.
  eexists. split; [vm_compute; reflexivity|].
  apply (rights_exclusive effective posix_seteuid posix_seteuid_sets posix_seteuid_fails posix_admin_may
           1000 setuid_program [rights_take; rights_release 0; rights_take]); [lia|reflexivity|].
  vm_compute. reflexivity.
Defined.

(** ** Finding an identifier *)

(** An entry of a system file; the fields behind the identifier are [sy_rest]. *)
Record system_entry := mk_system_entry { sy_name : bytes; sy_password : bytes; sy_id : Z; sy_rest : bytes }.

Definition system_line (e : system_entry) : bytes :=
  sy_name e ++ ":"%byte :: sy_password e ++ ":"%byte :: to_string (sy_id e) ++ ":"%byte :: sy_rest e.

Definition system_file (entries : list system_entry) : bytes :=
  entries ≫= fun e => system_line e ++ [LF].

Definition plain_field (s : bytes) : Prop := s <> [] /\ ":"%byte ∉ s /\ LF ∉ s.

Definition entry_fits (e : system_entry) : Prop :=
  plain_field (sy_name e) /\ plain_field (sy_password e) /\ LF ∉ sy_rest e /\ 0 <= sy_id e <= INT_MAX.

(** The table that a file stands for: the first entry with the name counts. *)
Definition system_id (entries : list system_entry) (name : bytes) : option Z :=
  head (omap (fun e => if bytes_eqb (sy_name e) name then Some (sy_id e) else None) entries).

Lemma lines_loop_line line s rest : LF ∉ s -> lines_loop line (s ++ LF :: rest) = (line ++ s) :: lines_loop [] rest.
Proof.
  revert line. induction s as [|c s IH]; intros line Hs; cbn.
  - by rewrite app_nil_r.
  - rewrite ceq_ne by (intros ->; set_solver). rewrite IH by set_solver. by rewrite <- app_assoc.
Qed.

Lemma split_first delim p s : p <> [] -> delim ∉ p -> split (p ++ delim :: s) delim = p :: split s delim.
Proof.
  intros Hne Hp. unfold split. rewrite split_loop_part by done. cbn. rewrite ceq_refl.
  by rewrite bool_decide_false by done.
Qed.

Lemma to_string_chars n : 0 <= n -> Forall (fun c => isdigit c = true /\ c <> ":"%byte /\ c <> LF) (to_string n).
Proof.
  intros Hn. unfold to_string. eapply Forall_impl; [by apply (to_digits_chars 10)|]. intros c (d & Hd & ->).
  unfold isdigit. rewrite digit_value_digit_char by lia. split; [by apply bool_decide_true|].
  assert (uchar ":"%byte = 58 /\ uchar LF = 10) as [E1 E2] by done.
  split; intros E%(f_equal uchar); rewrite uchar_digit_char, (proj2 (Z.ltb_lt _ _)) in E by lia; lia.
Qed.

Lemma to_string_field n : 0 <= n -> plain_field (to_string n) /\ just_numbers (to_string n) = true.
Proof.
  intros Hn. pose proof (to_string_chars n Hn) as Hc. rewrite Forall_forall in Hc.
  assert (to_string n <> []) as Hne by (apply to_digits_nonempty; lia).
  split; [split_and!; [done| |]; intros H%Hc; naive_solver|].
  unfold just_numbers. rewrite bool_decide_false by done. cbn. apply forallb_forall. intros c Hin.
  apply Hc. by apply list_elem_of_In.
Qed.

Lemma line_id_entry name e : entry_fits e ->
  line_id name (system_line e) = if bytes_eqb (sy_name e) name then Some (Ok (sy_id e)) else None.
Proof.
  intros ((Hn & Hnc & _) & (Hp & Hpc & _) & _ & Hid). destruct (to_string_field (sy_id e)) as [(Hi & Hic & _) Hj]; [lia|].
  unfold line_id, system_line. rewrite !split_first by done. by rewrite Hj, stoi_to_string.
Qed.

Lemma getlines_file entries : Forall entry_fits entries -> getlines (system_file entries) = system_line <$> entries.
Proof.
  unfold getlines. induction 1 as [|e entries He _ IH]; [done|].
  change (system_file (e :: entries)) with ((system_line e ++ [LF]) ++ system_file entries).
  rewrite <- app_assoc. cbn [app]. rewrite lines_loop_line; [by rewrite IH|].
  destruct He as ((_ & _ & H1) & (_ & _ & H2) & H3 & Hid).
  destruct (to_string_field (sy_id e)) as [(_ & _ & H4) _]; [lia|].
  assert (LF <> ":"%byte) by done. unfold system_line.
  repeat (apply not_elem_of_app; split; [done|]; apply not_elem_of_cons; split; [done|]). done.
Qed.

Lemma system_id_head entries name : Forall entry_fits entries ->
  head (omap (line_id name) (getlines (system_file entries))) = Ok <$> system_id entries name.
Proof.
  intros H. rewrite getlines_file by done. unfold system_id. induction H as [|e entries He _ IH]; [done|].
  cbn. rewrite line_id_entry by done. by destruct (bytes_eqb (sy_name e) name).
Qed.

(** Switching to a user or a group does what the system file says.  In a file of
    entries with a password field, a name is replaced by the identifier of its first entry,
    which the process takes on if the system lets it, and -1 is returned if it does not; for
    a name that has no entry the identity stays and is returned.  A number stands for itself. *)
Theorem run_as_correct {proc} (set_id : Z -> proc -> bool * proc) (get_id : proc -> Z) entries name p
  (Hfits : Forall entry_fits entries) :
  (just_numbers name = false ->
   run_as set_id get_id (Some (system_file entries)) name p
   = match system_id entries name with
     | Some id => let '(ok, p') := set_id id p in Ok (if ok : bool then id else -1, p')
     | None => Ok (get_id p, p)
     end)
  /\ forall n file, 0 <= n <= INT_MAX ->
     run_as set_id get_id file (to_string n) p
     = let '(ok, p') := set_id n p in Ok (if ok : bool then n else -1, p').
Proof.
  assert (forall id, 0 <= id <= INT_MAX -> u32 id = id /\ (id =? -1) = false) as Hid.
  { intros id Hid. unfold INT_MAX in *. split; [apply u32_small|apply Z.eqb_neq]; lia. }
  split.
  - intros Hname. unfold run_as, find_system_id. rewrite Hname, system_id_head by done.
    destruct (system_id entries name) as [id|] eqn:E; [|done]. cbn.
    assert (0 <= id <= INT_MAX) as [-> ->]%Hid; [|done].
    apply head_Some_elem_of, list_elem_of_omap in E as (e & He & E). case_if_in E; simplify_eq.
    rewrite Forall_forall in Hfits. by apply Hfits.
  - intros n file Hn. unfold run_as, find_system_id. destruct (to_string_field n) as [_ ->]; [lia|].
    rewrite stoi_to_string by done. cbn. by destruct (Hid n Hn) as [-> ->].
Qed.

Definition sample_entries : list system_entry :=
  [mk_system_entry (str "root") (str "x") 0 (str "0:root:/root:/bin/sh");
   mk_system_entry (str "ann") (str "x") 1000 (str "100::/home/ann:/bin/sh")].

Lemma run_as_correct_witness :
  run_as_user effective posix_seteuid (Some (system_file sample_entries)) (str "ann") (mk_identity 0 0 0)
  = Ok (1000, mk_identity 1000 0 0).
Proof.
  unfold run_as_user. destruct (run_as_correct posix_seteuid effective sample_entries (str "ann") (mk_identity 0 0 0)) as [H _].
  - repeat constructor; try (vm_compute; congruence); intros H; vm_compute in H;
      repeat (apply elem_of_cons in H as [H|H]; [discriminate|]); by apply elem_of_nil in H.
  - rewrite H by reflexivity. vm_compute. reflexivity.
Defined.

(** ** Deviations *)

(** The identity is kept in 16 bits: a user with the identifier 65536 gets no identity back
    when the rights are released, and stays the administrator. *)
Lemma user_65536_stays_admin :
  let p := mk_identity 65536 65536 0 in
  rights_run effective posix_seteuid [rights_take; rights_release 0] (mk_rights_world p false [])
  = Some (mk_rights_world (mk_identity 0 65536 0) false [mk_admin_rights 0 false false]).
Proof. vm_compute. reflexivity. Qed.

(** and one with the identifier 40000 becomes another user. *)
Lemma user_40000_becomes_another :
  let p := mk_identity 40000 40000 0 in
  rights_run effective posix_seteuid [rights_take; rights_release 0] (mk_rights_world p false [])
  = Some (mk_rights_world (mk_identity 4294941760 40000 0) false [mk_admin_rights (-25536) false false]).
Proof. vm_compute. reflexivity. Qed.

(** [split] drops empty fields: for a user without a password in the file the identifier of
    the group is taken for that of the user. *)
Lemma empty_password_gives_group_id :
  find_system_id (Some (str "ann::1000:100:Ann:/home/ann:/bin/sh" ++ [LF])) (str "ann") = Ok 100.
Proof. vm_compute. reflexivity. Qed.

(** An identifier beyond [int], as [nobody] has it on some systems, is an exception. *)
Lemma large_id_throws :
  find_system_id (Some (str "nobody:x:4294967294:65534::/:/bin/false" ++ [LF])) (str "nobody")
  = Fault std_out_of_range.
Proof. vm_compute. reflexivity. Qed.
