(* ===== verification/Process.v ===== *)
(** * Shutting a process down

    Models [process::shutdown] and [process::wait_for_shutdown] (src/process.cpp) with the
    mutex and the condition of the process, and the signal handler that calls the former in a
    thread that may be anywhere in the latter. *)
From S2P Require Import Prelude Outcomes.

(** Where a thread that calls [wait_for_shutdown] is: before the lock is taken (at first, and
    when it is woken up), with the lock and about to test the condition, asleep, or done. *)
Inductive wait_point := wait_lock | wait_test | wait_asleep | wait_done.

#[global] Instance wait_point_eq_dec : EqDecision wait_point.
Proof. solve_decision. Defined.

(** [config_type], and the threads that wait. *)
Record process_state := mk_process_state {
  shutdown_now : bool;
  shutdown_mutex : option nat;  (* the thread that holds it between two steps *)
  waiters : list wait_point
}.

(** [create_config], and a number of threads that are going to wait. *)
Definition create_config (n : nat) : process_state := mk_process_state false None (replicate n wait_lock).

Definition at_point (i : nat) (w : wait_point) (st : process_state) : process_state :=
  mk_process_state (shutdown_now st) (shutdown_mutex st) (<[i := w]> (waiters st)).

Definition holds (i : option nat) (st : process_state) : process_state :=
  mk_process_state (shutdown_now st) i (waiters st).

(** [notify_all]. *)
Definition wake (w : wait_point) : wait_point := match w with wait_asleep => wait_lock | w => w end.

(** The body of [shutdown], under the lock. *)
Definition shutdown_locked (st : process_state) : process_state :=
  if shutdown_now st then st
  else mk_process_state true (shutdown_mutex st) (wake <$> waiters st).

(** What can happen next: a thread goes on in [wait_for_shutdown], or wakes up without a
    reason; another thread calls [shutdown]; a signal arrives in a thread that waits. *)
Inductive process_op := op_go (i : nat) | op_wake (i : nat) | op_shutdown | op_signal (i : nat).

(** One step: whether it was possible.  A thread that waits for a lock it holds itself is a
    [Deadlock]. *)
Definition process_step (op : process_op) : comp process_state bool := fun st =>
  match op with
  | op_go i =>
      match waiters st !! i with
      | Some wait_lock =>
          match shutdown_mutex st with
          | None => Done true (holds (Some i) (at_point i wait_test st))
          | Some _ => Done false st
          end
      | Some wait_test =>
          Done true (holds None (at_point i (if shutdown_now st then wait_done else wait_asleep) st))
      | _ => Done false st
      end
  | op_wake i =>
      match waiters st !! i with
      | Some wait_asleep => Done true (at_point i wait_lock st)
      | _ => Done false st
      end
  | op_shutdown =>
      match shutdown_mutex st with None => Done true (shutdown_locked st) | Some _ => Done false st end
  | op_signal i =>
      match waiters st !! i with
      | None | Some wait_done => Done false st
      | Some _ =>
          match shutdown_mutex st with
          | None => Done true (shutdown_locked st)
          | Some j => if bool_decide (i = j) then Deadlock else Done false st
          end
      end
  end.

(** A run; the result tells how many of its steps were possible. *)
Fixpoint process_run (ops : list process_op) : comp process_state nat :=
  match ops with
  | [] => mret 0%nat
  | op :: ops' => b ← process_step op; n ← process_run ops'; mret (if b : bool then S n else n)
  end.

(** ** Nobody sleeps through a shutdown *)

Record process_ok (st : process_state) : Prop := mk_process_ok {
  po_holder : forall i, shutdown_mutex st = Some i <-> waiters st !! i = Some wait_test;
  po_asleep : shutdown_now st = true -> Forall (fun w => w <> wait_asleep) (waiters st);
  po_done : shutdown_now st = false -> Forall (fun w => w <> wait_done) (waiters st)
}.

Lemma create_config_ok n : process_ok (create_config n).
Proof.
  split; cbn.
  - intros i. split; [done|]. by intros [? _]%lookup_replicate.
  - done.
  - intros _. by apply Forall_replicate.
Qed.

Lemma shutdown_locked_ok st : process_ok st -> shutdown_mutex st = None ->
  process_ok (shutdown_locked st) /\ shutdown_now (shutdown_locked st) = true.
Proof.
  intros Hok Hm. unfold shutdown_locked. destruct (shutdown_now st) eqn:En; [done|].
  split; [|done]. destruct Hok as [Hh _ _]. split; cbn; [|intros _|done].
  - intros i. rewrite (Hh i), list_lookup_fmap. destruct (waiters st !! i) as [[]|]; cbn; split; congruence.
  - apply Forall_fmap, Forall_true. by intros [].
Qed.

(** A thread that moves, with the mutex as it is then. *)
Lemma move_ok st i w w' m :
  process_ok st -> waiters st !! i = Some w ->
  (shutdown_mutex st = None \/ shutdown_mutex st = Some i) ->
  m = (if bool_decide (w' = wait_test) then Some i else None) ->
  (w' = wait_asleep -> shutdown_now st = false) -> (w' = wait_done -> shutdown_now st = true) ->
  process_ok (holds m (at_point i w' st)).
Proof.
  intros [Hh Ha Hd] Hi Hm -> Hs He. pose proof (lookup_lt_Some _ _ _ Hi) as Hl. split; cbn.
  - intros j. destruct (decide (i = j)) as [<-|Hne].
    + rewrite list_lookup_insert_eq by done. case_bool_decide; split; congruence.
    + rewrite list_lookup_insert_ne by done. rewrite <- Hh.
      case_bool_decide; (split; [congruence|]); destruct Hm; congruence.
  - intros Hn. apply Forall_insert; [by apply Ha|]. intros E. rewrite Hs in Hn; done.
  - intros Hn. apply Forall_insert; [by apply Hd|]. intros E. rewrite He in Hn; done.
Qed.

Lemma process_step_ok op st b st' : process_ok st -> process_step op st = Done b st' -> process_ok st'.
Proof.
  intros Hok. destruct op as [i|i| |i]; cbn.
  - destruct (waiters st !! i) as [[]|] eqn:Ei; try by intros [= _ <-].
    + destruct (shutdown_mutex st) eqn:Em; intros [= _ <-]; [done|]. by apply (move_ok st i wait_lock); auto.
    + assert (shutdown_mutex st = Some i) as Em by (by apply (po_holder st Hok)).
      intros [= _ <-]. apply (move_ok st i wait_test); auto; destruct (shutdown_now st); done.
  - destruct (waiters st !! i) as [[]|] eqn:Ei; try by intros [= _ <-]. intros [= _ <-].
    destruct Hok as [Hh Ha Hd]. split; cbn.
    + intros j. rewrite Hh. destruct (decide (i = j)) as [<-|Hne]; [|by rewrite list_lookup_insert_ne].
      rewrite list_lookup_insert_eq by (by eapply lookup_lt_Some). rewrite Ei. split; congruence.
    + intros Hn. by apply Forall_insert; [apply Ha|].
    + intros Hn. by apply Forall_insert; [apply Hd|].
  - destruct (shutdown_mutex st) eqn:Em; intros [= _ <-]; [done|]. by apply shutdown_locked_ok.
  - destruct (waiters st !! i) as [[]|]; destruct (shutdown_mutex st) eqn:Em; try case_bool_decide;
      intros [= _ <-]; try done; by apply shutdown_locked_ok.
Qed.

Lemma process_run_ok ops : forall st n st', process_ok st -> process_run ops st = Done n st' -> process_ok st'.
Proof.
  induction ops as [|op ops IH]; intros st n st' Hok; cbn; [by intros [= _ <-]|].
  unfold mbind, comp_bind. destruct (process_step op st) as [b st1|st1| |] eqn:E; try done.
  destruct (process_run ops st1) as [k st2|st2| |] eqn:E2; try done. intros [= _ <-].
  eapply IH; [|exact E2]. by eapply process_step_ok.
Qed.

Lemma process_step_length op st b st' : process_step op st = Done b st' -> length (waiters st') = length (waiters st).
Proof.
  destruct op as [i|i| |i]; cbn; unfold shutdown_locked;
    repeat case_match; intros; simplify_eq; cbn; rewrite ?length_insert, ?length_fmap; done.
Qed.

Lemma process_run_length ops : forall st n st',
  process_run ops st = Done n st' -> length (waiters st') = length (waiters st).
Proof.
  induction ops as [|op ops IH]; intros st n st'; cbn; [by intros [= _ <-]|].
  unfold mbind, comp_bind. destruct (process_step op st) as [b st1|st1| |] eqn:E; try done.
  destruct (process_run ops st1) as [k st2|st2| |] eqn:E2; try done. intros [= _ <-].
  rewrite (IH _ _ _ E2). by eapply process_step_length.
Qed.

(** The steps that a thread that is not asleep has left. *)
Definition steps_left (w : wait_point) : nat := match w with wait_lock => 2 | wait_test => 1 | _ => 0 end.
Definition all_steps_left (st : process_state) : nat := sum_list_with steps_left (waiters st).

Lemma sum_steps_bound (l : list wait_point) : (sum_list_with steps_left l <= 2 * length l)%nat.
Proof. induction l as [|[] l IH]; cbn in *; lia. Qed.

(** Every step of a thread towards its end leaves one step less. *)
Lemma go_decreases i st b st' : shutdown_now st = true -> process_step (op_go i) st = Done b st' ->
  shutdown_now st' = true /\ (all_steps_left st' + (if b : bool then 1 else 0) = all_steps_left st)%nat.
Proof.
  unfold all_steps_left. intros Hn. cbn. rewrite Hn.
  destruct (waiters st !! i) as [[]|] eqn:Ei; try (intros [= <- <-]; split; [done|lia]).
  - destruct (shutdown_mutex st); intros [= <- <-]; (split; [done|]); cbn; [lia|].
    pose proof (sum_list_with_insert steps_left (waiters st) i _ wait_test Ei) as H. cbn in H. lia.
  - intros [= <- <-]. split; [done|]. pose proof (sum_list_with_insert steps_left (waiters st) i _ wait_done Ei) as H. cbn in *. lia.
Qed.

Lemma go_run_bound turns : forall st k st', shutdown_now st = true ->
  process_run (op_go <$> turns) st = Done k st' -> (k + all_steps_left st' = all_steps_left st)%nat.
Proof.
  induction turns as [|i turns IH]; intros st k st' Hn; cbn [fmap list_fmap process_run]; [by intros [= <- <-]|].
  unfold mbind, comp_bind. destruct (process_step (op_go i) st) as [b st1|st1| |] eqn:E; try done.
  destruct (go_decreases i st b st1 Hn E) as [Hn1 H1].
  destruct (process_run (op_go <$> turns) st1) as [k1 st2|st2| |] eqn:E2; try done. intros [= <- <-].
  specialize (IH _ _ _ Hn1 E2). destruct b; lia.
Qed.

(** Someone can go on while not all are done. *)
Lemma can_go st : process_ok st -> shutdown_now st = true -> Exists (fun w => w <> wait_done) (waiters st) ->
  exists i st', process_step (op_go i) st = Done true st'.
Proof.
  intros [Hh Ha Hd] Hn He. destruct (shutdown_mutex st) as [j|] eqn:Em.
  - assert (waiters st !! j = Some wait_test) as Ej by (by apply Hh). exists j. cbn. rewrite Ej. by eexists.
  - apply Exists_exists in He as (w & (i & Ei)%list_elem_of_lookup & Hw). exists i. cbn. rewrite Ei, Em.
    specialize (Ha Hn). rewrite Forall_lookup in Ha. destruct w; [by eexists|by eexists|by destruct (Ha _ _ Ei)|done].
Qed.

(** Without signals nothing is stuck. *)
Lemma no_signal_done ops : forall st, Forall (fun op => forall i, op <> op_signal i) ops ->
  exists n st', process_run ops st = Done n st'.
Proof.
  induction ops as [|op ops IH]; intros st Hs; [by do 2 eexists|]. inversion_clear Hs as [|? ? Hop Hops].
  assert (exists b st1, process_step op st = Done b st1) as (b & st1 & E).
  { destruct op as [i|i| |i]; cbn; [| | |by destruct (Hop i)]; repeat case_match; by do 2 eexists. }
  cbn [process_run]. unfold mbind, comp_bind. rewrite E. destruct (IH st1 Hops) as (n & st2 & ->).
  by do 2 eexists.
Qed.

(** A signal that arrives in the thread that holds the mutex. *)
Definition signal_while_locked (ops : list process_op) (st0 : process_state) : Prop :=
  exists before i after k st,
    ops = before ++ op_signal i :: after /\ process_run before st0 = Done k st /\ shutdown_mutex st = Some i.

Lemma process_run_cons op ops st b st1 : process_step op st = Done b st1 ->
  process_run (op :: ops) st = match process_run ops st1 with
                               | Done n st2 => Done (if b : bool then S n else n) st2
                               | o => o
                               end.
Proof. intros E. cbn [process_run]. unfold mbind, comp_bind. rewrite E. by destruct (process_run ops st1). Qed.

(** A step is done, or it is such a signal. *)
Lemma step_cases op st : process_ok st ->
  (exists b st1, process_step op st = Done b st1 /\ forall i, op = op_signal i -> shutdown_mutex st <> Some i)
  \/ (process_step op st = Deadlock /\ exists i, op = op_signal i /\ shutdown_mutex st = Some i).
Proof.
  intros [Hh _ _]. destruct op as [i|i| |i]; cbn; [left; repeat case_match; by do 2 eexists..|].
  assert (shutdown_mutex st = Some i -> waiters st !! i = Some wait_test) as Ht by apply Hh.
  destruct (waiters st !! i) as [[]|] eqn:Ei; try destruct (shutdown_mutex st) as [j|] eqn:Em;
    try (case_bool_decide as Eij; [subst j|]); try (left; do 2 eexists; split; [reflexivity|]; intros ? [= <-] E;
      first [discriminate|by specialize (Ht E)|congruence]); right; split; eauto.
Qed.

(** A run is stuck exactly when such a signal arrives. *)
Lemma run_cases ops : forall st0, process_ok st0 ->
  ((exists k st, process_run ops st0 = Done k st) \/ process_run ops st0 = Deadlock)
  /\ (process_run ops st0 = Deadlock <-> signal_while_locked ops st0).
Proof.
  induction ops as [|op ops IH]; intros st0 Hok.
  { split; [left; by do 2 eexists|]. split; [done|]. intros (before & ? & ? & ? & ? & E & _). by destruct before. }
  destruct (step_cases op st0 Hok) as [(b & st1 & E & Hns)|(E & i & -> & Hm)].
  - destruct (IH st1 (process_step_ok _ _ _ _ Hok E)) as [Hcase Hiff].
    rewrite (process_run_cons _ _ _ _ _ E). split.
    { destruct Hcase as [(k & st & ->)| ->]; [left; by do 2 eexists|by right]. }
    transitivity (process_run ops st1 = Deadlock); [by destruct (process_run ops st1)|]. rewrite Hiff. split.
    + intros (before & i & after & k & st & -> & Hr & Hm). exists (op :: before), i, after.
      rewrite (process_run_cons _ _ _ _ _ E), Hr. do 2 eexists. by split_and!.
    + intros (before & i & after & k & st & Hops & Hr & Hm). destruct before as [|op' before].
      { injection Hops as -> ->. injection Hr as _ <-. by destruct (Hns i). }
      injection Hops as <- ->. rewrite (process_run_cons _ _ _ _ _ E) in Hr.
      destruct (process_run before st1) as [k1 st2|st2| |] eqn:E1; try done. injection Hr as _ ->.
      by exists before, i, after, k1, st.
  - assert (process_run (op_signal i :: ops) st0 = Deadlock) as ->.
    { cbn [process_run]. unfold mbind, comp_bind. by rewrite E. }
    split; [by right|]. split; [|done]. intros _. by exists [], i, ops, 0%nat, st0.
Qed.



(** ** Deviation *)

(** The signal handler takes the mutex: a signal that arrives in a thread that is about to
    wait finds the mutex taken by this thread itself, and the process never shuts down. *)
Lemma signal_while_locked_deadlocks : process_run [op_go 0; op_signal 0] (create_config 1) = Deadlock.
Proof. vm_compute. reflexivity. Qed.
