(* ===== verification/Daemon.v ===== *)
(** * A process that becomes a daemon

    Models [process::initialize] and [process::daemonize] (src/process.cpp) with what they use of
    the operating system: the dispositions of signals, the table of file descriptors, in which
    [open] and [dup] take the lowest that is free, the session and the file mode mask.  What
    [getppid], [fork] and [open] answer is an input. *)
From S2P Require Import Prelude Outcomes Process.
From stdpp Require Import gmap.
#[local] Open Scope Z_scope.

(** ** The operating system *)

(** What happens when a signal arrives; the default is to end the process. *)
Inductive disposition := SIG_DFL | SIG_IGN | handle_signal.

Definition SIGHUP : Z := 1.
Definition SIGINT : Z := 2.
Definition SIGPIPE : Z := 13.
Definition SIGTERM : Z := 15.
Definition SIGCHLD : Z := 17.
Definition SIGTSTP : Z := 20.
Definition SIGTTIN : Z := 21.
Definition SIGTTOU : Z := 22.

(** The process: its signals, what its descriptors refer to, whether it leads a session without
    a terminal, and its file mode mask. *)
Record unix_process := mk_unix_process {
  dispositions : gmap Z disposition;
  descriptors : gmap nat bytes;
  session_leader : bool;
  file_mask : Z
}.

Definition signal (sig : Z) (d : disposition) (s : unix_process) : unix_process :=
  mk_unix_process (<[sig := d]> (dispositions s)) (descriptors s) (session_leader s) (file_mask s).
Definition with_descriptors (f : gmap nat bytes) (s : unix_process) : unix_process :=
  mk_unix_process (dispositions s) f (session_leader s) (file_mask s).

Definition setsid (s : unix_process) : unix_process :=
  mk_unix_process (dispositions s) (descriptors s) true (file_mask s).
Definition umask (m : Z) (s : unix_process) : unix_process :=
  mk_unix_process (dispositions s) (descriptors s) (session_leader s) (Z.land m 511).
Definition sys_close (i : nat) (s : unix_process) : unix_process := with_descriptors (delete i (descriptors s)) s.

(** The lowest descriptor, from [i] on, that is free; there are [n] to try. *)
Fixpoint lowest_free (n i : nat) (f : gmap nat bytes) : nat :=
  match n with
  | O => i
  | S n' => match f !! i with None => i | Some _ => lowest_free n' (S i) f end
  end.

(** [open]: the descriptor, or [-1] when the file cannot be opened. *)
Definition sys_open (can_open : bytes -> bool) (path : bytes) (s : unix_process) : Z * unix_process :=
  if can_open path then
    let i := lowest_free (size (descriptors s)) 0%nat (descriptors s) in
    (Z.of_nat i, with_descriptors (<[i := path]> (descriptors s)) s)
  else (-1, s).

Definition dup (i : Z) (s : unix_process) : Z * unix_process :=
  match (if i <? 0 then None else descriptors s !! Z.to_nat i) with
  | Some file =>
      let k := lowest_free (size (descriptors s)) 0%nat (descriptors s) in
      (Z.of_nat k, with_descriptors (<[k := file]> (descriptors s)) s)
  | None => (-1, s)
  end.

(** ** Operations *)

Definition initialize (s : unix_process) : unix_process :=
  let s := signal SIGPIPE SIG_IGN s in
  let s := signal SIGCHLD SIG_IGN s in
  let s := signal SIGTSTP SIG_IGN s in
  let s := signal SIGTTOU SIG_IGN s in
  let s := signal SIGTTIN SIG_IGN s in
  let s := signal SIGHUP SIG_IGN s in
  let s := signal SIGINT handle_signal s in
  signal SIGTERM handle_signal s.

(** The loop that closes the descriptors, from [i] down. *)
Fixpoint close_all (i : nat) (s : unix_process) : unix_process :=
  let s := sys_close i s in match i with O => s | S i' => close_all i' s end.

(** What becomes of the process that calls [daemonize]: it returns, or exits with a status. *)
Inductive daemon_end := returns (s : unix_process) | exits (status : Z).

Definition daemonize (getppid fork : Z) (getdtablesize : nat) (can_open : bytes -> bool) (s : unix_process) : daemon_end :=
  if getppid =? 1 then returns s
  else if fork <? 0 then exits 1
  else if 0 <? fork then exits 0
  else
    let s := setsid s in
    let s := close_all getdtablesize s in
    let '(i, s) := sys_open can_open (str "/dev/null") s in
    let s :=
      if negb (i =? -1) then
        let '(_, s) := dup i s in
        let '(_, s) := dup i s in s
      else s in
    returns (umask 23 s).

(** A signal arrives in the thread [i] of a process with the state of [Process]; [None] when it
    ends the process. *)
Definition deliver (s : unix_process) (sig : Z) (i : nat) (st : process_state) : option (outcome process_state bool) :=
  match default SIG_DFL (dispositions s !! sig) with
  | SIG_DFL => None
  | SIG_IGN => Some (Done true st)
  | handle_signal => Some (process_step (op_signal i) st)
  end.

(** ** Properties *)

Lemma close_all_spec n : forall s,
  close_all n s = with_descriptors (filter (fun kv => (n < fst kv)%nat) (descriptors s)) s.
Proof.
  induction n as [|n IH]; intros s; cbn [close_all].
  - unfold sys_close. f_equal. apply map_eq. intros i. rewrite map_lookup_filter, lookup_delete.
    case_decide; subst; destruct (descriptors s !! _); cbn; try case_guard; try done; lia.
  - rewrite IH. unfold sys_close, with_descriptors. cbn. f_equal. apply map_eq. intros i. rewrite !map_lookup_filter, lookup_delete.
    case_decide; subst; destruct (descriptors s !! _); cbn; repeat case_guard; try done; lia.
Qed.

(** A process that becomes a daemon has no descriptor of its parent.  The child of
    [fork] leads a session of its own; whatever files were open, its standard descriptors are
    those of [/dev/null] and no other is open; the files it creates cannot be written by
    the group or used by others; its parent exits with 0, and with 1 when there is no child. *)
Theorem daemonize_detaches getppid fork getdtablesize can_open s :
  getppid <> 1 -> can_open (str "/dev/null") = true ->
  (forall i, is_Some (descriptors s !! i) -> (i < getdtablesize)%nat) ->
  match daemonize getppid fork getdtablesize can_open s with
  | exits status => fork <> 0 /\ status = (if fork <? 0 then 1 else 0)
  | returns s' =>
      fork = 0 /\ session_leader s' = true /\ dispositions s' = dispositions s
      /\ descriptors s' = {[ 0%nat := str "/dev/null"; 1%nat := str "/dev/null"; 2%nat := str "/dev/null" ]}
      /\ forall mode, 0 <= mode < 512 -> Z.land (Z.ldiff mode (file_mask s')) 23 = 0
  end.
Proof.
  intros Hp Ho Hd. unfold daemonize. rewrite (proj2 (Z.eqb_neq _ _) Hp).
  destruct (Z.ltb_spec fork 0) as [H1|H1]; [split; [lia|done]|].
  destruct (Z.ltb_spec 0 fork) as [H2|H2]; [split; [lia|done]|].
  rewrite close_all_spec.
  assert (filter (fun kv => (getdtablesize < fst kv)%nat) (descriptors (setsid s)) = ∅) as ->.
  { apply map_eq. intros i. rewrite map_lookup_filter, lookup_empty. cbn. specialize (Hd i).
    destruct (descriptors s !! i); cbn; [|done]. case_guard; [|done]. cbn in *. specialize (Hd ltac:(done)). lia. }
  unfold sys_open. rewrite Ho. split; [lia|]. split; [done|]. split; [done|]. split; [reflexivity|].
  intros mode _. cbn. apply Z.bits_inj'. intros n Hn. rewrite Z.land_spec, Z.ldiff_spec, Z.bits_0.
  change (Z.land 23 511) with 23. by destruct (Z.testbit mode n), (Z.testbit 23 n).
Qed.

Lemma daemonize_detaches_witness :
  match daemonize 7 0 16 (fun _ => true) (mk_unix_process ∅ {[ 0%nat := str "tty"; 5%nat := str "log" ]} false 0) with
  | exits _ => False
  | returns s' => size (descriptors s') = 3%nat
  end.
Proof.
  pose proof (daemonize_detaches 7 0 16 (fun _ => true) (mk_unix_process ∅ {[ 0%nat := str "tty"; 5%nat := str "log" ]} false 0)) as H.
  destruct (daemonize _ _ _ _ _) as [s'|status].
  - destruct H as (_ & _ & _ & -> & _); [done|done| |reflexivity].
    intros i. cbn. rewrite lookup_insert_is_Some, lookup_singleton_is_Some. lia.
  - destruct H as [H _]; [done|done| |done].
    intros i. cbn. rewrite lookup_insert_is_Some, lookup_singleton_is_Some. lia.
Defined.

(** After [initialize] no signal of the terminal, of a child or of a closed socket touches the
    process, and the two that ask it to end make it shut down. *)
Lemma initialized_signals s i st :
  (forall sig, sig ∈ [SIGPIPE; SIGCHLD; SIGTSTP; SIGTTOU; SIGTTIN; SIGHUP] ->
               deliver (initialize s) sig i st = Some (Done true st))
  /\ (forall sig, sig ∈ [SIGINT; SIGTERM] -> deliver (initialize s) sig i st = Some (process_step (op_signal i) st)).
Proof.
  assert (forall sig, sig ∈ [SIGPIPE; SIGCHLD; SIGTSTP; SIGTTOU; SIGTTIN; SIGHUP; SIGINT; SIGTERM] ->
            dispositions (initialize s) !! sig
            = Some (if decide (sig = SIGINT \/ sig = SIGTERM) then handle_signal else SIG_IGN)) as H.
  { intros sig Hsig. unfold initialize, signal. cbn [dispositions]. rewrite !lookup_insert.
    set_unfold in Hsig. repeat destruct Hsig as [->|Hsig]; try reflexivity. done. }
  split; intros sig Hsig; unfold deliver; rewrite H by set_solver; set_unfold in Hsig;
    repeat destruct Hsig as [->|Hsig]; try reflexivity; done.
Qed.

(** ** Deviation *)

(** When [/dev/null] cannot be opened the standard descriptors are free, and the next file that
    is opened becomes the standard input. *)
Lemma no_null_device s' :
  daemonize 7 0 16 (fun _ => false) (mk_unix_process ∅ {[ 0%nat := str "tty" ]} false 0) = returns s' ->
  fst (sys_open (fun _ => true) (str "users") s') = 0.
Proof. intros [= <-]. reflexivity. Qed.
