(* ===== verification/Piond.v ===== *)
(** * The server program

    Models [main] of utils/piond.cpp: the command line, and how the program sets up a plugin
    server with one service or with a configuration file.  The addresses, the installation
    directory, whether an address can be bound and which files have a key are parameters. *)
From S2P Require Import Prelude Outcomes CLib StringUtils StdMap Resources Paths Users HttpServer.
From S2P Require Import ParserForms Plugins PluginManager PluginServer.

Definition DEFAULT_PORT : Z := 8080.
Definition DEFAULT_SSL_PORT : Z := 443.

(** [strtoul(s, 0, 10)]. *)
Definition strtoul10 (s : bytes) : Z :=
  let '(neg, s1) := scan_sign (drop_while isspace s) in
  match scan_digits 10 None s1 with
  | None => 0
  | Some v => if ULONG_MAX <? v then ULONG_MAX else if neg then u64 (- v) else v
  end.

(** The port after [-p]. *)
Definition parse_port (s : bytes) : Z :=
  let port := u16 (strtoul10 s) in if port =? 0 then DEFAULT_PORT else port.

(** The variables of [main]; an IP address is of some type. *)
Record piond_config (address : Type) := mk_piond_config {
  cfg_address : address;
  cfg_port : Z;
  service_config_file : bytes;
  resource_name : bytes;
  service_name : bytes;
  ssl_pem_file : bytes;
  ssl_flag : bool;
  verbose_flag : bool;
  service_options : list (bytes * bytes)
}.
Arguments mk_piond_config {address}.
Arguments cfg_address {address}.
Arguments cfg_port {address}.
Arguments service_config_file {address}.
Arguments resource_name {address}.
Arguments service_name {address}.
Arguments ssl_pem_file {address}.
Arguments ssl_flag {address}.
Arguments verbose_flag {address}.
Arguments service_options {address}.

Section Config.
Context {address : Type}.


Definition with_port p (c : piond_config address) : piond_config address :=
  mk_piond_config (cfg_address c) p (service_config_file c) (resource_name c)
  (service_name c) (ssl_pem_file c) (ssl_flag c) (verbose_flag c) (service_options c).
Definition with_address a (c : piond_config address) : piond_config address :=
  mk_piond_config a (cfg_port c) (service_config_file c) (resource_name c)
  (service_name c) (ssl_pem_file c) (ssl_flag c) (verbose_flag c) (service_options c).
Definition with_config_file f (c : piond_config address) : piond_config address :=
  mk_piond_config (cfg_address c) (cfg_port c) f (resource_name c)
  (service_name c) (ssl_pem_file c) (ssl_flag c) (verbose_flag c) (service_options c).
Definition with_resource r (c : piond_config address) : piond_config address :=
  mk_piond_config (cfg_address c) (cfg_port c) (service_config_file c) r
  (service_name c) (ssl_pem_file c) (ssl_flag c) (verbose_flag c) (service_options c).
Definition with_service n (c : piond_config address) : piond_config address :=
  mk_piond_config (cfg_address c) (cfg_port c) (service_config_file c) (resource_name c)
  n (ssl_pem_file c) (ssl_flag c) (verbose_flag c) (service_options c).
Definition with_ssl f (c : piond_config address) : piond_config address :=
  mk_piond_config (cfg_address c) DEFAULT_SSL_PORT (service_config_file c) (resource_name c)
  (service_name c) f true (verbose_flag c) (service_options c).
Definition with_verbose (c : piond_config address) : piond_config address :=
  mk_piond_config (cfg_address c) (cfg_port c) (service_config_file c) (resource_name c)
  (service_name c) (ssl_pem_file c) (ssl_flag c) true (service_options c).
Definition with_option o (c : piond_config address) : piond_config address :=
  mk_piond_config (cfg_address c) (cfg_port c) (service_config_file c) (resource_name c)
  (service_name c) (ssl_pem_file c) (ssl_flag c) (verbose_flag c) (service_options c ++ [o]).
End Config.

(** How [main] goes on: with an error message about the arguments, or up to the point where
    it waits for the shutdown, or out of the [try] block. *)
Inductive piond_end (address : Type) :=
| piond_usage
| piond_serves (c : piond_config address)
| piond_failed.
Arguments piond_usage {address}.
Arguments piond_serves {address}.
Arguments piond_failed {address}.

Section Main.
Context `{OS} `{Host} `{cfg : UserConfig}.
Context {address : Type} (any_address : address) (from_string : bytes -> option address).
Context (PION_PLUGINS_DIRECTORY : bytes) (can_bind : address -> Z -> bool) (key_file_ok : bytes -> bool).

Definition add_directory (dir : bytes) : comp plugin_server unit :=
  lift_manager (lift (add_plugin_directory dir)).

Definition throw {A} : comp plugin_server A := fun s => Thrown s.

(** [try] with a handler that returns. *)
Definition try_or {A} (f : comp plugin_server A) (a : A) : comp plugin_server A := fun s =>
  match f s with Thrown s' => Done a s' | r => r end.

Definition default_config : piond_config address :=
  mk_piond_config any_address DEFAULT_PORT [] [] [] [] false false [].

(** The loop over the arguments; [None] when [main] returns 1.  An exception of [from_string]
    is not caught. *)
Fixpoint parse_args (args : list bytes) (c : piond_config address)
  : comp plugin_server (option (piond_config address)) :=
  match args with
  | [] => mret (Some c)
  | arg :: rest =>
      if bool_decide (head arg = Some "-"%byte) then
        if bytes_eqb arg (str "-v") then parse_args rest (with_verbose c)
        else match rest with
             | [] => mret None
             | value :: rest' =>
                 if bytes_eqb arg (str "-p") then parse_args rest' (with_port (parse_port value) c)
                 else if bytes_eqb arg (str "-i") then
                   match from_string value with
                   | None => throw
                   | Some a => parse_args rest' (with_address a c)
                   end
                 else if bytes_eqb arg (str "-c") then parse_args rest' (with_config_file value c)
                 else if bytes_eqb arg (str "-d") then
                   ok ← try_or (add_directory value;; mret true) false;
                   if ok : bool then parse_args rest' c else mret None
                 else if bytes_eqb arg (str "-o") then
                   match find_char "="%byte value with
                   | None => mret None
                   | Some pos => parse_args rest' (with_option (take pos value, drop (pos + 1) value) c)
                   end
                 else if bytes_eqb arg (str "-ssl") then parse_args rest' (with_ssl value c)
                 else mret None
             end
      else match rest with
           | [_] => parse_args rest (with_resource arg c)
           | [] => parse_args rest (with_service arg c)
           | _ => mret None
           end
  end.

(** [start] of the server. *)
Definition start_server (c : piond_config address) : comp plugin_server unit :=
  if can_bind (cfg_address c) (cfg_port c) then start_services
  else before_starting;; throw.

Fixpoint set_options (resource : bytes) (options : list (bytes * bytes)) : comp plugin_server unit :=
  match options with
  | [] => mret tt
  | (name, value) :: options' => set_service_option resource name value;; set_options resource options'
  end.

(** [set_ssl_key_file], which throws when the file has no key; without SSL support the flag is
    only reported. *)
Definition set_ssl (c : piond_config address) : comp plugin_server unit :=
  if ssl_flag c && have_ssl && negb (key_file_ok (ssl_pem_file c)) then throw else mret tt.

(** The services of the program. *)
Definition load_services (now : Z) (c : piond_config address) : comp plugin_server unit :=
  if bool_decide (service_config_file c = []) then
    load_service (resource_name c) (service_name c);; set_options (resource_name c) (service_options c)
  else load_service_config now (service_config_file c).

(** The [try] block, up to [wait_for_shutdown]. *)
Definition serve (now : Z) (argv0 : bytes) (c : piond_config address) : comp plugin_server unit :=
  caught (add_directory PION_PLUGINS_DIRECTORY);;
  caught (add_directory (parent_path argv0));;
  set_ssl c;;
  load_services now c;;
  start_server c.

Definition has_services (c : piond_config address) : bool :=
  negb (bool_decide (service_config_file c = [])
        && (bool_decide (resource_name c = []) || bool_decide (service_name c = []))).

Definition piond_main (now : Z) (argv0 : bytes) (args : list bytes) : comp plugin_server (piond_end address) :=
  c ← parse_args args default_config;
  match c with
  | None => mret piond_usage
  | Some c =>
      if has_services c then try_or (serve now argv0 c;; mret (piond_serves c)) piond_failed
      else mret piond_usage
  end.

(** ** The command line *)

(** Options of a command line, with what they mean. *)
Inductive piond_arg :=
| arg_port (port : Z)
| arg_address (text : bytes) (a : address)
| arg_config (file : bytes)
| arg_directory (dir : bytes)
| arg_option (name value : bytes)
| arg_ssl (file : bytes)
| arg_verbose.

Definition print_arg (arg : piond_arg) : list bytes :=
  match arg with
  | arg_port port => [str "-p"; to_string port]
  | arg_address text _ => [str "-i"; text]
  | arg_config file => [str "-c"; file]
  | arg_directory dir => [str "-d"; dir]
  | arg_option name value => [str "-o"; name ++ "="%byte :: value]
  | arg_ssl file => [str "-ssl"; file]
  | arg_verbose => [str "-v"]
  end.

Definition apply_arg (c : piond_config address) (arg : piond_arg) : piond_config address :=
  match arg with
  | arg_port port => with_port port c
  | arg_address _ a => with_address a c
  | arg_config file => with_config_file file c
  | arg_directory _ => c
  | arg_option name value => with_option (name, value) c
  | arg_ssl file => with_ssl file c
  | arg_verbose => with_verbose c
  end.

Definition arg_directories (args : list piond_arg) : list bytes :=
  args ≫= fun arg => match arg with arg_directory dir => [dir] | _ => [] end.

(** The server with more directories to look for plug-ins. *)
Definition add_directories (dirs : list bytes) (s : plugin_server) : plugin_server :=
  let m := m_services s in
  with_services (with_pm_plugins (with_dirs (m_plugin_dirs (pm_plugins m) ++ dirs) (pm_plugins m)) m) s.

Definition arg_fits (s : plugin_server) (arg : piond_arg) : Prop :=
  match arg with
  | arg_port port => 0 < port < 2 ^ 16
  | arg_address text a => from_string text = Some a
  | arg_directory dir => is_Some (exists_file (os_calls (pm_plugins (m_services s))) dir)
  | arg_option name _ => "="%byte ∉ name
  | _ => True
  end.

Definition plain_arg (s : bytes) : Prop := head s <> Some "-"%byte.

Lemma parse_port_printed port : 0 < port < 2 ^ 16 -> parse_port (to_string port) = port.
Proof.
  intros Hp. unfold parse_port, strtoul10, to_string.
  destruct (scan_printed 10 ltac:(lia) 20 port) as [-> ->]; [lia..|].
  rewrite (proj2 (Z.ltb_ge ULONG_MAX _)) by (unfold ULONG_MAX; lia). cbv zeta.
  unfold u16. rewrite Z.mod_small by lia. by rewrite (proj2 (Z.eqb_neq _ _)) by lia.
Qed.

Lemma add_directories_nil s : add_directories [] s = s.
Proof. unfold add_directories. rewrite app_nil_r. by destruct s as [? [[] ] ? ?]. Qed.

Lemma add_directories_app ds es s : add_directories es (add_directories ds s) = add_directories (ds ++ es) s.
Proof. unfold add_directories. cbn. by rewrite <- app_assoc. Qed.

Lemma add_directory_run dir s :
  m_plugin_mutex (pm_plugins (m_services s)) = false ->
  is_Some (exists_file (os_calls (pm_plugins (m_services s))) dir) ->
  add_directory dir s = Done tt (add_directories [dir] s).
Proof.
  intros Hm [b Hb]. unfold add_directory, lift_manager, lift, add_plugin_directory. rewrite Hb.
  unfold with_lock. rewrite Hm. destruct s as [? [[] ] ? ?]. cbn in *. by subst.
Qed.

(** The mutex and the answers of the file system stay as they are. *)
Definition ready (s : plugin_server) (args : list piond_arg) : Prop :=
  m_plugin_mutex (pm_plugins (m_services s)) = false /\ Forall (arg_fits s) args.

Lemma parse_args_arg arg args rest c s :
  ready s (arg :: args) ->
  parse_args (print_arg arg ++ rest) c s
  = parse_args rest (apply_arg c arg) (add_directories (arg_directories [arg]) s)
  /\ ready (add_directories (arg_directories [arg]) s) args.
Proof.
  intros [Hm Hfit]. apply Forall_cons in Hfit as [Ha Hfit]. split; [|done].
  destruct arg as [port|text a|file|dir|name value|file|]; cbn in Ha;
    cbn [print_arg app arg_directories mbind list_bind apply_arg]; rewrite ?add_directories_nil;
    cbn [parse_args]; try reflexivity.
  - by rewrite parse_port_printed.
  - by rewrite Ha.
  - match goal with |- _ = ?r => change
      ((ok ← try_or (add_directory dir;; mret true) false; if ok : bool then parse_args rest c else mret None) s = r) end.
    unfold mbind, comp_bind, try_or. by rewrite add_directory_run by done.
  - rewrite find_char_app by done. rewrite take_app_length.
    rewrite <- drop_drop, drop_app_length. reflexivity.
Qed.

Lemma parse_args_printed args : forall rest c s, ready s args ->
  parse_args ((args ≫= print_arg) ++ rest) c s
  = parse_args rest (foldl apply_arg c args) (add_directories (arg_directories args) s).
Proof.
  induction args as [|arg args IH]; intros rest c s Hs; [by rewrite add_directories_nil|].
  cbn [mbind list_bind]. rewrite <- app_assoc. destruct (parse_args_arg arg args ((args ≫= print_arg) ++ rest) c s Hs) as [-> H1].
  rewrite IH by done. rewrite add_directories_app. cbn [foldl arg_directories mbind list_bind]. by rewrite app_nil_r.
Qed.

(** A command line is read as what it says.  Options in any order and number, whose ports
    are ports, whose addresses are accepted, whose directories exist and whose option names have
    no equals sign, are all carried out in order, the later ones over the earlier ones; the two
    arguments behind them, when there are any, are the resource and the service. *)
Theorem command_line_parsed args resource service c s (Hs : ready s args)
  (Hresource : plain_arg resource) (Hservice : plain_arg service) :
  let c' := foldl apply_arg c args in
  let s' := add_directories (arg_directories args) s in
  parse_args (args ≫= print_arg) c s = Done (Some c') s'
  /\ parse_args ((args ≫= print_arg) ++ [resource; service]) c s
     = Done (Some (with_service service (with_resource resource c'))) s'.
Proof.
  intros c' s'. split.
  - rewrite <- (app_nil_r (args ≫= print_arg)). by rewrite parse_args_printed.
  - rewrite parse_args_printed by done. unfold plain_arg in *. cbn [parse_args].
    by rewrite !bool_decide_false by done.
Qed.

(** ** One service *)

(** A server to which nothing was added. *)
Definition fresh (s : plugin_server) : Prop :=
  ps_server s = new_http_server /\ pm_map (m_services s) = [] /\ ps_listening s = false /\ ps_calls s = [].

Lemma add_directory_fresh dir : keeps fresh (add_directory dir).
Proof.
  intros s Hs. unfold add_directory, lift_manager, lift, add_plugin_directory.
  destruct (exists_file _ _); [|done]. unfold with_lock. by destruct (m_plugin_mutex _).
Qed.

Lemma caught_keeps {A} (P : A -> Prop) (f : comp A unit) : keeps P f -> keeps P (caught f).
Proof. intros Hf s Hs. specialize (Hf s Hs). unfold caught. by destruct (f s). Qed.

Lemma try_or_keeps {A} (P : plugin_server -> Prop) (f : comp plugin_server A) a : keeps P f -> keeps P (try_or f a).
Proof. intros Hf s Hs. specialize (Hf s Hs). unfold try_or. by destruct (f s). Qed.

Lemma parse_args_fresh n : forall args c, (length args <= n)%nat -> keeps fresh (parse_args args c).
Proof.
  induction n as [|n IH]; intros [|arg args] c Hn; cbn in Hn; try lia; try by intros s Hs.
  cbn [parse_args]. destruct (bool_decide _).
  - destruct (bytes_eqb arg _); [apply IH; lia|]. destruct args as [|value args]; [by intros s Hs|]. cbn in Hn.
    repeat (case_match; try (apply IH; lia); try by intros s Hs).
    apply keeps_bind.
    + apply try_or_keeps, keeps_bind; [apply add_directory_fresh|]. by intros [] s Hs.
    + intros []; [apply IH; lia|]. by intros s Hs.
  - destruct args as [|a [|b args]]; try (apply IH; cbn in *; lia). by intros s Hs.
Qed.

(** The server with one service, the calls it got, and whether it listens. *)
Definition has_service (r : bytes) (i : inst) (calls : list service_call) (listening : bool) (s : plugin_server) : Prop :=
  (exists p, pm_map (m_services s) = [(r, (i, p))])
  /\ ps_server s = add_resource r (service_handler i) new_http_server
  /\ ps_calls s = calls /\ ps_listening s = listening.

Lemma load_service_fresh resource name s : fresh s ->
  match load_service resource name s with
  | Done _ s' => exists i, has_service (strip_trailing_slash resource) i
                             [call_set_resource i (strip_trailing_slash resource)] false s'
  | _ => True
  end.
Proof.
  intros (Hh & Hm & Hl & Hc). unfold load_service, lift_manager, mbind, comp_bind.
  pose proof (manager_load_map (strip_trailing_slash resource) name (m_services s)) as Hld. unfold may in Hld.
  destruct (manager_load _ name (m_services s)) as [i m|m| |]; try done. destruct Hld as [p Hp].
  exists i. unfold has_service. cbn. rewrite Hh, Hl, Hc, Hp, Hm. split_and!; try done. by exists p.
Qed.

(** The options that do not throw reach the service in order. *)
Lemma set_options_run resource options : forall i calls s,
  has_service (strip_trailing_slash resource) i calls false s ->
  match set_options resource options s with
  | Done _ s' => has_service (strip_trailing_slash resource) i
                   (calls ++ ((fun o => call_set_option i (fst o) (snd o)) <$> options)) false s'
  | _ => True
  end.
Proof.
  induction options as [|[name value] options IH]; intros i calls s Hs; cbn [set_options].
  - cbn. by rewrite app_nil_r.
  - unfold mbind, comp_bind. destruct Hs as ((p & Hp) & Hh & Hc & Hl).
    unfold set_service_option, manager_run_one, manager_get. rewrite Hp. cbn [map_find].
    rewrite decide_True by done. cbn. destruct (option_throws _ _ _ _); [done|].
    specialize (IH i (calls ++ [call_set_option i name value]) (with_calls [call_set_option i name value] s)).
    rewrite <- app_assoc in IH. apply IH. unfold has_service. cbn. rewrite Hc. split_and!; try done. by exists p.
Qed.

Lemma find_resource_one {V} (r : bytes) (v : V) requested :
  (under r requested -> find_resource requested [(r, v)] = Some (r, v))
  /\ (~ under r requested -> find_resource requested [(r, v)] = None).
Proof.
  pose proof (find_resource_longest requested [(r, v)] ltac:(by repeat constructor)) as Hf.
  assert (forall k w, map_find k [(r, v)] = Some w -> k = r /\ w = v) as Hone.
  { intros k w. cbn. destruct (decide (r = k)); [|done]. by intros [= ->]. }
  destruct (find_resource requested [(r, v)]) as [[k w]|].
  - destruct Hf as (Hk & Hu & _). apply Hone in Hk as [-> ->]. by split.
  - split; [|done]. intros Hu. destruct (Hf r v); [|done]. cbn. by rewrite decide_True.
Qed.

(** The server listens with the service, which was configured before it was started. *)
Definition serves_one (c : piond_config address) (s : plugin_server) : Prop :=
  let resource := strip_trailing_slash (resource_name c) in
  exists i, has_service resource i
    (call_set_resource i resource
     :: ((fun o => call_set_option i (fst o) (snd o)) <$> service_options c) ++ [call_start i]) true s.

Lemma serve_one_service now argv0 c s : fresh s -> service_config_file c = [] ->
  match serve now argv0 c s with Done _ s' => serves_one c s' /\ can_bind (cfg_address c) (cfg_port c) = true | _ => True end.
Proof.
  intros Hs Hfile. unfold serve, mbind, comp_bind.
  pose proof (caught_keeps fresh _ (add_directory_fresh PION_PLUGINS_DIRECTORY) s Hs) as H1.
  destruct (caught _ s) as [[] s1|s1| |]; try done.
  pose proof (caught_keeps fresh _ (add_directory_fresh (parent_path argv0)) s1 H1) as H2.
  destruct (caught _ s1) as [[] s2|s2| |]; try done.
  unfold set_ssl. destruct (ssl_flag c && have_ssl && _); [done|].
  unfold load_services. rewrite bool_decide_true by done. unfold mbind, comp_bind, mret, comp_ret.
  pose proof (load_service_fresh (resource_name c) (service_name c) s2 H2) as H3.
  destruct (load_service _ _ s2) as [[] s3|s3| |]; try done. destruct H3 as [i H3].
  pose proof (set_options_run (resource_name c) (service_options c) i _ s3 H3) as H4.
  destruct (set_options _ _ s3) as [[] s4|s4| |]; try done. destruct H4 as ((p & Hp) & Hh & Hc & Hl).
  unfold start_server. destruct (can_bind _ _); [|done].
  unfold start_services, before_starting, gets, modify, mbind, comp_bind. rewrite Hl. split; [|done]. exists i.
  unfold has_service, manager_run. cbn. rewrite Hp, Hc. cbn. by split_and!; [exists p|..].
Qed.

(** C21: a program that was started with a resource and a service serves it.  When [piond]
    comes to wait for its shutdown without a configuration file, it listens on an address that
    could be bound, its only service was given its resource first, then the options of the
    command line in their order, and was then started; and exactly the requests at or below the
    resource find the handler of this service.  The service is given the resource without a
    slash at its end; the server takes off another one, if there are two, and compares the
    requests with what is left. *)
Theorem piond_serves_service now argv0 args c s
  (Hrun : piond_main now argv0 args new_plugin_server = Done (piond_serves c) s)
  (Hfile : service_config_file c = []) :
  can_bind (cfg_address c) (cfg_port c) = true
  /\ exists i, has_service (strip_trailing_slash (resource_name c)) i
       (call_set_resource i (strip_trailing_slash (resource_name c))
        :: ((fun o => call_set_option i (fst o) (snd o)) <$> service_options c) ++ [call_start i]) true s
  /\ let routed := strip_trailing_slash (strip_trailing_slash (resource_name c)) in
     forall requested,
       (under routed requested -> find_request_handler requested (ps_server s) = Some (routed, service_handler i))
       /\ (~ under routed requested -> find_request_handler requested (ps_server s) = None).
Proof.
  unfold piond_main, mbind, comp_bind in Hrun.
  pose proof (parse_args_fresh _ args default_config (le_n _) new_plugin_server ltac:(done)) as H1.
  destruct (parse_args args default_config new_plugin_server) as [[c1|] s1|s1| |]; try done.
  destruct (has_services c1); [|done]. unfold try_or, mbind, comp_bind in Hrun.
  pose proof (serve_one_service now argv0 c1 s1 H1) as H2.
  destruct (serve now argv0 c1 s1) as [[] s2|s2| |]; try done. injection Hrun as -> ->.
  destruct (H2 Hfile) as [[i Hi] Hb]. split; [done|]. exists i. split; [done|]. intros routed requested.
  destruct Hi as (_ & -> & _). unfold find_request_handler, add_resource. cbn [m_resources with_resources new_http_server].
  apply find_resource_one.
Qed.
End Main.

(** ** Examples and deviations *)

#[local] Existing Instance padding_config.
#[local] Existing Instance sample_os.
#[local] Existing Instance sample_host.

(** Addresses are their text; every address and port can be bound but port 1. *)
Definition sample_address (s : bytes) : option bytes :=
  if bool_decide (s = []) || bytes_eqb s (str "bad") then None else Some s.
Definition sample_bind (_ : bytes) (port : Z) : bool := negb (port =? 1).

Abbreviation sample_main args :=
  (piond_main (str "0.0.0.0") sample_address (str "/usr/lib/pion") sample_bind (fun _ => true) 0 (str "/usr/bin/piond") args new_plugin_server).

Definition sample_args : list (piond_arg (address := bytes)) :=
  [arg_port 8081; arg_address (str "::1") (str "::1"); arg_option (str "mode") (str "a=b"); arg_verbose].

Lemma command_line_parsed_witness :
  parse_args sample_address ((sample_args ≫= print_arg) ++ [str "/a/"; str "good"]) (default_config (str "0.0.0.0"))
    new_plugin_server
  = Done (Some (mk_piond_config (str "::1") 8081 [] (str "/a/") (str "good") [] false true [(str "mode", str "a=b")]))
      new_plugin_server.
Proof.
  destruct (command_line_parsed sample_address sample_args (str "/a/") (str "good") (default_config (str "0.0.0.0"))
              new_plugin_server) as [_ H]; [|discriminate..|].
  - split; [reflexivity|]. repeat constructor. vm_compute.
    intros H. repeat (apply elem_of_cons in H as [H|H]; [discriminate|]). by apply elem_of_nil in H.
  - exact H.
Defined.

(** The program with a service and an option. *)
Definition one_service : list bytes := [str "-o"; str "mode=x"; str "/a/"; str "good"].

Lemma one_service_runs :
  exists c s, sample_main one_service = Done (piond_serves c) s
    /\ (service_config_file c, resource_name c, service_options c) = ([], str "/a/", [(str "mode", str "x")]).
Proof.
  assert (match sample_main one_service with
          | Done (piond_serves c) _ =>
              bool_decide ((service_config_file c, resource_name c, service_options c) = ([], str "/a/", [(str "mode", str "x")]))
          | _ => false end = true) as H by (vm_compute; reflexivity).
  destruct (sample_main one_service) as [[|c|] s|s| |]; try discriminate H. exists c, s. split; [reflexivity|].
  by apply bool_decide_eq_true in H.
Qed.

Lemma piond_serves_service_witness :
  exists c s i, sample_main one_service = Done (piond_serves c) s
    /\ find_request_handler (str "/a/page") (ps_server s) = Some (str "/a", service_handler i)
    /\ ps_calls s = [call_set_resource i (str "/a"); call_set_option i (str "mode") (str "x"); call_start i].
Proof.
  destruct one_service_runs as (c & s & E & Ec). injection Ec as E1 E2 E3. exists c, s.
  destruct (piond_serves_service (str "0.0.0.0") sample_address (str "/usr/lib/pion") sample_bind (fun _ => true) 0 (str "/usr/bin/piond")
              one_service c s E E1) as (_ & i & (_ & _ & Hc & _) & Hf).
  rewrite E2, E3 in Hc. rewrite E2 in Hf. exists i. split; [exact E|]. split; [|exact Hc]. apply Hf. right. by exists (str "page").
Defined.

(** [-ssl] sets the port, also one that was given before. *)
Lemma ssl_overwrites_port :
  match parse_args sample_address [str "-p"; str "8443"; str "-ssl"; str "key.pem"] (default_config (str "0.0.0.0"))
          new_plugin_server with Done (Some c) _ => cfg_port c = 443 | _ => False end.
Proof. vm_compute. reflexivity. Qed.

(** Ports are taken modulo 2^16, and what is no number is the default port. *)
Lemma port_wraps : parse_port (str "65616") = 80 /\ parse_port (str "http") = 8080.
Proof. split; vm_compute; reflexivity. Qed.

(** An address that is not one ends the program with an exception. *)
Lemma bad_address_uncaught : sample_main [str "-i"; str "bad"; str "/a"; str "good"] = Thrown new_plugin_server.
Proof. reflexivity. Qed.

(** The options of the command line reach no service of a configuration file. *)
Lemma options_ignored_with_config :
  match sample_main [str "-o"; str "mode=z"; str "-c"; str "site"] with
  | Done (piond_serves c) s =>
      service_options c = [(str "mode", str "z")]
      /\ ps_calls s = [call_set_resource 0 (str "/a"); call_set_option 0 (str "mode") (str "x y"); call_start 0]
  | _ => False
  end.
Proof. vm_compute. split; reflexivity. Qed.

(** A program that cannot serve reports no failure: its status is 0, like after a shutdown. *)
Definition exit_status {address} (e : piond_end address) : Z := match e with piond_usage => 1 | _ => 0 end.

Lemma failure_exits_with_success :
  match sample_main [str "-p"; str "1"; str "/a"; str "good"] with Done e _ => e = piond_failed /\ exit_status e = 0 | _ => False end.
Proof. vm_compute. done. Qed.
